(* ===== verification/_CoqProject ===== *)
-Q . S2P
Prelude.v
GoStrings.v
Float64.v
Json.v
JsonFacts.v
JsonCodec.v
JsonTotal.v
State.v
SimWorld.v
HttpUtils.v
K8s.v
Nodes.v
NodesFacts.v
Data.v
Creds.v
CredsFacts.v
Inventory.v
OpMain.v
OpMainFacts.v
Zombies.v
Sls.v
Handlers.v
HandlersFacts.v
Responses.v
Separation.v
System.v
SystemInventory.v
Threads.v
Interleave.v
InStep.v
