(* ===== verification/Prelude.v ===== *)
(** * Verification of the console operator

    The console operator (src/src/console_op, Go) keeps the consoles of the
    nodes of a system watched.  It reads the nodes from the hardware state
    manager (HSM), hands them to the console-data service, decides how many
    console-node pods there should be and how many consoles each takes, and
    deploys the ssh keys that the consoles of Mountain nodes need.

    ** The parts of the program, and where they are modelled

    - consoleOpMain.go: [OpMain.v] ([updateCachedNodeData], [doHardwareUpdate],
      [watchHardware_turn], [readSingleEnvVarInt], [main_config], [main_init]),
      theorems in [OpMainFacts.v];
    - nodes.go: [Nodes.v] ([getCurrentNodesFromHSM], [updateNodeCounts], the
      [NodeService] interface), theorems in [NodesFacts.v]; its float64
      arithmetic in [Float64.v];
    - data.go: [Data.v] (the requests to console-data, [DataService]) and
      [Handlers.v] (the query handlers); the abstract inventory console-data
      holds, and what it promises, in [Inventory.v];
    - creds.go: [Creds.v] (Vault, key generation, SCSD, the key worker as a
      transition system), theorems in [CredsFacts.v];
    - k8s.go: [K8s.v] ([K8Service], [K8Manager], the file of targets per pod);
    - sls.go: [Sls.v]; zombies.go: [Zombies.v]; httpUtils.go: [HttpUtils.v];
    - health.go, debug.go, router.go: [Handlers.v], theorems in
      [HandlersFacts.v] and [Responses.v];
    - the goroutines together: [Threads.v] writes the turn of the main loop and
      the handlers as threads, one access to a variable, one operation of another
      part or one send on the channel at a time; [Interleave.v] runs them
      against each other, with the key worker, the heartbeats, the zombies and
      the stages of the shutdown; [System.v] has the invariant of the variables,
      [SystemInventory.v] the turns of the main loop on their own, and
      [InStep.v] the inventory over interleaved runs.

    What the code uses of Go is modelled in [GoStrings.v] (strings, strconv,
    UTF-8), [Float64.v] (math), [Json.v], [JsonFacts.v] and [JsonCodec.v]
    (encoding/json: the encoder, a parser, decoding into structs); in
    [JsonTotal.v], that the parser's counters never run out and that decoded
    text is UTF-8 whatever bytes come in.

    ** State, effects and the world

    [State.v] holds the record [Globals] of the package variables and the class
    [World] of everything outside the process: HTTP services, the Kubernetes API,
    the file system's failures, programs run, the clock, the order in which a
    map is ranged over.  A function of the program with effects is a [Prog]: a
    state transformer on globals, files, world and trace of requests that
    returns or panics (the monad of this file, [wp] its weakest precondition).
    Theorems quantify over every [World]; where they need a service to behave,
    they say so with a class that states its documented behaviour
    ([K8sStore], [ConsoleData], [VaultStore]) and [SimWorld.v] has instances
    in which the witnesses run the program.  Interfaces of the program are
    records of operations, and the laws a client relies on are classes
    ([K8Laws], [InventoryClient], [NodeSource]) proved of the implementation.
    [Separation.v] shows which operations leave the inventory and the cache
    alone, given that the services are separate ([Separate]).
    Integers are [Z] with the wrap-around of [int64] and [int32] written out
    where the code computes; errors are values; panics keep the state reached.

    ** What is proved

    - the cache and console-data: the exact requests of an update; that the
      inventory and the cache stay in step over one turn ([inventory_in_step])
      and over all interleaved runs in which no clear of all data overlaps a
      turn or another clear ([calm_runs_in_step]); that without this condition
      they need not ([clear_race]) and how long the damage lasts ([gap_lasts]);
      when full updates are forced; that any damage to console-data is repaired
      within eleven turns in a cluster where nothing panics ([recovers]); and
      what falls outside ([hsm_outage_wipes_inventory], [orphan_stays]);
    - sizing: the floating-point formulas are exact, the pods suffice with one
      to spare, the targets cover all nodes and when they respect the maximum;
      the effect of [updateNodeCounts] with the API up and down; the inverted
      padding;
    - the nodes found in HSM, that their text survives the trip to console-data
      ([hsm_nodes_survive]), and the component ID that crashes the operator;
    - keys: one batch exactly, no node is lost by the worker in any run, it
      drains when SCSD works, keys are never replaced, Vault is asked first and
      its key installed unchanged ([vault_key_installed]), Vault's key is stable;
    - the file of targets and its failures, among them that a write that fails
      is not retried ([failed_write_not_retried]); the replica count is truthful
      even when a failed update completes on the server;
    - the API: guards agree with the router, the form of every answer
      ([responses_wellformed]), the answers read back, the only effects a request
      can have, the tally of the info endpoint, suspend, resume and clear with
      the main loop;
    - the whole, with goroutines interleaved at every access: an invariant of
      every reachable state ([interleaved_invariant]), and the shutdown, which
      stops the updates ([shutdown_quiet]) unless a resume gets in before the
      listeners close ([resume_in_shutdown]).  [turn_alone] and [routes_alone]
      tie the threads to the sequential definitions.

    The theorems about the turns of the loop are about the program's own
    services, [NewNodeManager] with the Kubernetes manager and [DataManager_service].
    Where one says that a turn returns it names what could make it panic: a
    malformed node ID in HSM ([hsm_sane]), a StatefulSet without a replica count
    or an unusable volume ([cluster_calm]).

    ** Bounds

    No definition runs on fuel that can run out on an input of the program: the
    JSON parser recurses on the nesting depth, for which Go has the limit 10000,
    and counts elements against the length of the text, which is enough
    ([parse_counter_suffices]).  Counts of nodes are
    taken below 2^52 where the float64 formulas are used, and below 2^62 or 2^63
    where an [int] counts map entries.  The loops of the goroutines are modelled
    by their turns.

    ** What is not modelled

    Logging, except in [printK8sInfo], whose only effect it is; sleeps and
    timeouts; the connections of the HTTP server, beyond that it accepts requests
    until its listeners close and waits for those in flight; the memory model of
    Go (accesses of goroutines interleave, and each is atomic); the calls to
    Kubernetes, the writing of the target file, the keys and a batch of the key
    worker are one step each of the goroutine that makes them, since no other
    goroutine writes the variables they use; third-party code (client-go, chi,
    gjson), which is in the parameters of [World]; charts and images.

    ** Plan

    To extend next: the recovery from a race over runs of [Interleave.v], and
    the consistency of the published targets with the pods over whole runs. *)

From stdpp Require Export base tactics option list gmap sets fin_maps strings pretty.
From Stdlib Require Export ssreflect ZArith Lia ZifyBool.

#[global] Open Scope general_if_scope.
#[global] Open Scope Z_scope.

(** ** The effect monad

    A Go function that reads or writes the process's variables, or calls out
    of the process, is a state transformer.  It either returns, or panics: a
    panic keeps the state reached so far, because the globals, the files and
    the remote services keep whatever the code did before it. *)

Inductive outcome (S A : Type) : Type :=
| Ret (a : A) (s : S)
| Panic (msg : string) (s : S).
Arguments Ret {S A} a s.
Arguments Panic {S A} msg s.

Definition M (S A : Type) : Type := S -> outcome S A.

Definition ret {S A} (a : A) : M S A := fun s => Ret a s.
Definition panic {S A} (msg : string) : M S A := fun s => Panic msg s.
Definition bind {S A B} (m : M S A) (k : A -> M S B) : M S B :=
  fun s => match m s with
           | Ret a s' => k a s'
           | Panic e s' => Panic e s'
           end.
Definition get {S} : M S S := fun s => Ret s s.
Definition gets {S A} (f : S -> A) : M S A := fun s => Ret (f s) s.
Definition modify {S} (f : S -> S) : M S unit := fun s => Ret tt (f s).

Declare Scope go_scope.
Delimit Scope go_scope with go.
Bind Scope go_scope with M.

Notation "'let!' x ':=' c 'in' k" := (bind c (fun x => k))
  (at level 10, x pattern, c at level 100, k at level 200) : go_scope.
Notation "c ';;;' k" := (bind c (fun _ => k))
  (at level 199, right associativity) : go_scope.
#[global] Open Scope go_scope.

(** [for _, x := range l { acc = f(acc, x) }] *)
Fixpoint foldM {S A B} (f : B -> A -> M S B) (acc : B) (l : list A) : M S B :=
  match l with
  | [] => ret acc
  | x :: l' => let! acc' := f acc x in foldM f acc' l'
  end.

(** A loop that runs its body for effect only. *)
Definition forM_ {S A} (l : list A) (f : A -> M S unit) : M S unit :=
  foldM (fun _ x => f x) tt l.

(** ** Weakest preconditions

    [wp m Q E s]: run from [s], [m] returns in a state satisfying [Q], or
    panics in one satisfying [E].  Total: one of the two always happens. *)
Definition wp {S A} (m : M S A) (Q : A -> S -> Prop) (E : string -> S -> Prop) (s : S) : Prop :=
  match m s with
  | Ret a s' => Q a s'
  | Panic e s' => E e s'
  end.

(** The postcondition of a call that must not panic. *)
Definition no_panic {S} : string -> S -> Prop := fun _ _ => False.

Section wp_lemmas.
Context {S : Type}.
Implicit Types (s : S) (E : string -> S -> Prop).

Lemma wp_ret {A} (a : A) (Q : A -> S -> Prop) E s : Q a s -> wp (ret a) Q E s.
Proof. done. Qed.

Lemma wp_panic {A} msg (Q : A -> S -> Prop) E s : E msg s -> wp (panic msg) Q E s.
Proof. done. Qed.

Lemma wp_gets {A} (f : S -> A) (Q : A -> S -> Prop) E s : Q (f s) s -> wp (gets f) Q E s.
Proof. done. Qed.

Lemma wp_get (Q : S -> S -> Prop) E s : Q s s -> wp get Q E s.
Proof. done. Qed.

Lemma wp_modify (f : S -> S) (Q : unit -> S -> Prop) E s : Q tt (f s) -> wp (modify f) Q E s.
Proof. done. Qed.

Lemma wp_bind {A B} (m : M S A) (k : A -> M S B) Q E s :
  wp m (fun a s' => wp (k a) Q E s') E s -> wp (bind m k) Q E s.
Proof. rw /wp /bind. by destruct (m s). Qed.

Lemma wp_mono {A} (m : M S A) (Q Q' : A -> S -> Prop) (E E' : string -> S -> Prop) s :
  wp m Q E s ->
  (forall a s', Q a s' -> Q' a s') -> (forall e s', E e s' -> E' e s') ->
  wp m Q' E' s.
Proof. rw /wp. destruct (m s); auto. Qed.

Lemma wp_and {A} (m : M S A) (Q Q' : A -> S -> Prop) (E E' : string -> S -> Prop) s :
  wp m Q E s -> wp m Q' E' s -> wp m (fun a s' => Q a s' /\ Q' a s') (fun e s' => E e s' /\ E' e s') s.
Proof. rw /wp. by destruct (m s). Qed.

(** The rule of a loop: an invariant over the elements done so far. *)
Lemma wp_foldM {A B} (f : B -> A -> M S B) (I : list A -> B -> S -> Prop) E l acc s :
  I [] acc s ->
  (forall done x b s', I done b s' -> x ∈ l ->
     wp (f b x) (fun b' s'' => I (done ++ [x]) b' s'') E s') ->
  wp (foldM f acc l) (I l) E s.
Proof.
  intros H0 Hstep.
  enough (forall todo done b s', l = done ++ todo -> I done b s' ->
    wp (foldM f b todo) (I l) E s') as H by by apply (H l []).
  induction todo as [|x todo IH]; intros done b s' Hl HI; simpl.
  - rw app_nil_r in Hl. by subst.
  - apply wp_bind. eapply wp_mono; [apply Hstep; [exact HI|set_solver]| |done].
    intros b' s'' HI'. apply IH with (done := done ++ [x]); [|done].
    by rw -app_assoc.
Qed.

(** Reading a result off a [wp]. *)
Lemma wp_run {A} (m : M S A) (Q : A -> S -> Prop) E s :
  wp m Q E s ->
  (exists a s', m s = Ret a s' /\ Q a s') \/ (exists e s', m s = Panic e s' /\ E e s').
Proof. rw /wp. destruct (m s); eauto. Qed.

Lemma wp_by_run {A} (m : M S A) (Q : A -> S -> Prop) E s a s' : m s = Ret a s' -> Q a s' -> wp m Q E s.
Proof. rw /wp. by intros ->. Qed.

Lemma wp_run_ret {A} (m : M S A) (Q : A -> S -> Prop) s :
  wp m Q no_panic s -> exists a s', m s = Ret a s' /\ Q a s'.
Proof. rw /wp /no_panic. destruct (m s); naive_solver. Qed.

Lemma wp_of_run {A} (m : M S A) (Q : A -> S -> Prop) E s a s' :
  wp m Q E s -> m s = Ret a s' -> Q a s'.
Proof. rw /wp. intros H Heq. by rw Heq in H. Qed.

End wp_lemmas.

Create HintDb go_wp.
#[export] Hint Resolve wp_ret wp_panic wp_gets wp_get wp_modify : go_wp.

(** One symbolic step of the code under a [wp]. *)
Ltac wp_step :=
  lazymatch goal with
  | |- wp (bind _ _) _ _ _ => apply wp_bind
  | |- wp (ret _) _ _ _ => apply wp_ret
  | |- wp (panic _) _ _ _ => apply wp_panic
  | |- wp (gets _) _ _ _ => apply wp_gets
  | |- wp get _ _ _ => apply wp_get
  | |- wp (modify _) _ _ _ => apply wp_modify
  | |- wp (match ?x with _ => _ end) _ _ _ => destruct x eqn:?
  end.
Ltac wp_steps := repeat (wp_step; cbn beta iota).

(** ** Fixed-width integers

    Go's [int] has 64 bits on the target; conversions to [int32] truncate. *)
Definition wrap (w : Z) (z : Z) : Z := (z + 2 ^ (w - 1)) mod 2 ^ w - 2 ^ (w - 1).
Definition int64 (z : Z) : Z := wrap 64 z.
Definition int32 (z : Z) : Z := wrap 32 z.

Lemma wrap_id w z : 0 < w -> - 2 ^ (w - 1) <= z < 2 ^ (w - 1) -> wrap w z = z.
Proof.
  intros Hw Hz. rw /wrap.
  assert (2 ^ w = 2 * 2 ^ (w - 1)) as E.
  { replace w with (Z.succ (w - 1)) at 1 by lia. by rw Z.pow_succ_r; [lia|]. }
  rw Z.mod_small; lia.
Qed.

Lemma int64_id z : - 2 ^ 63 <= z < 2 ^ 63 -> int64 z = z.
Proof. intros. by apply wrap_id. Qed.

Lemma int32_id z : - 2 ^ 31 <= z < 2 ^ 31 -> int32 z = z.
Proof. intros. by apply wrap_id. Qed.

Lemma int32_range z : - 2 ^ 31 <= int32 z < 2 ^ 31.
Proof.
  rw /int32 /wrap. pose proof (Z.mod_pos_bound (z + 2 ^ (32 - 1)) (2 ^ 32) ltac:(done)). lia.
Qed.

(** ** Lists built by the code's loops *)

(** [for _, x := range l { if p(x) { acc = append(acc, f(x)) } }] *)
Lemma foldl_append_filter {A B} (p : A -> bool) (f : A -> B) (l : list A) (acc : list B) :
  foldl (fun acc x => if p x then acc ++ [f x] else acc) acc l
  = acc ++ (f <$> filter (fun x => p x = true) l).
Proof.
  revert acc. induction l as [|x l IH]; intros acc; simpl; [by rw app_nil_r|].
  rw IH filter_cons. destruct (p x) eqn:Hp; case_decide; try congruence.
  by rw fmap_cons -app_assoc.
Qed.

(** [for _, x := range l { m[key(x)] = x }]: the last element with a key wins. *)
Definition map_by {A} (key : A -> string) (l : list A) : gmap string A :=
  foldl (fun m x => <[key x := x]> m) ∅ l.

Lemma map_by_snoc {A} (key : A -> string) (l : list A) x :
  map_by key (l ++ [x]) = <[key x := x]> (map_by key l).
Proof. by rw /map_by foldl_app. Qed.

Lemma map_by_lookup_Some {A} (key : A -> string) (l : list A) k x :
  map_by key l !! k = Some x -> x ∈ l /\ key x = k.
Proof.
  induction l as [|y l IH] using rev_ind; [done|].
  rw map_by_snoc lookup_insert. case_decide; set_solver.
Qed.

Lemma map_by_lookup_is_Some {A} (key : A -> string) (l : list A) k :
  is_Some (map_by key l !! k) <-> exists x, x ∈ l /\ key x = k.
Proof.
  split; [intros [x ?%map_by_lookup_Some]; eauto|].
  induction l as [|y l IH] using rev_ind; [set_solver|].
  intros (x & Hx & Hk). rw map_by_snoc lookup_insert. case_decide; [eauto|].
  apply IH. apply elem_of_app in Hx as [?|?%list_elem_of_singleton]; naive_solver.
Qed.

Lemma map_by_lookup_None {A} (key : A -> string) (l : list A) k :
  map_by key l !! k = None <-> forall x, x ∈ l -> key x <> k.
Proof.
  rw eq_None_not_Some map_by_lookup_is_Some. naive_solver.
Qed.

Lemma map_by_size {A} (key : A -> string) (l : list A) : (size (map_by key l) <= length l)%nat.
Proof.
  induction l as [|x l IH] using rev_ind; [done|]. rw map_by_snoc length_app map_size_insert /=.
  destruct (map_by key l !! key x); simpl; lia.
Qed.

(** With distinct keys, looking a key up finds its only element. *)
Lemma map_by_lookup_NoDup {A} (key : A -> string) (l : list A) x :
  NoDup (key <$> l) -> x ∈ l -> map_by key l !! key x = Some x.
Proof.
  intros Hnd Hx. destruct (map_by key l !! key x) as [y|] eqn:Hy.
  - apply map_by_lookup_Some in Hy as [Hy Hk]. f_equal.
    apply list_elem_of_lookup in Hx as [i Hi], Hy as [j Hj].
    assert (i = j) as ->; [|congruence].
    eapply (NoDup_lookup (key <$> l)); rw ?list_lookup_fmap ?Hi ?Hj /=; [done|done|].
    by rw Hk.
  - rw map_by_lookup_None in Hy. naive_solver.
Qed.

#[export] Hint Resolve int64_id int32_id map_by_lookup_NoDup : go_wp.
