(* ===== verification/GoStrings.v ===== *)
(** * The string functions of Go's standard library the program uses

    A Go string is a sequence of bytes, here [String.string] (one [ascii] per
    byte).  This file models [strings.LastIndex] with a one-byte separator, the
    slice expression [s[0:k]], [strconv.Itoa] (as [fmt]'s [%d]), [strconv.Atoi]
    and [utf8.DecodeRune]/[EncodeRune]; [encoding/json] (file Json) and the
    components build on them. *)
From S2P Require Import Prelude.
From Stdlib Require Import Ascii.
#[local] Open Scope string_scope.
#[local] Open Scope Z_scope.
#[local] Open Scope go_scope.

(** ** Bytes *)

Definition byte_val (c : ascii) : Z := Z.of_N (N_of_ascii c).
Definition byte_of (z : Z) : ascii := ascii_of_N (Z.to_N z).

Lemma byte_val_range c : 0 <= byte_val c < 256.
Proof. rw /byte_val. pose proof (N_ascii_bounded c). lia. Qed.

Lemma byte_of_val c : byte_of (byte_val c) = c.
Proof. by rw /byte_of /byte_val N2Z.id ascii_N_embedding. Qed.

Lemma byte_val_of z : 0 <= z < 256 -> byte_val (byte_of z) = z.
Proof. intros. rw /byte_of /byte_val N_ascii_embedding; lia. Qed.

Lemma byte_val_inj c d : byte_val c = byte_val d -> c = d.
Proof. intros H. by rw -(byte_of_val c) -(byte_of_val d) H. Qed.

(** ** Concatenation *)

Lemma str_app_nil_r (s : string) : s +:+ "" = s.
Proof. induction s as [|c s IH]; [done|]. change (String c (s +:+ "") = String c s). by rw IH. Qed.

Lemma str_app_cons c (s t : string) : String c s +:+ t = String c (s +:+ t).
Proof. done. Qed.

Lemma str_app_assoc (s t u : string) : (s +:+ t) +:+ u = s +:+ (t +:+ u).
Proof. induction s as [|c s IH]; [done|]. by rw !str_app_cons IH. Qed.

Lemma str_length_app (s t : string) :
  String.length (s +:+ t) = (String.length s + String.length t)%nat.
Proof. induction s as [|c s IH]; [done|]. by rw str_app_cons /= IH. Qed.

Create Rewrite HintDb go_str.
#[export] Hint Rewrite str_app_nil_r str_app_cons str_app_assoc str_length_app : go_str.

(** Byte [c] occurs in [s]. *)
Fixpoint str_has (c : ascii) (s : string) : bool :=
  match s with
  | "" => false
  | String d s' => Ascii.eqb c d || str_has c s'
  end.

Lemma str_has_cons c d s : str_has c (String d s) = Ascii.eqb c d || str_has c s.
Proof. done. Qed.

Lemma str_has_cons_ne c d s : byte_val c <> byte_val d -> str_has c (String d s) = str_has c s.
Proof. intros Hne. rw str_has_cons. destruct (Ascii.eqb_spec c d) as [->|]; done. Qed.

Lemma str_has_app c s t : str_has c (s +:+ t) = str_has c s || str_has c t.
Proof. induction s as [|d s IH]; [done|]. rw str_app_cons /= IH. by rw orb_assoc. Qed.

(** ** strings.LastIndex and slicing *)

(** [strings.LastIndex(s, string(c))]: the index of the last [c], or -1. *)
Fixpoint lastIndexByte_go (s : string) (c : ascii) (i acc : Z) : Z :=
  match s with
  | "" => acc
  | String d s' => lastIndexByte_go s' c (i + 1) (if Ascii.eqb c d then i else acc)
  end.
Definition lastIndexByte (s : string) (c : ascii) : Z := lastIndexByte_go s c 0 (-1).

(** [s[0:k]]; [None] is the run-time panic of a bound out of range. *)
Definition slice_to (s : string) (k : Z) : option string :=
  if (0 <=? k) && (k <=? Z.of_nat (String.length s))
  then Some (String.substring 0 (Z.to_nat k) s) else None.

Lemma lastIndexByte_go_absent s c i acc :
  str_has c s = false -> lastIndexByte_go s c i acc = acc.
Proof.
  revert i acc. induction s as [|d s IH]; intros i acc; simpl; [done|].
  intros [-> ?]%orb_false_iff. by apply IH.
Qed.

Lemma lastIndexByte_go_split p q c i acc :
  str_has c q = false ->
  lastIndexByte_go (p +:+ String c q) c i acc = i + Z.of_nat (String.length p).
Proof.
  intros Hq. revert i acc. induction p as [|d p IH]; intros i acc.
  - change (lastIndexByte_go (String c q) c i acc = i + 0). simpl. rw Ascii.eqb_refl.
    rw lastIndexByte_go_absent //. lia.
  - rw str_app_cons /= IH. lia.
Qed.

Lemma str_last_split c s :
  str_has c s = true -> exists p q, s = p +:+ String c q /\ str_has c q = false.
Proof.
  induction s as [|d s IH]; simpl; [done|]. intros Hs.
  destruct (str_has c s) eqn:Hrest.
  - destruct (IH eq_refl) as (p & q & -> & Hq). by exists (String d p), q.
  - rw orb_false_r in Hs. apply Ascii.eqb_eq in Hs as ->. by exists "", s.
Qed.

Lemma lastIndexByte_absent s c : str_has c s = false -> lastIndexByte s c = -1.
Proof. apply lastIndexByte_go_absent. Qed.

Lemma lastIndexByte_split p q c :
  str_has c q = false -> lastIndexByte (p +:+ String c q) c = Z.of_nat (String.length p).
Proof. intros. by rw /lastIndexByte lastIndexByte_go_split. Qed.

Lemma substring_app p q : String.substring 0 (String.length p) (p +:+ q) = p.
Proof. induction p as [|c p IH]; [by destruct q|]. rw str_app_cons /= IH //. Qed.

Lemma slice_to_app p q : slice_to (p +:+ q) (Z.of_nat (String.length p)) = Some p.
Proof.
  rw /slice_to str_length_app.
  assert ((0 <=? Z.of_nat (String.length p)) && (Z.of_nat (String.length p) <=?
    Z.of_nat (String.length p + String.length q)) = true) as -> by lia.
  by rw Nat2Z.id substring_app.
Qed.

(** The part before the last [c] is unique. *)
Lemma str_last_split_unique c p q p' q' :
  str_has c q = false -> str_has c q' = false ->
  p +:+ String c q = p' +:+ String c q' -> p = p'.
Proof.
  intros Hq Hq' Heq. pose proof (f_equal (fun s => lastIndexByte s c) Heq) as Hl. simpl in Hl.
  rw !lastIndexByte_split // in Hl.
  apply (f_equal (fun s => slice_to s (Z.of_nat (String.length p)))) in Heq.
  rw {2}Hl !slice_to_app in Heq. congruence.
Qed.

(** ** Decimal integers: [%d] and [strconv.Atoi] *)

Definition itoa (z : Z) : string := pretty z.

Definition digit_val (c : ascii) : option Z :=
  let n := byte_val c in if (48 <=? n) && (n <=? 57) then Some (n - 48) else None.

Fixpoint digits_val (s : string) (acc : Z) : option Z :=
  match s with
  | "" => Some acc
  | String c s' => match digit_val c with
                   | Some d => digits_val s' (10 * acc + d)
                   | None => None
                   end
  end.

Definition in_int64 (z : Z) : bool := (- 2 ^ 63 <=? z) && (z <? 2 ^ 63).

(** An optional sign, then one or more digits, in the range of [int]. *)
Definition atoi (s : string) : option Z :=
  let '(neg, ds) :=
    match s with
    | String "-" s' => (true, s')
    | String "+" s' => (false, s')
    | _ => (false, s)
    end in
  match ds with
  | "" => None
  | _ => match digits_val ds 0 with
         | Some v => let z := if neg then - v else v in if in_int64 z then Some z else None
         | None => None
         end
  end.

Lemma digit_val_pretty (d : N) : (d < 10)%N -> digit_val (pretty_N_char d) = Some (Z.of_N d).
Proof.
  intros Hd.
  assert (d = 0 \/ d = 1 \/ d = 2 \/ d = 3 \/ d = 4 \/ d = 5 \/ d = 6 \/ d = 7 \/ d = 8 \/ d = 9)%N
    by lia.
  by destruct_or!; subst.
Qed.

Lemma digits_val_pretty_go (n : N) (s : string) :
  digits_val (pretty_N_go n s) 0 = digits_val s (Z.of_N n).
Proof.
  revert s. induction (N.lt_wf_0 n) as [n _ IH]; intros s.
  destruct (decide (n = 0)%N) as [->|Hn]; [by rw pretty_N_go_0|].
  rw pretty_N_go_step; [lia|]. rw IH; [apply N.div_lt; lia|].
  simpl. rw digit_val_pretty; [by apply N.mod_lt|].
  f_equal. pose proof (N.div_mod n 10). lia.
Qed.

Lemma digits_val_pretty (n : N) : digits_val (pretty n) 0 = Some (Z.of_N n).
Proof.
  rw /pretty /pretty_N. case_decide as Hn; [by subst|]. by rw digits_val_pretty_go.
Qed.

Lemma pretty_N_digit (n : N) :
  exists c s, pretty n = String c s /\ is_Some (digit_val c).
Proof.
  pose proof (digits_val_pretty n) as H.
  destruct (pretty n) as [|c s] eqn:E.
  - simpl in H. assert (n = 0%N) as -> by (injection H; lia). done.
  - exists c, s. split; [done|]. simpl in H. destruct (digit_val c); [eauto|done].
Qed.

(** Printing an [int] and reading it back. *)
Lemma atoi_itoa (z : Z) : in_int64 z = true -> atoi (itoa z) = Some z.
Proof.
  intros Hz. rw /itoa. destruct z as [|p|p]; [done|..].
  - change (pretty (Z.pos p)) with (pretty (N.pos p)).
    destruct (pretty_N_digit (N.pos p)) as (c & s & E & [d Hd]).
    pose proof (digits_val_pretty (N.pos p)) as Hv. rw E in Hv |- *.
    rw /atoi. destruct (decide (c = "-"%char)) as [->|]; [done|].
    destruct (decide (c = "+"%char)) as [->|]; [done|].
    assert (forall X (f : string -> X) g h,
      match String c s with String "-" s' => f s' | String "+" s' => g s' | _ => h end = h) as Hc.
    { intros. destruct c as [[] [] [] [] [] [] [] []]; done. }
    rw Hc Hv. by rw Hz.
  - change (pretty (Z.neg p)) with (String "-" (pretty (N.pos p))).
    destruct (pretty_N_digit (N.pos p)) as (c & s & E & [d Hd]).
    pose proof (digits_val_pretty (N.pos p)) as Hv. rw E in Hv |- *.
    rw /atoi Hv. change (- Z.of_N (N.pos p)) with (Z.neg p). by rw Hz.
Qed.

(** ** UTF-8 *)

Definition rune_error : Z := 65533.

Definition cont (lo hi : Z) (c : ascii) : bool := (lo <=? byte_val c) && (byte_val c <=? hi).

(** [utf8.DecodeRune]: the first rune and its width; an ill-formed prefix is
    the replacement rune with width one. *)
Definition decode_rune (s : string) : Z * nat :=
  match s with
  | "" => (rune_error, 0%nat)
  | String c0 s1 =>
    let b0 := byte_val c0 in
    if b0 <? 128 then (b0, 1%nat)
    else if (194 <=? b0) && (b0 <=? 223) then
      match s1 with
      | String c1 _ =>
        if cont 128 191 c1 then ((b0 - 192) * 64 + (byte_val c1 - 128), 2%nat)
        else (rune_error, 1%nat)
      | _ => (rune_error, 1%nat)
      end
    else if (224 <=? b0) && (b0 <=? 239) then
      match s1 with
      | String c1 (String c2 _) =>
        if cont (if b0 =? 224 then 160 else 128) (if b0 =? 237 then 159 else 191) c1
           && cont 128 191 c2
        then ((b0 - 224) * 4096 + (byte_val c1 - 128) * 64 + (byte_val c2 - 128), 3%nat)
        else (rune_error, 1%nat)
      | _ => (rune_error, 1%nat)
      end
    else if (240 <=? b0) && (b0 <=? 244) then
      match s1 with
      | String c1 (String c2 (String c3 _)) =>
        if cont (if b0 =? 240 then 144 else 128) (if b0 =? 244 then 143 else 191) c1
           && cont 128 191 c2 && cont 128 191 c3
        then ((b0 - 240) * 262144 + (byte_val c1 - 128) * 4096
              + (byte_val c2 - 128) * 64 + (byte_val c3 - 128), 4%nat)
        else (rune_error, 1%nat)
      | _ => (rune_error, 1%nat)
      end
    else (rune_error, 1%nat)
  end.

(** [utf8.EncodeRune]: surrogates and out-of-range runes become U+FFFD. *)
Definition encode_rune (r0 : Z) : string :=
  let r := if (r0 <? 0) || (1114111 <? r0) || ((55296 <=? r0) && (r0 <=? 57343))
           then rune_error else r0 in
  if r <? 128 then String (byte_of r) ""
  else if r <? 2048 then
    String (byte_of (192 + r / 64)) (String (byte_of (128 + r mod 64)) "")
  else if r <? 65536 then
    String (byte_of (224 + r / 4096))
      (String (byte_of (128 + (r / 64) mod 64)) (String (byte_of (128 + r mod 64)) ""))
  else
    String (byte_of (240 + r / 262144))
      (String (byte_of (128 + (r / 4096) mod 64))
        (String (byte_of (128 + (r / 64) mod 64)) (String (byte_of (128 + r mod 64)) ""))).

Fixpoint str_drop (n : nat) (s : string) : string :=
  match n, s with
  | S n', String _ s' => str_drop n' s'
  | _, _ => s
  end.

Fixpoint str_take (n : nat) (s : string) : string :=
  match n, s with
  | S n', String c s' => String c (str_take n' s')
  | _, _ => ""
  end.
