(* ===== verification/Float64.v ===== *)
(** * float64

    nodes.go computes pod counts in [float64]: [int(math.Ceil(float64(n)/m) + 1)].
    The operations are those of IEEE 754 binary64, as the Standard Library's
    [SpecFloat] specifies them (precision 53, exponent bound 1024), with
    [math.Max], [math.Ceil] and the conversion to [int] on top.

    [f64_ceil_div_plus_one] is the theorem the components use: for node counts
    below 2^52 the rounding of the quotient never moves it across an integer,
    so the formula computes the exact integer ceiling plus one. *)
From S2P Require Import Prelude.
From Stdlib Require Import SpecFloat.
#[local] Open Scope Z_scope.

Definition f64 : Type := spec_float.

(** [float64(z)] *)
Definition f64_of_int (z : Z) : f64 := binary_normalize 53 1024 z 0 false.
Definition f64_div (x y : f64) : f64 := SFdiv 53 1024 x y.
Definition f64_add (x y : f64) : f64 := SFadd 53 1024 x y.

(** [math.Max] *)
Definition f64_max (x y : f64) : f64 :=
  match x, y with
  | S754_infinity false, _ | _, S754_infinity false => S754_infinity false
  | S754_nan, _ | _, S754_nan => S754_nan
  | S754_zero s, S754_zero _ => if s then y else x
  | _, _ => if SFltb y x then x else y
  end.

(** The integer ceiling of [n / m]. *)
Definition cdiv (n m : Z) : Z := (n + m - 1) / m.

(** [math.Ceil]: the least integer not below; it keeps the sign of a zero. *)
Definition f64_ceil (x : f64) : f64 :=
  match x with
  | S754_finite s m e =>
    if 0 <=? e then x
    else
      let d := 2 ^ (- e) in
      let z := if s then - (Zpos m / d) else cdiv (Zpos m) d in
      match z with
      | Z0 => S754_zero s
      | _ => binary_normalize 53 1024 z 0 false
      end
  | _ => x
  end.

(** [int(x)]: truncation; amd64 gives the least integer when it does not fit. *)
Definition f64_to_int (x : f64) : Z :=
  match x with
  | S754_zero _ => 0
  | S754_finite s m e =>
    let a := if 0 <=? e then Zpos m * 2 ^ e else Zpos m / 2 ^ (- e) in
    let z := if s then - a else a in
    if (- 2 ^ 63 <=? z) && (z <? 2 ^ 63) then z else - 2 ^ 63
  | _ => - 2 ^ 63
  end.

(** ** Integer ceiling *)

Lemma cdiv_bounds n m : 0 < m -> m * (cdiv n m - 1) < n <= m * cdiv n m.
Proof. intros. rw /cdiv. Z.to_euclidean_division_equations. nia. Qed.

Lemma cdiv_unique n m c : 0 < m -> m * (c - 1) < n <= m * c -> cdiv n m = c.
Proof. intros Hm Hc. pose proof (cdiv_bounds n m Hm). nia. Qed.

Lemma cdiv_nonneg n m : 0 <= n -> 0 < m -> 0 <= cdiv n m.
Proof. intros. rw /cdiv. apply Z.div_pos; lia. Qed.

Lemma cdiv_le n m : 0 <= n -> 0 < m -> cdiv n m <= n.
Proof.
  intros. pose proof (cdiv_bounds n m ltac:(lia)).
  destruct (Z.le_gt_cases (cdiv n m) n); [done|].
  assert (m * n <= m * (cdiv n m - 1)) by (apply Z.mul_le_mono_nonneg_l; lia). nia.
Qed.

Lemma cdiv_mono_r n m m' : 0 <= n -> 0 < m <= m' -> cdiv n m' <= cdiv n m.
Proof.
  intros. pose proof (cdiv_bounds n m ltac:(lia)). pose proof (cdiv_bounds n m' ltac:(lia)).
  pose proof (cdiv_nonneg n m ltac:(lia) ltac:(lia)). nia.
Qed.

(** ** Canonical representations *)

Lemma digits2_bounds p :
  2 ^ (Zpos (digits2_pos p) - 1) <= Zpos p < 2 ^ Zpos (digits2_pos p).
Proof.
  induction p as [p IH|p IH|]; cbn [digits2_pos]; [| |done];
    rw Pos2Z.inj_succ Z.pow_succ_r; try done;
    replace (Z.succ (Zpos (digits2_pos p)) - 1) with (Z.succ (Zpos (digits2_pos p) - 1)) by lia;
    rw Z.pow_succ_r; lia.
Qed.

Lemma digits2_unique p d : 0 < d -> 2 ^ (d - 1) <= Zpos p < 2 ^ d -> Zpos (digits2_pos p) = d.
Proof.
  intros Hd Hp. pose proof (digits2_bounds p) as Hb.
  destruct (Z.lt_trichotomy (Zpos (digits2_pos p)) d) as [H|[H|H]]; [|done|].
  - pose proof (Z.pow_le_mono_r 2 (Zpos (digits2_pos p)) (d - 1)). lia.
  - pose proof (Z.pow_le_mono_r 2 d (Zpos (digits2_pos p) - 1)). lia.
Qed.

(** [rep z x]: the float [x] is the positive integer [z], normalised. *)
Definition rep (z : Z) (x : f64) : Prop :=
  exists m e, x = S754_finite false m e /\ -52 <= e <= 0 /\ Zpos m = z * 2 ^ (- e)
    /\ 2 ^ 52 <= Zpos m < 2 ^ 53.

Lemma fexp_eq e : -1074 <= e - 53 -> fexp 53 1024 e = e - 53.
Proof. rw /fexp /emin. lia. Qed.

Lemma shr_1_double x : 0 < x ->
  shr_1 (Build_shr_record (2 * x) false false) = Build_shr_record x false false.
Proof. by destruct x. Qed.

Lemma iter_shr_exact p x : 0 < x ->
  iter_pos shr_1 p (Build_shr_record (x * 2 ^ Zpos p) false false) = Build_shr_record x false false.
Proof.
  revert x. induction p as [p IH|p IH|]; intros x Hx; cbn [iter_pos].
  - replace (x * 2 ^ Zpos p~1) with (2 * (x * 2 ^ Zpos p * 2 ^ Zpos p)).
    + rw shr_1_double; [lia|]. by rw IH; [lia|]; rw IH.
    + rw (Pos2Z.inj_xI p) Z.pow_add_r // (Z.mul_comm 2 (Zpos p)) Z.pow_mul_r //. lia.
  - replace (x * 2 ^ Zpos p~0) with (x * 2 ^ Zpos p * 2 ^ Zpos p).
    + by rw IH; [lia|]; rw IH.
    + rw (Pos2Z.inj_xO p) (Z.mul_comm 2 (Zpos p)) Z.pow_mul_r //. lia.
  - rw Z.mul_comm. by apply shr_1_double.
Qed.

Lemma iter_xO m d : Zpos (Pos.iter xO m d) = Zpos m * 2 ^ Zpos d.
Proof.
  induction d as [|d IH] using Pos.peano_ind; [simpl; lia|].
  rw Pos.iter_succ. rw Pos2Z.inj_succ Z.pow_succ_r //. rw (Pos2Z.inj_xO (Pos.iter xO m d)). lia.
Qed.

Lemma pow2_scale a b x k : 0 <= a -> 0 <= b -> 0 <= k ->
  2 ^ a <= x < 2 ^ b -> 2 ^ (a + k) <= x * 2 ^ k < 2 ^ (b + k).
Proof.
  intros Ha Hb Hk Hx. pose proof (Z.pow_pos_nonneg 2 k).
  rw !Z.pow_add_r; [lia..|]. split; [apply Z.mul_le_mono_nonneg_r|apply Z.mul_lt_mono_pos_r]; lia.
Qed.

(** Rounding a mantissa of the full 53 bits is the identity. *)
Lemma round_aux_exact m e :
  2 ^ 52 <= Zpos m < 2 ^ 53 -> -1074 <= e <= 971 ->
  binary_round_aux 53 1024 false (Zpos m) e loc_Exact = S754_finite false m e.
Proof.
  intros Hm He. assert (Zpos (digits2_pos m) = 53) as Hd by by apply digits2_unique.
  rw /binary_round_aux /shr_fexp. cbn [Zdigits2]. rw Hd fexp_eq; [lia|].
  replace (53 + e - 53 - e) with 0 by lia. cbn [shr shr_record_of_loc loc_of_shr_record shr_m].
  cbn [round_nearest_even Zdigits2]. rw Hd fexp_eq; [lia|].
  replace (53 + e - 53 - e) with 0 by lia. cbn [shr shr_record_of_loc shr_m].
  destruct (Z.leb_spec e (1024 - 53)); [done|lia].
Qed.

(** An exact right shift before rounding. *)
Lemma round_aux_shift x m k e :
  2 ^ 52 <= Zpos x < 2 ^ 53 -> 0 < k -> Zpos m = Zpos x * 2 ^ k -> -1074 <= e + k <= 971 ->
  binary_round_aux 53 1024 false (Zpos m) e loc_Exact = S754_finite false x (e + k).
Proof.
  intros Hx Hk Hm He.
  assert (Zpos (digits2_pos m) = 53 + k) as Hd.
  { apply digits2_unique; [lia|]. rw Hm.
    replace (53 + k - 1) with (52 + k) by lia. apply pow2_scale; lia. }
  rw /binary_round_aux {1}/shr_fexp. cbn [Zdigits2]. rw Hd fexp_eq; [lia|].
  replace (53 + k + e - 53 - e) with k by lia. destruct k as [|n|n]; try lia.
  cbn [shr shr_record_of_loc].
  rw Hm iter_shr_exact //. cbn [loc_of_shr_record shr_m round_nearest_even].
  set (k := Zpos n) in *.
  pose proof (round_aux_exact x (e + k) Hx He) as Hr.
  rw /binary_round_aux in Hr. revert Hr. rw {1}/shr_fexp. cbn [Zdigits2].
  rw (digits2_unique x 53) // fexp_eq; [lia|]. replace (53 + (e + k) - 53 - (e + k)) with 0 by lia.
  by cbn [shr shr_record_of_loc loc_of_shr_record shr_m round_nearest_even].
Qed.

(** Every exact representation of an integer normalises to the same float. *)
Lemma normalize_rep z k :
  0 < z < 2 ^ 53 -> 0 <= k <= 200 -> rep z (binary_normalize 53 1024 (z * 2 ^ k) (- k) false).
Proof.
  intros Hz Hk. destruct z as [|p|p]; try lia. set (d := Zpos (digits2_pos p)).
  pose proof (digits2_bounds p) as Hp. fold d in Hp.
  assert (1 <= d <= 53) as Hd.
  { split; [lia|]. destruct (Z.le_gt_cases d 53); [done|].
    pose proof (Z.pow_le_mono_r 2 53 (d - 1)). lia. }
  destruct (Zpos p * 2 ^ k) as [|m|m] eqn:Hm; [nia| |nia].
  assert (Zpos (digits2_pos m) = d + k) as Hdm.
  { apply digits2_unique; [lia|]. rw -Hm. replace (d + k - 1) with (d - 1 + k) by lia.
    apply pow2_scale; lia. }
  assert (0 < Zpos p * 2 ^ (53 - d)) as Hpos by nia.
  destruct (Zpos p * 2 ^ (53 - d)) as [|x|x] eqn:Hx; try lia.
  assert (2 ^ 52 <= Zpos x < 2 ^ 53) as Hxb.
  { rw -Hx. pose proof (pow2_scale (d - 1) d (Zpos p) (53 - d)) as Hs.
    replace (d - 1 + (53 - d)) with 52 in Hs by lia.
    replace (d + (53 - d)) with 53 in Hs by lia. apply Hs; lia. }
  exists x, (d - 53). split; [|split_and!; [lia|lia| |apply Hxb|apply Hxb]].
  2: { rw -Hx. f_equal. f_equal. lia. }
  rw /binary_normalize /binary_round /shl_align. rw Hdm fexp_eq; [lia|].
  replace (d + k + - k - 53 - - k) with (d - 53 + k) by lia.
  replace (d + k + - k - 53) with (d - 53) by lia.
  destruct (d - 53 + k) as [|n|n] eqn:Hn.
  - assert (m = x) as -> by (replace k with (53 - d) in Hm by lia; congruence).
    replace (- k) with (d - 53) by lia. apply round_aux_exact; [done|lia].
  - replace (d - 53) with (- k + Zpos n) by lia. apply round_aux_shift; [done|done| |lia].
    rw -Hm -Hx. replace k with (53 - d + Zpos n) by lia. rw Z.pow_add_r; lia.
  - assert (Pos.iter xO m n = x) as ->; [|apply round_aux_exact; [done|lia]].
    apply Pos2Z.inj. rw iter_xO -Hm -Hx. replace (53 - d) with (k + Zpos n) by lia.
    rw Z.pow_add_r; lia.
Qed.

Lemma of_int_rep z : 0 < z < 2 ^ 53 -> rep z (f64_of_int z).
Proof.
  intros Hz. pose proof (normalize_rep z 0 Hz ltac:(lia)) as H.
  by rw Z.mul_1_r in H.
Qed.

(** ** Division *)

Lemma new_location_eq B r :
  0 <= r < B ->
  new_location B r = if r =? 0 then loc_Exact else loc_Inexact (2 * r ?= B).
Proof.
  intros Hr. rw /new_location /new_location_even /new_location_odd.
  destruct (Z.even B) eqn:He; [done|]. destruct (r =? 0); [done|].
  rw -Z.negb_odd in He. apply negb_false_iff, Z.odd_spec in He as [h ->].
  f_equal. destruct (Z.compare_spec (2 * r + 1) (2 * h + 1)); symmetry;
    rw ?Z.compare_lt_iff ?Z.compare_gt_iff; lia.
Qed.

(** The last step of rounding: a mantissa that overflowed to 2^53 is shifted. *)
Definition finish (m : Z) (e : Z) : f64 :=
  let '(mrs, e') := shr_fexp 53 1024 m e loc_Exact in
  match shr_m mrs with
  | Z0 => S754_zero false
  | Zpos m' => if e' <=? 1024 - 53 then S754_finite false m' e' else S754_infinity false
  | _ => S754_nan
  end.

Lemma finish_spec m e :
  2 ^ 52 <= m <= 2 ^ 53 -> -1074 <= e <= 900 ->
  exists x e', finish m e = S754_finite false x e' /\ 2 ^ 52 <= Zpos x < 2 ^ 53
    /\ (m = Zpos x /\ e' = e \/ m = 2 * Zpos x /\ e' = e + 1).
Proof.
  intros Hm He. destruct (decide (m = 2 ^ 53)) as [->|Hne].
  - exists (Z.to_pos (2 ^ 52)), (e + 1). split; [|split; [cbn; lia|by right]].
    rw /finish /shr_fexp. change (Zdigits2 (2 ^ 53)) with 54. rw fexp_eq; [lia|].
    replace (54 + e - 53 - e) with 1 by lia.
    change (2 ^ 53) with 9007199254740992. cbn [shr shr_record_of_loc iter_pos shr_1 shr_m orb].
    destruct (Z.leb_spec (e + 1) (1024 - 53)); [done|lia].
  - destruct m as [|p|p]; try lia. exists p, e. split; [|split; [lia|by left]].
    rw /finish /shr_fexp. cbn [Zdigits2]. rw (digits2_unique p 53); [done|lia|].
    rw fexp_eq; [lia|]. replace (53 + e - 53 - e) with 0 by lia.
    cbn [shr shr_record_of_loc shr_m]. destruct (Z.leb_spec e (1024 - 53)); [done|lia].
Qed.

(** [m] is a nearest integer to [A / D]. *)
Definition nearest (A D m : Z) : Prop := 2 * Z.abs (m * D - A) <= D.

Lemma round_even_nearest B q r :
  0 <= r < B ->
  let m := round_nearest_even q (new_location B r) in nearest (B * q + r) B m /\ q <= m <= q + 1.
Proof.
  intros Hr. rw new_location_eq // /nearest. destruct (r =? 0) eqn:?; simpl; [nia|].
  destruct (Z.compare_spec (2 * r) B); simpl; [|nia|nia]. destruct (Z.even q); nia.
Qed.

Definition loc_sticky (l : location) : bool := match l with loc_Exact => false | _ => true end.

Lemma shr_1_loc q l :
  0 < q ->
  shr_1 (shr_record_of_loc q l) = Build_shr_record (q / 2) (Z.odd q) (loc_sticky l).
Proof.
  intros Hq. rw -Z.div2_div. destruct q as [|[p|p|]|]; [done|..|done];
    by destruct l as [|[]].
Qed.

Lemma round_aux_quot B q r e :
  0 <= r < B -> 2 ^ 52 <= q < 2 ^ 54 -> -1000 <= e <= 800 ->
  exists sh m, (sh = 0 \/ sh = 1) /\ 2 ^ 52 <= m <= 2 ^ 53
    /\ nearest (B * q + r) (B * 2 ^ sh) m
    /\ binary_round_aux 53 1024 false q e (new_location B r) = finish m (e + sh).
Proof.
  intros Hr Hq He. destruct (Z.lt_ge_cases q (2 ^ 53)) as [Hlt|Hge].
  - exists 0, (round_nearest_even q (new_location B r)).
    destruct (round_even_nearest B q r Hr) as [Hn Hb].
    rw Z.mul_1_r. split_and!; [by left|lia|lia|done|].
    destruct q as [|p|p]; try lia. rw /binary_round_aux {1}/shr_fexp. cbn [Zdigits2].
    rw (digits2_unique p 53); [done|lia|]. rw fexp_eq; [lia|].
    replace (53 + e - 53 - e) with 0 by lia. cbn [shr].
    replace (shr_m (shr_record_of_loc (Z.pos p) (new_location B r))) with (Z.pos p)
      by by destruct (new_location B r) as [|[]].
    replace (loc_of_shr_record (shr_record_of_loc (Z.pos p) (new_location B r)))
      with (new_location B r) by by destruct (new_location B r) as [|[]].
    by rw Z.add_0_r.
  - exists 1, (round_nearest_even (q / 2) (loc_of_shr_record
      (Build_shr_record (q / 2) (Z.odd q) (loc_sticky (new_location B r))))).
    pose proof (Z.div_mod q 2 ltac:(lia)) as Hdm. rw Zmod_odd in Hdm.
    assert (loc_sticky (new_location B r) = negb (r =? 0)) as ->.
    { rw new_location_eq //. by destruct (r =? 0). }
    split_and!; [by right|..].
    1-3: destruct (Z.odd q) eqn:Ho, (r =? 0) eqn:Hr0; rw /nearest; simpl;
      try (destruct (Z.even (q / 2)) eqn:?); nia.
    destruct q as [|p|p]; try lia. rw /binary_round_aux {1}/shr_fexp. cbn [Zdigits2].
    rw (digits2_unique p 54); [done|lia|]. rw fexp_eq; [lia|].
    replace (54 + e - 53 - e) with 1 by lia. cbn [shr iter_pos].
    rw shr_1_loc //. rw new_location_eq //. by destruct (r =? 0).
Qed.

Lemma nearest_scale A D m c : 0 < c -> nearest (A * c) (D * c) m -> nearest A D m.
Proof.
  rw /nearest. intros Hc. replace (m * (D * c) - A * c) with ((m * D - A) * c) by lia.
  rw Z.abs_mul (Z.abs_eq c); [lia|]. nia.
Qed.

Lemma div_nearest n m x y :
  rep n x -> rep m y ->
  exists K M, 0 <= K <= 200 /\ 2 ^ 52 <= M <= 2 ^ 53 /\ nearest (n * 2 ^ K) m M
    /\ f64_div x y = finish M (- K).
Proof.
  intros (mx & ex & -> & Hex & Hmx & Hbx) (my & ey & -> & Hey & Hmy & Hby).
  set (q := (Zpos mx * 2 ^ 53) / Zpos my). set (r := (Zpos mx * 2 ^ 53) mod Zpos my).
  assert (Zpos mx * 2 ^ 53 = Zpos my * q + r) as Hqr by (apply Z.div_mod; lia).
  assert (0 <= r < Zpos my) as Hr by (apply Z.mod_pos_bound; lia).
  assert (2 ^ 52 <= q < 2 ^ 54) as Hq.
  { split; [apply Z.div_le_lower_bound|apply Z.div_lt_upper_bound]; lia. }
  destruct (round_aux_quot (Zpos my) q r (ex - ey - 53) Hr Hq ltac:(lia))
    as (sh & M & Hsh & HM & Hn & Hround).
  exists (53 - sh - ex + ey), M. split_and!; [lia|lia|lia|lia|..].
  - apply (nearest_scale _ _ _ (2 ^ (sh - ey))); [apply Z.pow_pos_nonneg; lia|].
    rw -Hqr Hmx Hmy in Hn. rw -!Z.mul_assoc -!Z.pow_add_r in Hn |- *; [lia..|].
    replace (53 - sh - ex + ey + (sh - ey)) with (- ex + 53) by lia.
    by replace (sh - ey) with (- ey + sh) by lia.
  - rw /f64_div /SFdiv /SFdiv_core_binary. cbn [Zdigits2].
    rw (digits2_unique mx 53) // (digits2_unique my 53) // fexp_eq; [lia|].
    replace (Z.min _ _) with (ex - ey - 53) by lia.
    replace (ex - ey - (ex - ey - 53)) with 53 by lia. cbn [xorb]. cbv iota.
    rw Z.shiftl_mul_pow2 //. rw /q /r /Z.div /Z.modulo in Hround |- *.
    destruct (Z.div_eucl _ _) as [q' r']. rw Hround. f_equal. lia.
Qed.

Lemma ceil_of_nearest n m K M :
  0 < n < 2 ^ 52 -> 0 < m -> 0 <= K -> 2 ^ 52 <= M -> nearest (n * 2 ^ K) m M ->
  2 ^ K * (cdiv n m - 1) < M <= 2 ^ K * cdiv n m.
Proof.
  rw /nearest. intros Hn Hm HK HM Hnear. pose proof (cdiv_bounds n m Hm) as Hc.
  pose proof (Z.pow_pos_nonneg 2 K ltac:(lia) HK). set (P := 2 ^ K) in *.
  assert (m < P) by nia. split; nia.
Qed.

Lemma ceil_div_rep n m x y :
  0 < n < 2 ^ 52 -> 0 < m -> rep n x -> rep m y -> rep (cdiv n m) (f64_ceil (f64_div x y)).
Proof.
  intros Hn Hm Hx Hy. destruct (div_nearest n m x y Hx Hy) as (K & M & HK & HM & Hnear & ->).
  pose proof (ceil_of_nearest n m K M Hn Hm ltac:(lia) ltac:(lia) Hnear) as Hc.
  pose proof (cdiv_le n m ltac:(lia) Hm) as Hle.
  assert (0 < cdiv n m) as Hpos by (pose proof (cdiv_bounds n m Hm); nia).
  destruct (finish_spec M (- K) HM ltac:(lia)) as (p & e & -> & Hp & Hcase).
  assert (0 <= - e \/ e = 1) as Hesign by lia.
  assert (e <= 0) as He.
  { destruct (decide (K = 0)) as [->|]; [|lia]. destruct Hcase as [[? ->]|[? ->]]; lia. }
  assert (2 ^ (- e) * (cdiv n m - 1) < Zpos p <= 2 ^ (- e) * cdiv n m) as Hc'.
  { destruct Hcase as [[-> ->]|[-> ->]]; [by rw Z.opp_involutive|].
    replace K with (Z.succ (K - 1)) in Hc by lia. rw Z.pow_succ_r in Hc; [lia|].
    replace (- (- K + 1)) with (K - 1) by lia. lia. }
  cbn [f64_ceil]. destruct (Z.leb_spec 0 e) as [Hz|Hz].
  - assert (e = 0) as -> by lia. exists p, 0. split_and!; [done|lia|lia|lia|lia|lia].
  - rw (cdiv_unique (Zpos p) (2 ^ (- e)) (cdiv n m)) //; [apply Z.pow_pos_nonneg; lia|].
    destruct (cdiv n m) as [|c|c] eqn:Hcc; try lia. apply of_int_rep. lia.
Qed.

Lemma shl_align_val m e e' :
  e' <= e -> Zpos (fst (shl_align m e e')) = Zpos m * 2 ^ (e - e').
Proof.
  intros He. rw /shl_align. destruct (e' - e) as [|d|d] eqn:Hd; [|lia|].
  - replace (e - e') with 0 by lia. cbn [fst]. lia.
  - cbn [fst]. rw iter_xO. do 2 f_equal. lia.
Qed.

Lemma add_rep a b x y :
  0 < a -> 0 < b -> a + b < 2 ^ 53 -> rep a x -> rep b y -> rep (a + b) (f64_add x y).
Proof.
  intros Ha Hb Hab (mx & ex & -> & Hex & Hmx & _) (my & ey & -> & Hey & Hmy & _).
  rw /f64_add /SFadd. cbn [cond_Zopp]. rw !shl_align_val; [lia..|]. rw Hmx Hmy.
  rw -!Z.mul_assoc -!Z.pow_add_r; [lia..|].
  replace (- ex + (ex - Z.min ex ey)) with (- Z.min ex ey) by lia.
  replace (- ey + (ey - Z.min ex ey)) with (- Z.min ex ey) by lia.
  rw -Z.mul_add_distr_r. rw -{2}(Z.opp_involutive (Z.min ex ey)). apply normalize_rep; lia.
Qed.

Lemma to_int_rep z x : 0 < z < 2 ^ 53 -> rep z x -> f64_to_int x = z.
Proof.
  intros Hz (m & e & -> & He & Hm & Hb). cbn [f64_to_int].
  assert ((if 0 <=? e then Zpos m * 2 ^ e else Zpos m / 2 ^ (- e)) = z) as ->.
  { destruct (Z.leb_spec 0 e); [assert (e = 0) as -> by lia; lia|].
    rw Hm Z.div_mul //. apply Z.pow_nonzero; lia. }
  destruct (_ && _) eqn:E; lia.
Qed.

(** The code's formula for a number of pods or of nodes per pod. *)
Definition f64_ceil_div1 (x y : f64) : Z :=
  f64_to_int (f64_add (f64_ceil (f64_div x y)) (f64_of_int 1)).

Lemma f64_ceil_div_plus_one n m :
  0 <= n < 2 ^ 52 -> 0 < m < 2 ^ 53 ->
  f64_ceil_div1 (f64_of_int n) (f64_of_int m) = cdiv n m + 1.
Proof.
  intros Hn Hm. rw /f64_ceil_div1. destruct (decide (n = 0)) as [->|Hne].
  - destruct (of_int_rep m Hm) as (p & e & -> & _).
    assert (cdiv 0 m = 0) as -> by (apply cdiv_unique; lia). done.
  - pose proof (cdiv_le n m). pose proof (cdiv_bounds n m ltac:(lia)).
    assert (0 < cdiv n m) by nia.
    apply to_int_rep; [lia|]. apply add_rep; [lia|done|lia| |by apply of_int_rep].
    apply ceil_div_rep; [lia|lia|apply of_int_rep; lia|by apply of_int_rep].
Qed.

Lemma f64_max_one a : 0 <= a < 2 ^ 53 -> f64_max (f64_of_int a) (f64_of_int 1) = f64_of_int (Z.max a 1).
Proof.
  intros Ha. destruct (decide (a = 0)) as [->|]; [done|].
  destruct (decide (a = 1)) as [->|]; [done|]. rw Z.max_l; [lia|].
  destruct (of_int_rep a ltac:(lia)) as (m & e & Heq & He & Hm & Hb). rw Heq.
  change (f64_of_int 1) with (S754_finite false 4503599627370496 (-52)).
  cbn [f64_max]. rw /SFltb. cbn [SFcompare].
  assert (-52 < e) as Hlt.
  { destruct (decide (e = -52)) as [->|]; [|lia]. change (- -52) with 52 in Hm. lia. }
  destruct (Z.compare_spec (-52) e); [lia|done|lia].
Qed.
