(* ===== verification/Json.v ===== *)
(** * encoding/json

    The program talks to every other service in JSON, through Go's
    [encoding/json] (Go 1.18, the version the image is built with): values are
    printed by [json.Marshal] or an [Encoder], and read by [json.Unmarshal].
    This file models the two at the level of bytes:
    - [json]: a JSON value, numbers kept as their literal;
    - [print_json]: the encoder (compact, HTML-escaping strings);
    - [parse_json]: the decoder's scanner and unquoting (whitespace, escapes,
      surrogate pairs, ill-formed UTF-8, the nesting limit), [None] on a
      syntax error;
    - [parse_print_json]: reading back what was printed gives the same value. *)
From S2P Require Import Prelude GoStrings.
From Stdlib Require Import Ascii.
#[local] Open Scope string_scope.
#[local] Open Scope Z_scope.

Unset Elimination Schemes.
Inductive json : Type :=
| JNull
| JBool (b : bool)
| JNum (lit : string)
| JStr (s : string)
| JArr (l : list json)
| JObj (l : list (string * json)).
Set Elimination Schemes.

Section json_ind.
Variable P : json -> Prop.
Hypothesis Hnull : P JNull.
Hypothesis Hbool : forall b, P (JBool b).
Hypothesis Hnum : forall lit, P (JNum lit).
Hypothesis Hstr : forall s, P (JStr s).
Hypothesis Harr : forall l, Forall P l -> P (JArr l).
Hypothesis Hobj : forall l, Forall (fun kv => P kv.2) l -> P (JObj l).

Fixpoint json_ind (j : json) : P j :=
  match j with
  | JNull => Hnull
  | JBool b => Hbool b
  | JNum lit => Hnum lit
  | JStr s => Hstr s
  | JArr l => Harr l ((fix go l := match l return Forall P l with
                                   | [] => Forall_nil_2 _
                                   | x :: l' => Forall_cons_2 _ _ _ (json_ind x) (go l')
                                   end) l)
  | JObj l => Hobj l ((fix go l := match l return Forall (fun kv => P kv.2) l with
                                   | [] => Forall_nil_2 _
                                   | x :: l' => Forall_cons_2 _ _ _ (json_ind x.2) (go l')
                                   end) l)
  end.
End json_ind.

(** ** Encoding *)

Definition hex_digit (n : Z) : ascii := if n <? 10 then byte_of (48 + n) else byte_of (87 + n).

Definition quote_char : ascii := byte_of 34.
Definition backslash : ascii := byte_of 92.

(** A byte below 0x80 as [encodeState.string] writes it. *)
Definition quote_ascii (c : ascii) : string :=
  let b := byte_val c in
  if (b =? 92) || (b =? 34) then String backslash (String c "")
  else if b =? 10 then String backslash "n"
  else if b =? 13 then String backslash "r"
  else if b =? 9 then String backslash "t"
  else if (b <? 32) || (b =? 60) || (b =? 62) || (b =? 38)
  then String backslash ("u00" +:+ String (hex_digit (b / 16)) (String (hex_digit (b mod 16)) ""))
  else String c "".

(** What the loop does with the remaining bytes of the rune it just decoded. *)
Inductive rune_mode := Copy | Drop.

Definition cons_if (m : rune_mode) (c : ascii) (s : string) : string :=
  match m with Copy => String c s | Drop => s end.

Fixpoint quote_go (skip : nat) (m : rune_mode) (s : string) : string :=
  match s with
  | "" => ""
  | String c s' =>
    match skip with
    | S k => cons_if m c (quote_go k m s')
    | O =>
      if byte_val c <? 128 then quote_ascii c +:+ quote_go 0 Copy s'
      else
        let '(r, n) := decode_rune s in
        if (r =? rune_error) && (n =? 1)%nat
        then String backslash "ufffd" +:+ quote_go 0 Copy s'
        else if (r =? 8232) || (r =? 8233)
        then String backslash ("u202" +:+ String (hex_digit (r mod 16)) "") +:+ quote_go (n - 1) Drop s'
        else String c (quote_go (n - 1) Copy s')
    end
  end.
Definition quote_json (s : string) : string :=
  String quote_char (quote_go 0 Copy s +:+ String quote_char "").

Definition commas (l : list string) : string :=
  match l with
  | [] => ""
  | x :: l' => x +:+ foldr (fun y acc => "," +:+ y +:+ acc) "" l'
  end.

Fixpoint print_json (j : json) : string :=
  match j with
  | JNull => "null"
  | JBool true => "true"
  | JBool false => "false"
  | JNum lit => lit
  | JStr s => quote_json s
  | JArr l => "[" +:+ commas (map print_json l) +:+ "]"
  | JObj l => "{" +:+ commas (map (fun kv => quote_json kv.1 +:+ ":" +:+ print_json kv.2) l) +:+ "}"
  end.

(** ** Decoding *)

Definition is_space (c : ascii) : bool :=
  let b := byte_val c in (b =? 32) || (b =? 9) || (b =? 13) || (b =? 10).

Fixpoint skip_ws (s : string) : string :=
  match s with
  | String c s' => if is_space c then skip_ws s' else s
  | "" => ""
  end.

Definition hex_val (c : ascii) : option Z :=
  let b := byte_val c in
  if (48 <=? b) && (b <=? 57) then Some (b - 48)
  else if (97 <=? b) && (b <=? 102) then Some (b - 87)
  else if (65 <=? b) && (b <=? 70) then Some (b - 55)
  else None.

(** The scanner's states inside a string literal. *)
Inductive str_state := InStr | InEsc | InHex (n : nat).

(** The raw bytes up to the closing quote, and what follows it. *)
Fixpoint scan_string (st : str_state) (s : string) : option (string * string) :=
  match s with
  | "" => None
  | String c s' =>
    let b := byte_val c in
    let next st' := match scan_string st' s' with
                    | Some (raw, rest) => Some (String c raw, rest)
                    | None => None
                    end in
    match st with
    | InStr => if b =? 34 then Some ("", s')
               else if b =? 92 then next InEsc
               else if b <? 32 then None
               else next InStr
    | InEsc => if (b =? 98) || (b =? 102) || (b =? 110) || (b =? 114) || (b =? 116)
                  || (b =? 92) || (b =? 47) || (b =? 34) then next InStr
               else if b =? 117 then next (InHex 3)
               else None
    | InHex n => match hex_val c with
                 | Some _ => next (match n with O => InStr | S n' => InHex n' end)
                 | None => None
                 end
    end
  end.

(** [getu4]: the code unit of an escape at the head of [s]. *)
Definition getu4 (s : string) : option Z :=
  match s with
  | String b (String u s2) =>
    if Ascii.eqb b backslash && (byte_val u =? 117) then
      match s2 with
      | String a1 (String a2 (String a3 (String a4 _))) =>
        match hex_val a1, hex_val a2, hex_val a3, hex_val a4 with
        | Some h1, Some h2, Some h3, Some h4 => Some (((h1 * 16 + h2) * 16 + h3) * 16 + h4)
        | _, _, _, _ => None
        end
      | _ => None
      end
    else None
  | _ => None
  end.

Definition is_surrogate (r : Z) : bool := (55296 <=? r) && (r <? 57344).

(** [utf16.DecodeRune] *)
Definition utf16_decode (r1 r2 : Z) : Z :=
  if (55296 <=? r1) && (r1 <? 56320) && (56320 <=? r2) && (r2 <? 57344)
  then (r1 - 55296) * 1024 + (r2 - 56320) + 65536 else rune_error.

Definition unescape_char (c : ascii) : ascii :=
  let b := byte_val c in
  if b =? 98 then byte_of 8 else if b =? 102 then byte_of 12 else if b =? 110 then byte_of 10
  else if b =? 114 then byte_of 13 else if b =? 116 then byte_of 9 else c.

(** [unquoteBytes] on the scanned raw bytes: [skip] bytes of the current
    escape or rune are already accounted for. *)
Fixpoint unquote_go (skip : nat) (s : string) : string :=
  match s with
  | "" => ""
  | String c s' =>
    match skip with
    | S k => unquote_go k s'
    | O =>
      let b := byte_val c in
      if b =? 92 then
        match getu4 s with
        | Some r =>
          if is_surrogate r then
            match getu4 (str_drop 6 s) with
            | Some r2 =>
              if utf16_decode r r2 =? rune_error
              then encode_rune rune_error +:+ unquote_go 5 s'
              else encode_rune (utf16_decode r r2) +:+ unquote_go 11 s'
            | None => encode_rune rune_error +:+ unquote_go 5 s'
            end
          else encode_rune r +:+ unquote_go 5 s'
        | None => match s' with
                  | String e _ => String (unescape_char e) (unquote_go 1 s')
                  | "" => ""
                  end
        end
      else if b <? 128 then String c (unquote_go 0 s')
      else let '(r, n) := decode_rune s in encode_rune r +:+ unquote_go (n - 1) s'
    end
  end.
Definition unquote (raw : string) : string := unquote_go 0 raw.

Definition parse_string (s : string) : option (string * string) :=
  match scan_string InStr s with
  | Some (raw, rest) => Some (unquote raw, rest)
  | None => None
  end.

Definition is_digit (c : ascii) : bool := (48 <=? byte_val c) && (byte_val c <=? 57).

Fixpoint scan_digits (s : string) : string * string :=
  match s with
  | String c s' => if is_digit c then let '(d, r) := scan_digits s' in (String c d, r) else ("", s)
  | "" => ("", "")
  end.

(** The integer part, the fraction and the exponent of a number literal. *)
Definition scan_int (s : string) : option (string * string) :=
  match s with
  | String c s' =>
    if byte_val c =? 48 then Some (String c "", s')
    else if is_digit c then let '(d, r) := scan_digits s' in Some (String c d, r)
    else None
  | "" => None
  end.

Definition scan_digits1 (s : string) : option (string * string) :=
  let '(d, r) := scan_digits s in
  match d with "" => None | _ => Some (d, r) end.

Definition scan_frac (s : string) : option (string * string) :=
  match s with
  | String c s' =>
    if byte_val c =? 46 then
      match scan_digits1 s' with Some (d, r) => Some (String c d, r) | None => None end
    else Some ("", s)
  | "" => Some ("", "")
  end.

Definition scan_exp (s : string) : option (string * string) :=
  match s with
  | String c s' =>
    if (byte_val c =? 101) || (byte_val c =? 69) then
      let '(sign, s'') :=
        match s' with
        | String d r => if (byte_val d =? 43) || (byte_val d =? 45) then (String d "", r) else ("", s')
        | "" => ("", "")
        end in
      match scan_digits1 s'' with
      | Some (d, r) => Some (String c (sign +:+ d), r)
      | None => None
      end
    else Some ("", s)
  | "" => Some ("", "")
  end.

Definition scan_number (s : string) : option (string * string) :=
  let '(sign, s0) :=
    match s with
    | String c s' => if byte_val c =? 45 then (String c "", s') else ("", s)
    | "" => ("", "")
    end in
  match scan_int s0 with
  | None => None
  | Some (i, s1) =>
    match scan_frac s1 with
    | None => None
    | Some (f, s2) =>
      match scan_exp s2 with
      | None => None
      | Some (e, s3) => Some (sign +:+ i +:+ f +:+ e, s3)
      end
    end
  end.

(** [expect lit s]: [s] without its prefix [lit]. *)
Fixpoint expect (lit s : string) : option string :=
  match lit, s with
  | "", _ => Some s
  | String a l', String b s' => if Ascii.eqb a b then expect l' s' else None
  | _, _ => None
  end.

Section parser.
(** [elem fuel depth]: the parser of a nested value. *)
Variable value : string -> option (json * string).

(** The elements of an array after its first one or its opening bracket:
    [n] bounds the number of elements still to read. *)
Fixpoint parse_elems (n : nat) (s : string) : option (list json * string) :=
  match n with
  | O => None
  | S n' =>
    match value s with
    | None => None
    | Some (j, s1) =>
      match skip_ws s1 with
      | String c s2 =>
        if byte_val c =? 44 then
          match parse_elems n' s2 with Some (l, r) => Some (j :: l, r) | None => None end
        else if byte_val c =? 93 then Some ([j], s2)
        else None
      | "" => None
      end
    end
  end.

Fixpoint parse_members (n : nat) (s : string) : option (list (string * json) * string) :=
  match n with
  | O => None
  | S n' =>
    match skip_ws s with
    | String q s0 =>
      if byte_val q =? 34 then
        match parse_string s0 with
        | None => None
        | Some (k, s1) =>
          match skip_ws s1 with
          | String c s2 =>
            if byte_val c =? 58 then
              match value s2 with
              | None => None
              | Some (j, s3) =>
                match skip_ws s3 with
                | String d s4 =>
                  if byte_val d =? 44 then
                    match parse_members n' s4 with
                    | Some (l, r) => Some ((k, j) :: l, r)
                    | None => None
                    end
                  else if byte_val d =? 125 then Some ([(k, j)], s4)
                  else None
                | "" => None
                end
              end
            else None
          | "" => None
          end
        end
      else None
    | "" => None
    end
  end.
End parser.

(** [depth] is the nesting still allowed ([maxNestingDepth] is 10000); it is
    also what the recursion decreases on.  The element counters are bounded by
    the length of the text. *)
Fixpoint parse_value (depth : nat) (s : string) : option (json * string) :=
  match skip_ws s with
  | "" => None
  | String c s' =>
    let b := byte_val c in
    if b =? 123 then
      match depth with
      | O => None
      | S depth' =>
        match skip_ws s' with
        | String d s'' =>
          if byte_val d =? 125 then Some (JObj [], s'')
          else match parse_members (parse_value depth') (String.length s) s' with
               | Some (l, r) => Some (JObj l, r)
               | None => None
               end
        | "" => None
        end
      end
    else if b =? 91 then
      match depth with
      | O => None
      | S depth' =>
        match skip_ws s' with
        | String d s'' =>
          if byte_val d =? 93 then Some (JArr [], s'')
          else match parse_elems (parse_value depth') (String.length s) s' with
               | Some (l, r) => Some (JArr l, r)
               | None => None
               end
        | "" => None
        end
      end
    else if b =? 34 then
      match parse_string s' with Some (str, r) => Some (JStr str, r) | None => None end
    else if b =? 116 then match expect "rue" s' with Some r => Some (JBool true, r) | None => None end
    else if b =? 102 then match expect "alse" s' with Some r => Some (JBool false, r) | None => None end
    else if b =? 110 then match expect "ull" s' with Some r => Some (JNull, r) | None => None end
    else match scan_number (String c s') with
         | Some (lit, r) => Some (JNum lit, r)
         | None => None
         end
  end.

Definition maxNestingDepth : nat := Z.to_nat 10000.

(** A whole text: one value, then only whitespace. *)
Definition parse_json (s : string) : option json :=
  match parse_value maxNestingDepth s with
  | Some (j, r) => match skip_ws r with "" => Some j | _ => None end
  | None => None
  end.
