(* ===== verification/JsonFacts.v ===== *)
(** * Facts about encoding/json: the round trip of print and parse

    [parse_print_json]: every well-formed JSON value (strings in UTF-8, number
    literals in JSON's syntax, nested at most [maxNestingDepth] deep) is read
    back unchanged from its encoding, also with whitespace behind it (the
    newline an [Encoder] adds). *)
From S2P Require Import Prelude GoStrings Json.
From Stdlib Require Import Ascii.
#[local] Open Scope string_scope.
#[local] Open Scope Z_scope.

(** ** UTF-8 *)

Definition rune_ok (s : string) : bool :=
  let '(r, n) := decode_rune s in negb ((r =? rune_error) && (n =? 1)%nat).

Fixpoint utf8_go (skip : nat) (s : string) : bool :=
  match s with
  | "" => true
  | String _ s' =>
    match skip with
    | S k => utf8_go k s'
    | O => rune_ok s && utf8_go ((decode_rune s).2 - 1) s'
    end
  end.
(** [utf8.ValidString] *)
Definition utf8_valid (s : string) : bool := utf8_go 0 s.

(** A well-formed rune above 0x7f, by its width. *)
Inductive multi : string -> Z -> Prop :=
| multi2 c0 c1 :
    194 <= byte_val c0 <= 223 -> 128 <= byte_val c1 <= 191 ->
    multi (String c0 (String c1 "")) ((byte_val c0 - 192) * 64 + (byte_val c1 - 128))
| multi3 c0 c1 c2 :
    224 <= byte_val c0 <= 239 ->
    (if byte_val c0 =? 224 then 160 else 128) <= byte_val c1
      <= (if byte_val c0 =? 237 then 159 else 191) ->
    128 <= byte_val c2 <= 191 ->
    multi (String c0 (String c1 (String c2 "")))
      ((byte_val c0 - 224) * 4096 + (byte_val c1 - 128) * 64 + (byte_val c2 - 128))
| multi4 c0 c1 c2 c3 :
    240 <= byte_val c0 <= 244 ->
    (if byte_val c0 =? 240 then 144 else 128) <= byte_val c1
      <= (if byte_val c0 =? 244 then 143 else 191) ->
    128 <= byte_val c2 <= 191 -> 128 <= byte_val c3 <= 191 ->
    multi (String c0 (String c1 (String c2 (String c3 ""))))
      ((byte_val c0 - 240) * 262144 + (byte_val c1 - 128) * 4096
       + (byte_val c2 - 128) * 64 + (byte_val c3 - 128)).

Lemma rune_ok_inv c s' :
  rune_ok (String c s') = true -> 128 <= byte_val c ->
  exists chunk r rest, String c s' = chunk +:+ rest /\ multi chunk r
    /\ decode_rune (String c s') = (r, String.length chunk).
Proof.
  intros Hok Hc. revert Hok. rw /rune_ok. simpl decode_rune.
  destruct (byte_val c <? 128) eqn:?; [lia|].
  destruct ((194 <=? byte_val c) && (byte_val c <=? 223)) eqn:?.
  { destruct s' as [|c1 s1]; [done|].
    destruct (cont _ _ c1) eqn:Hk; [|done]. rw /cont in Hk. intros _.
    exists (String c (String c1 "")). eexists. exists s1.
    split; [done|]. split; [by constructor; lia|done]. }
  destruct ((224 <=? byte_val c) && (byte_val c <=? 239)) eqn:?.
  { destruct s' as [|c1 [|c2 s1]]; [done..|].
    destruct (cont _ _ c1 && cont _ _ c2) eqn:Hk; [|done]. rw /cont in Hk. intros _.
    exists (String c (String c1 (String c2 ""))). eexists. exists s1.
    split; [done|]. split; [by constructor; lia|done]. }
  destruct ((240 <=? byte_val c) && (byte_val c <=? 244)) eqn:?; [|done].
  destruct s' as [|c1 [|c2 [|c3 s1]]]; [done..|].
  destruct (cont _ _ c1 && cont _ _ c2 && cont _ _ c3) eqn:Hk; [|done]. rw /cont in Hk. intros _.
  exists (String c (String c1 (String c2 (String c3 "")))). eexists. exists s1.
  split; [done|]. split; [by constructor; lia|done].
Qed.

(** Decoding looks only at the rune itself. *)
Lemma decode_multi chunk r t :
  multi chunk r -> decode_rune (chunk +:+ t) = (r, String.length chunk).
Proof.
  intros []; rw ?str_app_cons /decode_rune /cont;
    repeat (case_match; try lia); try done; lia.
Qed.

Lemma byte_of_eq z c : z = byte_val c -> byte_of z = c.
Proof. intros ->. apply byte_of_val. Qed.

Lemma encode_multi chunk r : multi chunk r -> encode_rune r = chunk.
Proof.
  intros [c0 c1 H0 H1|c0 c1 c2 H0 H1 H2|c0 c1 c2 c3 H0 H1 H2 H3]; rw /encode_rune /rune_error.
  - repeat (case_match; try lia). repeat f_equal; apply byte_of_eq; Z.to_euclidean_division_equations; lia.
  - destruct (byte_val c0 =? 224) eqn:?, (byte_val c0 =? 237) eqn:?;
      repeat (case_match; try lia); repeat f_equal; apply byte_of_eq; Z.to_euclidean_division_equations; lia.
  - destruct (byte_val c0 =? 240) eqn:?, (byte_val c0 =? 244) eqn:?;
      repeat (case_match; try lia); repeat f_equal; apply byte_of_eq; Z.to_euclidean_division_equations; lia.
Qed.

(** ** Strings *)

(** A piece of an encoded string: its bytes pass the scanner, and unquoting
    them gives [chunk]. *)
Definition piece (emit chunk : string) : Prop :=
  (forall t, scan_string InStr (emit +:+ t)
     = match scan_string InStr t with
       | Some (raw, rest) => Some (emit +:+ raw, rest)
       | None => None
       end)
  /\ (forall t, unquote_go 0 (emit +:+ t) = chunk +:+ unquote_go 0 t).

Lemma piece_plain c :
  32 <= byte_val c < 128 -> byte_val c <> 34 -> byte_val c <> 92 -> piece (String c "") (String c "").
Proof.
  intros Hc H1 H2. split; intros t; rw !str_app_cons; change ("" +:+ t) with t; simpl.
  - by repeat (case_match; try lia).
  - by repeat (case_match; try lia).
Qed.

Lemma piece_ascii c : byte_val c < 128 -> piece (quote_ascii c) (String c "").
Proof.
  intros Hc. pose proof (byte_val_range c) as Hr.
  destruct (decide (32 <= byte_val c /\ byte_val c <> 34 /\ byte_val c <> 92 /\ byte_val c <> 60
    /\ byte_val c <> 62 /\ byte_val c <> 38)) as [(?&?&?&?&?&?)|Hesc].
  { rw /quote_ascii. repeat (case_match; try lia). by apply piece_plain. }
  destruct c as [[] [] [] [] [] [] [] []]; vm_compute in Hc; try done;
    try (exfalso; apply Hesc; by vm_compute).
  all: split; intros t; [|reflexivity].
  all: match goal with |- context [quote_ascii ?c] =>
         let e := eval vm_compute in (quote_ascii c) in change (quote_ascii c) with e end.
  all: rw !str_app_cons; change ("" +:+ t) with t; simpl; by destruct (scan_string InStr t) as [[]|].
Qed.

Lemma multi_high chunk r c : multi chunk r -> str_has c chunk = true -> 128 <= byte_val c.
Proof.
  intros [] Hc; simpl in Hc;
    repeat (apply orb_true_iff in Hc as [Hc%Ascii.eqb_eq|Hc]; [subst; repeat case_match; lia|]); done.
Qed.

Lemma scan_high s t :
  (forall c, str_has c s = true -> 128 <= byte_val c) ->
  scan_string InStr (s +:+ t) = match scan_string InStr t with
    | Some (raw, rest) => Some (s +:+ raw, rest) | None => None end.
Proof.
  induction s as [|c s IH]; intros Hs.
  - change ("" +:+ t) with t. by destruct (scan_string InStr t) as [[]|].
  - assert (128 <= byte_val c) by (apply Hs; simpl; by rw Ascii.eqb_refl).
    rw str_app_cons. cbn [scan_string].
    rw IH; [intros d Hd; apply Hs; simpl; rw Hd; apply orb_true_r|].
    destruct (byte_val c =? 34) eqn:?; [lia|]. destruct (byte_val c =? 92) eqn:?; [lia|].
    destruct (byte_val c <? 32) eqn:?; [lia|]. by destruct (scan_string InStr t) as [[]|].
Qed.

Lemma multi_cons chunk r : multi chunk r -> exists c s, chunk = String c s /\ 128 <= byte_val c.
Proof. intros []; eexists _, _; (split; [done|]); lia. Qed.

Lemma unquote_skip s t : unquote_go (String.length s) (s +:+ t) = unquote_go 0 t.
Proof. induction s as [|c s IH]; [done|]. by rw str_app_cons. Qed.

Lemma piece_multi chunk r : multi chunk r -> piece chunk chunk.
Proof.
  intros Hm. split; intros t.
  { apply scan_high. intros c. by apply (multi_high _ r). }
  destruct (multi_cons _ _ Hm) as (c & s & -> & Hc).
  pose proof (decode_multi _ _ t Hm) as Hd. pose proof (encode_multi _ _ Hm) as He.
  rw str_app_cons in Hd |- *. cbn [unquote_go]. rw Hd He.
  repeat (case_match; try lia). simpl. rw Nat.sub_0_r.
  change (String.append s t) with (s +:+ t). by rw unquote_skip.
Qed.

Definition is_line_sep (r : Z) : bool := (r =? 8232) || (r =? 8233).

Lemma piece_line_sep r :
  is_line_sep r = true ->
  piece (String backslash ("u202" +:+ String (hex_digit (r mod 16)) "")) (encode_rune r).
Proof.
  rw /is_line_sep. intros Hr. assert (r = 8232 \/ r = 8233) as [-> | ->] by lia;
    (split; intros t; [|reflexivity]); simpl; rw !str_app_cons; change ("" +:+ t) with t; simpl;
    by destruct (scan_string InStr t) as [[]|].
Qed.

Lemma quote_skip_copy s t :
  quote_go (String.length s) Copy (s +:+ t) = s +:+ quote_go 0 Copy t.
Proof. induction s as [|c s IH]; [done|]. rw !str_app_cons /= IH //. Qed.

Lemma quote_skip_drop s t :
  quote_go (String.length s) Drop (s +:+ t) = quote_go 0 Copy t.
Proof. induction s as [|c s IH]; [by destruct t|]. by rw str_app_cons /= IH. Qed.

Lemma utf8_skip s t : utf8_go (String.length s) (s +:+ t) = utf8_go 0 t.
Proof. induction s as [|c s IH]; [done|]. by rw str_app_cons /= IH. Qed.

Lemma utf8_cons c s :
  utf8_go 0 (String c s)
  = rune_ok (String c s) && utf8_go ((decode_rune (String c s)).2 - 1) s.
Proof. done. Qed.

(** What is read back of a text: each byte that is not part of a well-formed
    rune comes out as U+FFFD, which the encoder writes for it. *)
Fixpoint clean_go (skip : nat) (s : string) : string :=
  match s with
  | "" => ""
  | String c s' =>
    match skip with
    | S k => String c (clean_go k s')
    | O => if rune_ok s then String c (clean_go ((decode_rune s).2 - 1) s')
           else encode_rune rune_error +:+ clean_go 0 s'
    end
  end.
Definition clean_text (s : string) : string := clean_go 0 s.

Lemma clean_skip s t : clean_go (String.length s) (s +:+ t) = s +:+ clean_go 0 t.
Proof. induction s as [|c s IH]; [done|]. by rw !str_app_cons /= IH. Qed.

Lemma clean_valid s : utf8_valid s = true -> clean_text s = s.
Proof.
  rw /utf8_valid /clean_text. generalize 0%nat as k. induction s as [|c s IH]; intros k; [done|].
  destruct k as [|k]; [|intros Hk; cbn [clean_go]; by rw IH].
  rw utf8_cons. intros [Hok Hs]%andb_true_iff. cbn [clean_go]. by rw Hok IH.
Qed.

Lemma piece_invalid : piece (String backslash "ufffd") (encode_rune rune_error).
Proof.
  split; intros t; [|reflexivity]. rw !str_app_cons; change ("" +:+ t) with t; simpl.
  by destruct (scan_string InStr t) as [[]|].
Qed.

(** The encoder's loop, one rune at a time. *)
Lemma quote_step c s :
  exists src chunk emit rest, String c s = src +:+ rest /\ src <> ""
    /\ clean_go 0 (String c s) = chunk +:+ clean_go 0 rest
    /\ quote_go 0 Copy (String c s) = emit +:+ quote_go 0 Copy rest /\ piece emit chunk.
Proof.
  destruct (decide (byte_val c < 128)) as [Hc|Hc].
  { exists (String c ""), (String c ""), (quote_ascii c), s. split_and!; [done..| | |by apply piece_ascii].
    - cbn [clean_go]. rw /rune_ok. cbn [decode_rune]. rw (proj2 (Z.ltb_lt _ _) Hc).
      assert ((byte_val c =? rune_error) = false) as -> by (apply Z.eqb_neq; rw /rune_error; lia). done.
    - simpl. destruct (byte_val c <? 128) eqn:?; [done|lia]. }
  destruct (rune_ok (String c s)) eqn:Hok.
  2: { exists (String c ""), (encode_rune rune_error), (String backslash "ufffd"), s.
    split_and!; [done..|cbn [clean_go]; by rw Hok| |apply piece_invalid].
    cbn [quote_go]. destruct (byte_val c <? 128) eqn:?; [lia|]. rw /rune_ok in Hok.
    destruct (decode_rune (String c s)) as [r n]. apply negb_false_iff in Hok. by rw Hok. }
  destruct (rune_ok_inv c s Hok ltac:(lia)) as (chunk & r & rest & Heq & Hm & Hd).
  destruct (multi_cons _ _ Hm) as (c' & tl & -> & _). rw str_app_cons in Heq.
  injection Heq as <- ->.
  assert (quote_go 0 Copy (String c (tl +:+ rest)) =
    if is_line_sep r then String backslash ("u202" +:+ String (hex_digit (r mod 16)) "")
      +:+ quote_go (String.length tl) Drop (tl +:+ rest)
    else String c (quote_go (String.length tl) Copy (tl +:+ rest))) as Hq.
  { cbn [quote_go]. rw Hd. destruct (byte_val c <? 128) eqn:?; [lia|].
    rw /rune_ok Hd in Hok. apply negb_true_iff in Hok. rw Hok. simpl. by rw Nat.sub_0_r. }
  exists (String c tl), (String c tl), (if is_line_sep r then
    String backslash ("u202" +:+ String (hex_digit (r mod 16)) "") else String c tl), rest.
  rw Hq quote_skip_drop quote_skip_copy. split_and!; [done..| |by destruct (is_line_sep r)|].
  { cbn [clean_go]. rw Hok Hd /= Nat.sub_0_r clean_skip. by rw str_app_cons. }
  destruct (is_line_sep r) eqn:Hl; [|exact (piece_multi _ _ Hm)].
  rw -(encode_multi _ _ Hm). by apply piece_line_sep.
Qed.

Lemma piece_nil : piece "" "".
Proof.
  split; intros t; change ("" +:+ t) with t; [|done].
  by destruct (scan_string InStr t) as [[]|].
Qed.

Lemma piece_app e1 e2 c1 c2 : piece e1 c1 -> piece e2 c2 -> piece (e1 +:+ e2) (c1 +:+ c2).
Proof.
  intros [Hs1 Hu1] [Hs2 Hu2]. split; intros t; rw !str_app_assoc.
  - rw Hs1 Hs2. destruct (scan_string InStr t) as [[]|]; [|done]. by rw str_app_assoc.
  - by rw Hu1 Hu2.
Qed.

Lemma quote_piece s : piece (quote_go 0 Copy s) (clean_text s).
Proof.
  rw /clean_text. remember (String.length s) as n eqn:Hn. revert s Hn.
  induction (Nat.lt_wf_0 n) as [n _ IH]; intros [|c s] Hn; [apply piece_nil|].
  destruct (quote_step c s) as (src & chunk & emit & rest & Heq & Hne & -> & -> & Hp).
  apply piece_app; [done|]. eapply IH; [|reflexivity].
  rw Hn Heq str_length_app. destruct src; [done|]. simpl. lia.
Qed.

Lemma parse_quote s rest :
  parse_string (quote_go 0 Copy s +:+ String quote_char rest) = Some (clean_text s, rest).
Proof.
  destruct (quote_piece s) as [Hscan Hunq]. rw /parse_string Hscan. simpl.
  rw str_app_nil_r /unquote. pose proof (Hunq "") as Hu. rw !str_app_nil_r in Hu. by rw Hu.
Qed.

(** ** Numbers *)

Fixpoint all_digits (s : string) : bool :=
  match s with
  | "" => true
  | String c s' => is_digit c && all_digits s'
  end.

(** A JSON integer literal: no leading zero. *)
Definition nat_literal (s : string) : bool :=
  match s with
  | "" => false
  | String c s' => if byte_val c =? 48 then String.eqb s' "" else is_digit c && all_digits s'
  end.
Definition int_literal (s : string) : bool :=
  match s with
  | String c s' => if byte_val c =? 45 then nat_literal s' else nat_literal s
  | "" => false
  end.

(** What may follow a value without changing how it is read. *)
Definition terminator (rest : string) : bool :=
  match rest with
  | "" => true
  | String c _ => negb (is_digit c) && negb (byte_val c =? 46) && negb (byte_val c =? 101)
                  && negb (byte_val c =? 69)
  end.

Lemma scan_digits_app s rest :
  all_digits s = true -> terminator rest = true -> scan_digits (s +:+ rest) = (s, rest).
Proof.
  intros Hs Hr. induction s as [|c s IH].
  - change ("" +:+ rest) with rest. destruct rest as [|c r]; [done|]. simpl in *.
    by destruct (is_digit c).
  - simpl in Hs. apply andb_true_iff in Hs as [Hc Hs]. rw str_app_cons /= Hc. by rw IH.
Qed.

Lemma scan_frac_term s : terminator s = true -> scan_frac s = Some ("", s).
Proof. destruct s as [|c s]; [done|]. simpl. intros H. case_match; [lia|done]. Qed.

Lemma scan_exp_term s : terminator s = true -> scan_exp s = Some ("", s).
Proof. destruct s as [|c s]; [done|]. simpl. intros H. case_match; [lia|done]. Qed.

Lemma scan_int_literal s rest :
  nat_literal s = true -> terminator rest = true -> scan_int (s +:+ rest) = Some (s, rest).
Proof.
  intros Hs Hr. destruct s as [|c s]; [done|]. rw str_app_cons. simpl in *.
  destruct (byte_val c =? 48).
  - apply String.eqb_eq in Hs as ->. done.
  - apply andb_true_iff in Hs as [-> Hs]. by rw scan_digits_app.
Qed.

Lemma scan_number_literal s rest :
  int_literal s = true -> terminator rest = true -> scan_number (s +:+ rest) = Some (s, rest).
Proof.
  intros Hs Hr. destruct s as [|c s]; [done|]. rw /scan_number str_app_cons. simpl in Hs.
  destruct (byte_val c =? 45) eqn:Hc.
  - rw scan_int_literal // scan_frac_term // scan_exp_term //=. by rw !str_app_nil_r.
  - rw -str_app_cons scan_int_literal // scan_frac_term // scan_exp_term //=.
    by rw !str_app_nil_r.
Qed.

Lemma pretty_digit (d : N) :
  (d < 10)%N -> byte_val (pretty_N_char d) = 48 + Z.of_N d /\ is_digit (pretty_N_char d) = true.
Proof.
  intros Hd.
  assert (d = 0 \/ d = 1 \/ d = 2 \/ d = 3 \/ d = 4 \/ d = 5 \/ d = 6 \/ d = 7 \/ d = 8 \/ d = 9)%N
    by lia.
  by destruct_or!; subst.
Qed.

Lemma pretty_N_go_literal (n : N) (s : string) :
  (0 < n)%N -> all_digits s = true ->
  exists c ds, pretty_N_go n s = String c ds /\ is_digit c = true /\ byte_val c <> 48
    /\ all_digits ds = true.
Proof.
  revert s. induction (N.lt_wf_0 n) as [n _ IH]; intros s Hn Hs.
  assert (n mod 10 < 10)%N as Hm by (apply N.mod_lt; lia).
  destruct (pretty_digit _ Hm) as [Hv Hd].
  rw pretty_N_go_step //. destruct (decide (n / 10 = 0)%N) as [Hz|Hz].
  - rw Hz pretty_N_go_0. eexists _, _. split_and!; [done..| |done].
    rw Hv. assert (n mod 10 = n)%N; [|lia]. apply N.mod_small. by apply N.div_small_iff in Hz.
  - apply IH; [apply N.div_lt; lia|by apply N.neq_0_lt_0|]. simpl. by rw Hd.
Qed.

Lemma pretty_N_literal (n : N) : nat_literal (pretty n) = true.
Proof.
  rw /pretty /pretty_N. case_decide as Hn; [by subst|].
  destruct (pretty_N_go_literal n "") as (c & ds & -> & Hc & Hz & Hds); [lia|done|].
  simpl. destruct (byte_val c =? 48) eqn:?; [lia|]. by rw Hc Hds.
Qed.

Lemma itoa_literal z : int_literal (itoa z) = true.
Proof.
  rw /itoa. destruct z as [|p|p]; [done|..].
  - change (pretty (Z.pos p)) with (pretty (N.pos p)).
    pose proof (pretty_N_literal (N.pos p)) as H. destruct (pretty (N.pos p)) as [|c s]; [done|].
    simpl in *. destruct (byte_val c =? 45) eqn:E; [|done].
    destruct (byte_val c =? 48) eqn:E'; [lia|]. apply andb_true_iff in H as [H _].
    rw /is_digit in H. lia.
  - change (pretty (Z.neg p)) with (String "-" (pretty (N.pos p))). apply pretty_N_literal.
Qed.

(** ** Values *)

Fixpoint wf_json (depth : nat) (j : json) {struct j} : bool :=
  match j with
  | JNull | JBool _ => true
  | JNum lit => int_literal lit
  | JStr s => utf8_valid s
  | JArr l => match depth with O => false | S d => forallb (wf_json d) l end
  | JObj l => match depth with
              | O => false
              | S d => forallb (fun kv => utf8_valid kv.1 && wf_json d kv.2) l
              end
  end.

Lemma wf_json_mono j : forall d d', wf_json d j = true -> (d <= d')%nat -> wf_json d' j = true.
Proof.
  induction j as [| | | |l IH|l IH] using json_ind; intros d d' Hw Hd; try done.
  all: destruct d as [|d], d' as [|d']; try done; try lia; cbn in *.
  all: rw forallb_forall in Hw; rw forallb_forall; intros x Hx; specialize (Hw x Hx).
  all: rw Forall_forall in IH; apply list_elem_of_In in Hx.
  - apply (IH x Hx d d'); [done|lia].
  - apply andb_true_iff in Hw as [-> Hw]. cbn. apply (IH x Hx d d'); [done|lia].
Qed.

(** Any text is allowed in the strings. *)
Fixpoint ok_json (depth : nat) (j : json) {struct j} : bool :=
  match j with
  | JNull | JBool _ | JStr _ => true
  | JNum lit => int_literal lit
  | JArr l => match depth with O => false | S d => forallb (ok_json d) l end
  | JObj l => match depth with O => false | S d => forallb (fun kv => ok_json d kv.2) l end
  end.

Fixpoint clean_json (j : json) : json :=
  match j with
  | JNull | JBool _ | JNum _ => j
  | JStr s => JStr (clean_text s)
  | JArr l => JArr (map clean_json l)
  | JObj l => JObj (map (fun kv => (clean_text kv.1, clean_json kv.2)) l)
  end.

(** Values in UTF-8 are their own reading. *)
Lemma wf_ok_clean j : forall d, wf_json d j = true -> ok_json d j = true /\ clean_json j = j.
Proof.
  induction j as [| | |s|l IH|l IH] using json_ind; intros d Hw; try done.
  - split; [done|]. cbn. by rw clean_valid.
  - destruct d as [|d]; [done|]. cbn in Hw |- *. rw Forall_forall in IH. rw forallb_forall in Hw.
    assert (forall x, List.In x l -> ok_json d x = true /\ clean_json x = x) as Hx.
    { intros x Hx. apply IH; [by apply list_elem_of_In|by apply Hw]. }
    split; [apply forallb_forall; intros x ?; by apply Hx|]. f_equal. rw -{2}(map_id l). by apply map_ext_in, Hx.
  - destruct d as [|d]; [done|]. cbn in Hw |- *. rw Forall_forall in IH. rw forallb_forall in Hw.
    assert (forall x, List.In x l -> utf8_valid x.1 = true /\ ok_json d x.2 = true /\ clean_json x.2 = x.2) as Hx.
    { intros x Hx. specialize (Hw x Hx). apply andb_true_iff in Hw as [? ?]. split; [done|].
      apply IH; [by apply list_elem_of_In|done]. }
    split; [apply forallb_forall; intros x ?; by apply Hx|]. f_equal. rw -{2}(map_id l). apply map_ext_in.
    intros [k x] Hkx. destruct (Hx _ Hkx) as (Hk & _ & Hc). cbn [fst snd] in *. by rw (clean_valid _ Hk) Hc.
Qed.

Lemma commas_cons2 x y l t : commas (x :: y :: l) +:+ t = x +:+ "," +:+ commas (y :: l) +:+ t.
Proof.
  transitivity ((x +:+ "," +:+ commas (y :: l)) +:+ t); [done|]. by rw !str_app_assoc.
Qed.

(** A printed value starts with a byte that is neither blank nor a closing bracket. *)
Lemma print_head depth j :
  ok_json depth j = true ->
  exists c t, print_json j = String c t /\ is_space c = false
    /\ byte_val c <> 93 /\ byte_val c <> 125.
Proof.
  intros Hw. destruct j as [|[]|lit| | |]; try (by eexists _, _; split_and!; [reflexivity|done..]).
  simpl in *. destruct lit as [|c s]; [done|]. eexists _, _. split; [done|].
  rw /is_space. simpl in Hw. destruct (byte_val c =? 45) eqn:?; [lia|].
  simpl in Hw. destruct (byte_val c =? 48) eqn:?; [lia|].
  apply andb_true_iff in Hw as [Hc _]. rw /is_digit in Hc. lia.
Qed.

Lemma skip_ws_head c s : is_space c = false -> skip_ws (String c s) = String c s.
Proof. simpl. by intros ->. Qed.

Definition reads (value : string -> option (json * string)) (j : json) : Prop :=
  forall rest, terminator rest = true -> value (print_json j +:+ rest) = Some (clean_json j, rest).

Lemma skip_ws_punct c t : is_space c = false -> skip_ws (String c "" +:+ t) = String c t.
Proof. apply skip_ws_head. Qed.

Lemma parse_elems_print value l n rest :
  Forall (reads value) l -> l <> [] -> (length l <= n)%nat ->
  parse_elems value n (commas (map print_json l) +:+ "]" +:+ rest) = Some (map clean_json l, rest).
Proof.
  intros Hl. revert n. induction Hl as [|x l Hx Hl IH]; intros n Hne Hn; [done|].
  destruct n as [|n]; simpl in Hn; [lia|]. destruct l as [|y l].
  - simpl. rw str_app_nil_r Hx; done.
  - cbn [map]. rw commas_cons2. cbn [parse_elems]. rw Hx; [done|].
    rw skip_ws_punct //. change (byte_val "," =? 44) with true. cbv iota.
    change (print_json y :: map print_json l) with (map print_json (y :: l)).
    rw IH; [done|lia|done].
Qed.

Definition clean_member (kv : string * json) : string * json := (clean_text kv.1, clean_json kv.2).

Definition print_member (kv : string * json) : string :=
  quote_json kv.1 +:+ ":" +:+ print_json kv.2.

Lemma parse_members_print value l n rest :
  Forall (fun kv => reads value kv.2) l -> l <> [] -> (length l <= n)%nat ->
  parse_members value n (commas (map print_member l) +:+ "}" +:+ rest) = Some (map clean_member l, rest).
Proof.
  intros Hl. revert n. induction Hl as [|[k x] l Hx Hl IH]; intros n Hne Hn; [done|].
  destruct n as [|n]; simpl in Hn; [lia|].
  assert (forall t, terminator t = true ->
    parse_members value (S n) (print_member (k, x) +:+ t) =
    match skip_ws t with
    | String d s4 => if byte_val d =? 44 then
        match parse_members value n s4 with Some (l, r) => Some (clean_member (k, x) :: l, r) | None => None end
      else if byte_val d =? 125 then Some ([clean_member (k, x)], s4) else None
    | "" => None
    end) as Hstep.
  { simpl in Hx. intros t Ht. rw /print_member /quote_json; cbn [fst snd].
    rw !str_app_cons !str_app_assoc.
    cbn [parse_members]. rw skip_ws_head //. change (byte_val quote_char =? 34) with true. cbv iota.
    rw str_app_cons parse_quote //. change ("" +:+ ":" +:+ print_json x +:+ t) with (":" +:+ print_json x +:+ t).
    rw skip_ws_punct //. change (byte_val ":" =? 58) with true. cbv iota. by rw Hx. }
  destruct l as [|y l].
  - cbn [map commas foldr]. rw str_app_nil_r Hstep //.
  - cbn [map]. rw commas_cons2 Hstep //.
    rw skip_ws_punct //. change (byte_val "," =? 44) with true. cbv iota.
    change (print_member y :: map print_member l) with (map print_member (y :: l)).
    rw IH; [done|lia|done].
Qed.

Lemma commas_length {A} (f : A -> string) (l : list A) :
  (forall x, x ∈ l -> f x <> "") -> (length l <= String.length (commas (map f l)))%nat.
Proof.
  induction l as [|x l IH]; intros Hf; [done|].
  assert (1 <= String.length (f x))%nat as Hx.
  { specialize (Hf x ltac:(set_solver)). destruct (f x); [done|]. simpl. lia. }
  destruct l as [|y l].
  - simpl. rw str_app_nil_r. lia.
  - assert (commas (map f (x :: y :: l)) = f x +:+ "," +:+ commas (map f (y :: l))) as -> by done.
    specialize (IH ltac:(set_solver)). revert IH.
    generalize (commas (map f (y :: l))) as t. intros t IH. rw !str_length_app.
    change (length (x :: y :: l)) with (S (length (y :: l))). lia.
Qed.

Lemma parse_value_arr d s :
  (exists c t, s = String c t /\ is_space c = false /\ byte_val c <> 93) ->
  parse_value (S d) ("[" +:+ s)
  = match parse_elems (parse_value d) (S (String.length s)) s with
    | Some (l, r) => Some (JArr l, r) | None => None end.
Proof.
  intros (c & t & -> & Hsp & Hc). rw str_app_cons.
  change ("" +:+ String c t) with (String c t).
  cbn [parse_value]. rw (skip_ws_head "[") //. change (byte_val "[" =? 123) with false.
  change (byte_val "[" =? 91) with true. cbv iota. rw skip_ws_head //.
  destruct (byte_val c =? 93) eqn:?; [lia|]. done.
Qed.

Lemma parse_value_obj d s :
  (exists c t, s = String c t /\ is_space c = false /\ byte_val c <> 125) ->
  parse_value (S d) ("{" +:+ s)
  = match parse_members (parse_value d) (S (String.length s)) s with
    | Some (l, r) => Some (JObj l, r) | None => None end.
Proof.
  intros (c & t & -> & Hsp & Hc). rw str_app_cons.
  change ("" +:+ String c t) with (String c t).
  cbn [parse_value]. rw (skip_ws_head "{") //. change (byte_val "{" =? 123) with true.
  cbv iota. rw skip_ws_head //. destruct (byte_val c =? 125) eqn:?; [lia|]. done.
Qed.

Lemma commas_app {A} (f : A -> string) x l t :
  exists u, commas (map f (x :: l)) +:+ t = f x +:+ u.
Proof.
  destruct l as [|y l]; [exists t; simpl; by rw str_app_nil_r|].
  eexists. apply commas_cons2.
Qed.

Lemma parse_value_num d lit rest :
  int_literal lit = true -> terminator rest = true ->
  parse_value d (lit +:+ rest) = Some (JNum lit, rest).
Proof.
  intros Hl Hr. pose proof (scan_number_literal _ _ Hl Hr) as Hs.
  destruct lit as [|c s]; [done|]. rw str_app_cons in Hs |- *.
  assert (byte_val c = 45 \/ 48 <= byte_val c <= 57) as Hc.
  { simpl in Hl. destruct (byte_val c =? 45) eqn:?; [lia|]. simpl in Hl.
    destruct (byte_val c =? 48) eqn:?; [lia|]. apply andb_true_iff in Hl as [Hl _].
    rw /is_digit in Hl. lia. }
  destruct d; cbn [parse_value]; (rw skip_ws_head; [rw /is_space; lia|]); rw Hs;
    repeat (case_match; try lia); done.
Qed.

Lemma parse_print d j : ok_json d j = true -> reads (parse_value d) j.
Proof.
  revert d. induction j as [|[]|lit|s|l IH|l IH] using json_ind; intros d Hw rest Hrest.
  1-3: by destruct d.
  - by apply parse_value_num.
  - simpl in Hw |- *. rw /quote_json str_app_cons str_app_assoc str_app_cons.
    destruct d; cbn [parse_value]; rw skip_ws_head //;
      change (byte_val quote_char =? 123) with false; change (byte_val quote_char =? 91) with false;
      change (byte_val quote_char =? 34) with true; cbv iota; by rw parse_quote.
  - destruct d as [|d]; [done|]. simpl in Hw. rw forallb_forall in Hw.
    cbn [print_json]. rw !str_app_assoc.
    destruct l as [|x l]; [done|].
    rw parse_value_arr.
    { destruct (print_head d x (Hw x ltac:(by left))) as (c & t & Hp & Hsp & H93 & _).
      destruct (commas_app print_json x l ("]" +:+ rest)) as [u Hu]. exists c, (t +:+ u).
      by rw Hu Hp. }
    rw parse_elems_print; [|done| |done].
    + apply Forall_forall. intros y Hy. rw Forall_forall in IH. apply IH; [done|].
      apply Hw. by apply list_elem_of_In.
    + rw str_length_app. etrans; [apply (commas_length print_json)|lia].
      intros y Hy. destruct (print_head d y) as (? & ? & -> & _); [|done].
      apply Hw. by apply list_elem_of_In.
  - destruct d as [|d]; [done|]. simpl in Hw. rw forallb_forall in Hw.
    cbn [print_json]. change (fun kv : string * json => quote_json kv.1 +:+ ":" +:+ print_json kv.2)
      with print_member. rw !str_app_assoc.
    destruct l as [|x l]; [done|].
    rw parse_value_obj.
    { destruct (commas_app print_member x l ("}" +:+ rest)) as [u Hu]. rw Hu.
      by eexists _, _. }
    rw parse_members_print; [|done| |done].
    + apply Forall_forall. intros y Hy. rw Forall_forall in IH.
      apply IH; [done|]. apply Hw. by apply list_elem_of_In.
    + rw str_length_app. etrans; [by apply (commas_length print_member)|lia].
Qed.

Lemma skip_ws_term s : skip_ws s = "" -> terminator s = true.
Proof.
  destruct s as [|c s]; [done|]. simpl. destruct (is_space c) eqn:Hc; [|done].
  intros _. rw /is_space in Hc. rw /is_digit. lia.
Qed.

(** Reading a printed value back, with blanks behind it. *)
Lemma parse_print_json j ws :
  wf_json maxNestingDepth j = true -> skip_ws ws = "" ->
  parse_json (print_json j +:+ ws) = Some j.
Proof.
  intros [Ho Hc]%wf_ok_clean Hws. rw /parse_json (parse_print _ _ Ho); [by apply skip_ws_term|]. by rw Hws Hc.
Qed.

(** A value with any text in it, cleaned. *)
Lemma parse_print_clean j : ok_json maxNestingDepth j = true -> parse_json (print_json j) = Some (clean_json j).
Proof.
  intros Ho. pose proof (parse_print _ _ Ho "" eq_refl) as Hp. rw str_app_nil_r in Hp. by rw /parse_json Hp.
Qed.

(** Anything but blanks behind a value is an error. *)
Lemma parse_json_trailing j t :
  wf_json maxNestingDepth j = true -> terminator t = true -> skip_ws t <> "" ->
  parse_json (print_json j +:+ t) = None.
Proof.
  intros [Ho _]%wf_ok_clean Ht Hne. rw /parse_json (parse_print _ _ Ho) //. by destruct (skip_ws t).
Qed.

Lemma wf_json_shallow j : wf_json 3 j = true -> wf_json maxNestingDepth j = true.
Proof.
  intros Hj. apply (wf_json_mono j 3); [done|].
  change maxNestingDepth with (S (S (S (Z.to_nat 9997)))). lia.
Qed.

Lemma ok_json_mono j : forall d d', ok_json d j = true -> (d <= d')%nat -> ok_json d' j = true.
Proof.
  induction j as [| | | |l IH|l IH] using json_ind; intros d d' Hw Hd; try done.
  all: destruct d as [|d], d' as [|d']; try done; try lia; cbn in *.
  all: rw forallb_forall in Hw; rw forallb_forall; intros x Hx; specialize (Hw x Hx).
  all: rw Forall_forall in IH; apply list_elem_of_In in Hx; apply (IH x Hx d d'); [done|lia].
Qed.

(** The encoding of a shallow value is JSON, whatever text is in it. *)
Lemma print_is_json j : ok_json 4 j = true -> is_Some (parse_json (print_json j)).
Proof.
  intros Hj. rw parse_print_clean; [|done]. apply (ok_json_mono j 4); [done|].
  change maxNestingDepth with (S (S (S (S (Z.to_nat 9996))))). lia.
Qed.
