(* ===== verification/JsonCodec.v ===== *)
(** * json.Unmarshal into Go values

    A decoder of a Go type takes a JSON value and the old contents of the
    variable it is stored into; it gives the new contents and whether a value
    of the wrong type was met.  [Unmarshal] reports that error after the whole
    value was decoded, so what could be stored was stored.  A text with a
    syntax error stores nothing. *)
From S2P Require Import Prelude GoStrings Json JsonFacts.
From Stdlib Require Import Ascii.
#[local] Open Scope string_scope.
#[local] Open Scope Z_scope.

Definition decoder (A : Type) : Type := json -> A -> A * bool.

Definition dec_string : decoder string := fun j old =>
  match j with
  | JStr s => (s, false)
  | JNull => (old, false)
  | _ => (old, true)
  end.

(** An [int] takes an integer literal in its range, nothing else. *)
Definition dec_int : decoder Z := fun j old =>
  match j with
  | JNum lit => match atoi lit with Some z => (z, false) | None => (old, true) end
  | JNull => (old, false)
  | _ => (old, true)
  end.

(** A slice: elements already there are decoded into, new ones start at zero. *)
Fixpoint dec_elems {A} (zero : A) (d : decoder A) (l : list json) (old : list A) : list A * bool :=
  match l with
  | [] => ([], false)
  | j :: l' =>
    let '(v, e) := d j (hd zero old) in
    let '(vs, es) := dec_elems zero d l' (tl old) in
    (v :: vs, e || es)
  end.
Definition dec_slice {A} (zero : A) (d : decoder A) : decoder (list A) := fun j old =>
  match j with
  | JArr l => dec_elems zero d l old
  | JNull => ([], false)
  | _ => (old, true)
  end.

(** A field of a struct: its JSON name, and how a value is stored into it. *)
Definition field (A : Type) : Type := string * decoder A.
Definition mk_field {A B} (name : string) (get : A -> B) (set : B -> A -> A) (d : decoder B)
  : field A :=
  (name, fun j a => let '(v, e) := d j (get a) in (set v a, e)).

Definition upper (c : ascii) : Z :=
  let b := byte_val c in if (97 <=? b) && (b <=? 122) then b - 32 else b.

(** [equalFold]: ASCII letters in either case; the Kelvin sign and the long s
    also fold to K and S. *)
Fixpoint fold_eq (name : string) (key : string) : bool :=
  match name with
  | "" => String.eqb key ""
  | String c name' =>
    match key with
    | "" => false
    | String d key' =>
      if byte_val d <? 128 then (upper c =? upper d) && fold_eq name' key'
      else
        let '(r, n) := decode_rune key in
        (((upper c =? 83) && (r =? 383)) || ((upper c =? 75) && (r =? 8490)))
        && fold_eq name' (str_drop n key)
    end
  end.

(** The field of a key: by its exact name, or else the first that folds to it. *)
Definition find_field {A} (fs : list (field A)) (key : string) : option (decoder A) :=
  match List.find (fun f => String.eqb f.1 key) fs with
  | Some f => Some f.2
  | None => option_map snd (List.find (fun f => fold_eq f.1 key) fs)
  end.

Definition dec_member {A} (fs : list (field A)) (st : A * bool) (kv : string * json) : A * bool :=
  match find_field fs kv.1 with
  | Some d => let '(a, e) := d kv.2 st.1 in (a, st.2 || e)
  | None => st
  end.

Definition dec_struct {A} (fs : list (field A)) : decoder A := fun j old =>
  match j with
  | JObj l => foldl (dec_member fs) (old, false) l
  | JNull => (old, false)
  | _ => (old, true)
  end.

(** [json.Unmarshal(data, &v)]: the variable afterwards, and whether it failed. *)
Definition Unmarshal {A} (d : decoder A) (data : string) (old : A) : A * bool :=
  match parse_json data with
  | Some j => d j old
  | None => (old, true)
  end.

(** ** Reading back what was printed *)

Lemma Unmarshal_print {A} (d : decoder A) j ws old :
  wf_json maxNestingDepth j = true -> skip_ws ws = "" ->
  Unmarshal d (print_json j +:+ ws) old = d j old.
Proof. intros. by rw /Unmarshal parse_print_json. Qed.

Lemma dec_int_itoa z old : in_int64 z = true -> dec_int (JNum (itoa z)) old = (z, false).
Proof. intros. by rw /dec_int atoi_itoa. Qed.

(** One member of an object, stored into an [int] field of a struct. *)
Lemma dec_member_int {A} (fs : list (field A)) a e name get (set : Z -> A -> A) x :
  find_field fs name = Some (mk_field name get set dec_int).2 -> in_int64 x = true ->
  dec_member fs (a, e) (name, JNum (itoa x)) = (set x a, e).
Proof. intros Hf Hx. rw /dec_member Hf /= atoi_itoa //= orb_false_r //. Qed.

Lemma dec_member_string {A} (fs : list (field A)) a e name get (set : string -> A -> A) x :
  find_field fs name = Some (mk_field name get set dec_string).2 ->
  dec_member fs (a, e) (name, JStr x) = (set x a, e).
Proof. intros Hf. rw /dec_member Hf /= orb_false_r //. Qed.

Lemma dec_elems_map {A} (zero : A) (d : decoder A) (enc : A -> json) (l : list A) :
  (forall x, x ∈ l -> d (enc x) zero = (x, false)) ->
  dec_elems zero d (enc <$> l) [] = (l, false).
Proof.
  induction l as [|x l IH]; intros Hd; [done|]. simpl.
  by rw Hd; [set_solver|]; rw IH; [set_solver|].
Qed.

Lemma dec_slice_map {A} (zero : A) (d : decoder A) (enc : A -> json) (l : list A) :
  (forall x, x ∈ l -> d (enc x) zero = (x, false)) ->
  dec_slice zero d (JArr (enc <$> l)) [] = (l, false).
Proof. apply dec_elems_map. Qed.

(** An empty body is a syntax error. *)
Lemma Unmarshal_empty {A} (d : decoder A) old : Unmarshal d "" old = (old, true).
Proof. done. Qed.
