(* ===== verification/JsonTotal.v ===== *)
(** * Facts about encoding/json: totality and text

    - the element counters of the parser never run out
      ([parse_counter_suffices]);
    - whatever bytes come in, the text a successful parse yields is UTF-8, and
      so is everything a decoder stores from it ([Unmarshal_preserves]). *)
From S2P Require Import Prelude GoStrings Json JsonFacts JsonCodec.
From Stdlib Require Import Ascii.
#[local] Open Scope string_scope.
#[local] Open Scope Z_scope.

(** ** The element counters are large enough *)

Lemma skip_ws_len s : (String.length (skip_ws s) <= String.length s)%nat.
Proof. induction s as [|c s IH]; [done|]. cbn. destruct (is_space c); cbn; lia. Qed.

Lemma scan_string_len st s raw rest : scan_string st s = Some (raw, rest) -> (String.length rest < String.length s)%nat.
Proof.
  revert st raw. induction s as [|c s IH]; intros st raw; [by destruct st|]. cbn [scan_string].
  intros H.
  repeat match type of H with
  | Some _ = Some _ => injection H as <- <-
  | context [match scan_string ?st s with _ => _ end] => destruct (scan_string st s) as [[? ?]|] eqn:?
  | context [match ?x with _ => _ end] => destruct x
  end; try done; cbn; try lia.
  all: match goal with E : scan_string _ _ = Some _ |- _ => apply IH in E; lia end.
Qed.

Lemma scan_digits_len s : (String.length (scan_digits s).2 <= String.length s)%nat.
Proof.
  induction s as [|c s IH]; [done|]. cbn. destruct (is_digit c); [|done].
  destruct (scan_digits s). cbn in *. lia.
Qed.

Lemma scan_number_len s lit r : scan_number s = Some (lit, r) -> (String.length r < String.length s)%nat.
Proof.
  assert (forall s i r, scan_int s = Some (i, r) -> (String.length r < String.length s)%nat) as Hi.
  { intros [|c t] i t'; [done|]. cbn. destruct (byte_val c =? 48); [intros [= <- <-]; lia|].
    destruct (is_digit c); [|done]. pose proof (scan_digits_len t). destruct (scan_digits t).
    intros [= <- <-]. cbn in *. lia. }
  assert (forall s i r, scan_digits1 s = Some (i, r) -> (String.length r <= String.length s)%nat) as Hd1.
  { intros t i t'. rw /scan_digits1. pose proof (scan_digits_len t). destruct (scan_digits t) as [[] ?]; [done|].
    by intros [= <- <-]. }
  assert (forall s i r, scan_frac s = Some (i, r) -> (String.length r <= String.length s)%nat) as Hf.
  { intros [|c t] i t'; [by intros [= <- <-]|]. cbn. destruct (byte_val c =? 46); [|by intros [= <- <-]].
    destruct (scan_digits1 t) as [[? ?]|] eqn:E; [|done]. apply Hd1 in E. intros [= <- <-]. lia. }
  assert (forall s i r, scan_exp s = Some (i, r) -> (String.length r <= String.length s)%nat) as He.
  { intros [|c t] i t'; [by intros [= <- <-]|]. cbn. destruct (_ || _); [|by intros [= <- <-]].
    destruct t as [|d t]; cbn.
    - done.
    - destruct (_ || _); cbn.
      + destruct (scan_digits1 t) as [[? ?]|] eqn:E; [|done]. apply Hd1 in E. intros [= <- <-]. lia.
      + destruct (scan_digits1 (String d t)) as [[? ?]|] eqn:E; [|done]. apply Hd1 in E. cbn in E.
        intros [= <- <-]. lia. }
  rw /scan_number. destruct s as [|c s]; [done|].
  assert (forall sign t, (String.length t <= S (String.length s))%nat ->
    match scan_int t with None => None | Some (i, s1) => match scan_frac s1 with None => None | Some (f, s2) =>
      match scan_exp s2 with None => None | Some (e, s3) => Some (sign +:+ i +:+ f +:+ e, s3) end end end = Some (lit, r) ->
    (String.length r < S (String.length s))%nat) as Hk.
  { intros sign t Ht. destruct (scan_int t) as [[? ?]|] eqn:E1; [|done]. apply Hi in E1.
    destruct (scan_frac _) as [[? ?]|] eqn:E2; [|done]. apply Hf in E2.
    destruct (scan_exp _) as [[? ?]|] eqn:E3; [|done]. apply He in E3. intros [= _ <-]. lia. }
  destruct (byte_val c =? 45); intros H; apply Hk in H; cbn; try done; lia.
Qed.

Lemma expect_len lit s r : expect lit s = Some r -> (String.length r <= String.length s)%nat.
Proof.
  revert s. induction lit as [|a l IH]; intros s; [by intros [= <-]|]. destruct s as [|b s]; [done|].
  cbn. destruct (Ascii.eqb a b); [|done]. intros ?%IH. lia.
Qed.

(** A parser that takes at least one byte. *)
Definition consumes (value : string -> option (json * string)) : Prop :=
  forall s j r, value s = Some (j, r) -> (String.length r < String.length s)%nat.

Section counters.
Variable value : string -> option (json * string).
Hypothesis Hvalue : consumes value.

Lemma parse_elems_len n s l r : parse_elems value n s = Some (l, r) -> (String.length r < String.length s)%nat.
Proof.
  revert s l r. induction n as [|n IH]; intros s l r; [done|]. cbn [parse_elems].
  destruct (value s) as [[j s1]|] eqn:Hv; [|done]. apply Hvalue in Hv.
  pose proof (skip_ws_len s1). destruct (skip_ws s1) as [|c s2]; [done|]. cbn in *.
  destruct (byte_val c =? 44).
  - destruct (parse_elems value n s2) as [[? ?]|] eqn:E; [|done]. apply IH in E. intros [= <- <-]. lia.
  - destruct (byte_val c =? 93); [|done]. intros [= <- <-]. lia.
Qed.

Lemma parse_members_len n s l r : parse_members value n s = Some (l, r) -> (String.length r < String.length s)%nat.
Proof.
  revert s l r. induction n as [|n IH]; intros s l r; [done|]. cbn [parse_members].
  pose proof (skip_ws_len s). destruct (skip_ws s) as [|q s0]; [done|]. cbn in *.
  destruct (byte_val q =? 34); [|done]. rw /parse_string.
  destruct (scan_string InStr s0) as [[raw s1]|] eqn:Hs; [|done]. apply scan_string_len in Hs.
  pose proof (skip_ws_len s1). destruct (skip_ws s1) as [|c s2]; [done|]. cbn in *.
  destruct (byte_val c =? 58); [|done]. destruct (value s2) as [[j s3]|] eqn:Hv; [|done]. apply Hvalue in Hv.
  pose proof (skip_ws_len s3). destruct (skip_ws s3) as [|d s4]; [done|]. cbn in *.
  destruct (byte_val d =? 44).
  - destruct (parse_members value n s4) as [[? ?]|] eqn:E; [|done]. apply IH in E. intros [= <- <-]. lia.
  - destruct (byte_val d =? 125); [|done]. intros [= <- <-]. lia.
Qed.

(** Any two counters above the length of the text give the same result. *)
Lemma parse_elems_counter n m s :
  (String.length s < n)%nat -> (String.length s < m)%nat -> parse_elems value n s = parse_elems value m s.
Proof.
  revert m s. induction n as [|n IH]; intros [|m] s Hn Hm; try lia. cbn [parse_elems].
  destruct (value s) as [[j s1]|] eqn:Hv; [|done]. apply Hvalue in Hv.
  pose proof (skip_ws_len s1). destruct (skip_ws s1) as [|c s2]; [done|]. cbn in *.
  by rw (IH m s2); [lia|lia|].
Qed.

Lemma parse_members_counter n m s :
  (String.length s < n)%nat -> (String.length s < m)%nat -> parse_members value n s = parse_members value m s.
Proof.
  revert m s. induction n as [|n IH]; intros [|m] s Hn Hm; try lia. cbn [parse_members].
  pose proof (skip_ws_len s). destruct (skip_ws s) as [|q s0]; [done|]. cbn in *.
  destruct (byte_val q =? 34); [|done]. rw /parse_string.
  destruct (scan_string InStr s0) as [[raw s1]|] eqn:Hs; [|done]. apply scan_string_len in Hs.
  pose proof (skip_ws_len s1). destruct (skip_ws s1) as [|c s2]; [done|]. cbn in *.
  destruct (byte_val c =? 58); [|done]. destruct (value s2) as [[j s3]|] eqn:Hv; [|done]. apply Hvalue in Hv.
  pose proof (skip_ws_len s3). destruct (skip_ws s3) as [|d s4]; [done|]. cbn in *.
  by rw (IH m s4); [lia|lia|].
Qed.
End counters.

Lemma parse_value_consumes depth : consumes (parse_value depth).
Proof.
  induction depth as [|d IH]; intros s j r.
  all: cbn [parse_value]; pose proof (skip_ws_len s) as Hs; destruct (skip_ws s) as [|c s']; [done|]; cbn in Hs.
  all: repeat match goal with
  | |- None = Some _ -> _ => done
  | |- Some _ = Some _ -> _ => intros [= <- <-]
  | |- context [if (?a =? ?b) then _ else _] => destruct (a =? b)
  | |- context [parse_string ?t] => rw /parse_string
  | |- context [scan_string InStr ?t] => destruct (scan_string InStr t) as [[? ?]|] eqn:E; [apply scan_string_len in E|]
  | |- context [expect ?l ?t] => destruct (expect l t) eqn:E; [apply expect_len in E|]
  | |- context [scan_number ?t] => destruct (scan_number t) as [[? ?]|] eqn:E; [apply scan_number_len in E; cbn in E|]
  | IH : consumes _ |- context [parse_members ?v ?n ?t] =>
      destruct (parse_members v n t) as [[? ?]|] eqn:E; [apply (parse_members_len _ IH) in E|]
  | IH : consumes _ |- context [parse_elems ?v ?n ?t] =>
      destruct (parse_elems v n t) as [[? ?]|] eqn:E; [apply (parse_elems_len _ IH) in E|]
  | |- context [match skip_ws ?t with _ => _ end] => pose proof (skip_ws_len t); destruct (skip_ws t) as [|? ?]; cbn in *
  end; try done; try lia.
Qed.

(** The counter [String.length s] the parser starts with never runs out: any
    larger one gives the same result. *)
Lemma parse_counter_suffices d s c s' n :
  skip_ws s = String c s' -> (String.length s <= n)%nat ->
  parse_elems (parse_value d) n s' = parse_elems (parse_value d) (String.length s) s'
  /\ parse_members (parse_value d) n s' = parse_members (parse_value d) (String.length s) s'.
Proof.
  intros Hs Hn. pose proof (skip_ws_len s) as Hl. rw Hs /= in Hl.
  split; [apply parse_elems_counter|apply parse_members_counter]; try apply parse_value_consumes; lia.
Qed.

(** ** Decoded text is UTF-8 *)

Lemma utf8_ascii c t : byte_val c < 128 -> utf8_valid (String c t) = utf8_valid t.
Proof.
  intros Hc. rw /utf8_valid utf8_cons /rune_ok. cbn [decode_rune].
  destruct (Z.ltb_spec (byte_val c) 128); [|lia]. cbn [fst snd Nat.sub].
  assert ((byte_val c =? rune_error) = false) as -> by (rw /rune_error; lia). done.
Qed.

Lemma utf8_multi chunk r t : multi chunk r -> utf8_valid (chunk +:+ t) = utf8_valid t.
Proof.
  intros Hm. pose proof (decode_multi chunk r t Hm) as Hd.
  assert (exists c s, chunk = String c s /\ (1 <= String.length s)%nat) as (c & s & -> & Hl)
    by (destruct Hm; eexists _, _; (split; [done|]); cbn; lia).
  rw str_app_cons in Hd |- *. rw /utf8_valid utf8_cons /rune_ok Hd. cbn [fst snd String.length].
  assert ((S (String.length s) =? 1)%nat = false) as -> by (apply Nat.eqb_neq; lia).
  rw andb_false_r. cbn [negb andb Nat.sub]. by rw Nat.sub_0_r utf8_skip.
Qed.

Lemma encode_rune_multi r0 :
  (exists c, encode_rune r0 = String c "" /\ byte_val c < 128) \/ exists r, multi (encode_rune r0) r.
Proof.
  rw /encode_rune. set (r := if (r0 <? 0) || (1114111 <? r0) || ((55296 <=? r0) && (r0 <=? 57343)) then rune_error else r0).
  assert (0 <= r <= 1114111 /\ (r < 55296 \/ 57343 < r)) as [Hr Hs].
  { rw /r. destruct ((r0 <? 0) || (1114111 <? r0) || ((55296 <=? r0) && (r0 <=? 57343))) eqn:E; [rw /rune_error|]; lia. }
  clearbody r.
  destruct (Z.ltb_spec r 128).
  { left. eexists. split; [done|]. rw byte_val_of; lia. }
  right. destruct (Z.ltb_spec r 2048); [|destruct (Z.ltb_spec r 65536)]; eexists; constructor;
    rw !byte_val_of; repeat case_match; Z.to_euclidean_division_equations; lia.
Qed.

Lemma utf8_encode r t : utf8_valid (encode_rune r +:+ t) = utf8_valid t.
Proof.
  destruct (encode_rune_multi r) as [(c & -> & Hc)|[r' Hm]].
  - rw str_app_cons. by apply utf8_ascii.
  - by apply (utf8_multi _ r').
Qed.

(** The raw bytes of a string literal: what the scanner lets through. *)
Fixpoint esc_ok (st : str_state) (s : string) : bool :=
  match s with
  | "" => match st with InStr => true | _ => false end
  | String c s' =>
    let b := byte_val c in
    match st with
    | InStr => if b =? 92 then esc_ok InEsc s' else esc_ok InStr s'
    | InEsc => if (b =? 98) || (b =? 102) || (b =? 110) || (b =? 114) || (b =? 116)
                  || (b =? 92) || (b =? 47) || (b =? 34) then esc_ok InStr s'
               else if b =? 117 then esc_ok (InHex 3) s' else false
    | InHex n => match hex_val c with
                 | Some _ => esc_ok (match n with O => InStr | S n' => InHex n' end) s'
                 | None => false
                 end
    end
  end.

Lemma scan_esc_ok s : forall st raw rest, scan_string st s = Some (raw, rest) -> esc_ok st raw = true.
Proof.
  induction s as [|c s IH]; intros st raw rest; [by destruct st|]. cbn [scan_string].
  destruct st as [| |n].
  - destruct (byte_val c =? 34); [by intros [= <- <-]|]. destruct (byte_val c =? 92) eqn:E.
    + destruct (scan_string InEsc s) as [[? ?]|] eqn:Hs; [|done]. intros [= <- <-]. cbn. rw E. exact (IH _ _ _ Hs).
    + destruct (byte_val c <? 32); [done|]. destruct (scan_string InStr s) as [[? ?]|] eqn:Hs; [|done].
      intros [= <- <-]. cbn. rw E. exact (IH _ _ _ Hs).
  - destruct (_ || _) eqn:E.
    + destruct (scan_string InStr s) as [[? ?]|] eqn:Hs; [|done]. intros [= <- <-]. cbn. rw E. exact (IH _ _ _ Hs).
    + destruct (byte_val c =? 117) eqn:E2; [|done].
      destruct (scan_string (InHex 3) s) as [[? ?]|] eqn:Hs; [|done]. intros [= <- <-]. cbn. rw E E2. exact (IH _ _ _ Hs).
  - destruct (hex_val c) eqn:E; [|done].
    destruct (scan_string _ s) as [[? ?]|] eqn:Hs; [|done]. intros [= <- <-]. cbn. rw E. exact (IH _ _ _ Hs).
Qed.

Lemma esc_high chunk rest :
  (forall c, str_has c chunk = true -> 128 <= byte_val c) ->
  esc_ok InStr (chunk +:+ rest) = esc_ok InStr rest.
Proof.
  induction chunk as [|c s IH]; intros Hh; [done|]. rw str_app_cons. cbn.
  assert (128 <= byte_val c) by (apply Hh; by rw str_has_cons Ascii.eqb_refl).
  destruct (Z.eqb_spec (byte_val c) 92); [lia|]. apply IH. intros d Hd. apply Hh. by rw str_has_cons Hd orb_true_r.
Qed.

(** An escape of a code unit: four digits. *)
Lemma esc_hex s : esc_ok (InHex 3) s = true ->
  exists a1 a2 a3 a4 t, s = String a1 (String a2 (String a3 (String a4 t))) /\ esc_ok InStr t = true
    /\ is_Some (hex_val a1) /\ is_Some (hex_val a2) /\ is_Some (hex_val a3) /\ is_Some (hex_val a4).
Proof.
  destruct s as [|a1 s]; [done|]. cbn. destruct (hex_val a1) eqn:E1; [|done].
  destruct s as [|a2 s]; [done|]. cbn. destruct (hex_val a2) eqn:E2; [|done].
  destruct s as [|a3 s]; [done|]. cbn. destruct (hex_val a3) eqn:E3; [|done].
  destruct s as [|a4 s]; [done|]. cbn. destruct (hex_val a4) eqn:E4; [|done].
  intros H. exists a1, a2, a3, a4, s. rw E1 E2 E3 E4. eauto 10.
Qed.

Lemma getu4_shape s r : getu4 s = Some r ->
  exists b u t, s = String b (String u t) /\ byte_val b = 92 /\ byte_val u = 117.
Proof.
  destruct s as [|b [|u t]]; [done..|]. rw /getu4. destruct (Ascii.eqb b backslash && (byte_val u =? 117)) eqn:E; [|done].
  intros _. apply andb_true_iff in E as [Hb%Ascii.eqb_eq Hu]. exists b, u, t.
  split_and!; [done| |lia]. rw Hb. reflexivity.
Qed.

Lemma unquote_valid n raw :
  (String.length raw <= n)%nat -> esc_ok InStr raw = true -> utf8_valid (unquote_go 0 raw) = true.
Proof.
  revert raw. induction n as [|n IH]; intros [|c s] Hn Hok; try done; cbn in Hn; try lia.
  cbn [esc_ok] in Hok. cbn [unquote_go]. destruct (Z.eqb_spec (byte_val c) 92) as [Hc|Hc].
  - destruct (getu4 (String c s)) as [r|] eqn:Hg.
    + destruct (getu4_shape _ _ Hg) as (b & u & t & [= <- ->] & _ & Hu). cbn [esc_ok] in Hok.
      rw Hu in Hok. cbn in Hok. apply esc_hex in Hok as (a1 & a2 & a3 & a4 & t' & -> & Hok & H1 & H2 & H3 & H4).
      assert (utf8_valid (unquote_go 0 t') = true) as Ht by (apply IH; [cbn in Hn; lia|done]).
      destruct (is_surrogate r); [|by rw utf8_encode].
      cbn [str_drop]. destruct (getu4 t') as [r2|] eqn:Hg2; [|by rw utf8_encode].
      destruct (_ =? _); [by rw utf8_encode|]. rw utf8_encode.
      destruct (getu4_shape _ _ Hg2) as (b2 & u2 & t2 & -> & Hb2 & Hu2). cbn [esc_ok] in Hok.
      rw Hb2 in Hok. cbn in Hok. rw Hu2 in Hok. cbn in Hok.
      apply esc_hex in Hok as (d1 & d2 & d3 & d4 & t3 & -> & Hok & _).
      cbn [unquote_go]. apply IH; [cbn in Hn; lia|done].
    + destruct s as [|e s]; [done|]. cbn [esc_ok] in Hok.
      destruct (_ || _) eqn:E.
      * rw utf8_ascii; [|cbn [unquote_go]; apply IH; [cbn in Hn; lia|done]].
        rw /unescape_char. repeat case_match; try done; lia.
      * destruct (Z.eqb_spec (byte_val e) 117) as [He|]; [|done].
        apply esc_hex in Hok as (a1 & a2 & a3 & a4 & t' & -> & Hok & [] & [] & [] & []).
        exfalso. revert Hg. cbn. assert (c = backslash) as -> by (apply byte_val_inj; by rw Hc).
        rw Ascii.eqb_refl He. cbn. by repeat case_match.
  - destruct (Z.ltb_spec (byte_val c) 128).
    + rw utf8_ascii //. apply IH; [lia|done].
    + destruct (decode_rune (String c s)) as [r k] eqn:Hd. rw utf8_encode.
      destruct (rune_ok (String c s)) eqn:Hr.
      * apply rune_ok_inv in Hr as (chunk & r' & rest & Heq & Hm & Hd'); [|lia].
        rw Hd in Hd'. injection Hd' as -> ->. pose proof (multi_cons _ _ Hm) as (c' & s' & -> & Hc').
        rw str_app_cons in Heq. injection Heq as <- ->. cbn [String.length Nat.sub]. rw Nat.sub_0_r unquote_skip.
        apply IH; [rw str_length_app in Hn; lia|]. rw -Hok. symmetry. apply esc_high.
        intros d Hd'. apply (multi_high _ _ d Hm). by rw str_has_cons Hd' orb_true_r.
      * rw /rune_ok Hd in Hr. apply negb_false_iff, andb_true_iff in Hr as [_ Hk%Nat.eqb_eq]. subst k. cbn [Nat.sub].
        apply IH; [lia|done].
Qed.

Lemma parse_string_valid s str rest : parse_string s = Some (str, rest) -> utf8_valid str = true.
Proof.
  rw /parse_string. destruct (scan_string InStr s) as [[raw r]|] eqn:Hs; [|done]. intros [= <- <-].
  exact (unquote_valid _ _ (le_n _) (scan_esc_ok _ _ _ _ Hs)).
Qed.

(** All text of a value, keys included. *)
Fixpoint text_ok (j : json) : bool :=
  match j with
  | JStr s => utf8_valid s
  | JArr l => forallb text_ok l
  | JObj l => forallb (fun kv => utf8_valid kv.1 && text_ok kv.2) l
  | _ => true
  end.

Lemma parse_elems_text value n s l r :
  (forall s j r, value s = Some (j, r) -> text_ok j = true) ->
  parse_elems value n s = Some (l, r) -> forallb text_ok l = true.
Proof.
  intros Hv. revert s l r. induction n as [|n IH]; intros s l r; [done|]. cbn [parse_elems].
  destruct (value s) as [[j s1]|] eqn:Hj; [|done]. apply Hv in Hj.
  destruct (skip_ws s1) as [|c s2]; [done|]. destruct (byte_val c =? 44).
  - destruct (parse_elems value n s2) as [[? ?]|] eqn:E; [|done]. apply IH in E. intros [= <- <-]. cbn. by rw Hj E.
  - destruct (byte_val c =? 93); [|done]. intros [= <- <-]. cbn. by rw Hj.
Qed.

Lemma parse_members_text value n s l r :
  (forall s j r, value s = Some (j, r) -> text_ok j = true) ->
  parse_members value n s = Some (l, r) -> forallb (fun kv => utf8_valid kv.1 && text_ok kv.2) l = true.
Proof.
  intros Hv. revert s l r. induction n as [|n IH]; intros s l r; [done|]. cbn [parse_members].
  destruct (skip_ws s) as [|q s0]; [done|]. destruct (byte_val q =? 34); [|done].
  destruct (parse_string s0) as [[k s1]|] eqn:Hk; [|done]. apply parse_string_valid in Hk.
  destruct (skip_ws s1) as [|c s2]; [done|]. destruct (byte_val c =? 58); [|done].
  destruct (value s2) as [[j s3]|] eqn:Hj; [|done]. apply Hv in Hj.
  destruct (skip_ws s3) as [|d s4]; [done|]. destruct (byte_val d =? 44).
  - destruct (parse_members value n s4) as [[? ?]|] eqn:E; [|done]. apply IH in E. intros [= <- <-]. cbn [forallb fst snd]. by rw Hk Hj E.
  - destruct (byte_val d =? 125); [|done]. intros [= <- <-]. cbn [forallb fst snd]. by rw Hk Hj.
Qed.

Lemma parse_value_text depth : forall s j r, parse_value depth s = Some (j, r) -> text_ok j = true.
Proof.
  induction depth as [|d IH]; intros s j r.
  all: cbn [parse_value]; destruct (skip_ws s) as [|c s']; [done|].
  all: repeat match goal with
  | |- None = Some _ -> _ => done
  | |- Some _ = Some _ -> _ => intros [= <- <-]
  | |- context [if (?a =? ?b) then _ else _] => destruct (a =? b)
  | |- context [parse_string ?t] => destruct (parse_string t) as [[? ?]|] eqn:E; [apply parse_string_valid in E|]
  | |- context [expect ?l ?t] => destruct (expect l t)
  | |- context [scan_number ?t] => destruct (scan_number t) as [[? ?]|]
  | IH : forall s j r, _ -> text_ok j = true |- context [parse_members ?v ?n ?t] =>
      destruct (parse_members v n t) as [[? ?]|] eqn:E; [apply (parse_members_text _ _ _ _ _ IH) in E|]
  | IH : forall s j r, _ -> text_ok j = true |- context [parse_elems ?v ?n ?t] =>
      destruct (parse_elems v n t) as [[? ?]|] eqn:E; [apply (parse_elems_text _ _ _ _ _ IH) in E|]
  | |- context [match skip_ws ?t with _ => _ end] => destruct (skip_ws t) as [|? ?]
  end; done.
Qed.

Lemma parse_json_text s j : parse_json s = Some j -> text_ok j = true.
Proof.
  rw /parse_json. destruct (parse_value maxNestingDepth s) as [[j' r]|] eqn:E; [|done].
  apply parse_value_text in E. destruct (skip_ws r); [|done]. by intros [= <-].
Qed.

(** ** Decoders keep what they are given well-formed *)

(** Decoding clean text into a variable keeps [P] of it. *)
Definition preserves {A} (P : A -> Prop) (d : decoder A) : Prop :=
  forall j old, text_ok j = true -> P old -> P (d j old).1.

Lemma dec_string_preserves : preserves (fun s => utf8_valid s = true) dec_string.
Proof. by intros [] old. Qed.

Lemma atoi_range s z : atoi s = Some z -> in_int64 z = true.
Proof.
  rw /atoi. match goal with |- (match ?x with _ => _ end) = _ -> _ => destruct x as [neg ds] end.
  destruct ds; [done|]. destruct (digits_val _ 0); [|done]. cbn zeta. destruct (in_int64 _) eqn:E; [|done].
  by intros [= <-].
Qed.

Lemma dec_int_preserves : preserves (fun z => in_int64 z = true) dec_int.
Proof.
  intros [] old _ Ho; try done. cbn. destruct (atoi lit) eqn:E; [|done]. by apply atoi_range in E.
Qed.

Lemma dec_slice_preserves {A} (P : A -> Prop) (zero : A) d :
  P zero -> preserves P d -> preserves (Forall P) (dec_slice zero d).
Proof.
  intros Hz Hd j old Hj Ho. destruct j as [| | | |l|]; try done.
  cbn in *. revert old Ho. induction l as [|j l IH]; intros old Ho; [by constructor|].
  cbn in *. apply andb_true_iff in Hj as [Hj Hl].
  assert (P (hd zero old)) as Hh by (destruct Ho; done).
  pose proof (Hd j (hd zero old) Hj Hh) as H1. destruct (d j (hd zero old)) as [v e].
  assert (Forall P (tl old)) as Ht by (destruct Ho; done).
  specialize (IH Hl (tl old) Ht). destruct (dec_elems zero d l (tl old)) as [vs es]. by constructor.
Qed.

Lemma mk_field_preserves {A B} (P : A -> Prop) (Q : B -> Prop) name get (set : B -> A -> A) d :
  preserves Q d -> (forall a, P a -> Q (get a)) -> (forall v a, Q v -> P a -> P (set v a)) ->
  preserves P (mk_field name get set d).2.
Proof.
  intros Hd Hg Hs j old Hj Ho. cbn. pose proof (Hd j (get old) Hj (Hg old Ho)) as H.
  destruct (d j (get old)) as [v e]. by apply Hs.
Qed.

Lemma find_field_elem {A} (fs : list (field A)) k d :
  find_field fs k = Some d -> exists f, f ∈ fs /\ d = f.2.
Proof.
  rw /find_field. destruct (List.find (fun f => String.eqb f.1 k) fs) as [f|] eqn:E.
  - intros [= <-]. apply List.find_some in E as [E _]. exists f. by rw list_elem_of_In.
  - destruct (List.find (fun f => fold_eq f.1 k) fs) as [f|] eqn:E2; [|done].
    intros [= <-]. apply List.find_some in E2 as [E2 _]. exists f. by rw list_elem_of_In.
Qed.

Lemma dec_struct_preserves {A} (P : A -> Prop) (fs : list (field A)) :
  (forall f, f ∈ fs -> preserves P f.2) -> preserves P (dec_struct fs).
Proof.
  intros Hf j old Hj Ho. destruct j as [| | | | |l]; try done. cbn in *.
  enough (forall st, P st.1 -> P (foldl (dec_member fs) st l).1) as H by by apply H.
  induction l as [|[k v] l IH]; intros st Hst; [done|]. cbn in *.
  apply andb_true_iff in Hj as [[_ Hv]%andb_true_iff Hl]. apply IH; [done|].
  rw /dec_member. cbn. destruct (find_field fs k) as [d|] eqn:E; [|done].
  apply find_field_elem in E as (f & Hin & ->). pose proof (Hf f Hin v st.1 Hv Hst) as H.
  by destruct (f.2 v st.1).
Qed.

Lemma Unmarshal_preserves {A} (P : A -> Prop) (d : decoder A) data old :
  preserves P d -> P old -> P (Unmarshal d data old).1.
Proof.
  intros Hd Ho. rw /Unmarshal. destruct (parse_json data) as [j|] eqn:E; [|done].
  apply Hd; [|done]. by apply parse_json_text in E.
Qed.

(** A prefix that ends before an ASCII byte is still UTF-8. *)
Lemma utf8_prefix p c q :
  byte_val c < 128 -> utf8_valid (p +:+ String c q) = true -> utf8_valid p = true.
Proof.
  intros Hc. remember (String.length p) as n eqn:Hn. revert p Hn.
  induction n as [n IH] using lt_wf_ind. intros [|c0 p] Hn Hv; [done|].
  rw str_app_cons in Hv. destruct (Z.ltb_spec (byte_val c0) 128) as [H0|H0].
  - rw utf8_ascii // in Hv. rw utf8_ascii //. eapply (IH (String.length p)); [cbn in Hn; lia|done|done].
  - pose proof Hv as Hv2. rw /utf8_valid utf8_cons in Hv2. apply andb_true_iff in Hv2 as [Hr _].
    apply rune_ok_inv in Hr as (chunk & r & rest & Heq & Hm & _); [|done].
    assert (exists p', String c0 p = chunk +:+ p') as [p' Hp].
    { assert (forall d, str_has d chunk = true -> 128 <= byte_val d) as Hh by (intros; by apply (multi_high _ _ _ Hm)).
      rw -str_app_cons in Heq. clear Hv Hm IH Hn H0. revert Heq Hh. generalize (String c0 p) as x. clear p c0.
      induction chunk as [|a chunk IHc]; intros x Heq Hh; [by exists x|].
      destruct x as [|b x].
      - exfalso. rw str_app_cons in Heq. injection Heq as -> _. specialize (Hh a). rw str_has_cons Ascii.eqb_refl in Hh.
        specialize (Hh eq_refl). lia.
      - rw !str_app_cons in Heq. injection Heq as -> Heq. destruct (IHc x Heq) as [p' ->].
        { intros d Hd. apply Hh. by rw str_has_cons Hd orb_true_r. }
        exists p'. by rw str_app_cons. }
    rw Hp (utf8_multi _ _ _ Hm). rw -str_app_cons Hp str_app_assoc (utf8_multi _ _ _ Hm) in Hv.
    eapply (IH (String.length p')); [|done|exact Hv].
    rw Hn Hp str_length_app. destruct Hm; cbn; lia.
Qed.
