(* ===== verification/State.v ===== *)
(** * The process: its variables, its files and the world around it

    - the node record of nodes.go, the unit of information of the program;
    - [Globals]: the package variables of consoleOpMain.go and k8s.go;
    - [World]: everything outside the process that its code calls, each an
      operation on an opaque world state, so that a theorem holds whatever the
      other side answers: the HTTP services (HSM, console-data, SLS, Vault,
      SCSD), the Kubernetes API, the failures of the file system, the programs
      it runs, the clock, and the order in which Go ranges over a map;
    - [St]: the globals, the files, the world, and the trace of the requests
      made, which is what the theorems about "what was sent" speak of. *)
From S2P Require Import Prelude GoStrings.
From Stdlib Require Import Ascii.
#[local] Open Scope string_scope.
#[local] Open Scope Z_scope.

Definition error : Type := string.

(** ** The node record (nodes.go) *)

Record nodeConsoleInfo := mkNode {
  nc_NodeName : string;
  nc_BmcName : string;
  nc_BmcFqdn : string;
  nc_Class : string;
  nc_NID : Z;
  nc_Role : string }.

#[export] Instance nodeConsoleInfo_eq_dec : EqDecision nodeConsoleInfo.
Proof. solve_decision. Defined.

(** The zero value of the struct. *)
Definition zero_node : nodeConsoleInfo := mkNode "" "" "" "" 0 "".

Definition isMountain (n : nodeConsoleInfo) : bool :=
  String.eqb (nc_Class n) "Mountain" || String.eqb (nc_Class n) "Hill".
Definition isRiver (n : nodeConsoleInfo) : bool := String.eqb (nc_Class n) "River".
Definition isParadise (n : nodeConsoleInfo) : bool := String.eqb (nc_Class n) "Paradise".

(** [nodeConsoleInfo.String] *)
Definition node_String (n : nodeConsoleInfo) : string :=
  "NodeName:" +:+ nc_NodeName n +:+ ", BmcName:" +:+ nc_BmcName n +:+ ", BmcFqdn:" +:+ nc_BmcFqdn n
  +:+ ", Class:" +:+ nc_Class n +:+ ", NID:" +:+ itoa (nc_NID n) +:+ ", Role:" +:+ nc_Role n.

(** ** The package variables *)

Record Globals := mkGlobals {
  debugOnly : bool;
  nodeCache : gmap string nodeConsoleInfo;
  numNodePods : Z;
  numRvrNodesPerPod : Z;
  numMtnNodesPerPod : Z;
  totalRvrNodes : Z;
  totalMtnNodes : Z;
  maxMtnNodesPerPod : Z;
  maxRvrNodesPerPod : Z;
  newHardwareCheckPeriodSec : Z;
  hardwareUpdateTime : string;
  heartbeatStaleMinutes : Z;
  heartbeatCheckPeriodSec : Z;
  inShutdown : bool;
  numFileErrors : Z }.

Definition set_debugOnly (v : bool) (g : Globals) : Globals :=
  mkGlobals
    v (nodeCache g) (numNodePods g) (numRvrNodesPerPod g) (numMtnNodesPerPod g)
    (totalRvrNodes g) (totalMtnNodes g) (maxMtnNodesPerPod g) (maxRvrNodesPerPod g)
    (newHardwareCheckPeriodSec g) (hardwareUpdateTime g) (heartbeatStaleMinutes g)
    (heartbeatCheckPeriodSec g) (inShutdown g) (numFileErrors g).
Definition set_nodeCache (v : gmap string nodeConsoleInfo) (g : Globals) : Globals :=
  mkGlobals
    (debugOnly g) v (numNodePods g) (numRvrNodesPerPod g) (numMtnNodesPerPod g)
    (totalRvrNodes g) (totalMtnNodes g) (maxMtnNodesPerPod g) (maxRvrNodesPerPod g)
    (newHardwareCheckPeriodSec g) (hardwareUpdateTime g) (heartbeatStaleMinutes g)
    (heartbeatCheckPeriodSec g) (inShutdown g) (numFileErrors g).
Definition set_numNodePods (v : Z) (g : Globals) : Globals :=
  mkGlobals
    (debugOnly g) (nodeCache g) v (numRvrNodesPerPod g) (numMtnNodesPerPod g) (totalRvrNodes g)
    (totalMtnNodes g) (maxMtnNodesPerPod g) (maxRvrNodesPerPod g) (newHardwareCheckPeriodSec g)
    (hardwareUpdateTime g) (heartbeatStaleMinutes g) (heartbeatCheckPeriodSec g) (inShutdown g)
    (numFileErrors g).
Definition set_numRvrNodesPerPod (v : Z) (g : Globals) : Globals :=
  mkGlobals
    (debugOnly g) (nodeCache g) (numNodePods g) v (numMtnNodesPerPod g) (totalRvrNodes g)
    (totalMtnNodes g) (maxMtnNodesPerPod g) (maxRvrNodesPerPod g) (newHardwareCheckPeriodSec g)
    (hardwareUpdateTime g) (heartbeatStaleMinutes g) (heartbeatCheckPeriodSec g) (inShutdown g)
    (numFileErrors g).
Definition set_numMtnNodesPerPod (v : Z) (g : Globals) : Globals :=
  mkGlobals
    (debugOnly g) (nodeCache g) (numNodePods g) (numRvrNodesPerPod g) v (totalRvrNodes g)
    (totalMtnNodes g) (maxMtnNodesPerPod g) (maxRvrNodesPerPod g) (newHardwareCheckPeriodSec g)
    (hardwareUpdateTime g) (heartbeatStaleMinutes g) (heartbeatCheckPeriodSec g) (inShutdown g)
    (numFileErrors g).
Definition set_totalRvrNodes (v : Z) (g : Globals) : Globals :=
  mkGlobals
    (debugOnly g) (nodeCache g) (numNodePods g) (numRvrNodesPerPod g) (numMtnNodesPerPod g) v
    (totalMtnNodes g) (maxMtnNodesPerPod g) (maxRvrNodesPerPod g) (newHardwareCheckPeriodSec g)
    (hardwareUpdateTime g) (heartbeatStaleMinutes g) (heartbeatCheckPeriodSec g) (inShutdown g)
    (numFileErrors g).
Definition set_totalMtnNodes (v : Z) (g : Globals) : Globals :=
  mkGlobals
    (debugOnly g) (nodeCache g) (numNodePods g) (numRvrNodesPerPod g) (numMtnNodesPerPod g)
    (totalRvrNodes g) v (maxMtnNodesPerPod g) (maxRvrNodesPerPod g)
    (newHardwareCheckPeriodSec g) (hardwareUpdateTime g) (heartbeatStaleMinutes g)
    (heartbeatCheckPeriodSec g) (inShutdown g) (numFileErrors g).
Definition set_maxMtnNodesPerPod (v : Z) (g : Globals) : Globals :=
  mkGlobals
    (debugOnly g) (nodeCache g) (numNodePods g) (numRvrNodesPerPod g) (numMtnNodesPerPod g)
    (totalRvrNodes g) (totalMtnNodes g) v (maxRvrNodesPerPod g) (newHardwareCheckPeriodSec g)
    (hardwareUpdateTime g) (heartbeatStaleMinutes g) (heartbeatCheckPeriodSec g) (inShutdown g)
    (numFileErrors g).
Definition set_maxRvrNodesPerPod (v : Z) (g : Globals) : Globals :=
  mkGlobals
    (debugOnly g) (nodeCache g) (numNodePods g) (numRvrNodesPerPod g) (numMtnNodesPerPod g)
    (totalRvrNodes g) (totalMtnNodes g) (maxMtnNodesPerPod g) v (newHardwareCheckPeriodSec g)
    (hardwareUpdateTime g) (heartbeatStaleMinutes g) (heartbeatCheckPeriodSec g) (inShutdown g)
    (numFileErrors g).
Definition set_newHardwareCheckPeriodSec (v : Z) (g : Globals) : Globals :=
  mkGlobals
    (debugOnly g) (nodeCache g) (numNodePods g) (numRvrNodesPerPod g) (numMtnNodesPerPod g)
    (totalRvrNodes g) (totalMtnNodes g) (maxMtnNodesPerPod g) (maxRvrNodesPerPod g) v
    (hardwareUpdateTime g) (heartbeatStaleMinutes g) (heartbeatCheckPeriodSec g) (inShutdown g)
    (numFileErrors g).
Definition set_hardwareUpdateTime (v : string) (g : Globals) : Globals :=
  mkGlobals
    (debugOnly g) (nodeCache g) (numNodePods g) (numRvrNodesPerPod g) (numMtnNodesPerPod g)
    (totalRvrNodes g) (totalMtnNodes g) (maxMtnNodesPerPod g) (maxRvrNodesPerPod g)
    (newHardwareCheckPeriodSec g) v (heartbeatStaleMinutes g) (heartbeatCheckPeriodSec g)
    (inShutdown g) (numFileErrors g).
Definition set_heartbeatStaleMinutes (v : Z) (g : Globals) : Globals :=
  mkGlobals
    (debugOnly g) (nodeCache g) (numNodePods g) (numRvrNodesPerPod g) (numMtnNodesPerPod g)
    (totalRvrNodes g) (totalMtnNodes g) (maxMtnNodesPerPod g) (maxRvrNodesPerPod g)
    (newHardwareCheckPeriodSec g) (hardwareUpdateTime g) v (heartbeatCheckPeriodSec g)
    (inShutdown g) (numFileErrors g).
Definition set_heartbeatCheckPeriodSec (v : Z) (g : Globals) : Globals :=
  mkGlobals
    (debugOnly g) (nodeCache g) (numNodePods g) (numRvrNodesPerPod g) (numMtnNodesPerPod g)
    (totalRvrNodes g) (totalMtnNodes g) (maxMtnNodesPerPod g) (maxRvrNodesPerPod g)
    (newHardwareCheckPeriodSec g) (hardwareUpdateTime g) (heartbeatStaleMinutes g) v
    (inShutdown g) (numFileErrors g).
Definition set_inShutdown (v : bool) (g : Globals) : Globals :=
  mkGlobals
    (debugOnly g) (nodeCache g) (numNodePods g) (numRvrNodesPerPod g) (numMtnNodesPerPod g)
    (totalRvrNodes g) (totalMtnNodes g) (maxMtnNodesPerPod g) (maxRvrNodesPerPod g)
    (newHardwareCheckPeriodSec g) (hardwareUpdateTime g) (heartbeatStaleMinutes g)
    (heartbeatCheckPeriodSec g) v (numFileErrors g).
Definition set_numFileErrors (v : Z) (g : Globals) : Globals :=
  mkGlobals
    (debugOnly g) (nodeCache g) (numNodePods g) (numRvrNodesPerPod g) (numMtnNodesPerPod g)
    (totalRvrNodes g) (totalMtnNodes g) (maxMtnNodesPerPod g) (maxRvrNodesPerPod g)
    (newHardwareCheckPeriodSec g) (hardwareUpdateTime g) (heartbeatStaleMinutes g)
    (heartbeatCheckPeriodSec g) (inShutdown g) v.

(** Their initial values. *)
Definition init_globals : Globals :=
  mkGlobals false ∅ (-1) (-1) (-1) (-1) (-1) 750 2000 30 "Unknown" 3 15 false 0.

(** ** Requests to the outside *)

Record http_request := mkReq {
  req_Method : string;
  req_URL : string;
  req_Header : list (string * string);
  req_Body : option string }.

(** What [client.Do] and reading the body give. *)
Inductive do_result :=
| DoErr (e : error)
| DoResp (status : Z) (body : error + string).

(** An API error of the Kubernetes client. *)
Inductive k8s_error := NotFound (msg : error) | StatusError (msg : error) | OtherError (msg : error).
Definition k8s_msg (e : k8s_error) : error :=
  match e with NotFound m | StatusError m | OtherError m => m end.

(** A StatefulSet object: the replica field the code reads and writes (a
    pointer, so possibly nil) and the rest of the object, kept as it is. *)
Record StatefulSet := mkSts {
  Spec_Replicas : option Z;
  sts_rest : string }.

(** ** Files *)

Record FS := mkFS {
  files : gmap string string;
  dirs : gset string }.

Inductive os_op := OpStat (p : string) | OpMkdirAll (p : string) | OpOpen (p : string)
                 | OpRead (p : string).

(** ** The world *)

Class World := {
  W : Type;
  (** [http.NewRequest] fails on a URL it cannot parse. *)
  newRequest_err : string -> string -> option error;
  client_Do : http_request -> W -> do_result * W;
  k8s_getStatefulSet : W -> (k8s_error + StatefulSet) * W;
  k8s_updateStatefulSet : StatefulSet -> W -> (k8s_error + StatefulSet) * W;
  k8s_getPod : string -> W -> (k8s_error + string) * W;
  (** The list is there even when the call failed; its pods by name. *)
  k8s_listPods : W -> (option error * list string) * W;
  (** A system call can fail for reasons outside the model of the files. *)
  os_fault : os_op -> W -> option error * W;
  (** A write can stop short: the number of bytes that went through. *)
  os_short_write : W -> option nat * W;
  (** A program run: its error if it failed, its output, the files it leaves. *)
  exec_run : list string -> FS -> W -> (option error * string * FS) * W;
  (** Attaching to a process and waiting for it. *)
  os_FindProcess : Z -> W -> option error * W;
  os_Wait : Z -> W -> option error * W;
  time_now : W -> string * W;
  (** Go ranges over a map in an unspecified order. *)
  map_order : forall {V : Type}, gmap string V -> W -> list (string * V) * W;
  map_order_perm : forall {V : Type} (m : gmap string V) w, (map_order m w).1 ≡ₚ map_to_list m;
  (** [gjson.Get(json, path).String()] *)
  gjson_Get : string -> string -> string;
  (** The text of the error [json.Unmarshal] reports. *)
  json_error : string -> error }.

Inductive event :=
| EvHTTP (r : http_request)
| EvK8sUpdate (d : StatefulSet)
| EvExec (argv : list string)
| EvWait (pid : Z)
| EvLog (line : string).

Section state.
Context {WD : World}.

Record St := mkSt {
  gl : Globals;
  fs : FS;
  ext : W;
  trace : list event }.

Definition set_gl (v : Globals) (s : St) : St := mkSt v (fs s) (ext s) (trace s).
Definition set_fs (v : FS) (s : St) : St := mkSt (gl s) v (ext s) (trace s).
Definition set_ext (v : W) (s : St) : St := mkSt (gl s) (fs s) v (trace s).
Definition emit_ev (e : event) (s : St) : St := mkSt (gl s) (fs s) (ext s) (trace s ++ [e])%list.

Definition Prog (A : Type) : Type := M St A.

(** Reading and assigning a package variable. *)
Definition gvar {A} (f : Globals -> A) : Prog A := gets (fun s => f (gl s)).
Definition gset_var (f : Globals -> Globals) : Prog unit := modify (fun s => set_gl (f (gl s)) s).

(** Asking the world. *)
Definition ask {A} (f : W -> A * W) : Prog A :=
  fun s => let '(a, w) := f (ext s) in Ret a (set_ext w s).
Definition record_ev (e : event) : Prog unit := modify (emit_ev e).

(** [for k, v := range m]: the entries in the order of this iteration. *)
Definition range {V} (m : gmap string V) : Prog (list (string * V)) := ask (map_order m).

(** ** os *)

Inductive stat_result := StatOk | StatNotExist | StatErr (e : error).

Definition os_Stat (p : string) : Prog stat_result :=
  let! f := ask (os_fault (OpStat p)) in
  match f with
  | Some e => ret (StatErr e)
  | None =>
    let! fsys := gets fs in
    ret (if decide (is_Some (files fsys !! p) \/ p ∈ dirs fsys) then StatOk else StatNotExist)
  end.

(** A path and the directories above it. *)
Fixpoint path_prefixes (pre : string) (p : string) : list string :=
  match p with
  | "" => [pre]
  | String c p' =>
    if Ascii.eqb c "/"%char
    then ((if String.eqb pre "" then [] else [pre]) ++ path_prefixes (pre +:+ String c "") p')%list
    else path_prefixes (pre +:+ String c "") p'
  end.

Definition os_MkdirAll (p : string) : Prog (option error) :=
  let! f := ask (os_fault (OpMkdirAll p)) in
  match f with
  | Some e => ret (Some e)
  | None =>
    modify (fun s => set_fs (mkFS (files (fs s)) (list_to_set (path_prefixes "" p) ∪ dirs (fs s))) s) ;;;
    ret None
  end.

Definition dir_of (p : string) : option string := slice_to p (lastIndexByte p "/"%char).

(** [os.OpenFile(p, O_TRUNC|O_WRONLY|O_CREATE, _)]: the file is left empty. *)
Definition os_OpenTrunc (p : string) : Prog (option error) :=
  let! f := ask (os_fault (OpOpen p)) in
  match f with
  | Some e => ret (Some e)
  | None =>
    let! fsys := gets fs in
    if from_option (fun d => bool_decide (d ∈ dirs fsys)) false (dir_of p) then
      modify (fun s => set_fs (mkFS (<[p := ""]> (files (fs s))) (dirs (fs s))) s) ;;;
      ret None
    else ret (Some ("open " +:+ p +:+ ": no such file or directory"))
  end.

(** [cf.WriteString(data)] on the file opened at [p], appending; an error
    leaves the bytes written so far. *)
Definition file_WriteString (p : string) (data : string) : Prog (option error) :=
  let! k := ask os_short_write in
  let out := match k with Some n => str_take n data | None => data end in
  modify (fun s => set_fs (mkFS (<[p := default "" (files (fs s) !! p) +:+ out]> (files (fs s)))
                                (dirs (fs s))) s) ;;;
  ret (match k with Some _ => Some ("write " +:+ p +:+ ": short write") | None => None end).

Definition ReadFile (p : string) : Prog (error + string) :=
  let! f := ask (os_fault (OpRead p)) in
  match f with
  | Some e => ret (inl e)
  | None =>
    let! fsys := gets fs in
    ret (match files fsys !! p with
         | Some data => inr data
         | None => inl ("open " +:+ p +:+ ": no such file or directory")
         end)
  end.

(** [ioutil.WriteFile]: open truncating, write, close. *)
Definition WriteFile (p : string) (data : string) : Prog (option error) :=
  let! e := os_OpenTrunc p in
  match e with
  | Some e => ret (Some e)
  | None => file_WriteString p data
  end.

(** [exec.Command(argv...).Run()] with both outputs captured. *)
Definition exec_Command (argv : list string) : Prog (option error * string) :=
  record_ev (EvExec argv) ;;;
  let! fsys := gets fs in
  let! r := ask (exec_run argv fsys) in
  let '(err, out, fsys') := r in
  modify (set_fs fsys') ;;;
  ret (err, out).

(** ** What the file system calls do *)

(** Everything but the world is as it was. *)
Definition same_process (s s' : St) : Prop := gl s' = gl s /\ fs s' = fs s /\ trace s' = trace s.

#[export] Instance same_process_preorder : PreOrder same_process.
Proof.
  split; [done|]. intros s1 s2 s3 (? & ? & ?) (? & ? & ?). rw /same_process.
  split_and!; congruence.
Qed.

Lemma wp_ask {A} (f : W -> A * W) (Q : A -> St -> Prop) E s :
  (forall a w', f (ext s) = (a, w') -> Q a (set_ext w' s)) -> wp (ask f) Q E s.
Proof. intros HQ. rw /wp /ask. destruct (f (ext s)) as [a w'] eqn:Hf. by apply HQ. Qed.

Lemma wp_ask_same {A} (f : W -> A * W) (Q : A -> St -> Prop) E s :
  (forall a s', same_process s s' -> Q a s') -> wp (ask f) Q E s.
Proof. intros HQ. apply wp_ask. intros. by apply HQ. Qed.

Lemma wp_gvar {A} (f : Globals -> A) (Q : A -> St -> Prop) E s :
  Q (f (gl s)) s -> wp (gvar f) Q E s.
Proof. done. Qed.

Lemma wp_gset_var f (Q : unit -> St -> Prop) E s :
  Q tt (set_gl (f (gl s)) s) -> wp (gset_var f) Q E s.
Proof. done. Qed.

Lemma wp_os_Stat p (Q : stat_result -> St -> Prop) E s :
  (forall r s', same_process s s' -> Q r s') -> wp (os_Stat p) Q E s.
Proof.
  intros HQ. rw /os_Stat. apply wp_bind, wp_ask_same. intros f s' Hs. wp_steps; by apply HQ.
Qed.

Lemma wp_os_MkdirAll p (Q : option error -> St -> Prop) E s :
  (forall r s', gl s' = gl s -> files (fs s') = files (fs s) -> trace s' = trace s -> Q r s') ->
  wp (os_MkdirAll p) Q E s.
Proof.
  intros HQ. rw /os_MkdirAll. apply wp_bind, wp_ask_same. intros f s' (? & ? & ?).
  wp_steps; apply HQ; simpl; congruence.
Qed.

Lemma wp_os_OpenTrunc p (Q : option error -> St -> Prop) E s :
  (forall e s', same_process s s' -> Q (Some e) s') ->
  (forall s', gl s' = gl s -> trace s' = trace s -> files (fs s') = <[p := ""]> (files (fs s)) ->
     (os_fault (OpOpen p) (ext s)).1 = None -> Q None s') ->
  wp (os_OpenTrunc p) Q E s.
Proof.
  intros He Hok. rw /os_OpenTrunc. apply wp_bind, wp_ask. intros f w' Hf.
  wp_steps; [by apply He| |by apply He]. apply Hok; [done..|]. by rw Hf.
Qed.

(** A world whose writes go through whole. *)
Definition writes_complete : Prop := forall w, exists w', os_short_write w = (None, w').

(** What a write that is cut off, or not, leaves of its data. *)
Definition written (k : option nat) (data : string) : string :=
  match k with Some n => str_take n data | None => data end.

Lemma written_complete w data : writes_complete -> written (os_short_write w).1 data = data.
Proof. intros Hw. by destruct (Hw w) as [w' ->]. Qed.

Lemma wp_file_WriteString p data (Q : option error -> St -> Prop) E s :
  (forall r s', gl s' = gl s -> trace s' = trace s -> dirs (fs s') = dirs (fs s) ->
     (is_Some r <-> is_Some (os_short_write (ext s)).1) ->
     files (fs s') = <[p := default "" (files (fs s) !! p) +:+ written (os_short_write (ext s)).1 data]> (files (fs s)) ->
     Q r s') ->
  wp (file_WriteString p data) Q E s.
Proof.
  intros HQ. rw /file_WriteString. apply wp_bind, wp_ask. intros k w' Hk. rw Hk in HQ.
  wp_steps. apply HQ; [done..| |done]. cbn. split; destruct k; (by intros [] || by eexists).
Qed.

End state.
Arguments St {_}.
Arguments Prog {_} A.

#[export] Hint Resolve wp_gvar wp_gset_var : go_wp.

(** The steps of the process's own operations. *)
Ltac wp_go :=
  repeat first
    [ wp_step
    | lazymatch goal with
      | |- wp (gvar _) _ _ _ => apply wp_gvar
      | |- wp (gset_var _) _ _ _ => apply wp_gset_var
      | |- wp (record_ev _) _ _ _ => apply wp_modify
      end ]; cbn beta iota.
