(* ===== verification/SimWorld.v ===== *)
(** * A simulated world

    A concrete, executable [World]: in-memory services and scripted failures.
    It shows that the interfaces of the development have instances, and the
    witnesses of the theorems evaluate the program in it.

    The HTTP side is a function [sim_http] on the inventory console-data holds;
    [K8sStore] and the laws of the other services are stated in the files of
    the components that need them and proved of this world there. *)
From S2P Require Import Prelude GoStrings State.
#[local] Open Scope string_scope.
#[local] Open Scope Z_scope.

Record SimW := mkSim {
  sim_http : http_request -> gmap string nodeConsoleInfo -> do_result * gmap string nodeConsoleInfo;
  sim_inv : gmap string nodeConsoleInfo;
  sim_sts : StatefulSet;
  sim_get_err : option k8s_error;
  sim_update_err : option k8s_error;
  sim_pods : gmap string string;
  sim_os : os_op -> option error;
  sim_short : list nat;
  sim_exec : list string -> FS -> option error * string * FS }.

Definition sim_client_Do (r : http_request) (w : SimW) : do_result * SimW :=
  let '(res, inv') := sim_http w r (sim_inv w) in
  (res, mkSim (sim_http w) inv' (sim_sts w) (sim_get_err w) (sim_update_err w) (sim_pods w)
          (sim_os w) (sim_short w) (sim_exec w)).

Definition sim_getSts (w : SimW) : (k8s_error + StatefulSet) * SimW :=
  (match sim_get_err w with Some e => inl e | None => inr (sim_sts w) end, w).

Definition sim_updateSts (d : StatefulSet) (w : SimW) : (k8s_error + StatefulSet) * SimW :=
  match sim_update_err w with
  | Some e => (inl e, w)
  | None => (inr d, mkSim (sim_http w) (sim_inv w) d (sim_get_err w) (sim_update_err w) (sim_pods w)
                      (sim_os w) (sim_short w) (sim_exec w))
  end.

Definition sim_getPod (p : string) (w : SimW) : (k8s_error + string) * SimW :=
  (match sim_pods w !! p with Some n => inr n | None => inl (NotFound "not found") end, w).

(** The scripted short writes are consumed one by one. *)
Definition sim_short_write (w : SimW) : option nat * SimW :=
  match sim_short w with
  | [] => (None, w)
  | n :: l => (Some n, mkSim (sim_http w) (sim_inv w) (sim_sts w) (sim_get_err w) (sim_update_err w)
                         (sim_pods w) (sim_os w) l (sim_exec w))
  end.

#[export] Instance sim_world : World := {|
  W := SimW;
  newRequest_err := fun _ _ => None;
  client_Do := sim_client_Do;
  k8s_getStatefulSet := sim_getSts;
  k8s_updateStatefulSet := sim_updateSts;
  k8s_getPod := sim_getPod;
  k8s_listPods := fun w => ((None, (map_to_list (sim_pods w)).*1), w);
  os_fault := fun op w => (sim_os w op, w);
  os_short_write := sim_short_write;
  exec_run := fun argv fsys w => (sim_exec w argv fsys, w);
  os_FindProcess := fun _ w => (None, w);
  os_Wait := fun _ w => (None, w);
  time_now := fun w => ("2024-01-01T00:00:00Z", w);
  map_order := fun V m w => (map_to_list m, w);
  map_order_perm := fun V m w => reflexivity _;
  gjson_Get := fun body path => "key";
  json_error := fun _ => "invalid JSON" |}.

(** A quiet cluster: every service answers 200 with an empty object. *)
Definition quiet : SimW :=
  mkSim (fun _ inv => (DoResp 200 (inr "{}"), inv)) ∅ (mkSts (Some 1) "") None None ∅
    (fun _ => None) [] (fun _ fsys => (None, "", fsys)).

Definition empty_FS : FS := mkFS ∅ ∅.

Definition sim_state (g : Globals) (w : SimW) : St := mkSt g empty_FS w [].

(** A world in which no file can be opened for writing. *)
Definition broken_world : World := {|
  W := unit;
  newRequest_err := fun _ _ => None;
  client_Do := fun _ w => (DoErr "down", w);
  k8s_getStatefulSet := fun w => (inl (OtherError "down"), w);
  k8s_updateStatefulSet := fun _ w => (inl (OtherError "down"), w);
  k8s_getPod := fun _ w => (inl (OtherError "down"), w);
  k8s_listPods := fun w => ((Some "down", []), w);
  os_fault := fun _ w => (Some "input/output error", w);
  os_short_write := fun w => (Some 0%nat, w);
  exec_run := fun _ fsys w => ((Some "exec", "", fsys), w);
  os_FindProcess := fun _ w => (None, w);
  os_Wait := fun _ w => (None, w);
  time_now := fun w => ("", w);
  map_order := fun V m w => (map_to_list m, w);
  map_order_perm := fun V m w => reflexivity _;
  gjson_Get := fun _ _ => "";
  json_error := fun _ => "" |}.

Definition broken_state : @St broken_world := @mkSt broken_world init_globals empty_FS tt [].

(** A world whose services are fixed: the HTTP side is the function [h] on a
    state of type [X]; gjson is [gj]; the files never fail, programs do [ex],
    and the StatefulSet has [X]-independent answers. *)
Definition scripted_exec_world (X : Type) (h : http_request -> X -> do_result * X)
    (gj : string -> string -> string) (ex : list string -> FS -> option error * string * FS) : World := {|
  W := X;
  newRequest_err := fun _ _ => None;
  client_Do := h;
  k8s_getStatefulSet := fun w => (inr (mkSts (Some 1) ""), w);
  k8s_updateStatefulSet := fun d w => (inr d, w);
  k8s_getPod := fun _ w => (inr "ncn-w001", w);
  k8s_listPods := fun w => ((None, []), w);
  os_fault := fun _ w => (None, w);
  os_short_write := fun w => (None, w);
  exec_run := fun argv fsys w => (ex argv fsys, w);
  os_FindProcess := fun _ w => (None, w);
  os_Wait := fun _ w => (None, w);
  time_now := fun w => ("2024-01-01T00:00:00Z", w);
  map_order := fun V m w => (map_to_list m, w);
  map_order_perm := fun V m w => reflexivity _;
  gjson_Get := gj;
  json_error := fun _ => "invalid JSON" |}.

(** Programs that succeed and do nothing. *)
Definition scripted_world (X : Type) (h : http_request -> X -> do_result * X)
    (gj : string -> string -> string) : World :=
  scripted_exec_world X h gj (fun _ fsys => (None, "", fsys)).

(** A Kubernetes cluster that keeps its StatefulSet, and a volume on which
    [short] is the fate of every write; nobody answers HTTP requests. *)
Definition cluster_world (short : option nat) : World := {|
  W := StatefulSet;
  newRequest_err := fun _ _ => None;
  client_Do := fun _ w => (DoErr "down", w);
  k8s_getStatefulSet := fun w => (inr w, w);
  k8s_updateStatefulSet := fun d _ => (inr d, d);
  k8s_getPod := fun _ w => (inr "ncn-w001", w);
  k8s_listPods := fun w => ((None, []), w);
  os_fault := fun _ w => (None, w);
  os_short_write := fun w => (short, w);
  exec_run := fun _ fsys w => ((None, "", fsys), w);
  os_FindProcess := fun _ w => (None, w);
  os_Wait := fun _ w => (None, w);
  time_now := fun w => ("2024-01-01T00:00:00Z", w);
  map_order := fun V m w => (map_to_list m, w);
  map_order_perm := fun V m w => reflexivity _;
  gjson_Get := fun _ _ => "";
  json_error := fun _ => "invalid JSON" |}.

Definition cluster_state (short : option nat) : @St (cluster_world short) :=
  @mkSt (cluster_world short) init_globals empty_FS (mkSts (Some 1) "") [].
