(* ===== verification/HttpUtils.v ===== *)
(** * httpUtils.go: the HTTP client and the writing of responses

    Client side: [getURL], [postURL], [putURL] and [deleteURL] make one request
    and give back the body, the status code (-1 when there was none) and an
    error.  Server side: [SendResponseJSON] and [sendJSONError] on a model of
    [http.ResponseWriter], whose status and headers are fixed by the first
    [WriteHeader]. *)
From S2P Require Import Prelude GoStrings Json State.
#[local] Open Scope string_scope.
#[local] Open Scope Z_scope.

(** ** The response writer of net/http *)

Record ResponseWriter := mkRW {
  rw_Header : gmap string string;
  rw_sent : option (Z * gmap string string);
  rw_body : string }.

Definition new_rw : ResponseWriter := mkRW ∅ None "".

Definition Header_Set (k v : string) (w : ResponseWriter) : ResponseWriter :=
  mkRW (<[k := v]> (rw_Header w)) (rw_sent w) (rw_body w).

(** Only the first call has an effect. *)
Definition WriteHeader (code : Z) (w : ResponseWriter) : ResponseWriter :=
  match rw_sent w with
  | Some _ => w
  | None => mkRW (rw_Header w) (Some (code, rw_Header w)) (rw_body w)
  end.

Definition rw_Write (data : string) (w : ResponseWriter) : ResponseWriter :=
  let w' := WriteHeader 200 w in
  mkRW (rw_Header w') (rw_sent w') (rw_body w' +:+ data).

(** The status the client sees; a handler that returns without writing has sent 200. *)
Definition rw_status (w : ResponseWriter) : Z := from_option fst 200 (rw_sent w).

(** ** Responses *)

Definition newline : string := String (byte_of 10) "".

(** [json.NewEncoder(w).Encode(data)] writes the value and a newline. *)
Definition SendResponseJSON (w : ResponseWriter) (sc : Z) (data : option json) : ResponseWriter :=
  let w := Header_Set "Content-Type" "application/json" w in
  let w := WriteHeader sc w in
  match data with
  | Some j => rw_Write (print_json j +:+ newline) w
  | None => w
  end.

Record ErrResponse := mkErrResponse { er_E : Z; er_ErrMsg : string }.
Definition ErrResponse_json (e : ErrResponse) : json :=
  JObj [("e", JNum (itoa (er_E e))); ("err_msg", JStr (er_ErrMsg e))].

Definition sendJSONError (w : ResponseWriter) (ecode : Z) (message : string) : ResponseWriter :=
  let httpCode := ecode in
  let ecode := if (200 <=? ecode) && (ecode <=? 299) then 0 else ecode in
  SendResponseJSON w httpCode (Some (ErrResponse_json (mkErrResponse ecode message))).

(** ** Requests *)

Section client.
Context {WD : World}.

(** The body all four helpers share: build the request, perform it, read the
    reply.  [body] is the request body ([None] for GET), [hdrs] the headers. *)
Definition doURL (method URL : string) (body : option string) (hdrs : list (string * string))
  : Prog (option string * Z * option error) :=
  match newRequest_err method URL with
  | Some e => ret (None, -1, Some e)
  | None =>
    let req := mkReq method URL hdrs body in
    record_ev (EvHTTP req) ;;;
    let! r := ask (client_Do req) in
    match r with
    | DoErr e => ret (None, -1, Some e)
    | DoResp code (inl e) => ret (None, code, Some e)
    | DoResp code (inr data) => ret (Some data, code, None)
    end
  end.

Definition content_type : string * string := ("Content-Type", "application/json").

Definition getURL (URL : string) (requestHeaders : list (string * string)) :=
  doURL "GET" URL None requestHeaders.
Definition postURL (URL : string) (requestBody : string) (requestHeaders : list (string * string)) :=
  doURL "POST" URL (Some requestBody) (content_type :: requestHeaders).
Definition putURL (URL : string) (requestBody : string) (requestHeaders : list (string * string)) :=
  doURL "PUT" URL (Some requestBody) (content_type :: requestHeaders).
Definition deleteURL (URL : string) (requestBody : string) (requestHeaders : list (string * string)) :=
  doURL "DELETE" URL (Some requestBody) (content_type :: requestHeaders).

(** ** What a request can do to the process: nothing but the world and the trace *)

Definition doURL_result (r : do_result) : option string * Z * option error :=
  match r with
  | DoErr e => (None, -1, Some e)
  | DoResp code (inl e) => (None, code, Some e)
  | DoResp code (inr data) => (Some data, code, None)
  end.

Lemma doURL_spec method URL body hdrs s :
  newRequest_err method URL = None ->
  let req := mkReq method URL hdrs body in
  let '(r, w') := client_Do req (ext s) in
  doURL method URL body hdrs s
  = Ret (doURL_result r) (mkSt (gl s) (fs s) w' (trace s ++ [EvHTTP req])%list).
Proof.
  intros Hu. simpl. rw /doURL Hu.
  destruct (client_Do _ _) as [[|? []] w'] eqn:Hd; rw /bind /record_ev /modify /ask /= Hd; done.
Qed.

(** The variables and the files are untouched; the requests only grow. *)
Lemma doURL_frame method URL body hdrs s :
  exists r w' evs, doURL method URL body hdrs s = Ret r (mkSt (gl s) (fs s) w' (trace s ++ evs)%list)
    /\ (evs = [] \/ evs = [EvHTTP (mkReq method URL hdrs body)]).
Proof.
  destruct (newRequest_err method URL) as [e|] eqn:Hu.
  - exists (None, -1, Some e), (ext s), []. rw /doURL Hu app_nil_r. destruct s; eauto.
  - pose proof (doURL_spec method URL body hdrs s Hu) as Hs. simpl in Hs.
    destruct (client_Do _ _) as [r w']. rw Hs. eauto 6.
Qed.

(** [http_frame Pe s s']: the variables and the files are as they were, and
    the requests made in between all satisfy [Pe]. *)
Definition http_frame (Pe : http_request -> Prop) (s s' : St) : Prop :=
  gl s' = gl s /\ fs s' = fs s
  /\ exists reqs, trace s' = (trace s ++ (EvHTTP <$> reqs))%list /\ Forall Pe reqs.

#[export] Instance http_frame_preorder Pe : PreOrder (http_frame Pe).
Proof.
  rw /http_frame. split.
  - intros s. split_and!; [done..|]. exists []. by rw app_nil_r.
  - intros s1 s2 s3 (G1 & F1 & r1 & T1 & P1) (G2 & F2 & r2 & T2 & P2).
    split_and!; [congruence..|]. exists (r1 ++ r2)%list.
    rw T2 T1 fmap_app app_assoc. split; [done|]. by apply Forall_app.
Qed.

Lemma http_frame_weaken (P1 P2 : http_request -> Prop) s s' :
  (forall r, P1 r -> P2 r) -> http_frame P1 s s' -> http_frame P2 s s'.
Proof.
  intros HP (G & F & r & T & HF). rw /http_frame. split_and!; [done..|]. exists r. split; [done|].
  exact (Forall_impl _ _ _ HF HP).
Qed.

Lemma wp_doURL method URL body hdrs Q E s :
  let req := mkReq method URL hdrs body in
  (forall code e s', http_frame (eq req) s s' -> Q (None, code, Some e) s') ->
  (forall code data s', http_frame (eq req) s s' ->
     client_Do req (ext s) = (DoResp code (inr data), ext s') ->
     Q (Some data, code, None) s') ->
  wp (doURL method URL body hdrs) Q E s.
Proof.
  intros req Herr Hok. destruct (newRequest_err method URL) as [e|] eqn:Hu.
  - rw /doURL Hu. apply wp_ret, Herr. reflexivity.
  - pose proof (doURL_spec method URL body hdrs s Hu) as Hs. simpl in Hs.
    destruct (client_Do _ _) as [r w'] eqn:Hd. rw /wp Hs.
    assert (http_frame (eq req) s (mkSt (gl s) (fs s) w' (trace s ++ [EvHTTP req])%list)) as Hf.
    { rw /http_frame. split_and!; [done..|]. exists [req]. by split; [|constructor]. }
    destruct r as [e|code [e|data]]; simpl; [by apply Herr..|by apply Hok].
Qed.

Definition is_GET (r : http_request) : Prop := req_Method r = "GET".

End client.

#[export] Hint Resolve http_frame_weaken : go_wp.
