(* ===== verification/K8s.v ===== *)
(** * k8s.go: the interactions with Kubernetes

    [K8Service] is the interface the other components are given; [K8Manager]
    is its implementation.  The console-node StatefulSet is read and updated
    through the API; the number of consoles per pod is published in a text
    file on a volume shared with the console-node pods.

    [K8Laws] states what a client may rely on, and [K8Manager_laws] proves it
    of the implementation. *)
From S2P Require Import Prelude GoStrings Json JsonFacts State SimWorld.
From Stdlib Require Import Ascii.
#[local] Open Scope string_scope.
#[local] Open Scope Z_scope.

Definition nil_deref : string :=
  "runtime error: invalid memory address or nil pointer dereference".

Section k8s.
Context {WD : World}.

Record K8Service := {
  k8_printK8sInfo : Prog unit;
  k8_getReplicaCount : Prog (Z * option error);
  k8_updateReplicaCount : Z -> Prog unit;
  k8_updateNodesPerPod : Z -> Z -> Prog unit;
  k8_getPodLocationAlias : string -> Prog (string * option error) }.

(** The manager's two pointers: whether each is non-nil. *)
Record K8Manager := mkK8Manager {
  k8_config : bool;
  k8_clientset : bool }.

(** [NewK8Manager]: the results of [rest.InClusterConfig] and
    [kubernetes.NewForConfig] decide. *)
Definition NewK8Manager (inCluster newForConfig : option error) : option K8Manager * option error :=
  match inCluster with
  | Some e => (None, Some e)
  | None =>
    match newForConfig with
    | Some e => (None, Some e)
    | None => (Some (mkK8Manager true true), None)
    end
  end.

(** A line of the log (or, for the last one, of the standard output): the only
    effect of [printK8sInfo], and recorded for it alone. *)
Definition log_line (l : string) : Prog unit := record_ev (EvLog l).

Definition pod_verdict (r : k8s_error + string) : string :=
  match r with
  | inl (NotFound _) => "Pod cray-console-node not found in services namespace"
  | inl (StatusError m) => "Error getting pod " +:+ m
  | inl (OtherError m) => "Error getting pod: " +:+ m
  | inr _ => "Found cray-conman pod in default namespace"
  end.

Definition printK8sInfo (k : K8Manager) : Prog unit :=
  if negb (k8_clientset k) || negb (k8_config k) then log_line "ERROR: k8s not initialized correctly"
  else
    log_line "Getting Pods in namespace..." ;;;
    let! (err, pods) := ask k8s_listPods in
    (match err with Some e => log_line ("PodsList error: " +:+ e) | None => ret tt end) ;;;
    log_line ("There are " +:+ itoa (Z.of_nat (length pods)) +:+ " pods in the services namespace in the cluster") ;;;
    forM_ pods (fun pod => log_line ("Pod: " +:+ pod)) ;;;
    log_line "Getting cray-console-node pods..." ;;;
    let! r := ask (k8s_getPod "cray-console-node") in
    log_line (pod_verdict r).

Definition getReplicaCount (k : K8Manager) : Prog (Z * option error) :=
  if negb (k8_clientset k) then panic nil_deref
  else
    let! r := ask k8s_getStatefulSet in
    match r with
    | inl (NotFound m) => ret (-1, Some m)
    | inl (StatusError m) => ret (-1, Some m)
    | inl (OtherError m) => ret (-1, Some m)
    | inr dep =>
      match Spec_Replicas dep with
      | None => panic nil_deref
      | Some n => ret (n, None)
      end
    end.

Definition updateReplicaCount (k : K8Manager) (newReplicaCnt : Z) : Prog unit :=
  if negb (k8_clientset k) || negb (k8_config k) then ret tt
  else
    let! r := ask k8s_getStatefulSet in
    match r with
    | inl (NotFound _) => ret tt
    | inl (StatusError _) => ret tt
    | inl (OtherError _) => ret tt
    | inr dep =>
      match Spec_Replicas dep with
      | None => panic nil_deref
      | Some currReplicas =>
        if negb (int32 newReplicaCnt =? currReplicas) then
          let dep' := mkSts (Some (int32 newReplicaCnt)) (sts_rest dep) in
          record_ev (EvK8sUpdate dep') ;;;
          let! u := ask (k8s_updateStatefulSet dep') in
          match u with
          | inl _ => ret tt
          | inr newDep =>
            match Spec_Replicas newDep with
            | None => panic nil_deref
            | Some _ => gset_var (set_numNodePods newReplicaCnt)
            end
          end
        else gset_var (set_numNodePods newReplicaCnt)
      end
    end.

Definition targetNodeFile : string := "/var/log/console/TargetNodes.txt".

(** What both failures to reach the file do: complain loudly once there were
    more than three of them in a row, else count one more. *)
Definition fileError (msg : string) (e : error) : Prog unit :=
  let! n := gvar numFileErrors in
  if 3 <? n then panic ("Multiple file access errors, " +:+ msg +:+ ": " +:+ e)
  else gset_var (set_numFileErrors (int64 (n + 1))).

Definition riverLine (n : Z) : string := "River:" +:+ itoa n +:+ String (byte_of 10) "".
Definition mountainLine (n : Z) : string := "Mountain:" +:+ itoa n +:+ String (byte_of 10) "".

Definition updateNodesPerPod (newNumMtn newNumRvr : Z) : Prog unit :=
  let pos := lastIndexByte targetNodeFile "/"%char in
  if pos <? 0 then ret tt
  else
    match slice_to targetNodeFile pos with
    | None => panic "runtime error: slice bounds out of range"
    | Some targetNodeDir =>
      let! st := os_Stat targetNodeDir in
      let! mk := match st with
                 | StatNotExist => os_MkdirAll targetNodeDir
                 | _ => ret None
                 end in
      match mk with
      | Some e => fileError "unable to create dir" e
      | None =>
        let! op := os_OpenTrunc targetNodeFile in
        match op with
        | Some e => fileError "unable to open config file to write" e
        | None =>
          gset_var (set_numFileErrors 0) ;;;
          file_WriteString targetNodeFile (riverLine newNumRvr) ;;;
          file_WriteString targetNodeFile (mountainLine newNumMtn) ;;;
          gset_var (set_numMtnNodesPerPod newNumMtn) ;;;
          gset_var (set_numRvrNodesPerPod newNumRvr)
        end
      end
    end.

Definition getPodLocationAlias (k : K8Manager) (podID : string) : Prog (string * option error) :=
  if negb (k8_clientset k) then panic nil_deref
  else
    let! r := ask (k8s_getPod podID) in
    match r with
    | inl e => ret ("", Some (k8s_msg e))
    | inr nodeName => ret (nodeName, None)
    end.

(** [K8Manager] implements [K8Service]. *)
Definition K8Manager_service (k : K8Manager) : K8Service := {|
  k8_printK8sInfo := printK8sInfo k;
  k8_getReplicaCount := getReplicaCount k;
  k8_updateReplicaCount := updateReplicaCount k;
  k8_updateNodesPerPod := updateNodesPerPod;
  k8_getPodLocationAlias := getPodLocationAlias k |}.

(** ** The interface *)

(** What the clients of [K8Service] rely on: which variables a call may
    write.  [E] is what holds when the call panics. *)
Class K8Laws (k : K8Service) := {
  k8_getReplicaCount_frame s :
    wp (k8_getReplicaCount k) (fun r s' => same_process s s' /\ (is_Some r.2 -> r.1 = -1))
      (fun _ s' => same_process s s') s;
  k8_updateReplicaCount_frame n s :
    wp (k8_updateReplicaCount k n)
      (fun _ s' => (gl s' = gl s \/ gl s' = set_numNodePods n (gl s)) /\ fs s' = fs s)
      (fun _ s' => gl s' = gl s /\ fs s' = fs s) s;
  k8_updateNodesPerPod_frame mtn rvr s :
    wp (k8_updateNodesPerPod k mtn rvr)
      (fun _ s' => trace s' = trace s
         /\ (gl s' = set_numRvrNodesPerPod rvr (set_numMtnNodesPerPod mtn (set_numFileErrors 0 (gl s)))
             \/ (numFileErrors (gl s) <= 3
                 /\ gl s' = set_numFileErrors (int64 (numFileErrors (gl s) + 1)) (gl s))))
      (fun _ s' => gl s' = gl s /\ trace s' = trace s /\ 3 < numFileErrors (gl s)) s }.

Lemma getReplicaCount_frame k s :
  wp (getReplicaCount k) (fun r s' => same_process s s' /\ (is_Some r.2 -> r.1 = -1))
    (fun _ s' => same_process s s') s.
Proof.
  rw /getReplicaCount. wp_go; [done|]. apply wp_ask_same. intros r s' Hs.
  wp_go; (done || (split; [done|]; by intros [])).
Qed.

Lemma updateReplicaCount_frame k n s :
  wp (updateReplicaCount k n)
    (fun _ s' => (gl s' = gl s \/ gl s' = set_numNodePods n (gl s)) /\ fs s' = fs s)
    (fun _ s' => gl s' = gl s /\ fs s' = fs s) s.
Proof.
  rw /updateReplicaCount. wp_go; [by eauto|]. apply wp_ask_same. intros r s' (H1 & H2 & H3).
  wp_go; rw ?H1 ?H2; eauto.
  apply wp_ask_same. intros u s'' (H4 & H5 & H6). simpl in *.
  wp_go; simpl; rw ?H4 ?H5 ?H1 ?H2; eauto.
Qed.

Lemma wp_fileError msg e (Q : unit -> St -> Prop) (E : string -> St -> Prop) s :
  (numFileErrors (gl s) <= 3 ->
     Q tt (set_gl (set_numFileErrors (int64 (numFileErrors (gl s) + 1)) (gl s)) s)) ->
  (forall m, 3 < numFileErrors (gl s) -> E m s) ->
  wp (fileError msg e) Q E s.
Proof. intros HQ HE. rw /fileError. wp_go; [apply HE; lia|apply HQ; lia]. Qed.

Lemma targetNodeDir_eq :
  (lastIndexByte targetNodeFile "/"%char <? 0) = false
  /\ slice_to targetNodeFile (lastIndexByte targetNodeFile "/"%char) = Some "/var/log/console".
Proof. by vm_compute. Qed.

(** ** What is printed *)

Lemma log_lines {A} (f : A -> string) l s :
  forM_ l (fun x => log_line (f x)) s
  = Ret tt (mkSt (gl s) (fs s) (ext s) (trace s ++ (EvLog <$> (f <$> l)))%list).
Proof.
  revert s. induction l as [|x l IH]; intros s; [by rw /= app_nil_r; destruct s|].
  rw /forM_. cbn [foldM]. rw /bind /log_line /record_ev /modify -/(forM_ l (fun x => log_line (f x))).
  specialize (IH (emit_ev (EvLog (f x)) s)). rw /forM_ in IH. etrans; [exact IH|]. cbn. by rw -app_assoc.
Qed.

(** The report lists every pod once, in order, even when the listing failed
    part-way, then the verdict on the console-node pod; the variables and the
    files are left alone and nothing panics. *)
Theorem printK8sInfo_report k s :
  if negb (k8_clientset k) || negb (k8_config k)
  then printK8sInfo k s = Ret tt (emit_ev (EvLog "ERROR: k8s not initialized correctly") s)
  else
    let '((err, pods), w1) := k8s_listPods (ext s) in
    let '(r, w2) := k8s_getPod "cray-console-node" w1 in
    exists before after, printK8sInfo k s = Ret tt (mkSt (gl s) (fs s) w2
        (trace s ++ (EvLog <$> (before ++ (String.append "Pod: " <$> pods) ++ after)))%list)
      /\ last after = Some (pod_verdict r)
      /\ (forall e, err = Some e -> ("PodsList error: " +:+ e) ∈ before)
      /\ last before = Some ("There are " +:+ itoa (Z.of_nat (length pods)) +:+ " pods in the services namespace in the cluster").
Proof.
  rw /printK8sInfo. destruct (negb (k8_clientset k) || negb (k8_config k)); [done|].
  destruct (k8s_listPods (ext s)) as [[err pods] w1] eqn:Hl.
  destruct (k8s_getPod "cray-console-node" w1) as [r w2] eqn:Hg.
  exists (("Getting Pods in namespace..." :: match err with Some e => ["PodsList error: " +:+ e] | None => [] end)
    ++ ["There are " +:+ itoa (Z.of_nat (length pods)) +:+ " pods in the services namespace in the cluster"])%list,
    ["Getting cray-console-node pods..."; pod_verdict r].
  split_and!; [|done| |by rw last_snoc].
  2: { intros e ->. set_solver. }
  set (l1 := "Getting Pods in namespace..."). set (l3 := "Getting cray-console-node pods..."). clearbody l1 l3.
  rw {1}/bind {1}/log_line /record_ev /modify /bind /ask. cbn [ext emit_ev]. rw Hl.
  destruct err as [e|]; rw /log_line /record_ev /modify /ret; cbn beta iota.
  all: rw (log_lines (String.append "Pod: ")); cbn [ext emit_ev set_ext]; rw Hg.
  all: rw /emit_ev /set_ext; cbn [gl fs ext trace]; do 2 f_equal.
  all: set (l2 := "There are " +:+ _); clearbody l2; by rw !fmap_app -!app_assoc.
Qed.

(** ** The file of targets *)

(** What the two writes of [updateNodesPerPod], each cut off or not, leave. *)
Definition targets_written (w1 w2 : W) (mtn rvr : Z) : string :=
  written (os_short_write w1).1 (riverLine rvr) +:+ written (os_short_write w2).1 (mountainLine mtn).

Lemma targets_complete w1 w2 mtn rvr :
  writes_complete -> targets_written w1 w2 mtn rvr = riverLine rvr +:+ mountainLine mtn.
Proof. intros Hw. by rw /targets_written !written_complete. Qed.

(** Once the file is open, both variables are set, whatever the writes do. *)
Definition published (mtn rvr : Z) (s s' : St) : Prop :=
  gl s' = set_numRvrNodesPerPod rvr (set_numMtnNodesPerPod mtn (set_numFileErrors 0 (gl s)))
  /\ trace s' = trace s
  /\ exists w1 w2, files (fs s') = <[targetNodeFile := targets_written w1 w2 mtn rvr]> (files (fs s)).

(** The file was not reached: its failure is counted, nothing else changes. *)
Definition not_published (s s' : St) : Prop :=
  gl s' = set_numFileErrors (int64 (numFileErrors (gl s) + 1)) (gl s)
  /\ trace s' = trace s /\ files (fs s') = files (fs s) /\ numFileErrors (gl s) <= 3.

Definition gave_up (s s' : St) : Prop :=
  gl s' = gl s /\ trace s' = trace s /\ files (fs s') = files (fs s) /\ 3 < numFileErrors (gl s).

(** The code after the directory was checked. *)
Definition open_and_write (mtn rvr : Z) : Prog unit :=
  let! op := os_OpenTrunc targetNodeFile in
  match op with
  | Some e => fileError "unable to open config file to write" e
  | None =>
    gset_var (set_numFileErrors 0) ;;;
    file_WriteString targetNodeFile (riverLine rvr) ;;;
    file_WriteString targetNodeFile (mountainLine mtn) ;;;
    gset_var (set_numMtnNodesPerPod mtn) ;;;
    gset_var (set_numRvrNodesPerPod rvr)
  end.

(** It publishes exactly when the file opens. *)
Lemma wp_open_and_write mtn rvr s :
  wp (open_and_write mtn rvr)
    (fun _ s' => published mtn rvr s s'
       /\ (os_fault (OpOpen targetNodeFile) (ext s)).1 = None /\ "/var/log/console" ∈ dirs (fs s)
     \/ not_published s s'
       /\ ((os_fault (OpOpen targetNodeFile) (ext s)).1 <> None \/ "/var/log/console" ∉ dirs (fs s)))
    (fun _ s' => gave_up s s'
       /\ ((os_fault (OpOpen targetNodeFile) (ext s)).1 <> None \/ "/var/log/console" ∉ dirs (fs s))) s.
Proof.
  rw /open_and_write {1}/os_OpenTrunc. apply wp_bind, wp_bind, wp_ask. intros f w1 Hf. rw Hf.
  change (dir_of targetNodeFile) with (Some "/var/log/console"). cbn [from_option].
  destruct f as [e|].
  { apply wp_ret, wp_fileError; cbn; [intros; right|intros _ ?]; (split; [done|by left]). }
  apply wp_bind, wp_gets. cbn beta. case_bool_decide as Hd; cbn [negb].
  2: { apply wp_ret, wp_fileError; cbn; [intros; right|intros _ ?]; (split; [done|by right]). }
  wp_go. apply wp_file_WriteString. intros _ s4 G4 T4 _ _ F4.
  apply wp_bind, wp_file_WriteString. intros _ s5 G5 T5 _ _ F5. wp_go. left. split; [|done]. split_and!.
  - by rw /= G5 G4.
  - by rw /= T5 T4.
  - eexists _, (ext s4). rw /= F5 F4 /=. by rw !lookup_insert_eq !insert_insert_eq /targets_written.
Qed.

(** The whole of [updateNodesPerPod]. *)
Lemma wp_updateNodesPerPod mtn rvr s :
  wp (updateNodesPerPod mtn rvr)
    (fun _ s' => published mtn rvr s s' /\ (exists w, (os_fault (OpOpen targetNodeFile) w).1 = None)
       \/ not_published s s') (fun _ s' => gave_up s s') s.
Proof.
  rw /updateNodesPerPod. destruct targetNodeDir_eq as [-> ->].
  apply wp_bind, wp_os_Stat. intros st s1 (G1 & F1 & T1). apply wp_bind.
  assert (forall mk s2, gl s2 = gl s -> files (fs s2) = files (fs s) -> trace s2 = trace s ->
    wp match mk with Some e => fileError "unable to create dir" e | None => open_and_write mtn rvr end
      (fun _ s' => published mtn rvr s s' /\ (exists w, (os_fault (OpOpen targetNodeFile) w).1 = None)
       \/ not_published s s') (fun _ s' => gave_up s s') s2) as Hrest.
  { intros mk s2 G2 F2 T2. rw /published /not_published /gave_up -G2 -F2 -T2. destruct mk as [e|].
    { apply wp_fileError; [by right|by intros]. }
    eapply wp_mono; [apply wp_open_and_write| |by intros ? ? [? _]].
    intros _ s' [(H & Ho & _)|[H _]]; [left|by right]. split; [exact H|exact (ex_intro _ _ Ho)]. }
  destruct st; [apply wp_ret, (Hrest None); congruence| |apply wp_ret, (Hrest None); congruence].
  apply wp_os_MkdirAll. intros mk s2 G2 F2 T2. apply (Hrest mk); congruence.
Qed.

(** The volume can be used: no system call on it fails. *)
Definition volume_ready : Prop :=
  forall p w, (os_fault (OpStat p) w).1 = None /\ (os_fault (OpMkdirAll p) w).1 = None
    /\ (os_fault (OpOpen p) w).1 = None.

Lemma updateNodesPerPod_ready mtn rvr s :
  volume_ready -> files (fs s) !! "/var/log/console" = None ->
  wp (updateNodesPerPod mtn rvr) (fun _ s' => published mtn rvr s s') no_panic s.
Proof.
  intros Hv Hn. rw /updateNodesPerPod. destruct targetNodeDir_eq as [-> ->]. apply wp_bind.
  assert (forall s2, gl s2 = gl s -> files (fs s2) = files (fs s) -> trace s2 = trace s ->
    "/var/log/console" ∈ dirs (fs s2) ->
    wp (open_and_write mtn rvr) (fun _ s' => published mtn rvr s s') no_panic s2) as Hrest.
  { intros s2 G2 F2 T2 D2. destruct (Hv targetNodeFile (ext s2)) as (_ & _ & Ho).
    rw /published -G2 -F2 -T2. eapply wp_mono; [apply wp_open_and_write|..].
    - intros _ s' [[H _]|[_ [?|?]]]; done.
    - by intros ? s' [_ [?|?]]. }
  rw /os_Stat. apply wp_bind, wp_ask. intros f w1 Hf. destruct (Hv "/var/log/console" (ext s)) as (H1 & _).
  rw Hf in H1. cbn in H1. subst f. apply wp_bind, wp_gets, wp_ret. cbn [fs set_ext].
  destruct (decide _) as [[[x Hx]|Hd]|Hd]; [congruence|by apply wp_bind, wp_ret, Hrest|].
  rw /os_MkdirAll. apply wp_bind, wp_bind, wp_ask. intros f w2 Hf2. destruct (Hv "/var/log/console" w1) as (_ & H2 & _).
  cbn [ext set_ext] in Hf2. rw Hf2 in H2. cbn in H2. subst f. apply wp_bind, wp_modify, wp_ret, Hrest; [done..|].
  cbn [fs set_fs dirs]. apply elem_of_union_l. set_solver.
Qed.

#[export] Instance K8Manager_laws (k : K8Manager) : K8Laws (K8Manager_service k).
Proof.
  split; simpl.
  - apply getReplicaCount_frame.
  - apply updateReplicaCount_frame.
  - intros mtn rvr s. eapply wp_mono; [apply wp_updateNodesPerPod| |by intros _ s' (? & ? & _ & ?)].
    intros _ s' [[(? & ? & _) _]|(? & ? & _ & ?)]; eauto.
Qed.

End k8s.

(** ** The API server *)

(** The documented behaviour of the Kubernetes API for the StatefulSet, as long
    as nobody else edits it: a GET that succeeds gives the stored object; an
    update that succeeds stores the replica count it was given and returns the
    server's representation, whose other fields the server may have filled in;
    an update that reports a failure (a timeout, say) may still have been
    carried out.  The container's own file system is elsewhere. *)
Class K8sStore {WD : World} (sts_of : W -> StatefulSet) := {
  sts_get w : sts_of (k8s_getStatefulSet w).2 = sts_of w
    /\ forall d, (k8s_getStatefulSet w).1 = inr d -> d = sts_of w;
  sts_update d w :
    match (k8s_updateStatefulSet d w).1 with
    | inr d' => d' = sts_of (k8s_updateStatefulSet d w).2 /\ Spec_Replicas d' = Spec_Replicas d
    | inl _ => sts_of (k8s_updateStatefulSet d w).2 = sts_of w
               \/ Spec_Replicas (sts_of (k8s_updateStatefulSet d w).2) = Spec_Replicas d
    end;
  sts_fault op w : sts_of (os_fault op w).2 = sts_of w;
  sts_write w : sts_of (os_short_write w).2 = sts_of w }.

#[export] Instance sim_K8sStore : K8sStore sim_sts.
Proof.
  split.
  - intros w. simpl. split; [done|]. rw /sim_getSts. destruct (sim_get_err w); [done|]. by intros d [= ->].
  - intros d w. simpl. rw /sim_updateSts. destruct (sim_update_err w); [by left|done].
  - done.
  - intros w. simpl. rw /sim_short_write. by destruct (sim_short w).
Qed.

Section k8s_theorems.
Context {WD : World}.

(** Both calls of the API answer. *)
Definition api_up : Prop :=
  (forall w, exists d w', k8s_getStatefulSet w = (inr d, w'))
  /\ (forall d w, exists d' w', k8s_updateStatefulSet d w = (inr d', w')).

Lemma updateReplicaCount_up (sts_of : W -> StatefulSet) `{!K8sStore sts_of} k n s c :
  Spec_Replicas (sts_of (ext s)) = Some c -> k8_clientset k = true -> k8_config k = true -> api_up ->
  exists s', updateReplicaCount k n s = Ret tt s' /\ fs s' = fs s
    /\ gl s' = set_numNodePods n (gl s) /\ Spec_Replicas (sts_of (ext s')) = Some (int32 n).
Proof.
  intros Hc H1 H2 [Hget Hupd]. rw /updateReplicaCount H1 H2 /bind /ask /record_ev /modify /gset_var. cbn [negb orb].
  destruct (sts_get (ext s)) as [Hw1 Hd]. destruct (Hget (ext s)) as (d & w1 & Hg). rw Hg in Hw1, Hd |- *.
  cbn [fst snd] in Hw1, Hd. rw (Hd d eq_refl) Hc. destruct (Z.eqb_spec (int32 n) c) as [->|Hne]; cbn [negb].
  { eexists. split_and!; [reflexivity|done|done|by rw /= Hw1]. }
  set (d' := mkSts _ _). pose proof (sts_update d' w1) as Hu. cbn [ext emit_ev set_ext].
  destruct (Hupd d' w1) as (newDep & w2 & Hup). rw Hup in Hu |- *. destruct Hu as [-> Hu]. cbn [snd] in *.
  rw Hu. cbn [d' Spec_Replicas]. eexists. split_and!; [reflexivity|done|done|by rw /= Hu].
Qed.

Lemma getReplicaCount_run (sts_of : W -> StatefulSet) `{!K8sStore sts_of} k s c :
  Spec_Replicas (sts_of (ext s)) = Some c -> k8_clientset k = true -> api_up ->
  exists w', getReplicaCount k s = Ret (c, None) (set_ext w' s) /\ sts_of w' = sts_of (ext s).
Proof.
  intros Hc H1 [Hget _]. rw /getReplicaCount H1 /bind /ask. cbn [negb].
  destruct (sts_get (ext s)) as [Hw1 Hd]. destruct (Hget (ext s)) as (d & w1 & Hg). rw Hg in Hw1, Hd |- *.
  rw (Hd d eq_refl) Hc. by exists w1.
Qed.

(** Every read of the StatefulSet fails. *)
Definition api_down : Prop := forall w, exists e w', k8s_getStatefulSet w = (inl e, w').

Lemma replicas_down (sts_of : W -> StatefulSet) `{!K8sStore sts_of} k n s :
  k8_clientset k = true -> api_down ->
  exists w1 w2 e, updateReplicaCount k n s = Ret tt (set_ext w1 s) /\ sts_of w1 = sts_of (ext s)
    /\ getReplicaCount k (set_ext w1 s) = Ret (-1, Some e) (set_ext w2 s) /\ sts_of w2 = sts_of (ext s).
Proof.
  intros Hk Hdown.
  assert (exists w1, updateReplicaCount k n s = Ret tt (set_ext w1 s) /\ sts_of w1 = sts_of (ext s)) as (w1 & Hu & S1).
  { rw /updateReplicaCount Hk /bind /ask. cbn [negb orb]. destruct (negb (k8_config k)); [exists (ext s); by destruct s|].
    destruct (sts_get (ext s)) as [Hw1 _]. destruct (Hdown (ext s)) as (e & w1 & Hg). rw Hg in Hw1 |- *.
    exists w1. split; [by destruct e|done]. }
  destruct (sts_get w1) as [Hw2 _]. destruct (Hdown w1) as (e & w2 & Hg). rw Hg in Hw2. cbn in Hw2.
  exists w1, w2, (k8s_msg e). split_and!; [done|done| |congruence].
  rw /getReplicaCount Hk /bind /ask. cbn [negb ext set_ext]. rw Hg. by destruct e.
Qed.

(** What neither a fault of the file system nor a write concerns. *)
Lemma updateNodesPerPod_ext {X} (f : W -> X) mtn rvr s :
  (forall op w, f (os_fault op w).2 = f w) -> (forall w, f (os_short_write w).2 = f w) ->
  wp (updateNodesPerPod mtn rvr) (fun _ s' => f (ext s') = f (ext s)) (fun _ s' => f (ext s') = f (ext s)) s.
Proof.
  intros Hf Hs. set (Q := fun (_ : unit) s' => f (ext s') = f (ext s)). set (E := fun (_ : string) s' => f (ext s') = f (ext s)).
  assert (forall {A} op (k : option error -> Prog A) s1 (R : A -> St -> Prop) F, f (ext s1) = f (ext s) ->
    (forall r s2, f (ext s2) = f (ext s) -> wp (k r) R F s2) -> wp (bind (ask (os_fault op)) k) R F s1) as Hask.
  { intros A op k s1 R F H1 HR. apply wp_bind, wp_ask. intros a w' Ha. apply HR. specialize (Hf op (ext s1)). rw Ha in Hf. cbn in *. congruence. }
  assert (forall m e s1, f (ext s1) = f (ext s) -> wp (fileError m e) Q E s1) as Herr by (intros; by apply wp_fileError).
  assert (forall d (k : option error -> Prog unit) s1, f (ext s1) = f (ext s) ->
    (forall r s2, f (ext s2) = f (ext s) -> wp (k r) Q E s2) -> wp (bind (file_WriteString targetNodeFile d) k) Q E s1) as Hwr.
  { intros d k s1 H1 Hk. apply wp_bind. rw /file_WriteString. apply wp_bind, wp_ask. intros a w' Ha. wp_go. apply Hk. specialize (Hs (ext s1)). rw Ha in Hs. cbn in *. congruence. }
  rw /updateNodesPerPod. destruct targetNodeDir_eq as [-> ->]. apply wp_bind, Hask; [done|]. intros st s1 H1.
  assert (forall s2, f (ext s2) = f (ext s) -> wp (open_and_write mtn rvr) Q E s2) as Hopen.
  { intros s2 H2. rw /open_and_write /os_OpenTrunc. apply wp_bind, Hask; [done|]. intros [e|] s3 H3; [by apply wp_ret, Herr|].
    apply wp_bind, wp_gets. case_match; [|by apply wp_ret, Herr]. apply wp_bind, wp_modify, wp_ret.
    apply wp_bind, wp_gset_var. apply Hwr; [done|]. intros _ s4 H4. apply Hwr; [done|]. intros _ s5 H5. by wp_go. }
  assert (forall st s2, f (ext s2) = f (ext s) ->
    wp (let! mk := match st with StatNotExist => os_MkdirAll "/var/log/console" | _ => ret None end in
        match mk with Some e => fileError "unable to create dir" e | None => open_and_write mtn rvr end) Q E s2) as Hmk.
  { intros [| |e] s2 H2; [by apply wp_bind, wp_ret, Hopen| |by apply wp_bind, wp_ret, Hopen].
    apply wp_bind, Hask; [done|]. intros [e|] s3 H3; [by apply wp_ret, Herr|]. by apply wp_bind, wp_modify, wp_ret, Hopen. }
  destruct st as [e|]; [apply wp_ret; exact (Hmk (StatErr e) s1 H1)|]. apply wp_bind, wp_gets, wp_ret. exact (Hmk _ s1 H1).
Qed.

(** C19: [updateReplicaCount] keeps [numNodePods] truthful. On a StatefulSet
    that carries a replica count [c] it never panics. It asks for an update only
    when [c] is not the requested count, and then for the object it read with
    nothing but the replica field replaced. Whenever it assigns [numNodePods],
    to the requested count and no other variable with it, the StatefulSet holds
    exactly that count (as an int32), whatever else the server filled in. When
    an API call reports a failure the variable keeps its value, although the
    cluster may have been scaled all the same; and when both calls answer, the
    cluster is scaled and the variable is set. *)
Theorem updateReplicaCount_truthful (sts_of : W -> StatefulSet) `{!K8sStore sts_of} k n s c :
  Spec_Replicas (sts_of (ext s)) = Some c ->
  exists s', updateReplicaCount k n s = Ret tt s' /\ fs s' = fs s
    /\ (gl s' = gl s
        \/ gl s' = set_numNodePods n (gl s) /\ Spec_Replicas (sts_of (ext s')) = Some (int32 n))
    /\ (Spec_Replicas (sts_of (ext s')) = Some c \/ Spec_Replicas (sts_of (ext s')) = Some (int32 n))
    /\ (trace s' = trace s /\ sts_of (ext s') = sts_of (ext s)
        \/ c <> int32 n
           /\ trace s' = (trace s ++ [EvK8sUpdate (mkSts (Some (int32 n)) (sts_rest (sts_of (ext s))))])%list)
    /\ (k8_clientset k = true -> k8_config k = true -> api_up ->
        gl s' = set_numNodePods n (gl s) /\ Spec_Replicas (sts_of (ext s')) = Some (int32 n)).
Proof.
  intros Hc. rw /updateReplicaCount /bind /ask /record_ev /modify /gset_var /ret /=.
  destruct (negb (k8_clientset k) || negb (k8_config k)) eqn:Hk.
  { exists s. split_and!; [done|done|by left|by left|by left|]. intros H1 H2. by rw H1 H2 in Hk. }
  destruct (sts_get (ext s)) as [Hw1 Hd]. destruct (k8s_getStatefulSet (ext s)) as [r w1] eqn:Hg.
  cbn [fst snd] in Hw1, Hd.
  destruct r as [e|d].
  { exists (set_ext w1 s). split_and!; [by destruct e|done|by left|left; by rw /= Hw1|by left|].
    intros _ _ [Hup _]. destruct (Hup (ext s)) as (? & ? & H). by rw H in Hg. }
  rw (Hd d eq_refl) Hc.
  destruct (Z.eqb_spec (int32 n) c) as [->|Hne]; cbn [negb].
  { eexists. split_and!; [done|done|right; by rw /= Hw1|left; by rw /= Hw1|by left|by rw /= Hw1]. }
  set (d' := mkSts _ _). pose proof (sts_update d' w1) as Hu. cbn [ext emit_ev set_ext].
  destruct (k8s_updateStatefulSet d' w1) as [u w2] eqn:Hup. cbn [fst snd] in Hu. destruct u as [e|newDep].
  - eexists. split_and!; [done|done|by left| |right; by split; [intros ->|]|].
    + destruct Hu as [Hu|Hu]; [left; by rw /= Hu Hw1|by right].
    + intros _ _ [_ Ha]. destruct (Ha d' w1) as (? & ? & H). by rw H in Hup.
  - destruct Hu as [-> Hu]. rw Hu. cbn [d' Spec_Replicas].
    eexists. split_and!; [done|done|right; by rw /= Hu|right; by rw /= Hu|right; by split; [intros ->|]|by rw /= Hu].
Qed.

(** ** A cluster in which nothing panics *)

(** The program has its client, StatefulSets come with their replica count, and
    the volume can be used.  API calls may still fail. *)
Record cluster_calm (k : K8Manager) : Prop := {
  calm_client : k8_clientset k = true;
  calm_get w d : (k8s_getStatefulSet w).1 = inr d -> is_Some (Spec_Replicas d);
  calm_update d w d' : is_Some (Spec_Replicas d) -> (k8s_updateStatefulSet d w).1 = inr d' -> is_Some (Spec_Replicas d');
  calm_volume : volume_ready }.

Lemma getReplicaCount_returns k s : cluster_calm k -> exists r w', getReplicaCount k s = Ret r (set_ext w' s).
Proof.
  intros [Hk Hg _ _]. rw /getReplicaCount Hk /bind /ask. cbn [negb]. specialize (Hg (ext s)).
  destruct (k8s_getStatefulSet (ext s)) as [[[]|d] w1]; [by eexists _, _..|]. cbn in Hg.
  destruct (Hg d eq_refl) as [n ->]. by eexists _, _.
Qed.

Lemma updateReplicaCount_returns k n s : cluster_calm k -> exists s', updateReplicaCount k n s = Ret tt s'.
Proof.
  intros [Hk Hg Hu _]. rw /updateReplicaCount /bind /ask. destruct (_ || _); [by eexists|]. specialize (Hg (ext s)).
  destruct (k8s_getStatefulSet (ext s)) as [[[]|d] w1]; [by eexists..|]. cbn in Hg.
  destruct (Hg d eq_refl) as [c ->]. destruct (negb _); [|by eexists]. cbn [record_ev modify ext emit_ev set_ext].
  set (d' := mkSts _ _). specialize (Hu d' w1). destruct (k8s_updateStatefulSet d' w1) as [[|newDep] w2]; [by eexists|].
  destruct (Hu newDep ltac:(by eexists) eq_refl) as [c' ->]. by eexists.
Qed.

(** The volume with the target file cannot be written. *)
Definition volume_unavailable : Prop :=
  forall w, exists e w', os_fault (OpOpen targetNodeFile) w = (Some e, w').

Lemma updateNodesPerPod_unavailable mtn rvr s :
  volume_unavailable ->
  wp (updateNodesPerPod mtn rvr) (fun _ s' => not_published s s') (fun _ s' => gave_up s s') s.
Proof.
  intros Hv. eapply wp_mono; [apply wp_updateNodesPerPod| |done]. intros _ s' [[_ [w Hw]]|?]; [|done].
  destruct (Hv w) as (e & w' & Hf). by rw Hf in Hw.
Qed.

(** C20: what a call of [updateNodesPerPod] does to the file of targets and to
    the variables. When the file can be opened, both variables are set and the
    error count is cleared, and the file holds the two lines of the new targets
    as far as the two writes went, all of both when none stops short; the code
    does not look at the results of the writes. When the file cannot be opened,
    the contents of every file and all variables but the error count stay, and
    the count goes up by one; it panics when more than three failures had been
    counted. A volume on which no call fails always gives the former, one on
    which the file never opens always the latter. *)
Theorem updateNodesPerPod_cases mtn rvr s :
  wp (updateNodesPerPod mtn rvr)
    (fun _ s' => published mtn rvr s s' \/ not_published s s') (fun _ s' => gave_up s s') s
  /\ (volume_ready -> files (fs s) !! "/var/log/console" = None ->
      exists s', updateNodesPerPod mtn rvr s = Ret tt s' /\ published mtn rvr s s'
        /\ (writes_complete ->
              files (fs s') = <[targetNodeFile := riverLine rvr +:+ mountainLine mtn]> (files (fs s))))
  /\ (volume_unavailable ->
      wp (updateNodesPerPod mtn rvr) (fun _ s' => not_published s s') (fun _ s' => gave_up s s') s).
Proof.
  split_and!.
  - eapply wp_mono; [apply wp_updateNodesPerPod| |done]. intros _ s' [[? _]|?]; eauto.
  - intros Hv Hn. destruct (wp_run_ret _ _ _ (updateNodesPerPod_ready mtn rvr s Hv Hn)) as ([] & s' & Hr & Hp).
    exists s'. split_and!; [done|done|]. intros Hw. destruct Hp as (_ & _ & w1 & w2 & ->). by rw targets_complete.
  - apply updateNodesPerPod_unavailable.
Qed.

(** The retries of an unavailable volume are bounded. From a clean error
    count, while the target file cannot be opened, four calls in a row return
    with the targets and the files as they were, and the fifth panics, so that
    Kubernetes restarts the operator. *)
Theorem updateNodesPerPod_fifth_failure mtn rvr s :
  volume_unavailable -> numFileErrors (gl s) = 0 ->
  exists s', forM_ [1; 2; 3; 4] (fun _ => updateNodesPerPod mtn rvr) s = Ret tt s'
    /\ gl s' = set_numFileErrors 4 (gl s) /\ files (fs s') = files (fs s)
    /\ exists e s'', updateNodesPerPod mtn rvr s' = Panic e s''.
Proof.
  intros Hv H0.
  assert (forall n s1, 0 <= n <= 3 -> gl s1 = set_numFileErrors n (gl s) ->
    files (fs s1) = files (fs s) ->
    exists s2, updateNodesPerPod mtn rvr s1 = Ret tt s2
      /\ gl s2 = set_numFileErrors (n + 1) (gl s) /\ files (fs s2) = files (fs s)) as Hstep.
  { intros n s1 Hn G1 F1. pose proof (updateNodesPerPod_unavailable mtn rvr s1 Hv) as Hu.
    apply wp_run in Hu as [([] & s2 & -> & G2 & _ & F2 & _)|(e & s2 & _ & _ & _ & _ & Hc)]; [|rw G1 /= in Hc; lia].
    exists s2. split_and!; [done| |congruence]. rw G2 G1 /= int64_id; [lia|done]. }
  destruct (Hstep 0 s) as (s1 & E1 & G1 & F1); [lia|by destruct (gl s); simpl in *; subst|done|].
  destruct (Hstep 1 s1) as (s2 & E2 & G2 & F2); [lia|done|done|].
  destruct (Hstep 2 s2) as (s3 & E3 & G3 & F3); [lia|done|done|].
  destruct (Hstep 3 s3) as (s4 & E4 & G4 & F4); [lia|done|done|].
  exists s4. split_and!; [by rw /forM_ /= /bind E1 E2 E3 E4|done|done|].
  pose proof (updateNodesPerPod_unavailable mtn rvr s4 Hv) as Hu.
  apply wp_run in Hu as [(? & ? & _ & _ & _ & _ & Hn)|(e & s5 & H5 & _)]; [rw G4 /= in Hn; lia|by eauto].
Qed.

End k8s_theorems.

(** ** The text of the target file *)

Lemma str_split_unique c x y u v :
  str_has c x = false -> str_has c y = false ->
  x +:+ String c u = y +:+ String c v -> x = y /\ u = v.
Proof.
  revert y. induction x as [|a x IH]; intros [|b y] Hx Hy; rw ?str_app_cons.
  - by intros [= ->].
  - change ("" +:+ String c u) with (String c u). intros [= -> _]. simpl in Hy.
    by rw Ascii.eqb_refl in Hy.
  - change ("" +:+ String c v) with (String c v). intros [= -> _]. simpl in Hx.
    by rw Ascii.eqb_refl in Hx.
  - intros [= -> Heq]. simpl in *. apply orb_false_iff in Hx as [_ Hx], Hy as [_ Hy].
    by destruct (IH y Hx Hy Heq) as [-> ->].
Qed.

Lemma itoa_no_newline z : str_has (byte_of 10) (itoa z) = false.
Proof.
  assert (forall c s, 45 <= byte_val c -> str_has (byte_of 10) s = false ->
    str_has (byte_of 10) (String c s) = false) as Hcons.
  { intros c s Hc Hs. rw str_has_cons_ne //. change (byte_val (byte_of 10)) with 10. lia. }
  assert (forall s, all_digits s = true -> str_has (byte_of 10) s = false) as Hd.
  { induction s as [|c s IH]; [done|]. intros [Hc Hs]%andb_true_iff. rw /is_digit in Hc.
    apply Hcons; [lia|by apply IH]. }
  assert (forall s, nat_literal s = true -> str_has (byte_of 10) s = false) as Hn.
  { intros [|c s]; [done|]. cbn [nat_literal]. destruct (byte_val c =? 48) eqn:Hc.
    - intros ->%String.eqb_eq. apply Hcons; [lia|done].
    - intros [H1 H2]%andb_true_iff. rw /is_digit in H1. apply Hcons; [lia|by apply Hd]. }
  pose proof (itoa_literal z) as H. destruct (itoa z) as [|c s]; [done|]. cbn [int_literal] in H.
  destruct (byte_val c =? 45) eqn:Hc; [|by apply Hn]. apply Hcons; [lia|by apply Hn].
Qed.

(** ** Witnesses *)

Definition k8_ok : K8Manager := mkK8Manager true true.

Lemma updateReplicaCount_truthful_witness :
  let s := sim_state init_globals quiet in
  Spec_Replicas (sim_sts (ext s)) = Some 1 /\
  exists s', updateReplicaCount k8_ok 3 s = Ret tt s' /\ fs s' = fs s
    /\ (gl s' = gl s
        \/ gl s' = set_numNodePods 3 (gl s) /\ Spec_Replicas (sim_sts (ext s')) = Some (int32 3))
    /\ (Spec_Replicas (sim_sts (ext s')) = Some 1 \/ Spec_Replicas (sim_sts (ext s')) = Some (int32 3))
    /\ (trace s' = trace s /\ sim_sts (ext s') = sim_sts (ext s)
        \/ 1 <> int32 3
           /\ trace s' = (trace s ++ [EvK8sUpdate (mkSts (Some (int32 3)) (sts_rest (sim_sts (ext s))))])%list)
    /\ (k8_clientset k8_ok = true -> k8_config k8_ok = true -> api_up ->
        gl s' = set_numNodePods 3 (gl s) /\ Spec_Replicas (sim_sts (ext s')) = Some (int32 3)).
Proof.
  split; [reflexivity|].
  exact (updateReplicaCount_truthful sim_sts k8_ok 3 (sim_state init_globals quiet) 1 eq_refl).
Defined.

Lemma updateNodesPerPod_fifth_failure_witness :
  exists s', @forM_ (@St broken_world) Z [1; 2; 3; 4] (fun _ => updateNodesPerPod 10 20) broken_state
             = Ret tt s'
    /\ gl s' = set_numFileErrors 4 (gl broken_state) /\ files (fs s') = files (fs broken_state)
    /\ exists e s'', updateNodesPerPod 10 20 s' = Panic e s''.
Proof.
  apply (@updateNodesPerPod_fifth_failure broken_world 10 20 broken_state);
    [intros w; by eexists _, _|reflexivity].
Defined.
