(* ===== verification/Nodes.v ===== *)
(** * nodes.go: the nodes of the system, and how many pods they need

    [getCurrentNodesFromHSM] reads the hardware state manager (HSM) and builds
    the list of nodes with a console; [updateNodeCounts] turns the numbers of
    Mountain and River nodes into a number of console-node pods and of consoles
    per pod.  [NodeService] is the interface the main loop is given. *)
From S2P Require Import Prelude GoStrings Float64 Json JsonFacts JsonCodec State SimWorld HttpUtils K8s.
From Stdlib Require Import Ascii.
#[local] Open Scope string_scope.
#[local] Open Scope Z_scope.

(** ** The data read from HSM *)

Record redfishEndpoint := mkRf {
  rf_ID : string; rf_Type : string; rf_FQDN : string; rf_User : string; rf_Password : string }.

Definition redfishEndpoint_String (re : redfishEndpoint) : string :=
  "ID:" +:+ rf_ID re +:+ ", Type:" +:+ rf_Type re +:+ ", FQDN:" +:+ rf_FQDN re
  +:+ ", User:" +:+ rf_User re +:+ ", Password:REDACTED".

Record stateComponent := mkSc {
  sc_ID : string; sc_Type : string; sc_Class : string; sc_NID : Z; sc_Role : string }.

Definition stateComponent_String (sc : stateComponent) : string :=
  "ID:" +:+ sc_ID sc +:+ ", Type:" +:+ sc_Type sc +:+ ", Class:" +:+ sc_Class sc
  +:+ ", NID:" +:+ itoa (sc_NID sc) +:+ ", Role:" +:+ sc_Role sc.

(** An item of the hardware inventory: the fields the code declares. *)
Record HsmHardwareInventoryItem := mkHw {
  hw_ID : string; hw_Model : string }.

Definition zero_rf : redfishEndpoint := mkRf "" "" "" "" "".
Definition zero_sc : stateComponent := mkSc "" "" "" 0 "".
Definition zero_hw : HsmHardwareInventoryItem := mkHw "" "".

Definition dec_rf : decoder redfishEndpoint := dec_struct [
  mk_field "ID" rf_ID (fun v r => mkRf v (rf_Type r) (rf_FQDN r) (rf_User r) (rf_Password r)) dec_string;
  mk_field "Type" rf_Type (fun v r => mkRf (rf_ID r) v (rf_FQDN r) (rf_User r) (rf_Password r)) dec_string;
  mk_field "FQDN" rf_FQDN (fun v r => mkRf (rf_ID r) (rf_Type r) v (rf_User r) (rf_Password r)) dec_string;
  mk_field "User" rf_User (fun v r => mkRf (rf_ID r) (rf_Type r) (rf_FQDN r) v (rf_Password r)) dec_string;
  mk_field "Password" rf_Password (fun v r => mkRf (rf_ID r) (rf_Type r) (rf_FQDN r) (rf_User r) v) dec_string ].

Definition dec_sc : decoder stateComponent := dec_struct [
  mk_field "ID" sc_ID (fun v c => mkSc v (sc_Type c) (sc_Class c) (sc_NID c) (sc_Role c)) dec_string;
  mk_field "Type" sc_Type (fun v c => mkSc (sc_ID c) v (sc_Class c) (sc_NID c) (sc_Role c)) dec_string;
  mk_field "Class" sc_Class (fun v c => mkSc (sc_ID c) (sc_Type c) v (sc_NID c) (sc_Role c)) dec_string;
  mk_field "NID" sc_NID (fun v c => mkSc (sc_ID c) (sc_Type c) (sc_Class c) v (sc_Role c)) dec_int;
  mk_field "Role" sc_Role (fun v c => mkSc (sc_ID c) (sc_Type c) (sc_Class c) (sc_NID c) v) dec_string ].

(** A string field whose value the code never reads: only its type matters. *)
Definition unused_string {A} (name : string) : field A :=
  (name, fun j a => (a, (dec_string j "").2)).

(** A nested struct of the item, decoded in place. *)
Definition nested {A} (name : string) (fs : list (field A)) : field A := (name, dec_struct fs).

Definition dec_hw : decoder HsmHardwareInventoryItem := dec_struct [
  mk_field "ID" hw_ID (fun v h => mkHw v (hw_Model h)) dec_string;
  unused_string "Type";
  nested "PopulatedFRU" [
    unused_string "Type";
    unused_string "Subtype";
    nested "NodeFRUInfo" [
      mk_field "Model" hw_Model (fun v h => mkHw (hw_ID h) v) dec_string;
      unused_string "Manufacturer"; unused_string "PartNumber"; unused_string "SerialNumber" ] ] ].

(** [type response struct { RedfishEndpoints []redfishEndpoint }] and
    [type response struct { Components []stateComponent }] *)
Definition dec_rf_response : decoder (list redfishEndpoint) :=
  dec_struct [ mk_field "RedfishEndpoints" id (fun v _ => v) (dec_slice zero_rf dec_rf) ].
Definition dec_sc_response : decoder (list stateComponent) :=
  dec_struct [ mk_field "Components" id (fun v _ => v) (dec_slice zero_sc dec_sc) ].

Section nodes.
Context {WD : World}.

(** [json.Unmarshal] with its error as a value. *)
Definition unmarshal {A} (d : decoder A) (data : option string) (old : A) : A * option error :=
  let text := default "" data in
  let '(v, bad) := Unmarshal d text old in
  (v, if bad then Some (json_error text) else None).

Definition url_rf : string := "http://cray-smd/hsm/v2/Inventory/RedfishEndpoints".
Definition url_sc : string := "http://cray-smd/hsm/v2/State/Components".
Definition url_hw : string := "http://cray-smd/hsm/v2/Inventory/Hardware?Manufacturer=Foxconn&Type=Node".

Definition getRedfishEndpoints : Prog (list redfishEndpoint * option error) :=
  let! (data, _, err) := getURL url_rf [] in
  match err with
  | Some e => ret ([], Some e)
  | None =>
    match unmarshal dec_rf_response data [] with
    | (_, Some e) => ret ([], Some e)
    | (rp, None) => ret (rp, None)
    end
  end.

(** An undecodable reply gives no components and no error. *)
Definition getStateComponents : Prog (list stateComponent * option error) :=
  let! (data, _, err) := getURL url_sc [] in
  match err with
  | Some e => ret ([], Some e)
  | None =>
    match unmarshal dec_sc_response data [] with
    | (_, Some e) => ret ([], None)
    | (rp, None) => ret (rp, None)
    end
  end.

Definition isParadiseModel (h : HsmHardwareInventoryItem) : bool :=
  String.eqb (hw_Model h) "HPE Cray Supercomputing XD224" || String.eqb (hw_Model h) "1A62WCB00-600-G".

Definition paradiseSet (rp : list HsmHardwareInventoryItem) : gset string :=
  foldl (fun nodes node => if isParadiseModel node then {[ hw_ID node ]} ∪ nodes else nodes) ∅ rp.

Definition getParadiseNodes : Prog (gset string * option error) :=
  let! (data, _, err) := getURL url_hw [] in
  match err with
  | Some e => ret (∅, Some e)
  | None =>
    match unmarshal (dec_slice zero_hw dec_hw) data [] with
    | (_, Some e) => ret (∅, Some e)
    | (rp, None) => ret (paradiseSet rp, None)
    end
  end.

(** One turn of the loop over the state components; [None] is the panic of
    slicing an ID that has no [n]. *)
Definition nodeStep (rfMap : gmap string redfishEndpoint) (paradiseNodes : gset string)
    (nodes : list nodeConsoleInfo) (sc : stateComponent) : option (list nodeConsoleInfo) :=
  if String.eqb (sc_Type sc) "Node" then
    let class := if bool_decide (sc_ID sc ∈ paradiseNodes) then "Paradise" else sc_Class sc in
    match slice_to (sc_ID sc) (lastIndexByte (sc_ID sc) "n"%char) with
    | None => None
    | Some bmcName =>
      match rfMap !! bmcName with
      | Some rf => Some (nodes ++ [mkNode (sc_ID sc) bmcName (rf_FQDN rf) class (sc_NID sc) (sc_Role sc)])%list
      | None => Some nodes
      end
    end
  else Some nodes.

Fixpoint buildNodes (rfMap : gmap string redfishEndpoint) (paradiseNodes : gset string)
    (nodes : list nodeConsoleInfo) (stComps : list stateComponent) : option (list nodeConsoleInfo) :=
  match stComps with
  | [] => Some nodes
  | sc :: rest =>
    match nodeStep rfMap paradiseNodes nodes sc with
    | Some nodes' => buildNodes rfMap paradiseNodes nodes' rest
    | None => None
    end
  end.

Definition slice_panic : string := "runtime error: slice bounds out of range [:-1]".

Definition getCurrentNodesFromHSM : Prog (list nodeConsoleInfo) :=
  let! (rfEndpoints, err) := getRedfishEndpoints in
  match err with
  | Some _ => ret []
  | None =>
    let! (stComps, err) := getStateComponents in
    match err with
    | Some _ => ret []
    | None =>
      let! (paradiseNodes, _) := getParadiseNodes in
      let rfMap := map_by rf_ID rfEndpoints in
      match buildNodes rfMap paradiseNodes [] stComps with
      | Some nodes => ret nodes
      | None => panic slice_panic
      end
    end
  end.

(** ** Pods and consoles per pod *)

(** Pods for [numNodes] of a class of which a pod takes at most [maxPerPod]. *)
Definition podsRequired (numNodes maxPerPod : Z) : Z :=
  f64_ceil_div1 (f64_of_int numNodes) (f64_max (f64_of_int maxPerPod) (f64_of_int 1)).

Definition newPodCount (numMtnNodes numRvrNodes maxMtn maxRvr : Z) : Z :=
  let numMtnReq := podsRequired numMtnNodes maxMtn in
  let numRvrReq := podsRequired numRvrNodes maxRvr in
  if numMtnReq <? numRvrReq then numRvrReq else numMtnReq.

Definition nodesPerPod (numNodes newNumPods : Z) : Z :=
  f64_ceil_div1 (f64_of_int numNodes) (f64_of_int newNumPods).

Definition updateNodeCounts (k8Service : K8Service) (numMtnNodes numRvrNodes : Z) : Prog unit :=
  if int64 (numMtnNodes + numRvrNodes) =? 0 then ret tt
  else
    gset_var (set_totalRvrNodes numRvrNodes) ;;;
    gset_var (set_totalMtnNodes numMtnNodes) ;;;
    let! maxMtn := gvar maxMtnNodesPerPod in
    let! maxRvr := gvar maxRvrNodesPerPod in
    let newNumPods := newPodCount numMtnNodes numRvrNodes maxMtn maxRvr in
    k8_updateReplicaCount k8Service newNumPods ;;;
    let newMtn := nodesPerPod numMtnNodes newNumPods in
    let newRvr := nodesPerPod numRvrNodes newNumPods in
    let! (currNodeReplicas, err) := k8_getReplicaCount k8Service in
    match err with
    | Some _ =>
      k8_updateNodesPerPod k8Service (int64 (newMtn + currNodeReplicas)) (int64 (newRvr + currNodeReplicas))
    | None =>
      let! curRvr := gvar numRvrNodesPerPod in
      let! curMtn := gvar numMtnNodesPerPod in
      if negb (newRvr =? curRvr) || negb (newMtn =? curMtn)
      then k8_updateNodesPerPod k8Service newMtn newRvr
      else ret tt
    end.

(** The interface, and its implementation by [NodeManager]. *)
Record NodeService := {
  ns_getRedfishEndpoints : Prog (list redfishEndpoint * option error);
  ns_getStateComponents : Prog (list stateComponent * option error);
  ns_getCurrentNodesFromHSM : Prog (list nodeConsoleInfo);
  ns_updateNodeCounts : Z -> Z -> Prog unit }.

Definition NewNodeManager (k8Service : K8Service) : NodeService := {|
  ns_getRedfishEndpoints := getRedfishEndpoints;
  ns_getStateComponents := getStateComponents;
  ns_getCurrentNodesFromHSM := getCurrentNodesFromHSM;
  ns_updateNodeCounts := updateNodeCounts k8Service |}.

End nodes.
