(* ===== verification/NodesFacts.v ===== *)
(** * Properties of nodes.go

    - [buildNodes_spec] and the theorems on [getCurrentNodesFromHSM]: which
      nodes are found, and what a failing HSM looks like to the caller;
    - the arithmetic of [updateNodeCounts]: the floating-point formulas are
      exact, the pods suffice with one to spare, the targets per pod cover all
      nodes, and when they respect the configured maximum;
    - what [updateNodeCounts] writes, on every branch. *)
From S2P Require Import Prelude GoStrings Float64 Json JsonFacts JsonCodec State SimWorld HttpUtils K8s Nodes.
From Stdlib Require Import Ascii.
#[local] Open Scope string_scope.
#[local] Open Scope Z_scope.

(** ** The list of nodes *)

(** The console record of a state component: the declarative counterpart of
    one turn of the loop. *)
Definition node_of (rfMap : gmap string redfishEndpoint) (par : gset string)
    (sc : stateComponent) (n : nodeConsoleInfo) : Prop :=
  sc_Type sc = "Node" /\ exists bmc suffix rf,
    sc_ID sc = bmc +:+ String "n" suffix /\ str_has "n" suffix = false
    /\ rfMap !! bmc = Some rf
    /\ n = mkNode (sc_ID sc) bmc (rf_FQDN rf)
             (if bool_decide (sc_ID sc ∈ par) then "Paradise" else sc_Class sc)
             (sc_NID sc) (sc_Role sc).

(** The component can be processed: a node has an [n] in its name. *)
Definition sc_ok (sc : stateComponent) : bool :=
  negb (String.eqb (sc_Type sc) "Node") || str_has "n" (sc_ID sc).

Lemma nodeStep_ok rfMap par nodes sc :
  sc_ok sc = true ->
  exists l, nodeStep rfMap par nodes sc = Some (nodes ++ l)%list
    /\ (forall n, n ∈ l <-> node_of rfMap par sc n)
    /\ (nc_NodeName <$> l) `sublist_of` [sc_ID sc].
Proof.
  rw /sc_ok /nodeStep /node_of. destruct (String.eqb_spec (sc_Type sc) "Node") as [Ht|Ht].
  - simpl. intros (bmc & suf & Heq & Hsuf)%str_last_split.
    rw Heq (lastIndexByte_split _ _ _ Hsuf) slice_to_app.
    destruct (rfMap !! bmc) as [rf|] eqn:Hrf.
    + eexists [_]. split; [done|]. split; [|done]. intros n. rw list_elem_of_singleton. split.
      * intros ->. split; [done|]. by exists bmc, suf, rf.
      * intros (_ & bmc' & suf' & rf' & Heq' & Hsuf' & Hrf' & ->).
        assert (bmc = bmc') as <- by exact (str_last_split_unique _ _ _ _ _ Hsuf Hsuf' Heq'). congruence.
    + exists []. rw app_nil_r. split; [done|]. split; [|by apply sublist_nil_l].
      intros n. split; [by intros ?%not_elem_of_nil|].
      intros (_ & bmc' & suf' & rf' & Heq' & Hsuf' & Hrf' & ->).
      assert (bmc = bmc') as <- by exact (str_last_split_unique _ _ _ _ _ Hsuf Hsuf' Heq'). congruence.
  - intros _. exists []. rw app_nil_r. split; [done|]. split; [|by apply sublist_nil_l].
    intros n. split; [by intros ?%not_elem_of_nil|]. by intros [? _].
Qed.

Lemma nodeStep_panics rfMap par nodes sc :
  sc_ok sc = false -> nodeStep rfMap par nodes sc = None.
Proof.
  rw /sc_ok /nodeStep. destruct (String.eqb (sc_Type sc) "Node"); [|done]. simpl. intros Hn.
  by rw lastIndexByte_absent.
Qed.

Lemma buildNodes_app rfMap par comps nodes :
  if forallb sc_ok comps
  then exists l, buildNodes rfMap par nodes comps = Some (nodes ++ l)%list
    /\ (forall n, n ∈ l <-> exists sc, sc ∈ comps /\ node_of rfMap par sc n)
    /\ (nc_NodeName <$> l) `sublist_of` (sc_ID <$> comps)
  else buildNodes rfMap par nodes comps = None.
Proof.
  revert nodes. induction comps as [|sc comps IH]; intros nodes; simpl.
  - exists []. rw app_nil_r. set_solver.
  - destruct (sc_ok sc) eqn:Hok; simpl; [|by rw nodeStep_panics].
    destruct (nodeStep_ok rfMap par nodes sc Hok) as (l & -> & Hl & Hsub).
    specialize (IH (nodes ++ l)%list). destruct (forallb sc_ok comps); [|done].
    destruct IH as (l' & -> & Hl' & Hsub'). exists (l ++ l')%list. rw app_assoc.
    split; [done|]. split.
    { intros n. rw elem_of_app Hl Hl'. setoid_rewrite elem_of_cons. naive_solver. }
    rw fmap_app.
    by apply (sublist_app _ [sc_ID sc] _ (sc_ID <$> comps)).
Qed.

Section hsm.
Context {WD : World}.

(** What HSM answers to the GET of a URL in world [w]. *)
Definition hsm_get (url : string) (w : W) : do_result * W := client_Do (mkReq "GET" url [] None) w.

(** The body decodes, without error, to [v]. *)
Definition decodes {A} (d : decoder A) (old : A) (r : do_result) (v : A) : Prop :=
  exists code data, r = DoResp code (inr data) /\ Unmarshal d data old = (v, false).

Definition no_url_error : Prop :=
  newRequest_err "GET" url_rf = None /\ newRequest_err "GET" url_sc = None
  /\ newRequest_err "GET" url_hw = None.

Lemma unmarshal_ok {A} (d : decoder A) data old v :
  Unmarshal d data old = (v, false) -> unmarshal d (Some data) old = (v, None).
Proof. rw /unmarshal /=. by intros ->. Qed.

Lemma unmarshal_bad {A} (d : decoder A) data old :
  parse_json data = None -> unmarshal d (Some data) old = (old, Some (json_error data)).
Proof. rw /unmarshal /Unmarshal /=. by intros ->. Qed.

Lemma getURL_run url s :
  newRequest_err "GET" url = None ->
  getURL url [] s = Ret (doURL_result (hsm_get url (ext s)).1)
    (mkSt (gl s) (fs s) (hsm_get url (ext s)).2 (trace s ++ [EvHTTP (mkReq "GET" url [] None)])%list).
Proof.
  intros Hu. pose proof (doURL_spec "GET" url None [] s Hu) as H. rw /getURL /hsm_get.
  simpl in H. by destruct (client_Do _ _).
Qed.

(** The Paradise nodes the third answer gives; none when it is unusable. *)
Definition paradise_of (r : do_result) : gset string :=
  match r with
  | DoResp _ (inr data) =>
    match Unmarshal (dec_slice zero_hw dec_hw) data [] with
    | (rp, false) => paradiseSet rp
    | _ => ∅
    end
  | _ => ∅
  end.

Lemma getParadiseNodes_run s :
  newRequest_err "GET" url_hw = None ->
  exists e, getParadiseNodes s = Ret (paradise_of (hsm_get url_hw (ext s)).1, e)
    (mkSt (gl s) (fs s) (hsm_get url_hw (ext s)).2 (trace s ++ [EvHTTP (mkReq "GET" url_hw [] None)])%list).
Proof.
  intros Hu. rw /getParadiseNodes /bind getURL_run //.
  destruct (hsm_get url_hw (ext s)) as [[e|code [e|data]] w]; simpl; [by eauto..|].
  rw /unmarshal /=. destruct (Unmarshal _ data []) as [rp []]; simpl; eauto.
Qed.

Definition hsm_requests : list event :=
  [EvHTTP (mkReq "GET" url_rf [] None); EvHTTP (mkReq "GET" url_sc [] None);
   EvHTTP (mkReq "GET" url_hw [] None)].

(** The three requests made, what is left is the pure loop. *)
Lemma getCurrentNodesFromHSM_run s rfs comps r1 w1 r2 w2 r3 w3 :
  hsm_get url_rf (ext s) = (r1, w1) -> hsm_get url_sc w1 = (r2, w2) -> hsm_get url_hw w2 = (r3, w3) ->
  no_url_error -> decodes dec_rf_response [] r1 rfs -> decodes dec_sc_response [] r2 comps ->
  let s' := mkSt (gl s) (fs s) w3 (trace s ++ hsm_requests)%list in
  getCurrentNodesFromHSM s
  = match buildNodes (map_by rf_ID rfs) (paradise_of r3) [] comps with
    | Some nodes => Ret nodes s'
    | None => Panic slice_panic s'
    end.
Proof.
  intros H1 H2 H3 (U1 & U2 & U3) (c1 & d1 & -> & D1) (c2 & d2 & -> & D2).
  rw /getCurrentNodesFromHSM /getRedfishEndpoints /bind getURL_run // H1 /=.
  rw (unmarshal_ok _ _ _ _ D1) /= /getStateComponents /bind getURL_run // /= H2 /=.
  rw (unmarshal_ok _ _ _ _ D2) /=.
  match goal with |- context [getParadiseNodes ?st] =>
    destruct (getParadiseNodes_run st U3) as [e ->] end.
  rw /= H3 /= -!app_assoc. by destruct (buildNodes _ _ _ _).
Qed.

(** C9: the nodes found. When HSM's endpoints and components decode, the call
    performs the three GETs in order, touches neither variable nor file, and
    returns the nodes with a console: exactly one record for each component
    of type Node whose name without its last [n...] part is the ID of a
    redfish endpoint, with that endpoint's FQDN, and with class Paradise when
    the inventory says so; in the order of the components. *)
Theorem getCurrentNodesFromHSM_nodes s rfs comps r1 w1 r2 w2 r3 w3 :
  hsm_get url_rf (ext s) = (r1, w1) -> hsm_get url_sc w1 = (r2, w2) -> hsm_get url_hw w2 = (r3, w3) ->
  no_url_error -> decodes dec_rf_response [] r1 rfs -> decodes dec_sc_response [] r2 comps ->
  forallb sc_ok comps = true ->
  exists nodes, getCurrentNodesFromHSM s
    = Ret nodes (mkSt (gl s) (fs s) w3 (trace s ++ hsm_requests)%list)
    /\ (forall n, n ∈ nodes <-> exists sc, sc ∈ comps
          /\ node_of (map_by rf_ID rfs) (paradise_of r3) sc n)
    /\ (nc_NodeName <$> nodes) `sublist_of` (sc_ID <$> comps).
Proof.
  intros H1 H2 H3 Hu D1 D2 Hok.
  pose proof (buildNodes_app (map_by rf_ID rfs) (paradise_of r3) comps []) as Hb. rw Hok in Hb.
  destruct Hb as (nodes & Hb & Hn & Hs). exists nodes. split; [|done].
  by rw (getCurrentNodesFromHSM_run s rfs comps _ _ _ _ _ _ H1 H2 H3 Hu D1 D2) Hb.
Qed.

(** C40: a component of type Node with no [n] in its ID crashes the operator:
    slicing the ID at index -1 panics, in the goroutine of the main loop. *)
Theorem getCurrentNodesFromHSM_bad_id s rfs comps r1 w1 r2 w2 r3 w3 :
  hsm_get url_rf (ext s) = (r1, w1) -> hsm_get url_sc w1 = (r2, w2) -> hsm_get url_hw w2 = (r3, w3) ->
  no_url_error -> decodes dec_rf_response [] r1 rfs -> decodes dec_sc_response [] r2 comps ->
  (exists sc, sc ∈ comps /\ sc_Type sc = "Node" /\ str_has "n" (sc_ID sc) = false) ->
  exists s', getCurrentNodesFromHSM s = Panic slice_panic s' /\ gl s' = gl s.
Proof.
  intros H1 H2 H3 Hu D1 D2 (sc & Hsc & Ht & Hn).
  assert (forallb sc_ok comps = false) as Hok.
  { apply not_true_iff_false. rw forallb_forall. intros Hall.
    specialize (Hall sc ltac:(by apply list_elem_of_In)). by rw /sc_ok Ht Hn in Hall. }
  pose proof (buildNodes_app (map_by rf_ID rfs) (paradise_of r3) comps []) as Hb. rw Hok in Hb.
  rw (getCurrentNodesFromHSM_run s rfs comps _ _ _ _ _ _ H1 H2 H3 Hu D1 D2) Hb. by eauto.
Qed.

(** HSM is out: its requests fail, or its answers are not JSON. *)
Definition hsm_down : Prop :=
  forall url w, match (hsm_get url w).1 with
                | DoResp _ (inr data) => parse_json data = None
                | _ => True
                end.

(** HSM lists no Node component without an [n] in its name. *)
Definition hsm_sane : Prop :=
  forall w code data, (hsm_get url_sc w).1 = DoResp code (inr data) ->
    forallb sc_ok (Unmarshal dec_sc_response data []).1 = true.

Lemma wp_getURL_frame url hdrs (Q : option string * Z * option error -> St -> Prop) E s :
  (forall r s', http_frame is_GET s s' ->
     (forall data, r.1.1 = Some data -> r.2 = None ->
        exists code, (client_Do (mkReq "GET" url hdrs None) (ext s)).1 = DoResp code (inr data)) ->
     (r.2 = None -> is_Some r.1.1) -> Q r s') ->
  wp (getURL url hdrs) Q E s.
Proof.
  intros HQ. apply wp_doURL.
  - intros code e s' Hf. apply HQ; [|done..]. eapply http_frame_weaken; [|exact Hf]. by intros ? <-.
  - intros code data s' Hf Hd. apply HQ; simpl; [|intros ? [= ->] _; rw Hd; eauto|done].
    eapply http_frame_weaken; [|exact Hf]. by intros ? <-.
Qed.

(** Reading HSM never touches the process: only GETs are made. *)
Lemma getCurrentNodesFromHSM_frame s :
  wp getCurrentNodesFromHSM (fun nodes s' => http_frame is_GET s s' /\ (hsm_down -> nodes = []))
    (fun _ s' => http_frame is_GET s s' /\ ~ hsm_down) s.
Proof.
  rw /getCurrentNodesFromHSM /getRedfishEndpoints /getStateComponents /getParadiseNodes.
  apply wp_bind, wp_bind, wp_getURL_frame. intros [[d1 c1] e1] s1 F1 D1 N1.
  destruct e1 as [e|]; [by wp_go|].
  destruct (unmarshal dec_rf_response d1 []) as [rfs [e|]] eqn:U1; wp_go; [done|].
  apply wp_getURL_frame. intros [[d2 c2] e2] s2 F2 D2 N2.
  destruct e2 as [e|]; [wp_go; split; [etrans; [exact F1|exact F2]|done]|].
  assert (hsm_down -> False) as Hup.
  { intros Hd. destruct (N1 eq_refl) as [data Hdata]. simpl in Hdata. subst d1.
    destruct (D1 data eq_refl eq_refl) as [code Hc]. specialize (Hd url_rf (ext s)).
    rw /hsm_get Hc in Hd. by rw unmarshal_bad // in U1. }
  destruct (unmarshal dec_sc_response d2 []) as [comps [e|]] eqn:U2; wp_go.
  all: apply wp_getURL_frame; intros [[d3 c3] e3] s3 F3 D3 N3.
  all: destruct e3 as [e3|]; [|destruct (unmarshal (dec_slice zero_hw dec_hw) d3 []) as [hw [e3|]]].
  all: assert (http_frame is_GET s s3) as Hf by (etrans; [exact F1|etrans; [exact F2|exact F3]]).
  all: wp_go; (split; [exact Hf|by intros ?%Hup]).
Qed.

Lemma getCurrentNodesFromHSM_returns s : hsm_sane -> wp getCurrentNodesFromHSM (fun _ _ => True) no_panic s.
Proof.
  intros Hsane. rw /getCurrentNodesFromHSM.
  assert (forall s, wp getRedfishEndpoints (fun _ _ => True) no_panic s) as Hrf.
  { intros s0. rw /getRedfishEndpoints. apply wp_bind, wp_getURL_frame. intros [[d1 c1] [e|]] s1 _ _ _; by wp_go. }
  assert (forall s, wp getParadiseNodes (fun _ _ => True) no_panic s) as Hpar.
  { intros s0. rw /getParadiseNodes. apply wp_bind, wp_getURL_frame. intros [[d1 c1] [e|]] s1 _ _ _; by wp_go. }
  apply wp_bind. eapply wp_mono; [apply Hrf| |done]. intros [rfs [e|]] s1 _; [by apply wp_ret|].
  rw /getStateComponents. apply wp_bind, wp_bind, wp_getURL_frame. intros [[d2 c2] e2] s2 _ D2 N2.
  destruct e2 as [e|]; [by do 2 apply wp_ret|].
  assert (forall comps, forallb sc_ok comps = true -> wp (let! (paradiseNodes, _) := getParadiseNodes in
    match buildNodes (map_by rf_ID rfs) paradiseNodes [] comps with Some nodes => ret nodes | None => panic slice_panic end)
    (fun _ _ => True) no_panic s2) as Hrest.
  { intros comps Hok. apply wp_bind. eapply wp_mono; [apply Hpar| |done]. intros [par e] s3 _.
    pose proof (buildNodes_app (map_by rf_ID rfs) par comps []) as Hb. rw Hok in Hb. by destruct Hb as (l & -> & _). }
  destruct (N2 eq_refl) as [data Hdata]. cbn in Hdata. subst d2. destruct (D2 data eq_refl eq_refl) as [code Hcode].
  specialize (Hsane _ _ _ Hcode). rw /unmarshal. cbn [default from_option id].
  destruct (Unmarshal dec_sc_response data []) as [comps []]; cbn in Hsane; apply wp_ret; [by apply Hrest|by apply Hrest].
Qed.
End hsm.

(** ** How many pods *)

(** A number of nodes the floating-point formulas handle exactly. *)
Definition node_count (n : Z) : Prop := 0 <= n < 2 ^ 52.
(** A configured maximum. *)
Definition pod_max (m : Z) : Prop := 1 <= m < 2 ^ 53.

Lemma podsRequired_eq n m : node_count n -> pod_max m -> podsRequired n m = cdiv n m + 1.
Proof.
  rw /node_count /pod_max. intros Hn Hm. rw /podsRequired f64_max_one; [lia|].
  rw Z.max_l; [lia|]. apply f64_ceil_div_plus_one; lia.
Qed.

Lemma newPodCount_eq mtn rvr maxMtn maxRvr :
  node_count mtn -> node_count rvr -> pod_max maxMtn -> pod_max maxRvr ->
  newPodCount mtn rvr maxMtn maxRvr = Z.max (cdiv mtn maxMtn) (cdiv rvr maxRvr) + 1.
Proof.
  intros H1 H2 H3 H4. rw /newPodCount !podsRequired_eq //.
  destruct (Z.ltb_spec (cdiv mtn maxMtn + 1) (cdiv rvr maxRvr + 1)); lia.
Qed.

Lemma cdiv_count n m : node_count n -> pod_max m -> 0 <= cdiv n m <= n.
Proof.
  rw /node_count /pod_max. intros. split; [apply cdiv_nonneg|apply cdiv_le]; lia.
Qed.

Lemma newPodCount_bounds mtn rvr maxMtn maxRvr :
  node_count mtn -> node_count rvr -> pod_max maxMtn -> pod_max maxRvr ->
  1 <= newPodCount mtn rvr maxMtn maxRvr <= Z.max mtn rvr + 1.
Proof.
  intros H1 H2 H3 H4. rw newPodCount_eq //.
  pose proof (cdiv_count mtn maxMtn H1 H3). pose proof (cdiv_count rvr maxRvr H2 H4). lia.
Qed.

Lemma nodesPerPod_eq n p : node_count n -> 1 <= p < 2 ^ 53 -> nodesPerPod n p = cdiv n p + 1.
Proof. rw /node_count. intros. apply f64_ceil_div_plus_one; lia. Qed.

Lemma newPodCount_room mtn rvr maxMtn maxRvr :
  node_count mtn -> node_count rvr -> pod_max maxMtn -> pod_max maxRvr ->
  let pods := newPodCount mtn rvr maxMtn maxRvr in
  mtn <= (pods - 1) * maxMtn /\ rvr <= (pods - 1) * maxRvr.
Proof.
  intros H1 H2 H3 H4 pods. rw /pods newPodCount_eq //. rw /pod_max in H3, H4.
  pose proof (cdiv_bounds mtn maxMtn ltac:(lia)). pose proof (cdiv_bounds rvr maxRvr ltac:(lia)).
  nia.
Qed.

Lemma target_le_max n p m : 1 <= p -> n <= (p - 1) * m -> p <= m -> cdiv n p + 1 <= m.
Proof. intros Hp Hn Hm. pose proof (cdiv_bounds n p ltac:(lia)). nia. Qed.

(** The floating-point formula is exact. For any node counts below 2^52
    and any maxima, the number of pods computed through [float64] division,
    [math.Ceil] and the conversion back is the exact integer ceiling, for the
    class that needs more pods, plus one. *)
Theorem newPodCount_exact mtn rvr maxMtn maxRvr :
  node_count mtn -> node_count rvr -> pod_max maxMtn -> pod_max maxRvr ->
  newPodCount mtn rvr maxMtn maxRvr = Z.max (cdiv mtn maxMtn) (cdiv rvr maxRvr) + 1.
Proof. apply newPodCount_eq. Qed.

(** C5: the pods suffice with one to spare, and no pod more is asked for. With
    one pod lost, the others still have room for all Mountain and all River
    nodes within the configured maxima; and the count exceeds by only one every
    number of pods that has room for them. *)
Theorem newPodCount_suffices mtn rvr maxMtn maxRvr :
  node_count mtn -> node_count rvr -> pod_max maxMtn -> pod_max maxRvr ->
  let pods := newPodCount mtn rvr maxMtn maxRvr in
  mtn <= (pods - 1) * maxMtn /\ rvr <= (pods - 1) * maxRvr
  /\ forall p, mtn <= p * maxMtn -> rvr <= p * maxRvr -> 0 <= p -> pods <= p + 1.
Proof.
  intros H1 H2 H3 H4 pods. destruct (newPodCount_room _ _ _ _ H1 H2 H3 H4) as [R1 R2].
  split_and!; [exact R1|exact R2|]. intros p Hp1 Hp2 Hp. rw /pods newPodCount_eq //.
  rw /pod_max in H3, H4.
  pose proof (cdiv_bounds mtn maxMtn ltac:(lia)). pose proof (cdiv_bounds rvr maxRvr ltac:(lia)).
  assert (cdiv mtn maxMtn <= p) by nia. assert (cdiv rvr maxRvr <= p) by nia. lia.
Qed.

(** C6: the targets per pod leave no node without a pod. When every pod takes
    its target of a class, all nodes are taken and each pod has room for one
    more; and the target is the least such number but one. *)
Theorem nodesPerPod_covers n pods :
  node_count n -> 1 <= pods < 2 ^ 53 ->
  n <= pods * (nodesPerPod n pods - 1) /\ pods * (nodesPerPod n pods - 2) < n.
Proof.
  intros Hn Hp. rw nodesPerPod_eq //. pose proof (cdiv_bounds n pods ltac:(lia)). lia.
Qed.

(** C7: the hard maximum. As long as the number of pods does not exceed the
    configured maximum of Mountain nodes per pod, no pod is asked to take more
    Mountain nodes than that maximum; the same for River nodes. *)
Theorem nodesPerPod_within_max mtn rvr maxMtn maxRvr :
  node_count mtn -> node_count rvr -> pod_max maxMtn -> pod_max maxRvr ->
  let pods := newPodCount mtn rvr maxMtn maxRvr in
  (pods <= maxMtn -> nodesPerPod mtn pods <= maxMtn)
  /\ (pods <= maxRvr -> nodesPerPod rvr pods <= maxRvr).
Proof.
  intros H1 H2 H3 H4 pods.
  pose proof (newPodCount_bounds _ _ _ _ H1 H2 H3 H4) as Hb. fold pods in Hb.
  assert (1 <= pods < 2 ^ 53) as Hp by (rw /node_count in H1, H2; lia).
  destruct (newPodCount_room _ _ _ _ H1 H2 H3 H4) as [R1 R2]. fold pods in R1, R2.
  rw !nodesPerPod_eq //. split; intros; by apply target_le_max; [lia|..].
Qed.

(** The hard maximum is not kept beyond that. With the least maximum the
    environment may configure (5), thirty Mountain nodes give seven pods, and
    each is told to take six. *)
Theorem hard_maximum_exceeded :
  newPodCount 30 0 5 2000 = 7 /\ nodesPerPod 30 7 = 6.
Proof. by vm_compute. Qed.

(** ** What updateNodeCounts writes *)

Section updateNodeCounts.
Context {WD : World} (k : K8Service).

(** The targets per pod computed for the current maxima. *)
Definition targets (g : Globals) (mtn rvr : Z) : Z * Z * Z :=
  let pods := newPodCount mtn rvr (maxMtnNodesPerPod g) (maxRvrNodesPerPod g) in
  (pods, nodesPerPod mtn pods, nodesPerPod rvr pods).

(** The variables after a call, given the four it can change beside the totals. *)
Definition counts_written (g : Globals) (mtn rvr np tm tr fe : Z) : Globals :=
  set_numFileErrors fe (set_numRvrNodesPerPod tr (set_numMtnNodesPerPod tm
    (set_numNodePods np (set_totalMtnNodes mtn (set_totalRvrNodes rvr g))))).

(** The calls [updateNodeCounts] makes, and what decides between them. *)
Lemma updateNodeCounts_steps mtn rvr s s2 n err s3 :
  node_count mtn -> node_count rvr -> 0 < mtn + rvr ->
  let '(pods, tm, tr) := targets (gl s) mtn rvr in
  k8_updateReplicaCount k pods (set_gl (set_totalMtnNodes mtn (set_totalRvrNodes rvr (gl s))) s) = Ret tt s2 ->
  k8_getReplicaCount k s2 = Ret (n, err) s3 ->
  updateNodeCounts k mtn rvr s =
    match err with
    | Some _ => k8_updateNodesPerPod k (int64 (tm + n)) (int64 (tr + n)) s3
    | None => if decide (tm = numMtnNodesPerPod (gl s3) /\ tr = numRvrNodesPerPod (gl s3)) then Ret tt s3
              else k8_updateNodesPerPod k tm tr s3
    end.
Proof.
  intros H1 H2 H0. rw /targets /updateNodeCounts.
  assert (int64 (mtn + rvr) = mtn + rvr) as -> by (rw /node_count in H1, H2; apply int64_id; lia).
  destruct (Z.eqb_spec (mtn + rvr) 0); [lia|]. intros Hu Hg.
  rw {1}/bind {1}/gset_var {1}/modify {1}/bind {1}/gset_var {1}/modify {1}/bind {1}/gvar {1}/gets {1}/bind {1}/gvar {1}/gets.
  cbn -[newPodCount nodesPerPod]. rw {1}/bind. cbn -[newPodCount nodesPerPod] in Hu. rw Hu {1}/bind Hg. cbn beta iota.
  destruct err; [done|]. rw /bind /gvar /gets. set (tm := nodesPerPod mtn _). set (tr := nodesPerPod rvr _). clearbody tm tr.
  destruct (decide _) as [[<- <-]|Hne]; [by rw !Z.eqb_refl|].
  destruct (Z.eqb_spec tr (numRvrNodesPerPod (gl s3))); [|done].
  by destruct (Z.eqb_spec tm (numMtnNodesPerPod (gl s3))); [destruct Hne|].
Qed.
End updateNodeCounts.

(** The sizing in whole numbers: the pods, and the targets per pod. *)
Definition pods_for (g : Globals) (mtn rvr : Z) : Z :=
  Z.max (cdiv mtn (maxMtnNodesPerPod g)) (cdiv rvr (maxRvrNodesPerPod g)) + 1.
Definition target_for (n pods : Z) : Z := cdiv n pods + 1.

Lemma targets_exact g mtn rvr :
  node_count mtn -> node_count rvr -> pod_max (maxMtnNodesPerPod g) -> pod_max (maxRvrNodesPerPod g) ->
  targets g mtn rvr = (pods_for g mtn rvr, target_for mtn (pods_for g mtn rvr), target_for rvr (pods_for g mtn rvr))
  /\ int64 (target_for mtn (pods_for g mtn rvr) + -1) = target_for mtn (pods_for g mtn rvr) - 1
  /\ int64 (target_for rvr (pods_for g mtn rvr) + -1) = target_for rvr (pods_for g mtn rvr) - 1.
Proof.
  intros H1 H2 H3 H4. pose proof (newPodCount_bounds _ _ _ _ H1 H2 H3 H4) as Hb.
  rw /targets. rw newPodCount_eq in Hb |- *; [done..|]. rw -/(pods_for g mtn rvr) in Hb |- *.
  assert (1 <= pods_for g mtn rvr < 2 ^ 53) as Hp by (rw /node_count in H1, H2; lia).
  assert (forall x, node_count x -> int64 (target_for x (pods_for g mtn rvr) + -1) = target_for x (pods_for g mtn rvr) - 1) as Hi.
  { intros x Hx. rw /node_count in Hx. rw /target_for int64_id; [|lia].
    pose proof (cdiv_nonneg x (pods_for g mtn rvr) ltac:(lia) ltac:(lia)).
    pose proof (cdiv_le x (pods_for g mtn rvr) ltac:(lia) ltac:(lia)). lia. }
  split_and!; [|by apply Hi..]. by rw !nodesPerPod_eq.
Qed.

Section updateNodeCounts_theorems.
Context {WD : World}.

(** C8: what [updateNodeCounts] does, with the program's own Kubernetes manager
    and a volume that can be used. With no node it does nothing at all. When
    the Kubernetes API answers, it returns with the StatefulSet scaled to the
    computed number of pods, which [numNodePods] then holds, the totals cached,
    and the computed targets in the variables: published in the file if they
    were not in place already, the file untouched if they were. When the
    StatefulSet cannot be read, it is left alone and so is [numNodePods], and
    the targets published, always, are the computed ones less one. No other
    variable changes. *)
Theorem updateNodeCounts_effect (sts_of : W -> StatefulSet) `{!K8sStore sts_of} km mtn rvr s c :
  node_count mtn -> node_count rvr ->
  pod_max (maxMtnNodesPerPod (gl s)) -> pod_max (maxRvrNodesPerPod (gl s)) ->
  k8_clientset km = true -> k8_config km = true -> Spec_Replicas (sts_of (ext s)) = Some c ->
  volume_ready -> files (fs s) !! "/var/log/console" = None ->
  let pods := pods_for (gl s) mtn rvr in
  let tm := target_for mtn pods in
  let tr := target_for rvr pods in
  (mtn + rvr = 0 -> updateNodeCounts (K8Manager_service km) mtn rvr s = Ret tt s)
  /\ (0 < mtn + rvr -> api_up ->
      exists s', updateNodeCounts (K8Manager_service km) mtn rvr s = Ret tt s'
        /\ Spec_Replicas (sts_of (ext s')) = Some (int32 pods)
        /\ if decide (tm = numMtnNodesPerPod (gl s) /\ tr = numRvrNodesPerPod (gl s))
           then gl s' = counts_written (gl s) mtn rvr pods tm tr (numFileErrors (gl s)) /\ fs s' = fs s
           else gl s' = counts_written (gl s) mtn rvr pods tm tr 0
                /\ exists w1 w2, files (fs s') = <[targetNodeFile := targets_written w1 w2 tm tr]> (files (fs s)))
  /\ (0 < mtn + rvr -> api_down ->
      exists s', updateNodeCounts (K8Manager_service km) mtn rvr s = Ret tt s'
        /\ sts_of (ext s') = sts_of (ext s) /\ trace s' = trace s
        /\ gl s' = counts_written (gl s) mtn rvr (numNodePods (gl s)) (tm - 1) (tr - 1) 0
        /\ exists w1 w2, files (fs s') = <[targetNodeFile := targets_written w1 w2 (tm - 1) (tr - 1)]> (files (fs s))).
Proof.
  intros H1 H2 H3 H4 Hk1 Hk2 Hc Hv Hn pods tm tr. split_and!.
  { intros H0. by rw /updateNodeCounts H0. }
  all: intros H0 Hapi; destruct (targets_exact (gl s) mtn rvr H1 H2 H3 H4) as (Ht & Hm1 & Hr1); fold pods tm tr in Ht, Hm1, Hr1.
  all: pose proof (fun s2 n err s3 => updateNodeCounts_steps (K8Manager_service km) mtn rvr s s2 n err s3 H1 H2 H0) as Hsteps.
  all: rw Ht in Hsteps; cbn beta iota in Hsteps; clear Ht.
  all: set (s1 := set_gl (set_totalMtnNodes mtn (set_totalRvrNodes rvr (gl s))) s) in Hsteps.
  - destruct (updateReplicaCount_up sts_of km pods s1 c Hc Hk1 Hk2 Hapi) as (s2 & Hu & F2 & G2 & R2).
    destruct (getReplicaCount_run sts_of km s2 _ R2 Hk1 Hapi) as (w3 & Hg & S3).
    rw (Hsteps s2 _ _ _ Hu Hg). cbn [gl set_ext]. rw !G2. cbn [gl numMtnNodesPerPod numRvrNodesPerPod set_gl s1].
    rw -/(numMtnNodesPerPod _). destruct (decide _) as [[E1 E2]|Hne].
    { exists (set_ext w3 s2). split_and!; [done|by rw /= S3| |done]. cbn. rw G2 E1 E2. cbn. by destruct (gl s). }
    destruct (wp_run_ret _ _ _ (updateNodesPerPod_ready tm tr (set_ext w3 s2) Hv ltac:(by rw /= F2))) as ([] & s4 & Hr & G4 & _ & F4).
    pose proof (wp_of_run _ _ _ _ _ _ (updateNodesPerPod_ext sts_of tm tr (set_ext w3 s2) sts_fault sts_write) Hr) as S4.
    exists s4. split_and!; [done|by rw S4 /= S3|by rw G4 /= G2|]. by rw F2 in F4.
  - destruct (replicas_down sts_of km pods s1 Hk1 Hapi) as (w1 & w2 & e & Hu & S1 & Hg & S2).
    rw (Hsteps _ _ _ _ Hu Hg) Hm1 Hr1.
    destruct (wp_run_ret _ _ _ (updateNodesPerPod_ready (tm - 1) (tr - 1) (set_ext w2 s1) Hv Hn)) as ([] & s4 & Hr & G4 & T4 & F4).
    pose proof (wp_of_run _ _ _ _ _ _ (updateNodesPerPod_ext sts_of (tm - 1) (tr - 1) (set_ext w2 s1) sts_fault sts_write) Hr) as S4.
    exists s4. split_and!; [done|by rw S4 /= S2|by rw T4|rw G4 /=; by destruct (gl s)|done].
Qed.

(** In a calm cluster it returns. *)
Lemma updateNodeCounts_returns km mtn rvr s :
  cluster_calm km -> files (fs s) !! "/var/log/console" = None ->
  wp (updateNodeCounts (K8Manager_service km) mtn rvr)
    (fun _ s' => files (fs s') !! "/var/log/console" = None) no_panic s.
Proof.
  intros Hc Hn. rw /updateNodeCounts. destruct (_ =? 0); [by apply wp_ret|]. wp_go. cbn -[newPodCount nodesPerPod].
  match goal with |- wp (updateReplicaCount km ?p) _ _ ?s0 => destruct (updateReplicaCount_returns km p s0 Hc) as [s1 Hu] end.
  pose proof (wp_of_run _ _ _ _ _ _ (updateReplicaCount_frame km _ _) Hu) as [_ F1]. apply (wp_by_run _ _ _ _ _ _ Hu). cbn [fs set_gl] in F1.
  destruct (getReplicaCount_returns km s1 Hc) as ([cur err] & w2 & Hg). apply wp_bind, (wp_by_run _ _ _ _ _ _ Hg).
  assert (forall a b, wp (updateNodesPerPod a b) (fun _ s' => files (fs s') !! "/var/log/console" = None) no_panic (set_ext w2 s1)) as Hp.
  { intros a b. eapply wp_mono; [apply updateNodesPerPod_ready; [apply Hc|by rw /= F1]| |done].
    intros _ s' (_ & _ & w3 & w4 & ->). rw lookup_insert_ne; [done|]. by rw /= F1. }
  destruct err; [apply Hp|]. wp_go; [apply Hp|]. by rw /= F1.
Qed.

(** Every write to the volume stops short: it is full, say. *)
Definition writes_fail : Prop := forall w, exists w', os_short_write w = (Some 0%nat, w').

(** C36: a write that fails is not retried. On a full volume the targets are
    taken over into the variables although the file is left empty; and a later
    update with the same numbers of nodes that reads the replica count does not
    write the file again, so that it stays empty. *)
Theorem failed_write_not_retried km mtn rvr s :
  node_count mtn -> node_count rvr -> 0 < mtn + rvr ->
  pod_max (maxMtnNodesPerPod (gl s)) -> pod_max (maxRvrNodesPerPod (gl s)) ->
  volume_ready -> files (fs s) !! "/var/log/console" = None -> writes_fail ->
  let tm := target_for mtn (pods_for (gl s) mtn rvr) in
  let tr := target_for rvr (pods_for (gl s) mtn rvr) in
  exists s1, updateNodesPerPod tm tr s = Ret tt s1 /\ files (fs s1) !! targetNodeFile = Some ""
    /\ numMtnNodesPerPod (gl s1) = tm /\ numRvrNodesPerPod (gl s1) = tr
    /\ forall s2 s3 n s4, fs s2 = fs s1 -> gl s2 = gl s1 ->
         updateReplicaCount km (pods_for (gl s) mtn rvr)
           (set_gl (set_totalMtnNodes mtn (set_totalRvrNodes rvr (gl s2))) s2) = Ret tt s3 ->
         getReplicaCount km s3 = Ret (n, None) s4 ->
         updateNodeCounts (K8Manager_service km) mtn rvr s2 = Ret tt s4
         /\ files (fs s4) !! targetNodeFile = Some "".
Proof.
  intros H1 H2 H0 H3 H4 Hv Hn Hw tm tr.
  destruct (wp_run_ret _ _ _ (updateNodesPerPod_ready tm tr s Hv Hn)) as ([] & s1 & Hr & G1 & _ & w1 & w2 & F1).
  assert (files (fs s1) !! targetNodeFile = Some "") as Hf.
  { rw F1 lookup_insert_eq /targets_written. by destruct (Hw w1) as [? ->], (Hw w2) as [? ->]. }
  exists s1. split_and!; [done|done|by rw G1|by rw G1|]. intros s2 s3 n s4 F2 G2 Hu Hg.
  pose proof (wp_of_run _ _ _ _ _ _ (updateReplicaCount_frame km _ _) Hu) as [G3 F3].
  pose proof (wp_of_run _ _ _ _ _ _ (getReplicaCount_frame km s3) Hg) as [(G4 & F4 & _) _].
  assert (targets (gl s2) mtn rvr = (pods_for (gl s) mtn rvr, tm, tr)) as Ht.
  { rw (proj1 (targets_exact (gl s2) mtn rvr H1 H2 ltac:(by rw G2 G1) ltac:(by rw G2 G1))).
    by rw /tm /tr /pods_for G2 G1. }
  pose proof (updateNodeCounts_steps (K8Manager_service km) mtn rvr s2 s3 n None s4 H1 H2 H0) as Hs. rw Ht in Hs.
  specialize (Hs Hu Hg). cbn [gl set_gl fs] in G3, F3.
  assert (numMtnNodesPerPod (gl s4) = tm /\ numRvrNodesPerPod (gl s4) = tr) as [Em Er].
  { rw G4. destruct G3 as [-> | ->]; cbn; by rw G2 G1. }
  split; [|by rw F4 F3 F2]. rw Hs. by rw decide_True.
Qed.

(** A service with a given answer to the replica query. *)
Definition answering (cur : Z) (err : option error) (pub : Z -> Z -> Prog unit) : K8Service := {|
  k8_printK8sInfo := ret tt;
  k8_getReplicaCount := ret (cur, err);
  k8_updateReplicaCount := fun _ => ret tt;
  k8_updateNodesPerPod := pub;
  k8_getPodLocationAlias := fun _ => ret ("", None) |}.

End updateNodeCounts_theorems.

(** ** Witnesses *)

Lemma small_count : node_count 1600 /\ node_count 3000 /\ pod_max 750 /\ pod_max 2000.
Proof. rw /node_count /pod_max. lia. Qed.

Lemma newPodCount_exact_witness :
  newPodCount 1600 3000 750 2000 = Z.max (cdiv 1600 750) (cdiv 3000 2000) + 1.
Proof. apply (newPodCount_exact 1600 3000 750 2000); apply small_count. Defined.

Lemma newPodCount_suffices_witness :
  let pods := newPodCount 1600 3000 750 2000 in
  1600 <= (pods - 1) * 750 /\ 3000 <= (pods - 1) * 2000
  /\ forall p, 1600 <= p * 750 -> 3000 <= p * 2000 -> 0 <= p -> pods <= p + 1.
Proof. apply (newPodCount_suffices 1600 3000 750 2000); apply small_count. Defined.

Lemma nodesPerPod_covers_witness :
  1600 <= 4 * (nodesPerPod 1600 4 - 1) /\ 4 * (nodesPerPod 1600 4 - 2) < 1600.
Proof. apply (nodesPerPod_covers 1600 4); [apply small_count|lia]. Defined.

Lemma nodesPerPod_within_max_witness :
  let pods := newPodCount 1600 3000 750 2000 in
  (pods <= 750 -> nodesPerPod 1600 pods <= 750) /\ (pods <= 2000 -> nodesPerPod 3000 pods <= 2000).
Proof. apply (nodesPerPod_within_max 1600 3000 750 2000); apply small_count. Defined.

Definition sts_in {short} (w : @W (cluster_world short)) : StatefulSet := w.

#[export] Instance cluster_K8sStore short : @K8sStore (cluster_world short) sts_in.
Proof. split; try done. intros w. cbn. split; [done|]. by intros d [= ->]. Qed.

Lemma updateNodeCounts_effect_witness :
  let s := cluster_state None in
  exists s', updateNodeCounts (K8Manager_service k8_ok) 1600 3000 s = Ret tt s'
    /\ Spec_Replicas (sts_in (ext s')) = Some 4
    /\ gl s' = counts_written (gl s) 1600 3000 4 401 751 0
    /\ exists w1 w2 : @W (cluster_world None),
         files (fs s') = <[targetNodeFile := targets_written w1 w2 401 751]> (files (fs s)).
Proof.
  destruct (@updateNodeCounts_effect (cluster_world None) sts_in _ k8_ok 1600 3000 (cluster_state None) 1) as (_ & H & _);
    [apply small_count..|reflexivity|reflexivity|reflexivity|by intros|reflexivity|].
  exact (H eq_refl (conj (fun w => ex_intro _ _ (ex_intro _ _ eq_refl)) (fun d w => ex_intro _ _ (ex_intro _ _ eq_refl)))).
Defined.

Lemma failed_write_not_retried_witness :
  let s := cluster_state (Some 0%nat) in
  let tm := target_for 1600 (pods_for (gl s) 1600 3000) in
  let tr := target_for 3000 (pods_for (gl s) 1600 3000) in
  exists s1, updateNodesPerPod tm tr s = Ret tt s1 /\ files (fs s1) !! targetNodeFile = Some ""
    /\ numMtnNodesPerPod (gl s1) = tm /\ numRvrNodesPerPod (gl s1) = tr
    /\ forall (s2 s3 : @St (cluster_world (Some 0%nat))) n s4, fs s2 = fs s1 -> gl s2 = gl s1 ->
         updateReplicaCount k8_ok (pods_for (gl s) 1600 3000)
           (set_gl (set_totalMtnNodes 1600 (set_totalRvrNodes 3000 (gl s2))) s2) = Ret tt s3 ->
         getReplicaCount k8_ok s3 = Ret (n, None) s4 ->
         updateNodeCounts (K8Manager_service k8_ok) 1600 3000 s2 = Ret tt s4
         /\ files (fs s4) !! targetNodeFile = Some "".
Proof.
  apply (@failed_write_not_retried (cluster_world (Some 0%nat)) k8_ok 1600 3000 (cluster_state (Some 0%nat)));
    first [apply small_count|reflexivity|lia|by intros|by intros w; exists w].
Defined.


(** A small system: one Mountain node with its BMC, one without. *)
Definition ex_rf : json := JObj [("RedfishEndpoints", JArr [
  JObj [("ID", JStr "x1000c0s0b0"); ("FQDN", JStr "x1000c0s0b0.local")]])].
Definition ex_sc : json := JObj [("Components", JArr [
  JObj [("ID", JStr "x1000c0s0b0n0"); ("Type", JStr "Node"); ("Class", JStr "Mountain"); ("NID", JNum "1")];
  JObj [("ID", JStr "x1000c0s1b0n0"); ("Type", JStr "Node"); ("Class", JStr "Mountain")];
  JObj [("ID", JStr "x1000"); ("Type", JStr "Cabinet")]])].
Definition ex_bad_sc : json := JObj [("Components", JArr [
  JObj [("ID", JStr "bad"); ("Type", JStr "Node")]])].

(** HSM answering with the given documents. *)
Definition hsm_http (rf sc hw : json) (r : http_request) : do_result :=
  let body := if String.eqb (req_URL r) url_rf then rf
              else if String.eqb (req_URL r) url_sc then sc else hw in
  DoResp 200 (inr (print_json body)).

Definition hsm_world (rf sc hw : json) : SimW :=
  mkSim (fun r inv => (hsm_http rf sc hw r, inv)) ∅ (mkSts (Some 1) "") None None ∅
    (fun _ => None) [] (fun _ fsys => (None, "", fsys)).

Definition ex_world : SimW := hsm_world ex_rf ex_sc (JArr []).
Definition ex_rfs : list redfishEndpoint := [mkRf "x1000c0s0b0" "" "x1000c0s0b0.local" "" ""].
Definition ex_scs : list stateComponent :=
  [mkSc "x1000c0s0b0n0" "Node" "Mountain" 1 ""; mkSc "x1000c0s1b0n0" "Node" "Mountain" 0 "";
   mkSc "x1000" "Cabinet" "" 0 ""].

Lemma getCurrentNodesFromHSM_nodes_witness :
  let s := sim_state init_globals ex_world in
  exists nodes, getCurrentNodesFromHSM s
    = Ret nodes (mkSt (gl s) (fs s) ex_world (trace s ++ hsm_requests)%list)
    /\ (forall n, n ∈ nodes <-> exists sc, sc ∈ ex_scs /\ node_of (map_by rf_ID ex_rfs)
          (paradise_of (hsm_http ex_rf ex_sc (JArr []) (mkReq "GET" url_hw [] None))) sc n)
    /\ (nc_NodeName <$> nodes) `sublist_of` (sc_ID <$> ex_scs).
Proof.
  eapply (getCurrentNodesFromHSM_nodes (sim_state init_globals ex_world) ex_rfs ex_scs);
    try reflexivity; [done|..]; (eexists _, _; split; [reflexivity|by vm_compute]).
Defined.

Lemma getCurrentNodesFromHSM_bad_id_witness :
  let s := sim_state init_globals (hsm_world ex_rf ex_bad_sc (JArr [])) in
  exists s', getCurrentNodesFromHSM s = Panic slice_panic s' /\ gl s' = gl s.
Proof.
  eapply (getCurrentNodesFromHSM_bad_id (sim_state init_globals (hsm_world ex_rf ex_bad_sc (JArr [])))
    ex_rfs [mkSc "bad" "Node" "" 0 ""]); try reflexivity; [done|..].
  1-2: eexists _, _; split; [reflexivity|by vm_compute].
  eexists. split; [by left|done].
Defined.
