(* ===== verification/Data.v ===== *)
(** * data.go: the console-data service and the query handlers

    [dataAddNodes] and [dataRemoveNodes] keep the inventory of console-data in
    step with the cache of the main loop; [checkHeartbeats] asks it to release
    the nodes of stale pods; the handlers answer the operator's own API.
    [DataService] is the interface the main loop and the debug endpoints use. *)
From S2P Require Import Prelude GoStrings Json JsonFacts JsonCodec State SimWorld HttpUtils K8s Nodes.
#[local] Open Scope string_scope.
#[local] Open Scope Z_scope.

(** ** Inventory *)

(** [json.Marshal] of a node: the fields under their Go names. *)
Definition node_json (n : nodeConsoleInfo) : json :=
  JObj [("NodeName", JStr (nc_NodeName n)); ("BmcName", JStr (nc_BmcName n));
        ("BmcFqdn", JStr (nc_BmcFqdn n)); ("Class", JStr (nc_Class n));
        ("NID", JNum (itoa (nc_NID n))); ("Role", JStr (nc_Role n))].
Definition nodes_json (l : list nodeConsoleInfo) : json := JArr (node_json <$> l).

(** Decoding it again, as a receiver with the same struct does. *)
Definition dec_node : decoder nodeConsoleInfo := dec_struct [
  mk_field "NodeName" nc_NodeName (fun v n => mkNode v (nc_BmcName n) (nc_BmcFqdn n) (nc_Class n) (nc_NID n) (nc_Role n)) dec_string;
  mk_field "BmcName" nc_BmcName (fun v n => mkNode (nc_NodeName n) v (nc_BmcFqdn n) (nc_Class n) (nc_NID n) (nc_Role n)) dec_string;
  mk_field "BmcFqdn" nc_BmcFqdn (fun v n => mkNode (nc_NodeName n) (nc_BmcName n) v (nc_Class n) (nc_NID n) (nc_Role n)) dec_string;
  mk_field "Class" nc_Class (fun v n => mkNode (nc_NodeName n) (nc_BmcName n) (nc_BmcFqdn n) v (nc_NID n) (nc_Role n)) dec_string;
  mk_field "NID" nc_NID (fun v n => mkNode (nc_NodeName n) (nc_BmcName n) (nc_BmcFqdn n) (nc_Class n) v (nc_Role n)) dec_int;
  mk_field "Role" nc_Role (fun v n => mkNode (nc_NodeName n) (nc_BmcName n) (nc_BmcFqdn n) (nc_Class n) (nc_NID n) v) dec_string ].
Definition dec_nodes : decoder (list nodeConsoleInfo) := dec_slice zero_node dec_node.

Definition dataAddrBase : string := "http://cray-console-data/v1".

Section data.
Context {WD : World}.

Definition inventory_url : string := dataAddrBase +:+ "/inventory".

(** Success is a reply with a status below 400. The reply's message is
    decoded only to be logged (its field is unexported, so it stays empty). *)
Definition dataAddNodes (newNodes : list nodeConsoleInfo) : Prog bool :=
  let data := print_json (nodes_json newNodes) in
  let! (rd, rc, err) := putURL inventory_url data [] in
  match err with
  | Some _ => ret false
  | None => ret (rc <? 400)
  end.

(** The outcome is only logged. *)
Definition dataRemoveNodes (removedNodes : list nodeConsoleInfo) : Prog unit :=
  let data := print_json (nodes_json removedNodes) in
  let! (rd, rc, err) := deleteURL inventory_url data [] in
  ret tt.

(** One turn of the loop of [checkHeartbeats], which then sleeps
    [heartbeatCheckPeriodSec] seconds. *)
Definition checkHeartbeats_step : Prog unit :=
  let! stale := gvar heartbeatStaleMinutes in
  let url := dataAddrBase +:+ "/consolepod/" +:+ itoa stale +:+ "/clear" in
  let! _ := deleteURL url "" [] in
  ret tt.

(** The fields of the reply the code declares; only the last is used. *)
Definition dec_RetNodeConsoleInfo : decoder string := dec_struct [
  unused_string "nodename"; unused_string "bmcname"; unused_string "bmcfqdn"; unused_string "class";
  ("nid", fun j a => (a, (dec_int j 0).2)); unused_string "role";
  mk_field "nodeconsolename" id (fun v _ => v) dec_string ].

Definition getNodePodForXname (xname : string) : Prog (string * option error) :=
  let url := dataAddrBase +:+ "/consolepod/" +:+ xname in
  let! (rd, _, err) := getURL url [] in
  match err with
  | Some e => ret ("", Some e)
  | None =>
    match unmarshal dec_RetNodeConsoleInfo rd "" with
    | (_, Some e) => ret ("", Some e)
    | (nodeConsoleName, None) => ret ("cray-console-node-" +:+ nodeConsoleName, None)
    end
  end.

(** The part of the interface the other components use. *)
Record DataService := {
  ds_dataAddNodes : list nodeConsoleInfo -> Prog bool;
  ds_dataRemoveNodes : list nodeConsoleInfo -> Prog unit;
  ds_getNodePodForXname : string -> Prog (string * option error) }.

Definition DataManager_service : DataService := {|
  ds_dataAddNodes := dataAddNodes;
  ds_dataRemoveNodes := dataRemoveNodes;
  ds_getNodePodForXname := getNodePodForXname |}.

End data.

(** ** Round trip *)

(** A node that JSON carries faithfully: text in UTF-8, NID an [int]. *)
Definition wf_node (n : nodeConsoleInfo) : bool :=
  utf8_valid (nc_NodeName n) && utf8_valid (nc_BmcName n) && utf8_valid (nc_BmcFqdn n)
  && utf8_valid (nc_Class n) && in_int64 (nc_NID n) && utf8_valid (nc_Role n).

Lemma dec_node_json n : in_int64 (nc_NID n) = true -> dec_node (node_json n) zero_node = (n, false).
Proof.
  intros Hn. destruct n as [a b c d nid r]. simpl in Hn.
  rw /dec_node /node_json /dec_struct /dec_member.
  cbn -[dec_int itoa]. by rw dec_int_itoa.
Qed.

Lemma wf_nodes_json l d :
  forallb wf_node l = true -> wf_json (S (S d)) (nodes_json l) = true.
Proof.
  intros Hl. rw /nodes_json. cbn [wf_json]. apply forallb_forall. intros j Hj.
  apply list_elem_of_In, list_elem_of_fmap in Hj as (n & -> & Hn).
  rw forallb_forall in Hl. specialize (Hl n ltac:(by apply list_elem_of_In)).
  rw /wf_node in Hl. repeat (apply andb_true_iff in Hl as [Hl ?]).
  rw /node_json. cbn [wf_json forallb fst snd]. rw itoa_literal.
  by repeat (apply andb_true_iff; split).
Qed.

Lemma dec_nodes_print l :
  forallb wf_node l = true ->
  Unmarshal dec_nodes (print_json (nodes_json l)) [] = (l, false).
Proof.
  intros Hl. rw -(str_app_nil_r (print_json _)) Unmarshal_print //.
  - change maxNestingDepth with (S (S (Z.to_nat 9998))). by apply wf_nodes_json.
  - apply dec_slice_map. intros n Hn. apply dec_node_json.
    rw forallb_forall in Hl. specialize (Hl n ltac:(by apply list_elem_of_In)).
    rw /wf_node in Hl. by repeat (apply andb_true_iff in Hl as [Hl ?]).
Qed.

(** The inventory survives the wire. Decoding the JSON body that
    [dataAddNodes] and [dataRemoveNodes] send gives back the list of nodes,
    field by field, for all nodes whose text is UTF-8. *)
Theorem inventory_roundtrip l :
  forallb wf_node l = true ->
  Unmarshal dec_nodes (print_json (nodes_json l)) [] = (l, false).
Proof. apply dec_nodes_print. Qed.

Definition ex_node : nodeConsoleInfo :=
  mkNode "x1000c0s0b0n0" "x1000c0s0b0" "x1000c0s0b0.local" "Mountain" 1 "Compute".

Lemma inventory_roundtrip_witness :
  Unmarshal dec_nodes (print_json (nodes_json [ex_node; zero_node])) [] = ([ex_node; zero_node], false).
Proof. apply (inventory_roundtrip [ex_node; zero_node]). reflexivity. Defined.
