(* ===== verification/Creds.v ===== *)
(** * creds.go: the console keys of the Mountain nodes

    The operator keeps one ssh key pair for the consoles of all Mountain BMCs.
    [ensureMountainConsoleKeysExist] obtains it from Vault, or generates one;
    [deployMountainConsoleKeys] hands the public key to SCSD, which configures
    the BMCs; [doMountainCredsUpdates] is the worker that batches the nodes it
    receives over a channel and retries until their BMC has the key. *)
From S2P Require Import Prelude GoStrings Json JsonFacts JsonCodec State SimWorld HttpUtils Nodes.
#[local] Open Scope string_scope.
#[local] Open Scope Z_scope.

Definition mountainConsoleKey : string := "/var/log/console/conman.key".
Definition mountainConsoleKeyPub : string := "/var/log/console/conman.key.pub".
Definition svcAcctTokenFile : string := "/var/run/secrets/kubernetes.io/serviceaccount/token".
Definition vaultBase : string := "http://cray-vault.vault:8200/v1".
Definition vaultBmcKeyName : string := "mountain-bmc-console".
Definition vaultBmcKeyAlg : string := "rsa-2048".

(** The status of one BMC in the reply of SCSD; the reply is a list of them. *)
Record scsdNode := mkScsd {
  sd_Xname : string; sd_StatusCode : Z; sd_StatusMsg : string }.
Record scsdList := mkScsdList { Targets : list scsdNode }.

Definition zero_scsd : scsdNode := mkScsd "" 0 "".
Definition dec_scsdNode : decoder scsdNode := dec_struct [
  mk_field "Xname" sd_Xname (fun v t => mkScsd v (sd_StatusCode t) (sd_StatusMsg t)) dec_string;
  mk_field "StatusCode" sd_StatusCode (fun v t => mkScsd (sd_Xname t) v (sd_StatusMsg t)) dec_int;
  mk_field "StatusMsg" sd_StatusMsg (fun v t => mkScsd (sd_Xname t) (sd_StatusCode t) v) dec_string ].
Definition dec_scsdList : decoder scsdList := dec_struct [
  mk_field "Targets" Targets (fun v _ => mkScsdList v) (dec_slice zero_scsd dec_scsdNode) ].

(** [string(b)] of a body that may be nil. *)
Definition bytes_string (b : option string) : string := default "" b.

Section creds.
Context {WD : World}.

(** ** Vault *)

(** [json.Marshal] of a map sorts the keys. *)
Definition vaultKeyParam : json := JObj [("exportable", JStr "true"); ("type", JStr vaultBmcKeyAlg)].

Definition url_generate : string := vaultBase +:+ "/transit/keys/" +:+ vaultBmcKeyName.
Definition url_export : string := vaultBase +:+ "/transit/export/signing-key/" +:+ vaultBmcKeyName.
Definition url_login : string := vaultBase +:+ "/auth/kubernetes/login".

Definition vault_unexpected (doing : string) (response : option string) (code : Z) : error :=
  "Unexpected response from Vault" +:+ doing +:+ ": " +:+ bytes_string response
  +:+ "  Http response code: " +:+ itoa code.

Definition vaultGeneratePrivateKey (vaultToken : string) : Prog (option string * Z * option error) :=
  let! (response, responseCode, err) :=
    postURL url_generate (print_json vaultKeyParam) [("X-Vault-Token", vaultToken)] in
  match err with
  | Some e => ret (response, responseCode, Some e)
  | None =>
    if negb (responseCode =? 204)
    then ret (response, responseCode,
              Some (vault_unexpected " when generating the key" response responseCode))
    else ret (response, responseCode, None)
  end.

Definition vaultExportPrivateKey (vaultToken : string)
  : Prog (string * option string * Z * option error) :=
  let! (response, responseCode, err) := getURL url_export [("X-Vault-Token", vaultToken)] in
  match err with
  | Some e => ret ("", response, responseCode,
      Some ("Unable to get the " +:+ vaultBmcKeyName +:+ " secret from vault: " +:+ vaultBase
            +:+ "  Error was: " +:+ e))
  | None =>
    if responseCode =? 404 then ret ("", response, 404, None)
    else if responseCode =? 200 then
      let jsonElem := "data.keys.1" in
      let pvtKey := gjson_Get (bytes_string response) jsonElem in
      if String.eqb pvtKey ""
      then ret ("", response, responseCode,
                Some ("Empty or missing " +:+ jsonElem +:+ " element in Vault response"))
      else ret (pvtKey, response, 200, None)
    else ret ("", response, responseCode, Some (vault_unexpected "" response responseCode))
  end.

Definition vaultGetPrivateKey (vaultToken : string) : Prog (string * option error) :=
  let! (pvtKey, response, responseCode, err) := vaultExportPrivateKey vaultToken in
  match err with
  | Some e => ret ("", Some e)
  | None =>
    if responseCode =? 200 then ret (pvtKey, None)
    else if responseCode =? 404 then
      let! (response, responseCode, err) := vaultGeneratePrivateKey vaultToken in
      match err with
      | Some e => ret ("", Some e)
      | None =>
        if negb (responseCode =? 204)
        then ret ("", Some (vault_unexpected " when generating the key" response responseCode))
        else
          let! (pvtKey, response, responseCode, err) := vaultExportPrivateKey vaultToken in
          match err with
          | Some e => ret ("", Some e)
          | None =>
            if negb (responseCode =? 200)
            then ret ("", Some (vault_unexpected " when requesting the key" response responseCode))
            else ret (pvtKey, None)
          end
      end
    else ret ("", Some (vault_unexpected " when requesting the key" response responseCode))
  end.

Definition ssh_keygen_cmd : list string :=
  ["sh"; "-c"; "ssh-keygen -yf " +:+ mountainConsoleKey +:+ " > " +:+ mountainConsoleKeyPub].

Definition vaultGetMountainConsoleCredentials : Prog (option error) :=
  let! tok := ReadFile svcAcctTokenFile in
  match tok with
  | inl e => ret (Some ("Unable to read the service account token file: " +:+ e
                        +:+ " can not authenticate to vault"))
  | inr svcAcctToken =>
    let vaultAuthParam := JObj [("jwt", JStr svcAcctToken); ("role", JStr "ssh-user-certs-compute")] in
    let! (response, responseCode, err) := postURL url_login (print_json vaultAuthParam) [] in
    match err with
    | Some e => ret (Some ("Unable to authenticate to Vault: " +:+ e))
    | None =>
      if negb (responseCode =? 200)
      then ret (Some ("Vault authentication failed.  Response code: " +:+ itoa responseCode
                      +:+ "  Message: " +:+ bytes_string response))
      else
        let vaultToken := gjson_Get (bytes_string response) "auth.client_token" in
        let! (pvtKey, err) := vaultGetPrivateKey vaultToken in
        match err with
        | Some e => ret (Some e)
        | None =>
          let! err := WriteFile mountainConsoleKey pvtKey in
          match err with
          | Some e => ret (Some e)
          | None =>
            let! (err, _) := exec_Command ssh_keygen_cmd in
            match err with
            | Some e => ret (Some e)
            | None => ret None
            end
          end
        end
    end
  end.

Definition keygen_cmd : list string := ["/app/console-ssh-keygen"].

Definition generateMountainConsoleCredentials : Prog (option error) :=
  let! (err, _) := exec_Command keygen_cmd in
  match err with
  | Some e => ret (Some ("Error generating console key pair: " +:+ e))
  | None => ret None
  end.

(** [os.IsNotExist] *)
Definition IsNotExist (r : stat_result) : bool := match r with StatNotExist => true | _ => false end.

Definition ensureMountainConsoleKeysExist : Prog bool :=
  let! dbg := gvar debugOnly in
  if dbg then ret true
  else
    let! errKey := os_Stat mountainConsoleKey in
    let! errPub := os_Stat mountainConsoleKeyPub in
    if IsNotExist errKey || IsNotExist errPub then
      let! err := vaultGetMountainConsoleCredentials in
      match err with
      | Some _ =>
        let! err := generateMountainConsoleCredentials in
        match err with
        | Some _ => ret false
        | None => ret true
        end
      | None => ret true
      end
    else ret true.

(** ** SCSD *)

Definition url_scsd : string := "http://cray-scsd/v1/bmc/loadcfg".

Definition scsdParam (targets : list string) (pubKey : string) : json :=
  JObj [("Force", JBool false); ("Params", JObj [("SSHConsoleKey", JStr pubKey)]);
        ("Targets", JArr (JStr <$> targets))].

(** The BMCs of the Mountain nodes: FQDN to name, the last one with an FQDN wins. *)
Definition mtnBmcs (nodes : list nodeConsoleInfo) : gmap string string :=
  foldl (fun m n => if isMountain n then <[nc_BmcFqdn n := nc_BmcName n]> m else m) ∅ nodes.

Definition deployMountainConsoleKeys (nodes : list nodeConsoleInfo) : Prog (bool * scsdList) :=
  let scsdReply := mkScsdList [] in
  let! dbg := gvar debugOnly in
  if dbg then ret (true, scsdReply)
  else
    let! pub := ReadFile mountainConsoleKeyPub in
    match pub with
    | inl _ => ret (false, scsdReply)
    | inr pubKey =>
      let mtnBmcList := mtnBmcs nodes in
      let! entries := range mtnBmcList in
      let mtnNodeBmcArray := entries.*1 in
      let! (data, rc, _) := postURL url_scsd (print_json (scsdParam mtnNodeBmcArray pubKey)) [] in
      let success := rc <? 300 in
      let '(scsdReply, _) := unmarshal dec_scsdList data scsdReply in
      ret (success, scsdReply)
    end.

(** One batch.  The slice is made with its final length and then appended to,
    so the nodes come after as many zero records. *)
Definition bmcMap_of (entries : list (string * nodeConsoleInfo)) : gmap string (list string) :=
  foldl (fun m '(nodeKey, node) =>
    <[nc_BmcName node := default [] (m !! nc_BmcName node) ++ [nodeKey]]> m)%list ∅ entries.

Definition remove_done (bmcMap : gmap string (list string))
    (nodesToUpdate : gmap string nodeConsoleInfo) (t : scsdNode) : gmap string nodeConsoleInfo :=
  if sd_StatusCode t =? 204
  then foldl (fun m xname => delete xname m) nodesToUpdate (default [] (bmcMap !! sd_Xname t))
  else nodesToUpdate.

Definition doMountainCredsUpdate (nodesToUpdate : gmap string nodeConsoleInfo)
  : Prog (gmap string nodeConsoleInfo) :=
  let! entries := range nodesToUpdate in
  let nodeList := (replicate (size nodesToUpdate) zero_node ++ entries.*2)%list in
  let bmcMap := bmcMap_of entries in
  let! (success, reply) := deployMountainConsoleKeys nodeList in
  if negb success then ret nodesToUpdate
  else ret (foldl (remove_done bmcMap) nodesToUpdate (Targets reply)).

(** The worker's timeout case: when no node came in for a second. *)
Definition credsTimeout (nodesToUpdate : gmap string nodeConsoleInfo)
  : Prog (gmap string nodeConsoleInfo) :=
  let updateCount := Z.of_nat (size nodesToUpdate) in
  if 0 <? updateCount then doMountainCredsUpdate nodesToUpdate else ret nodesToUpdate.

(** ** The worker

    [doMountainCredsUpdates] runs beside the main loop, which sends it nodes
    over a buffered channel.  Its state is the map of nodes to update; each
    turn of its [select] either takes a node off the channel or, when none came
    for a second, sends the batch.  Meanwhile the other goroutines may change
    the variables, the files and the world in any way. *)

Definition channel_cap : nat := 100.

Record worker := mkWorker {
  wk_chan : list nodeConsoleInfo;
  wk_pending : gmap string nodeConsoleInfo;
  wk_st : St }.

Inductive wlabel := LSend (n : nodeConsoleInfo) | LRecv (n : nodeConsoleInfo)
                  | LBatch (m : gmap string nodeConsoleInfo) (s : St) | LOthers.

Inductive wstep : worker -> wlabel -> worker -> Prop :=
| ws_send n c m s :
    (length c < channel_cap)%nat -> wstep (mkWorker c m s) (LSend n) (mkWorker (c ++ [n])%list m s)
| ws_recv n c m s :
    wstep (mkWorker (n :: c) m s) (LRecv n) (mkWorker c (<[nc_NodeName n := n]> m) s)
| ws_timeout c m s m' s' :
    credsTimeout m s = Ret m' s' -> wstep (mkWorker c m s) (LBatch m s) (mkWorker c m' s')
| ws_others c m s s' : wstep (mkWorker c m s) LOthers (mkWorker c m s').

(** A run, with its labels in order. *)
Inductive wsteps : worker -> list wlabel -> worker -> Prop :=
| wsteps_nil w : wsteps w [] w
| wsteps_snoc w1 ls w2 l w3 : wsteps w1 ls w2 -> wstep w2 l w3 -> wsteps w1 (ls ++ [l])%list w3.

(** The worker starts with an empty map. *)
Definition worker_init (s : St) : worker := mkWorker [] ∅ s.

End creds.
