(* ===== verification/CredsFacts.v ===== *)
(** * Properties of creds.go

    - one batch of key deployments: the exact request made of SCSD and the
      exact set of nodes left to retry;
    - the worker as a transition system: no node handed to it is ever lost;
    - the key pair: existing keys are never replaced, a Vault failure falls back
      to a generated pair, Vault's key is stable and reaches the file whole. *)
From S2P Require Import Prelude GoStrings Json JsonFacts JsonCodec State SimWorld HttpUtils Nodes Creds.
#[local] Open Scope string_scope.
#[local] Open Scope Z_scope.

(** ** The batch *)

Lemma bmcMap_of_snoc entries k n :
  bmcMap_of (entries ++ [(k, n)])%list
  = <[nc_BmcName n := (default [] (bmcMap_of entries !! nc_BmcName n) ++ [k])%list]> (bmcMap_of entries).
Proof. by rw /bmcMap_of foldl_app. Qed.

(** The names filed under a BMC are those of its nodes. *)
Lemma bmcMap_of_elem entries b k :
  k ∈ default [] (bmcMap_of entries !! b) <-> exists n, (k, n) ∈ entries /\ nc_BmcName n = b.
Proof.
  induction entries as [|[k' n'] entries IH] using rev_ind; [set_solver|].
  rw bmcMap_of_snoc lookup_insert. setoid_rewrite elem_of_app.
  setoid_rewrite list_elem_of_singleton. case_decide as Hb; [subst b|rw IH; naive_solver].
  rw /= elem_of_app list_elem_of_singleton IH. naive_solver.
Qed.

(** The BMCs a list of replies reports as configured. *)
Definition acks_of (ts : list scsdNode) : gset string :=
  list_to_set (sd_Xname <$> filter (fun t => sd_StatusCode t =? 204) ts).

Lemma acks_of_snoc ts t :
  acks_of (ts ++ [t])%list = if sd_StatusCode t =? 204 then acks_of ts ∪ {[sd_Xname t]} else acks_of ts.
Proof.
  rw /acks_of filter_app fmap_app list_to_set_app_L filter_cons filter_nil.
  destruct (sd_StatusCode t =? 204); simpl; set_solver.
Qed.

(** The nodes whose BMC is not among [acks]. *)
Definition unacked (acks : gset string) (m : gmap string nodeConsoleInfo) : gmap string nodeConsoleInfo :=
  filter (fun kn => nc_BmcName kn.2 ∉ acks) m.

Lemma foldl_delete_lookup {A} (l : list string) (m : gmap string A) k :
  foldl (fun m x => delete x m) m l !! k = if decide (k ∈ l) then None else m !! k.
Proof.
  revert m. induction l as [|x l IH]; intros m; simpl; [done|].
  rw IH lookup_delete. repeat case_decide; set_solver.
Qed.

Lemma remove_done_unacked entries m ts :
  entries ≡ₚ map_to_list m ->
  foldl (remove_done (bmcMap_of entries)) m ts = unacked (acks_of ts) m.
Proof.
  intros Hperm. induction ts as [|t ts IH] using rev_ind.
  - apply map_eq. intros k. rw /unacked map_lookup_filter /=.
    destruct (m !! k); simpl; [|done]. by rw option_guard_True; [set_solver|].
  - rw foldl_app /= IH acks_of_snoc /remove_done. destruct (sd_StatusCode t =? 204); [|done].
    apply map_eq. intros k. rw foldl_delete_lookup /unacked !map_lookup_filter.
    destruct (m !! k) as [n|] eqn:Hk; simpl; [|by case_decide].
    assert (k ∈ default [] (bmcMap_of entries !! sd_Xname t) <-> nc_BmcName n = sd_Xname t) as He.
    { rw bmcMap_of_elem. setoid_rewrite Hperm. setoid_rewrite elem_of_map_to_list. naive_solver. }
    case_decide as Hd; rw He in Hd; [by rw option_guard_False; [set_solver|]|].
    repeat case_guard; set_solver.
Qed.

(** The FQDNs of the BMCs of the Mountain nodes of a list. *)
Lemma mtnBmcs_dom nodes f :
  is_Some (mtnBmcs nodes !! f) <-> exists n, n ∈ nodes /\ isMountain n = true /\ nc_BmcFqdn n = f.
Proof.
  rw /mtnBmcs. induction nodes as [|n nodes IH] using rev_ind.
  - rw lookup_empty. split; [by intros []|set_solver].
  - assert ((exists x, x ∈ (nodes ++ [n])%list /\ isMountain x = true /\ nc_BmcFqdn x = f)
      <-> (exists x, x ∈ nodes /\ isMountain x = true /\ nc_BmcFqdn x = f)
          \/ (isMountain n = true /\ nc_BmcFqdn n = f)) as ->.
    { setoid_rewrite elem_of_app. setoid_rewrite list_elem_of_singleton. naive_solver. }
    rw foldl_app /= -IH. destruct (isMountain n); [|naive_solver].
    rw lookup_insert. case_decide; naive_solver.
Qed.

Section batch.
Context {WD : World}.

(** What SCSD acknowledges with an answer: nothing when there is no answer,
    or its status is not below 300, or its body is not the expected JSON. *)
Definition scsd_acks (r : do_result) : gset string :=
  match r with
  | DoResp code (inr data) =>
    if code <? 300 then acks_of (Targets (Unmarshal dec_scsdList data (mkScsdList [])).1) else ∅
  | _ => ∅
  end.

(** The request of a batch. *)
Definition scsd_request (fqdns : list string) (pubKey : string) : http_request :=
  mkReq "POST" url_scsd [content_type] (Some (print_json (scsdParam fqdns pubKey))).

(** The targets of a batch: each BMC of a Mountain node of the batch once. *)
Definition batch_targets (m : gmap string nodeConsoleInfo) (fqdns : list string) : Prop :=
  NoDup fqdns /\ forall f, f ∈ fqdns <->
    exists k n, m !! k = Some n /\ isMountain n = true /\ nc_BmcFqdn n = f.

(** How a batch ends. *)
Inductive batch (m : gmap string nodeConsoleInfo) (s : St) : gset string -> St -> Prop :=
| batch_silent s' :
    same_process s s' ->
    (newRequest_err "POST" url_scsd = None -> debugOnly (gl s) = false ->
     (forall w, (os_fault (OpRead mountainConsoleKeyPub) w).1 = None) ->
     files (fs s) !! mountainConsoleKeyPub = None) ->
    batch m s ∅ s'
| batch_sent fqdns pubKey s1 s' r :
    debugOnly (gl s) = false -> batch_targets m fqdns ->
    files (fs s) !! mountainConsoleKeyPub = Some pubKey ->
    same_process s s1 ->
    client_Do (scsd_request fqdns pubKey) (ext s1) = (r, ext s') ->
    gl s' = gl s -> fs s' = fs s ->
    trace s' = (trace s ++ [EvHTTP (scsd_request fqdns pubKey)])%list ->
    batch m s (scsd_acks r) s'.

Lemma wp_ReadFile p (Q : error + string -> St -> Prop) E s :
  (forall e s', same_process s s' ->
     ((forall w, (os_fault (OpRead p) w).1 = None) -> files (fs s) !! p = None) -> Q (inl e) s') ->
  (forall data s', same_process s s' -> files (fs s) !! p = Some data -> Q (inr data) s') ->
  wp (ReadFile p) Q E s.
Proof.
  intros He Hok. rw /ReadFile. apply wp_bind, wp_ask. intros f w' Hf. destruct f as [e|].
  - apply wp_ret, He; [done|]. intros Hw. specialize (Hw (ext s)). by rw Hf in Hw.
  - wp_go. destruct (files (fs (set_ext w' s)) !! p) eqn:Hp; [by apply Hok|by apply He].
Qed.

Lemma batch_targets_of m entries fqdns :
  entries ≡ₚ map_to_list m ->
  fqdns ≡ₚ (map_to_list (mtnBmcs (replicate (size m) zero_node ++ entries.*2)%list)).*1 ->
  batch_targets m fqdns.
Proof.
  intros He Hf. split.
  - rw Hf. apply NoDup_fst_map_to_list.
  - intros f. rw Hf. split.
    + intros ([? b] & -> & Hin%elem_of_map_to_list)%list_elem_of_fmap. simpl.
      destruct (proj1 (mtnBmcs_dom _ _) (mk_is_Some _ _ Hin)) as (n & Hn & Hm & <-).
      apply elem_of_app in Hn as [[-> _]%elem_of_replicate|Hn]; [done|].
      rw He in Hn. apply list_elem_of_fmap in Hn as ([k n'] & -> & Hn%elem_of_map_to_list). eauto.
    + intros (k & n & Hk & Hm & <-).
      destruct (proj2 (mtnBmcs_dom (replicate (size m) zero_node ++ entries.*2)%list (nc_BmcFqdn n))) as [b Hb].
      { exists n. split_and!; [|done..]. apply elem_of_app. right. rw He.
        apply list_elem_of_fmap. exists (k, n). by rw elem_of_map_to_list. }
      apply list_elem_of_fmap. exists (nc_BmcFqdn n, b). by rw elem_of_map_to_list.
Qed.

Lemma unacked_empty m : unacked ∅ m = m.
Proof. apply map_filter_id. set_solver. Qed.

(** The deployment of a batch, with the order in which its nodes were taken. *)
Definition deployBatch (m : gmap string nodeConsoleInfo)
  : Prog (list (string * nodeConsoleInfo) * (bool * scsdList)) :=
  let! entries := range m in
  let! r := deployMountainConsoleKeys (replicate (size m) zero_node ++ entries.*2)%list in
  ret (entries, r).

Definition acks_in (r : bool * scsdList) : gset string := if r.1 then acks_of (Targets r.2) else ∅.

(** The BMCs that SCSD reports as configured when the batch [m] is deployed in [s]. *)
Definition batch_acks (m : gmap string nodeConsoleInfo) (s : St) : gset string :=
  match deployBatch m s with Ret (_, r) _ => acks_in r | Panic _ _ => ∅ end.

Lemma wp_deployBatch m s :
  wp (deployBatch m) (fun er s' => er.1 ≡ₚ map_to_list m /\ batch m s (acks_in er.2) s') no_panic s.
Proof.
  rw /deployBatch /range. apply wp_bind, wp_ask. intros entries w1 Ho.
  pose proof (map_order_perm m (ext s)) as Hperm. rw Ho /= in Hperm.
  set (s1 := set_ext w1 s). rw /deployMountainConsoleKeys.
  apply wp_bind, wp_bind, wp_gvar. destruct (debugOnly (gl s1)) eqn:Hdbg.
  { apply wp_ret, wp_ret. split; [done|]. apply batch_silent; [done|]. simpl in *. congruence. }
  apply wp_bind, wp_ReadFile.
  { intros e s2 Hs2 Hno. apply wp_ret, wp_ret. split; [done|]. apply batch_silent; [by etrans|]. eauto. }
  intros pubKey s2 Hs2 Hpub. rw /range. apply wp_bind, wp_ask. intros es w2 Ho2.
  match type of Ho2 with map_order ?mm _ = _ => pose proof (map_order_perm mm (ext s2)) as Hperm2 end.
  rw Ho2 /= in Hperm2. set (s3 := set_ext w2 s2).
  assert (batch_targets m es.*1) as Ht by (eapply batch_targets_of; [exact Hperm|by rw Hperm2]).
  assert (same_process s s3) as (G3 & F3 & T3) by (etrans; [|exact Hs2]; done).
  apply wp_bind. rw /postURL. destruct (newRequest_err "POST" url_scsd) as [e|] eqn:Hu.
  { rw /doURL Hu. apply wp_ret, wp_ret, wp_ret. split; [done|]. apply batch_silent; [done|]. by rw Hu. }
  pose proof (doURL_spec "POST" url_scsd (Some (print_json (scsdParam es.*1 pubKey))) [content_type] s3 Hu) as Hd.
  cbn zeta in Hd. change (mkReq _ _ _ _) with (scsd_request es.*1 pubKey) in Hd.
  destruct (client_Do _ _) as [r w4] eqn:Hr. rw {1}/wp Hd.
  assert (batch m s (scsd_acks r) (mkSt (gl s3) (fs s3) w4 (trace s3 ++ [EvHTTP (scsd_request es.*1 pubKey)])%list)) as Hb.
  { eapply (batch_sent m s es.*1 pubKey s3); simpl; [done|done|done|done|exact Hr|done..|by rw T3]. }
  destruct r as [e|code [e|data]]; cbn [doURL_result]; cbn [scsd_acks] in Hb.
  - by apply wp_ret, wp_ret.
  - apply wp_ret, wp_ret. split; [done|]. rw /acks_in. cbn. by destruct (code <? 300).
  - rw /unmarshal. cbn [default from_option id]. destruct (Unmarshal _ data _) as [reply bad].
    by apply wp_ret, wp_ret.
Qed.

(** One batch: what is sent and what is left. *)
Lemma doMountainCredsUpdate_run m s :
  exists s', doMountainCredsUpdate m s = Ret (unacked (batch_acks m s) m) s'
    /\ batch m s (batch_acks m s) s'.
Proof.
  destruct (wp_run_ret _ _ _ (wp_deployBatch m s)) as ([entries [ok reply]] & s' & Hr & Hp & Hb).
  exists s'. rw /batch_acks Hr. split; [|done]. move: Hr.
  rw /doMountainCredsUpdate /deployBatch /bind. destruct (range m s) as [es s1|]; [|done].
  destruct (deployMountainConsoleKeys _ s1) as [[ok' reply'] s2|]; [|done].
  intros [= -> -> -> ->]. rw /acks_in. cbn. destruct ok; cbn.
  - by rw remove_done_unacked.
  - by rw unacked_empty.
Qed.

(** C11: one batch of the key deployment, completely. The update of a batch
    returns, changes no variable and no file, and sends at most one request,
    the load of the public key read from its file onto the BMCs of the batch's
    Mountain nodes, each BMC once; the nodes left for a retry are exactly those
    whose BMC the reply does not report with status 204. With a readable key
    the request is sent; an unreachable SCSD, a status of 300 or more, or an
    undecodable reply leave the whole batch. *)
Theorem doMountainCredsUpdate_batch m s :
  exists s' acks, doMountainCredsUpdate m s = Ret (unacked acks m) s' /\ batch m s acks s'.
Proof. destruct (doMountainCredsUpdate_run m s) as (s' & H1 & H2). eauto. Qed.

(** A healthy deployment: the public key can be read, and the request can be
    made. *)
Definition scsd_healthy (s : St) (pubKey : string) : Prop :=
  newRequest_err "POST" url_scsd = None /\ debugOnly (gl s) = false
  /\ (forall w, (os_fault (OpRead mountainConsoleKeyPub) w).1 = None)
  /\ files (fs s) !! mountainConsoleKeyPub = Some pubKey.

(** A healthy SCSD, which knows the BMCs [bmcs] (their names by FQDN): asked to
    load the key onto some of them, it reports status 204 for exactly the ones
    it was asked for, and for no other. *)
Definition scsd_configures (bmcs : gmap string string) (pubKey : string) : Prop :=
  forall fqdns w, NoDup fqdns -> (forall f, f ∈ fqdns -> is_Some (bmcs !! f)) ->
    forall b, b ∈ scsd_acks (client_Do (scsd_request fqdns pubKey) w).1
              <-> exists f, f ∈ fqdns /\ bmcs !! f = Some b.

(** A Mountain node whose BMC is among them. *)
Definition bmc_known (bmcs : gmap string string) (n : nodeConsoleInfo) : Prop :=
  isMountain n = true /\ bmcs !! nc_BmcFqdn n = Some (nc_BmcName n).

Lemma batch_completes m s bmcs pubKey :
  scsd_healthy s pubKey -> scsd_configures bmcs pubKey -> (forall k n, m !! k = Some n -> bmc_known bmcs n) ->
  unacked (batch_acks m s) m = ∅.
Proof.
  intros (Hu & Hd & Hr & Hp) Hsc Ha. destruct (doMountainCredsUpdate_run m s) as (s' & _ & Hb).
  inversion Hb as [? ? Hno|fqdns pk s1 ? r ? [Hnd Ht] Hp' ? Hc]; [naive_solver|]. simplify_eq.
  apply map_eq. intros k. rw /unacked map_lookup_filter lookup_empty.
  destruct (m !! k) as [n|] eqn:Hk; simpl; [|done]. rw option_guard_False //.
  intros []. destruct (Ha k n Hk) as [Hm Hn]. specialize (Hsc fqdns (ext s1) Hnd). rw Hc in Hsc. apply Hsc.
  - intros f (k' & n' & Hk' & _ & <-)%Ht. destruct (Ha k' n' Hk'). eauto.
  - exists (nc_BmcFqdn n). split; [apply Ht; eauto|done].
Qed.
End batch.

(** ** The worker loses no node *)

Section worker.
Context {WD : World}.

(** The BMC [b] was reported as configured by some batch of the run. *)
Definition configured (ls : list wlabel) (b : string) : Prop :=
  exists m s, LBatch m s ∈ ls /\ b ∈ batch_acks m s.

(** Where a node sent to the worker is: still in the channel, in the map
    (perhaps under a newer record with its name), or done. *)
Definition accounted (ls : list wlabel) (w : worker) (n : nodeConsoleInfo) : Prop :=
  n ∈ wk_chan w \/ is_Some (wk_pending w !! nc_NodeName n)
  \/ exists n', LSend n' ∈ ls /\ nc_NodeName n' = nc_NodeName n /\ configured ls (nc_BmcName n').

(** The invariant of a run. *)
Definition winv (ls : list wlabel) (w : worker) : Prop :=
  (length (wk_chan w) <= channel_cap)%nat
  /\ (forall n, n ∈ wk_chan w -> LSend n ∈ ls)
  /\ (forall k n, wk_pending w !! k = Some n -> nc_NodeName n = k /\ LSend n ∈ ls)
  /\ (forall n, LSend n ∈ ls -> accounted ls w n).

Lemma credsTimeout_run m s :
  exists s', credsTimeout m s = Ret (unacked (batch_acks m s) m) s'.
Proof.
  rw /credsTimeout. destruct (Z.ltb_spec 0 (Z.of_nat (size m))).
  - destruct (doMountainCredsUpdate_run m s) as (s' & -> & _). eauto.
  - assert (m = ∅) as -> by (apply map_size_empty_inv; lia). exists s. by rw /unacked map_filter_empty.
Qed.

Lemma accounted_mono ls l w n : accounted ls w n -> accounted (ls ++ [l])%list w n.
Proof.
  rw /accounted /configured. setoid_rewrite elem_of_app. naive_solver.
Qed.

Lemma winv_step ls w l w' : winv ls w -> wstep w l w' -> winv (ls ++ [l])%list w'.
Proof.
  intros (Hlen & Hch & Hpend & Hacc) Hstep.
  assert (forall x, x ∈ ls -> x ∈ (ls ++ [l])%list) as Hin by set_solver.
  assert (forall n, LSend n ∈ (ls ++ [l])%list -> l <> LSend n -> accounted ls w n) as Hacc'.
  { intros n [?|<-%list_elem_of_singleton]%elem_of_app ?; [by apply Hacc|done]. }
  destruct Hstep as [n c m s Hc|n c m s|c m s m' s' Hrun|c m s s']; rw /winv; simpl in *.
  - split_and!; [rw length_app /=; lia|set_solver|naive_solver|].
    intros n' [Hn|[= ->]%list_elem_of_singleton]%elem_of_app; [|left; set_solver].
    destruct (accounted_mono ls (LSend n) _ _ (Hacc n' Hn)) as [?|?]; [left; set_solver|by right].
  - split_and!; [lia|set_solver| |].
    + intros k n'. rw lookup_insert. case_decide; [intros [= <-]; set_solver|naive_solver].
    + intros n' Hn'. specialize (Hacc' n' Hn' ltac:(done)). rw /accounted /= lookup_insert.
      destruct (accounted_mono ls (LRecv n) _ _ Hacc') as [H|[H|H]]; [|case_decide; eauto|eauto].
      simpl in H. apply elem_of_cons in H as [->|H]; [case_decide; [eauto|done]|eauto].
  - destruct (credsTimeout_run m s) as (s2 & Hr). rw Hr in Hrun. injection Hrun as <- <-.
    split_and!; [done|set_solver| |].
    + intros k n. rw /unacked map_lookup_filter_Some. naive_solver.
    + intros n Hn. specialize (Hacc' n Hn ltac:(done)). rw /accounted /=.
      destruct (accounted_mono ls (LBatch m s) _ _ Hacc') as [H|[[n' H]|H]]; simpl in *; [by left| |by right; right].
      right. destruct (decide (nc_BmcName n' ∈ batch_acks m s)) as [Ha|Ha].
      * right. destruct (Hpend _ _ H) as [Hk Hs]. exists n'. split_and!; [by auto|done|].
        exists m, s. set_solver.
      * left. exists n'. rw /unacked map_lookup_filter H /=. by rw option_guard_True.
  - split_and!; [done|set_solver|naive_solver|].
    intros n Hn. by apply (accounted_mono ls LOthers (mkWorker c m s)), Hacc'.
Qed.

Lemma winv_run s ls w : wsteps (worker_init s) ls w -> winv ls w.
Proof.
  intros H. remember (worker_init s) as w0 eqn:Hw0. induction H as [w|w1 ls w2 l w3 Hrun IH Hstep].
  - subst w. rw /winv. simpl. split_and!; [lia|set_solver|by intros ? ?; rw lookup_empty|set_solver].
  - eapply winv_step; [by apply IH|done].
Qed.

(** C10: no node is lost. In every run of the worker beside arbitrary other
    goroutines, a node that was sent to it is in the channel, or in the map of
    nodes to update, or some record sent under its name had its BMC reported
    as configured by SCSD; the channel never exceeds its capacity, and each
    record in the map was sent and is filed under its own name. *)
Theorem worker_loses_no_node s ls w : wsteps (worker_init s) ls w -> winv ls w.
Proof. apply winv_run. Qed.

(** The worker takes everything off its channel. *)
Lemma worker_receives c m s :
  wsteps (mkWorker c m s) (LRecv <$> c) (mkWorker [] (foldl (fun m n => <[nc_NodeName n := n]> m) m c) s).
Proof.
  enough (forall pre w0, wsteps w0 pre (mkWorker c m s) ->
    wsteps w0 (pre ++ (LRecv <$> c))%list
      (mkWorker [] (foldl (fun m n => <[nc_NodeName n := n]> m) m c) s)) as H
    by (apply (H []); constructor).
  revert m. induction c as [|n c IH]; intros m pre w0 Hpre; simpl.
  - by rw app_nil_r.
  - specialize (IH (<[nc_NodeName n := n]> m) (pre ++ [LRecv n])%list w0).
    rw -app_assoc in IH. apply IH. econstructor; [exact Hpre|constructor].
Qed.

(** C12: the worker drains. From any state whose Mountain nodes, in the channel
    or in the map, all have their BMC known to SCSD, while the public key can be
    read and SCSD loads it onto exactly the BMCs it is asked for: taking the
    nodes off the channel and sending one batch leaves the channel and the map
    empty. *)
Theorem worker_drains bmcs c m s pubKey :
  scsd_healthy s pubKey -> scsd_configures bmcs pubKey ->
  (forall n, n ∈ c -> bmc_known bmcs n) -> (forall k n, m !! k = Some n -> bmc_known bmcs n) ->
  exists m1 s', wsteps (mkWorker c m s) ((LRecv <$> c) ++ [LBatch m1 s])%list (mkWorker [] ∅ s').
Proof.
  intros Hh Hsc Hc Hm. set (m1 := foldl (fun m n => <[nc_NodeName n := n]> m) m c).
  assert (forall k n, m1 !! k = Some n -> bmc_known bmcs n) as Hm1.
  { rw /m1. clear m1. revert m Hm. induction c as [|n c IH]; intros m Hm; simpl; [done|].
    apply IH; [set_solver|]. intros k n'. rw lookup_insert. case_decide; [|eauto].
    intros [= <-]. set_solver. }
  destruct (credsTimeout_run m1 s) as [s' Hr]. rw (batch_completes m1 s bmcs pubKey Hh Hsc Hm1) in Hr.
  exists m1, s'. econstructor; [apply worker_receives|]. by constructor.
Qed.
End worker.

(** ** The key pair *)

(** The documented behaviour of Vault's transit engine for a client with token
    [tok]: exporting gives 404 while the key does not exist and afterwards its
    text, which gjson finds in the body; generating answers 204, and keeps a
    key that exists. *)
Class VaultStore {WD : World} (key_of : W -> option string) (tok : string) := {
  vault_urls : newRequest_err "GET" url_export = None /\ newRequest_err "POST" url_generate = None;
  vault_export w :
    let '(r, w') := client_Do (mkReq "GET" url_export [("X-Vault-Token", tok)] None) w in
    key_of w' = key_of w /\ exists data,
      match key_of w with
      | Some k => r = DoResp 200 (inr data) /\ gjson_Get data "data.keys.1" = k /\ k <> ""
      | None => r = DoResp 404 (inr data)
      end;
  vault_generate w :
    let '(r, w') := client_Do (mkReq "POST" url_generate [content_type; ("X-Vault-Token", tok)]
                                 (Some (print_json vaultKeyParam))) w in
    is_Some (key_of w') /\ (is_Some (key_of w) -> key_of w' = key_of w)
    /\ exists data, r = DoResp 204 (inr data) }.

Section keys.
Context {WD : World}.

Lemma vaultExport_run (key_of : W -> option string) tok `{!VaultStore key_of tok} s :
  exists data s', gl s' = gl s /\ fs s' = fs s /\ key_of (ext s') = key_of (ext s)
    /\ vaultExportPrivateKey tok s
       = Ret (match key_of (ext s) with Some k => (k, Some data, 200, None) | None => ("", Some data, 404, None) end) s'
    /\ (key_of (ext s) <> Some "").
Proof.
  destruct (vault_urls (key_of := key_of) (tok := tok)) as [Hu _].
  pose proof (doURL_spec "GET" url_export None [("X-Vault-Token", tok)] s Hu) as Hd. cbn zeta in Hd.
  pose proof (vault_export (key_of := key_of) (tok := tok) (ext s)) as Hv.
  destruct (client_Do _ (ext s)) as [r w'] eqn:Hr. destruct Hv as (Hk & data & Hv).
  exists data, (mkSt (gl s) (fs s) w'
    (trace s ++ [EvHTTP (mkReq "GET" url_export [("X-Vault-Token", tok)] None)])%list).
  do 3 (split; [done|]). rw /vaultExportPrivateKey /getURL /bind Hd.
  destruct (key_of (ext s)) as [k|] eqn:Hks.
  - destruct Hv as (-> & Hg & Hne). cbn. rw Hg. apply String.eqb_neq in Hne as Hne'. rw Hne'.
    split; [done|]. congruence.
  - subst r. done.
Qed.

Lemma vaultGet_run (key_of : W -> option string) tok `{!VaultStore key_of tok} s :
  exists k s', vaultGetPrivateKey tok s = Ret (k, None) s' /\ key_of (ext s') = Some k /\ k <> ""
    /\ gl s' = gl s /\ fs s' = fs s /\ (is_Some (key_of (ext s)) -> key_of (ext s) = Some k).
Proof.
  destruct (vaultExport_run key_of tok s) as (data & s1 & G1 & F1 & K1 & Hr & Hne).
  rw /vaultGetPrivateKey {1}/bind Hr. destruct (key_of (ext s)) as [k|] eqn:Hk; cbn.
  { exists k, s1. split_and!; [done|done|congruence|done..]. }
  destruct (vault_urls (key_of := key_of) (tok := tok)) as [_ Hu].
  pose proof (doURL_spec "POST" url_generate (Some (print_json vaultKeyParam))
    [content_type; ("X-Vault-Token", tok)] s1 Hu) as Hd. cbn zeta in Hd.
  pose proof (vault_generate (key_of := key_of) (tok := tok) (ext s1)) as Hv.
  destruct (client_Do _ (ext s1)) as [r w'] eqn:Hreq. destruct Hv as ([k Hk'] & _ & data' & ->).
  rw /vaultGeneratePrivateKey /postURL /bind Hd. cbn.
  match goal with |- context [vaultExportPrivateKey tok ?st] =>
    destruct (vaultExport_run key_of tok st) as (data2 & s3 & G3 & F3 & K3 & Hr3 & Hne3) end.
  cbn in *. rw Hr3 Hk'. cbn. exists k, s3.
  split_and!; [done|congruence|congruence|congruence|congruence|by intros []].
Qed.

(** C18: Vault's key is stable. Against a healthy Vault, [vaultGetPrivateKey]
    returns a non-empty key, which is the one Vault already held if it held
    one, and which Vault holds afterwards (it is generated when missing);
    asking again returns the same key. *)
Theorem vaultGetPrivateKey_stable (key_of : W -> option string) tok `{!VaultStore key_of tok} s :
  exists k s', vaultGetPrivateKey tok s = Ret (k, None) s' /\ k <> "" /\ key_of (ext s') = Some k
    /\ (forall k0, key_of (ext s) = Some k0 -> k = k0)
    /\ exists s'', vaultGetPrivateKey tok s' = Ret (k, None) s''.
Proof.
  destruct (vaultGet_run key_of tok s) as (k & s' & Hr & Hk & Hne & _ & _ & Hsame).
  destruct (vaultGet_run key_of tok s') as (k2 & s'' & Hr2 & _ & _ & _ & _ & Hsame2).
  exists k, s'. split_and!; [done..| |].
  - intros k0 Hk0. rw Hk0 in Hsame. specialize (Hsame ltac:(eauto)). congruence.
  - exists s''. rw Hk in Hsame2. specialize (Hsame2 ltac:(eauto)). injection Hsame2 as <-. done.
Qed.

(** The variables and the files are as they were. *)
Definition quiet_frame (s s' : St) : Prop := gl s' = gl s /\ fs s' = fs s.

#[export] Instance quiet_frame_preorder : PreOrder quiet_frame.
Proof. split; [done|]. intros s1 s2 s3 [] []. split; congruence. Qed.

Lemma wp_doURL_quiet method URL body hdrs (Q : option string * Z * option error -> St -> Prop) E s :
  (forall r s', quiet_frame s s' -> Q r s') -> wp (doURL method URL body hdrs) Q E s.
Proof. intros HQ. apply wp_doURL; intros; apply HQ; by destruct_and?; firstorder. Qed.

Lemma wp_vaultExport tok s :
  wp (vaultExportPrivateKey tok)
    (fun r s' => quiet_frame s s' /\ (r.2 = None -> r.1.2 = 200 -> r.1.1.1 <> "")) no_panic s.
Proof.
  rw /vaultExportPrivateKey. apply wp_bind, wp_doURL_quiet. intros [[resp code] err] s' Hf.
  destruct err as [e|]; [by apply wp_ret|].
  destruct (code =? 404); [by apply wp_ret|]. destruct (code =? 200); [|by apply wp_ret].
  cbn zeta. destruct (String.eqb_spec (gjson_Get (bytes_string resp) "data.keys.1") ""); by apply wp_ret.
Qed.

Lemma wp_vaultGetPrivateKey tok s :
  wp (vaultGetPrivateKey tok) (fun r s' => quiet_frame s s' /\ (r.2 = None -> r.1 <> "")) no_panic s.
Proof.
  rw /vaultGetPrivateKey. apply wp_bind. eapply wp_mono; [apply wp_vaultExport| |done].
  intros [[[key resp] code] err] s1 [F1 K1]. cbn in K1. destruct err as [e|]; [by apply wp_ret|].
  destruct (Z.eqb_spec code 200); [apply wp_ret; cbn; naive_solver|].
  destruct (code =? 404); [|by apply wp_ret].
  apply wp_bind. rw /vaultGeneratePrivateKey. apply wp_bind, wp_doURL_quiet.
  intros [[resp2 code2] err2] s2 F2. assert (quiet_frame s s2) as F12 by (etrans; [exact F1|exact F2]).
  destruct err2 as [e|]; [by do 2 apply wp_ret|].
  destruct (negb (code2 =? 204)); [by do 2 apply wp_ret|]. apply wp_ret.
  cbn beta iota. destruct (negb (code2 =? 204)); [by apply wp_ret|].
  apply wp_bind. eapply wp_mono; [apply wp_vaultExport| |done].
  intros [[[key3 resp3] code3] err3] s3 [F3 K3]. cbn in K3.
  assert (quiet_frame s s3) as F13 by (etrans; [exact F12|exact F3]).
  destruct err3 as [e|]; [by apply wp_ret|].
  destruct (Z.eqb_spec code3 200); cbn [negb]; apply wp_ret; cbn; naive_solver.
Qed.

Lemma wp_exec_Command argv (Q : option error * string -> St -> Prop) E s :
  (forall err out s', gl s' = gl s -> (exec_run argv (fs s) (ext s)).1 = (err, out, fs s') ->
     last (trace s') = Some (EvExec argv) -> Q (err, out) s') ->
  wp (exec_Command argv) Q E s.
Proof.
  intros HQ. rw /exec_Command. wp_go. apply wp_ask. intros [[err out] fsys'] w' Hr. wp_go.
  apply HQ; simpl; [done| |by rw last_snoc]. simpl in Hr. by rw Hr.
Qed.

Lemma wp_WriteFile p data (Q : option error -> St -> Prop) E s :
  (forall e s', WriteFile p data s = Ret (Some e) s' -> gl s' = gl s -> Q (Some e) s') ->
  (forall s', WriteFile p data s = Ret None s' -> gl s' = gl s -> files (fs s') !! p = Some data -> Q None s') ->
  wp (WriteFile p data) Q E s.
Proof.
  intros He Hok.
  assert (wp (WriteFile p data) (fun r s' => gl s' = gl s /\ (r = None -> files (fs s') !! p = Some data)) no_panic s) as Hw.
  { rw /WriteFile. apply wp_bind, wp_os_OpenTrunc.
    { intros e s' (? & ? & ?). by apply wp_ret. }
    intros s1 G1 T1 F1 _. rw /file_WriteString. apply wp_bind, wp_ask. intros k w' Hk. wp_go.
    split; [done|]. destruct k as [n|]; [done|]. intros _. simpl. rw lookup_insert_eq F1. by rw lookup_insert_eq. }
  destruct (wp_run_ret _ _ _ Hw) as (r & s' & Hr & G & F). rw /wp Hr. destruct r; [by apply He|]. apply Hok; auto.
Qed.

(** ** Where the key pair comes from *)

(** The request that logs in to Vault with the token of the service account. *)
Definition login_request (jwt : string) : http_request :=
  mkReq "POST" url_login [content_type]
    (Some (print_json (JObj [("jwt", JStr jwt); ("role", JStr "ssh-user-certs-compute")]))).

(** The token [jwt] was read and the login request made, which [r] answers. *)
Definition login (s : St) (jwt : string) (r : do_result) (s2 : St) : Prop :=
  files (fs s) !! svcAcctTokenFile = Some jwt
  /\ (exists s1, same_process s s1 /\ client_Do (login_request jwt) (ext s1) = (r, ext s2))
  /\ quiet_frame s s2 /\ trace s2 = (trace s ++ [EvHTTP (login_request jwt)])%list.

(** Vault let the operator in, with the token [tok]. *)
Definition logged_in (s : St) (tok : string) (s2 : St) : Prop :=
  exists jwt data, login s jwt (DoResp 200 (inr data)) s2 /\ tok = gjson_Get data "auth.client_token".

(** What [vaultGetPrivateKey] gave with the token of the login. *)
Definition vault_gave (s : St) (key : string) (s3 : St) : Prop :=
  exists tok s2, logged_in s tok s2 /\ vaultGetPrivateKey tok s2 = Ret (key, None) s3.

(** That key is the contents of the key file when ssh-keygen derives the public
    key from it. *)
Definition key_from_vault (s s' : St) : Prop :=
  exists key s3 s4 out, vault_gave s key s3 /\ key <> ""
    /\ WriteFile mountainConsoleKey key s3 = Ret None s4 /\ files (fs s4) !! mountainConsoleKey = Some key
    /\ exec_Command ssh_keygen_cmd s4 = Ret (None, out) s'.

(** How Vault can fail to provide the key pair. *)
Inductive vault_failed (s : St) : St -> Prop :=
| vf_no_token s' : same_process s s' ->
    ((forall w, (os_fault (OpRead svcAcctTokenFile) w).1 = None) -> files (fs s) !! svcAcctTokenFile = None) ->
    vault_failed s s'
| vf_no_request s' e : same_process s s' -> newRequest_err "POST" url_login = Some e -> vault_failed s s'
| vf_refused jwt r s' : login s jwt r s' -> (forall data, r <> DoResp 200 (inr data)) -> vault_failed s s'
| vf_no_key tok s2 k e s' : logged_in s tok s2 -> vaultGetPrivateKey tok s2 = Ret (k, Some e) s' -> vault_failed s s'
| vf_not_written key s3 e s' : vault_gave s key s3 ->
    WriteFile mountainConsoleKey key s3 = Ret (Some e) s' -> vault_failed s s'
| vf_not_derived key s3 s4 e out s' : vault_gave s key s3 ->
    WriteFile mountainConsoleKey key s3 = Ret None s4 ->
    exec_Command ssh_keygen_cmd s4 = Ret (Some e, out) s' -> vault_failed s s'.

Lemma wp_self {A} (p : Prog A) (P Q : A -> St -> Prop) s :
  wp p P no_panic s -> (forall a s', p s = Ret a s' -> P a s' -> Q a s') -> wp p Q no_panic s.
Proof. intros Hp HQ. destruct (wp_run_ret _ _ _ Hp) as (a & s' & Hr & Ha). rw /wp Hr. by apply HQ. Qed.

Lemma wp_login s (Q : option string * Z * option error -> St -> Prop) jwt s1 :
  files (fs s) !! svcAcctTokenFile = Some jwt -> same_process s s1 ->
  (forall resp code err s', gl s' = gl s ->
     (err = None -> code = 200 -> logged_in s (gjson_Get (bytes_string resp) "auth.client_token") s') ->
     (err <> None \/ code <> 200 -> vault_failed s s') -> Q (resp, code, err) s') ->
  wp (postURL url_login (print_json (JObj [("jwt", JStr jwt); ("role", JStr "ssh-user-certs-compute")])) []) Q no_panic s1.
Proof.
  intros Hj Hs HQ. pose proof Hs as (G1 & F1 & T1). rw /postURL.
  destruct (newRequest_err "POST" url_login) as [e|] eqn:Hu.
  { rw /doURL Hu. apply wp_ret, HQ; [done|done|]. intros _. exact (vf_no_request s s1 e Hs Hu). }
  pose proof (doURL_spec "POST" url_login (Some (print_json (JObj [("jwt", JStr jwt); ("role", JStr "ssh-user-certs-compute")])))
    [content_type] s1 Hu) as Hd. cbn zeta in Hd. fold (login_request jwt) in Hd.
  destruct (client_Do (login_request jwt) (ext s1)) as [r w2] eqn:Hr. rw /wp Hd. set (s2 := mkSt _ _ _ _).
  assert (login s jwt r s2) as Hl.
  { split; [done|]. split; [by exists s1|]. split; [done|]. by rw /s2 /= T1. }
  destruct r as [e|code [e|data]]; cbn [doURL_result].
  - apply HQ; [done|done|]. intros _. exact (vf_refused s jwt _ s2 Hl ltac:(done)).
  - apply HQ; [done|done|]. intros _. exact (vf_refused s jwt _ s2 Hl ltac:(done)).
  - apply HQ; [done| |].
    + intros _ ->. by exists jwt, data.
    + intros [?|Hc]; [done|]. eapply vf_refused; [exact Hl|]. intros data' [= E _]. done.
Qed.

Lemma wp_vaultGetMountain s :
  wp vaultGetMountainConsoleCredentials
    (fun r s' => gl s' = gl s /\ match r with None => key_from_vault s s' | Some _ => vault_failed s s' end) no_panic s.
Proof.
  rw /vaultGetMountainConsoleCredentials. apply wp_bind, wp_ReadFile.
  { intros e s1 Hs Hf. apply wp_ret. split; [apply Hs|]. by apply vf_no_token. }
  intros jwt s1 Hs Hj. apply wp_bind, (wp_login s _ jwt); [done|done|].
  intros resp code err s2 G2 Hin Hout. destruct err as [e|]; [apply wp_ret; by auto|].
  destruct (Z.eqb_spec code 200) as [->|Hc]; cbn [negb]; [|apply wp_ret; by auto].
  specialize (Hin eq_refl eq_refl). cbn zeta. apply wp_bind. eapply wp_self; [apply wp_vaultGetPrivateKey|].
  intros [key err] s3 Hr3 [[G3 _] Hk]. destruct err as [e|].
  { apply wp_ret. split; [congruence|]. eapply vf_no_key; [exact Hin|exact Hr3]. }
  assert (vault_gave s key s3) as Hg by (eexists _, s2; split; [exact Hin|exact Hr3]).
  apply wp_bind, wp_WriteFile.
  { intros e s4 Hr4 G4. apply wp_ret. split; [congruence|]. eapply vf_not_written; [exact Hg|exact Hr4]. }
  intros s4 Hr4 G4 F4. apply wp_bind. apply (wp_self _ (fun _ s' => gl s' = gl s4)).
  { apply wp_exec_Command. by intros. }
  intros [err out] s5 Hr5 G5. assert (gl s5 = gl s) as G by congruence.
  destruct err as [e|]; apply wp_ret; (split; [done|]).
  - eapply vf_not_derived; [exact Hg|exact Hr4|exact Hr5].
  - exists key, s3, s4, out. split_and!; [done|by apply Hk|done..].
Qed.

(** A key file is missing, and the operator is not in debug mode. *)
Definition keys_missing (s : St) : Prop :=
  debugOnly (gl s) = false /\
  (files (fs s) !! mountainConsoleKey = None \/ files (fs s) !! mountainConsoleKeyPub = None).

(** The ways to have a key pair; [s1] is the state once both files were looked
    for. *)
Inductive keys_outcome (s : St) : bool -> St -> Prop :=
| keys_present s' : same_process s s' ->
    ((forall p w, (os_fault (OpStat p) w).1 = None) ->
       dirs (fs s) ## {[mountainConsoleKey; mountainConsoleKeyPub]} -> ~ keys_missing s) ->
    keys_outcome s true s'
| keys_vault s1 s' : keys_missing s -> same_process s s1 -> key_from_vault s1 s' -> keys_outcome s true s'
| keys_generated s1 s2 err out s' : keys_missing s -> same_process s s1 -> vault_failed s1 s2 ->
    exec_Command keygen_cmd s2 = Ret (err, out) s' -> gl s' = gl s ->
    keys_outcome s (bool_decide (err = None)) s'.

Lemma wp_os_Stat_exists p (Q : stat_result -> St -> Prop) E s :
  (forall r s', same_process s s' -> (IsNotExist r = true -> files (fs s) !! p = None) ->
     ((forall w, (os_fault (OpStat p) w).1 = None) -> p ∉ dirs (fs s) -> IsNotExist r = false ->
        files (fs s) !! p <> None) -> Q r s') ->
  wp (os_Stat p) Q E s.
Proof.
  intros HQ. rw /os_Stat. apply wp_bind, wp_ask. intros f w' Hf. destruct f as [e|].
  - apply wp_ret, HQ; [done|done|]. intros Hw. specialize (Hw (ext s)). by rw Hf in Hw.
  - wp_go. apply HQ; [done|..]; simpl; case_decide as Hd; try done.
    + intros _. apply eq_None_not_Some. tauto.
    + intros _ Hp _ Hn. rw Hn in Hd. by destruct Hd as [[? ?]|].
Qed.

Lemma ensureMountain_run s :
  exists b s', ensureMountainConsoleKeysExist s = Ret b s' /\ keys_outcome s b s'.
Proof.
  apply wp_run_ret. rw /ensureMountainConsoleKeysExist. apply wp_bind, wp_gvar.
  destruct (debugOnly (gl s)) eqn:Hdbg.
  { apply wp_ret, keys_present; [done|]. intros _ _ [? _]. congruence. }
  apply wp_bind, wp_os_Stat_exists. intros r1 s1 S1 N1 X1.
  apply wp_bind, wp_os_Stat_exists. intros r2 s2 S2 N2 X2.
  destruct S1 as (G1 & F1 & T1). rw F1 in N2, X2. destruct S2 as (G2 & F2 & T2).
  assert (same_process s s2) as S12 by (rw /same_process; split_and!; congruence).
  destruct (IsNotExist r1 || IsNotExist r2) eqn:Hn.
  - assert (keys_missing s) as Hm.
    { split; [done|]. apply orb_true_iff in Hn as [?|?]; [left|right]; eauto. }
    apply wp_bind. eapply wp_mono; [apply wp_vaultGetMountain| |done].
    intros [e|] s3 [G3 Hv]; [|by apply wp_ret, (keys_vault s s2)].
    rw /generateMountainConsoleCredentials. apply wp_bind, wp_bind. apply (wp_self _ (fun _ s' => gl s' = gl s3)).
    { apply wp_exec_Command. by intros. }
    intros [err out] s4 Hr4 G4.
    assert (keys_outcome s (bool_decide (err = None)) s4) as Ho
      by (eapply (keys_generated s s2 s3); [done|done|done|exact Hr4|congruence]).
    by destruct err; do 2 apply wp_ret.
  - apply orb_false_iff in Hn as [E1 E2]. apply wp_ret, keys_present; [done|].
    intros Hw Hdis [_ [Hk|Hk]]; [apply X1|apply X2]; try done; set_solver.
Qed.

Lemma key_from_vault_gl s s' : key_from_vault s s' -> gl s' = gl s.
Proof.
  intros (key & s3 & s4 & out & (tok & s2 & (jwt & data & (_ & _ & [G2 _] & _) & _) & H3) & _ & H4 & _ & H5).
  pose proof (wp_of_run _ _ _ _ _ _ (wp_vaultGetPrivateKey tok s2) H3) as [[G3 _] _].
  assert (gl s4 = gl s3) as G4.
  { refine (wp_of_run _ (fun _ s' => gl s' = gl s3) no_panic _ _ _ _ H4). by apply wp_WriteFile. }
  assert (gl s' = gl s4) as G5.
  { refine (wp_of_run _ (fun _ s' => gl s' = gl s4) no_panic _ _ _ _ H5). apply wp_exec_Command. by intros. }
  congruence.
Qed.

Lemma keys_outcome_gl s b s' : keys_outcome s b s' -> gl s' = gl s.
Proof. intros [? (? & ? & ?) _|s1 ? _ (G1 & _) Hk%key_from_vault_gl|]; [done|congruence|done]. Qed.

(** C17: the key pair is never replaced, and every failure of Vault falls back
    to a generated one. [ensureMountainConsoleKeysExist] always returns and
    changes no variable. It does nothing and returns true in debug mode or when
    it finds both files. Otherwise it logs in to Vault with the token of the
    service account. Either it returns true with exactly the key that
    [vaultGetPrivateKey] returned for the token of that login in the key file,
    and the public key derived from it; or Vault failed (no token, the login
    refused, no key to be had, the key file not written, ssh-keygen failing),
    and only then it runs the key generator, and returns true exactly when that
    succeeded. *)
Theorem ensureMountainConsoleKeysExist_cases s :
  exists b s', ensureMountainConsoleKeysExist s = Ret b s' /\ keys_outcome s b s'.
Proof. apply ensureMountain_run. Qed.

(** ** With a healthy Vault *)

(** Vault lets the operator in with the token [tok], the system calls succeed,
    ssh-keygen writes the public key that belongs to the private one, and none
    of this but a request to Vault changes the key Vault holds. *)
Class VaultHost (key_of : W -> option string) (tok : string) (derive : string -> string) := {
  vh_store :: VaultStore key_of tok;
  vh_url : newRequest_err "POST" url_login = None;
  vh_login jwt w : exists data w', client_Do (login_request jwt) w = (DoResp 200 (inr data), w')
    /\ gjson_Get data "auth.client_token" = tok /\ key_of w' = key_of w;
  vh_os op w : (os_fault op w).1 = None /\ key_of (os_fault op w).2 = key_of w;
  vh_write w : (os_short_write w).1 = None /\ key_of (os_short_write w).2 = key_of w;
  vh_keygen fsys w key : files fsys !! mountainConsoleKey = Some key ->
    exists out w', exec_run ssh_keygen_cmd fsys w
        = ((None, out, mkFS (<[mountainConsoleKeyPub := derive key]> (files fsys)) (dirs fsys)), w')
      /\ key_of w' = key_of w }.

Section host.
Context (key_of : W -> option string) (tok : string) (derive : string -> string) `{!VaultHost key_of tok derive}.

Lemma wp_fault_ok {A} op (k : option error -> Prog A) (Q : A -> St -> Prop) E s :
  (forall w, key_of w = key_of (ext s) -> wp (k None) Q E (set_ext w s)) ->
  wp (bind (ask (os_fault op)) k) Q E s.
Proof using All.
  intros HQ. apply wp_bind, wp_ask. intros f w Hf. destruct (vh_os op (ext s)) as [H1 H2].
  rw Hf in H1, H2. cbn in H1, H2. subst f. by apply HQ.
Qed.

Lemma wp_WriteFile_ok p data d (Q : option error -> St -> Prop) E s :
  dir_of p = Some d -> d ∈ dirs (fs s) ->
  (forall s', gl s' = gl s -> fs s' = mkFS (<[p := data]> (files (fs s))) (dirs (fs s)) ->
     key_of (ext s') = key_of (ext s) -> Q None s') ->
  wp (WriteFile p data) Q E s.
Proof using All.
  intros Hd Hin HQ. rw /WriteFile /os_OpenTrunc Hd. apply wp_bind, wp_fault_ok. intros w1 K1.
  apply wp_bind, wp_gets. cbn [from_option fs set_ext]. rw bool_decide_true //. apply wp_bind, wp_modify, wp_ret.
  rw /file_WriteString. apply wp_bind, wp_ask. intros k w2 Hk. destruct (vh_write w1) as [H1 H2].
  cbn in Hk. rw Hk in H1, H2. cbn in H1, H2. subst k. wp_go. apply HQ; [done| |cbn; congruence].
  cbn. by rw lookup_insert_eq insert_insert_eq.
Qed.

(** C13: with a healthy Vault the console key is Vault's. When a key file is
    missing and Vault answers, [ensureMountainConsoleKeysExist] returns true
    with the private key file holding exactly the key that Vault holds then,
    which is the one it held before if it held one, and the public key file
    holding the key derived from it; no other file and no variable changes. *)
Theorem vault_key_installed s jwt :
  keys_missing s -> dirs (fs s) ## {[mountainConsoleKey; mountainConsoleKeyPub]} ->
  "/var/log/console" ∈ dirs (fs s) -> files (fs s) !! svcAcctTokenFile = Some jwt ->
  exists k s', ensureMountainConsoleKeysExist s = Ret true s'
    /\ key_of (ext s') = Some k /\ k <> "" /\ (forall k0, key_of (ext s) = Some k0 -> k = k0)
    /\ files (fs s') = <[mountainConsoleKeyPub := derive k]> (<[mountainConsoleKey := k]> (files (fs s)))
    /\ gl s' = gl s.
Proof using All.
  intros [Hdbg Hmiss] Hdis Hdir Hjwt.
  enough (wp ensureMountainConsoleKeysExist (fun b s' => b = true /\ exists k, key_of (ext s') = Some k /\ k <> ""
    /\ (forall k0, key_of (ext s) = Some k0 -> k = k0)
    /\ files (fs s') = <[mountainConsoleKeyPub := derive k]> (<[mountainConsoleKey := k]> (files (fs s)))
    /\ gl s' = gl s) no_panic s) as Hw.
  { destruct (wp_run_ret _ _ _ Hw) as (b & s' & Hr & -> & k & Hk). by exists k, s'. }
  rw /ensureMountainConsoleKeysExist /os_Stat. apply wp_bind, wp_gvar. rw Hdbg.
  apply wp_bind, wp_fault_ok. intros w1 K1. apply wp_bind, wp_gets, wp_ret.
  apply wp_bind, wp_fault_ok. intros w2 K2. apply wp_bind, wp_gets, wp_ret. cbn [fs set_ext ext] in *.
  match goal with |- wp (if ?b then _ else _) _ _ _ => assert (b = true) as -> end.
  { apply orb_true_iff. destruct Hmiss as [Hm|Hm]; [left|right]; case_decide as Hd; [|done| |done].
    all: destruct Hd as [[x Hx]|Hd]; [congruence|set_solver]. }
  apply wp_bind. rw /vaultGetMountainConsoleCredentials /ReadFile.
  apply wp_bind, wp_fault_ok. intros w3 K3. apply wp_bind, wp_gets, wp_ret. cbn [fs set_ext ext] in *. rw Hjwt.
  set (s3 := set_ext w3 _). apply wp_bind. cbn zeta. rw /postURL.
  pose proof (doURL_spec "POST" url_login (Some (print_json (JObj [("jwt", JStr jwt); ("role", JStr "ssh-user-certs-compute")])))
    [content_type] s3 vh_url) as Hd. cbn zeta in Hd. fold (login_request jwt) in Hd.
  destruct (vh_login jwt (ext s3)) as (data & w4 & Hl & Htok & K4). rw Hl in Hd. rw {1}/wp Hd.
  cbn [doURL_result negb Z.eqb bytes_string default from_option id]. cbn beta iota. rw /bytes_string /= Htok.
  set (s4 := mkSt _ _ w4 _). destruct (vaultGet_run key_of tok s4) as (k & s5 & Hr & K5 & Hne & G5 & F5 & Hsame).
  apply wp_bind. rw {1}/wp Hr. apply wp_bind, (wp_WriteFile_ok _ _ "/var/log/console"); [done|by rw F5|].
  intros s6 G6 F6 K6. rw /exec_Command. apply wp_bind, wp_bind, wp_modify, wp_bind, wp_gets, wp_bind, wp_ask.
  intros [[err out] fsys] w7 Hx. cbn [ext fs emit_ev] in Hx.
  destruct (vh_keygen (fs s6) (ext s6) k) as (out' & w7' & Hx' & K7); [by rw F6 lookup_insert_eq|].
  rw Hx' in Hx. injection Hx as <- <- <- <-. wp_go. split; [done|]. exists k. cbn [ext set_fs set_ext files fs gl].
  split_and!; [congruence|done| |by rw F6 F5|by rw /= G6 G5].
  intros k0 Hk0. assert (key_of (ext s4) = Some k0) as Hs by (cbn; cbn in K1, K2, K3, K4; congruence).
  rw Hs in Hsame. specialize (Hsame ltac:(eauto)). congruence.
Qed.
End host.
End keys.

(** ** Witnesses *)

(** A world with SCSD, which knows one BMC and loads the key when it is asked
    to, and Vault holding at most one key. *)
Definition ex_bmcs : gmap string string := {["x1000c0s0b0.local" := "x1000c0s0b0"]}.
Definition ex_pubKey : string := "ssh-rsa AAAA".
Definition ex_scsd_reply : json :=
  JObj [("Targets", JArr [JObj [("Xname", JStr "x1000c0s0b0"); ("StatusCode", JNum "204"); ("StatusMsg", JStr "OK")]])].
Definition creds_http (r : http_request) (w : option string) : do_result * option string :=
  if String.eqb (req_URL r) url_export then
    match w with Some k => (DoResp 200 (inr k), w) | None => (DoResp 404 (inr ""), w) end
  else if String.eqb (req_URL r) url_generate then (DoResp 204 (inr ""), Some (default "key" w))
  else if String.eqb (default "" (req_Body r)) (print_json (scsdParam ["x1000c0s0b0.local"] ex_pubKey))
  then (DoResp 200 (inr (print_json ex_scsd_reply)), w)
  else (DoResp 200 (inr "{}"), w).
Definition creds_world : World := scripted_world (option string) creds_http (fun body _ => "key").

Definition creds_node : nodeConsoleInfo :=
  mkNode "x1000c0s0b0n0" "x1000c0s0b0" "x1000c0s0b0.local" "Mountain" 1 "Compute".
Definition creds_FS : FS := mkFS (<[mountainConsoleKeyPub := ex_pubKey]> ∅) ∅.
Definition creds_state : @St creds_world := @mkSt creds_world init_globals creds_FS None [].

Lemma ex_scsd_configures : @scsd_configures creds_world ex_bmcs ex_pubKey.
Proof.
  intros fqdns w Hnd Hin b.
  assert (forall f, f ∈ fqdns -> f = "x1000c0s0b0.local") as Hf.
  { intros f Hf. destruct (Hin f Hf) as [n Hn]. rw /ex_bmcs lookup_singleton in Hn. by case_decide. }
  destruct fqdns as [|f [|f' l]].
  - assert (scsd_acks (@client_Do creds_world (scsd_request [] ex_pubKey) w).1 = ∅) as -> by by vm_compute.
    split; [set_solver|]. by intros (f & ?%not_elem_of_nil & _).
  - assert (f = "x1000c0s0b0.local") as -> by (apply Hf; set_solver).
    assert (scsd_acks (@client_Do creds_world (scsd_request ["x1000c0s0b0.local"] ex_pubKey) w).1 = {["x1000c0s0b0"]}) as -> by by vm_compute.
    rw elem_of_singleton. split.
    + intros ->. exists "x1000c0s0b0.local". split; [set_solver|done].
    + intros (f & ->%list_elem_of_singleton & Hb). by injection Hb as <-.
  - apply NoDup_cons in Hnd as [Hx _]. destruct Hx.
    rw (Hf f); [set_solver|]. rw (Hf f'); [set_solver|]. by left.
Qed.

Lemma worker_loses_no_node_witness :
  winv [LSend creds_node; LRecv creds_node]
    (@mkWorker creds_world [] {[nc_NodeName creds_node := creds_node]} creds_state).
Proof.
  apply (worker_loses_no_node creds_state).
  eapply (wsteps_snoc _ [LSend creds_node]); [eapply (wsteps_snoc _ []); [constructor|]|].
  - apply ws_send. cbn. rw /channel_cap. lia.
  - apply (ws_recv creds_node [] ∅ creds_state).
Defined.

Lemma worker_drains_witness :
  exists m1 s', wsteps (@mkWorker creds_world [creds_node] ∅ creds_state)
    [LRecv creds_node; LBatch m1 creds_state] (mkWorker [] ∅ s').
Proof.
  apply (@worker_drains creds_world ex_bmcs [creds_node] ∅ creds_state ex_pubKey).
  - repeat split.
  - apply ex_scsd_configures.
  - by intros n ->%list_elem_of_singleton.
  - intros k n Hk. by rw lookup_empty in Hk.
Defined.

Definition vault_key (w : option string) : option string := match w with Some _ => Some "key" | None => None end.

#[export] Instance creds_vault : @VaultStore creds_world vault_key "token".
Proof.
  split.
  - done.
  - intros [k|]; cbn; (split; [done|]); eexists; done.
  - intros [k|]; cbn; (split; [by eauto|]); (split; [by intros []|]); eexists; done.
Qed.

Lemma vaultGetPrivateKey_stable_witness :
  exists k s', vaultGetPrivateKey "token" creds_state = Ret (k, None) s' /\ k <> ""
    /\ vault_key (ext s') = Some k
    /\ (forall k0, vault_key (ext creds_state) = Some k0 -> k = k0)
    /\ exists s'', vaultGetPrivateKey "token" s' = Ret (k, None) s''.
Proof. exact (@vaultGetPrivateKey_stable creds_world vault_key "token" creds_vault creds_state). Defined.

(** A Vault that lets everyone in; ssh-keygen derives a public key. *)
Definition vault_exec (argv : list string) (fsys : FS) : option error * string * FS :=
  (None, "", mkFS (<[mountainConsoleKeyPub := "ssh-rsa " +:+ default "" (files fsys !! mountainConsoleKey)]> (files fsys)) (dirs fsys)).
Definition vault_world : World :=
  scripted_exec_world (option string) creds_http (fun body p => if String.eqb p "auth.client_token" then "token" else "key") vault_exec.

#[export] Instance vault_world_host : @VaultHost vault_world vault_key "token" (String.append "ssh-rsa ").
Proof.
  split; try done.
  - split; [done|..].
    + intros [k|]; cbn; (split; [done|]); eexists; done.
    + intros [k|]; cbn; (split; [by eauto|]); (split; [by intros []|]); eexists; done.
  - intros jwt w. change (client_Do (login_request jwt) w) with (creds_http (login_request jwt) w). rw /creds_http.
    change (String.eqb (req_URL (login_request jwt)) url_export) with false.
    change (String.eqb (req_URL (login_request jwt)) url_generate) with false.
    destruct (String.eqb _ _); eexists _, _; (split; [reflexivity|done]).
  - intros fsys w key Hk. eexists _, _. cbn. rw /vault_exec Hk. by split.
Qed.

Definition vault_state : @St vault_world :=
  @mkSt vault_world init_globals (mkFS {[svcAcctTokenFile := "jwt"]} {["/var/log/console"]}) None [].

Lemma vault_key_installed_witness :
  exists k s', ensureMountainConsoleKeysExist vault_state = Ret true s'
    /\ vault_key (ext s') = Some k /\ k <> "" /\ (forall k0, vault_key (ext vault_state) = Some k0 -> k = k0)
    /\ files (fs s') = <[mountainConsoleKeyPub := "ssh-rsa " +:+ k]> (<[mountainConsoleKey := k]> (files (fs vault_state)))
    /\ gl s' = gl vault_state.
Proof.
  apply (@vault_key_installed vault_world vault_key "token" (String.append "ssh-rsa ") _ vault_state "jwt");
    [by split; [|left]|cbn; set_solver|cbn; set_solver|reflexivity].
Defined.
