(* ===== verification/Inventory.v ===== *)
(** * The inventory of console-data

    The abstract state that the operator keeps in step with HSM: the map from
    node names to records held by the console-data service.  [ConsoleData] is
    the documented behaviour of that service; [InventoryClient] is what the
    main loop relies on in its [DataService], proved here of [DataManager];
    [NodeSource] is what it relies on in its [NodeService], proved of
    [NodeManager]. *)
From S2P Require Import Prelude GoStrings Json JsonFacts JsonCodec JsonTotal State SimWorld HttpUtils K8s Nodes NodesFacts Data.
From Stdlib Require Import Ascii.
#[local] Open Scope string_scope.
#[local] Open Scope Z_scope.

Definition inventory : Type := gmap string nodeConsoleInfo.

(** Adding replaces the record of a name; the last record of a name wins. *)
Definition add_nodes (l : list nodeConsoleInfo) (m : inventory) : inventory :=
  foldl (fun m n => <[nc_NodeName n := n]> m) m l.
Definition remove_nodes (l : list nodeConsoleInfo) (m : inventory) : inventory :=
  foldl (fun m n => delete (nc_NodeName n) m) m l.

Lemma add_nodes_lookup l m k :
  add_nodes l m !! k = match map_by nc_NodeName l !! k with Some n => Some n | None => m !! k end.
Proof.
  rw /add_nodes. induction l as [|n l IH] using rev_ind; [done|].
  rw foldl_app map_by_snoc /= !lookup_insert. by case_decide.
Qed.

Lemma remove_nodes_lookup l m k :
  remove_nodes l m !! k = if decide (k ∈ nc_NodeName <$> l) then None else m !! k.
Proof.
  revert m. induction l as [|n l IH]; intros m; simpl; [done|].
  rw IH lookup_delete. repeat case_decide; set_solver.
Qed.

Definition put_req (body : string) : http_request := mkReq "PUT" inventory_url [content_type] (Some body).
Definition delete_req (body : string) : http_request := mkReq "DELETE" inventory_url [content_type] (Some body).

(** The service took the request: it answered with a status below 400. *)
Definition accepted (r : do_result) : bool :=
  match r with DoResp code _ => code <? 400 | DoErr _ => false end.

(** console-data: an accepted PUT of a list of nodes adds them, an accepted
    DELETE removes them; a request that is not accepted may have been carried
    out or not; a GET changes nothing. *)
Class ConsoleData {WD : World} (inv_of : W -> inventory) := {
  cd_urls : newRequest_err "PUT" inventory_url = None /\ newRequest_err "DELETE" inventory_url = None;
  cd_put body l w : Unmarshal dec_nodes body [] = (l, false) ->
    let '(r, w') := client_Do (put_req body) w in
    (accepted r = true -> inv_of w' = add_nodes l (inv_of w))
    /\ (inv_of w' = inv_of w \/ inv_of w' = add_nodes l (inv_of w));
  cd_delete body l w : Unmarshal dec_nodes body [] = (l, false) ->
    let '(r, w') := client_Do (delete_req body) w in
    (accepted r = true -> inv_of w' = remove_nodes l (inv_of w))
    /\ (inv_of w' = inv_of w \/ inv_of w' = remove_nodes l (inv_of w));
  cd_get req w : req_Method req = "GET" -> inv_of (client_Do req w).2 = inv_of w;
  cd_order {V} (m : gmap string V) w : inv_of (map_order m w).2 = inv_of w }.

(** Requests that are not accepted are not carried out. *)
Definition atomic_put {WD : World} (inv_of : W -> inventory) : Prop :=
  forall body w, let '(r, w') := client_Do (put_req body) w in
    (accepted r = false -> inv_of w' = inv_of w) /\ (accepted r = true -> exists data code, r = DoResp code (inr data)).
Definition reliable_delete {WD : World} : Prop :=
  forall body w, accepted (client_Do (delete_req body) w).1 = true.

(** ** What HSM sends is well-formed *)

Definition wf_rf (r : redfishEndpoint) : bool :=
  utf8_valid (rf_ID r) && utf8_valid (rf_Type r) && utf8_valid (rf_FQDN r)
  && utf8_valid (rf_User r) && utf8_valid (rf_Password r).
Definition wf_sc (c : stateComponent) : bool :=
  utf8_valid (sc_ID c) && utf8_valid (sc_Type c) && utf8_valid (sc_Class c)
  && in_int64 (sc_NID c) && utf8_valid (sc_Role c).

(** Every field of a struct of strings and ints keeps the struct well-formed. *)
Ltac fields_preserve :=
  apply dec_struct_preserves; intros f; rw !elem_of_cons elem_of_nil; intros Hf; destruct_or? Hf; try done; subst f;
  (eapply mk_field_preserves; [first [apply dec_string_preserves|apply dec_int_preserves]|..]; cbn;
   [intros a; cbn; rw !andb_true_iff; tauto|intros v a; cbn; rw !andb_true_iff; tauto]).

Lemma dec_rf_preserves : preserves (fun r => wf_rf r = true) dec_rf.
Proof. rw /wf_rf. fields_preserve. Qed.

Lemma dec_sc_preserves : preserves (fun c => wf_sc c = true) dec_sc.
Proof. rw /wf_sc. fields_preserve. Qed.

(** A response that wraps one list. *)
Lemma dec_list_preserves {A} (P : A -> Prop) name zero (d : decoder A) :
  P zero -> preserves P d ->
  preserves (Forall P) (dec_struct [mk_field name id (fun v _ => v) (dec_slice zero d)]).
Proof.
  intros Hz Hd. apply dec_struct_preserves. intros f ->%list_elem_of_singleton.
  apply (mk_field_preserves (Forall P) (Forall P)); [by apply dec_slice_preserves|done..].
Qed.

Lemma unmarshal_preserves {A} {WD : World} (P : A -> Prop) (d : decoder A) data old v e :
  preserves P d -> P old -> unmarshal d data old = (v, e) -> P v.
Proof.
  intros Hd Ho. rw /unmarshal. pose proof (Unmarshal_preserves P d (default "" data) old Hd Ho) as H.
  destruct (Unmarshal d _ old) as [v' b]. by intros [= <- <-].
Qed.

Lemma node_of_wf rfs par sc n :
  Forall (fun r => wf_rf r = true) rfs -> wf_sc sc = true ->
  node_of (map_by rf_ID rfs) par sc n -> wf_node n = true.
Proof.
  intros Hrf Hsc (_ & bmc & suffix & rf & Hid & _ & Hl & ->).
  apply map_by_lookup_Some in Hl as [Hin _]. rw Forall_forall in Hrf. specialize (Hrf rf Hin).
  rw /wf_rf /wf_sc /wf_node !andb_true_iff in Hrf, Hsc *. destruct_and! Hrf. destruct_and! Hsc. cbn.
  assert (utf8_valid bmc = true) by (apply (utf8_prefix bmc "n"%char suffix); [by vm_compute|by rw -Hid]).
  split_and!; try done. by case_bool_decide.
Qed.

Lemma buildNodes_wf rfs par comps nodes :
  Forall (fun r => wf_rf r = true) rfs -> Forall (fun c => wf_sc c = true) comps ->
  buildNodes (map_by rf_ID rfs) par [] comps = Some nodes -> forallb wf_node nodes = true.
Proof.
  intros Hrf Hsc Hb. pose proof (buildNodes_app (map_by rf_ID rfs) par comps []) as H.
  destruct (forallb sc_ok comps); [|congruence]. destruct H as (l & Hl & Hin & _).
  rw Hb in Hl. injection Hl as ->. apply List.forallb_forall. intros n Hn%list_elem_of_In.
  apply Hin in Hn as (sc & Hs & Hn). rw Forall_forall in Hsc. exact (node_of_wf _ _ _ _ Hrf (Hsc sc Hs) Hn).
Qed.

Section reading.
Context {WD : World} {X : Type} (obs : W -> X).
Hypothesis Hget : forall req w, req_Method req = "GET" -> obs (client_Do req w).2 = obs w.

Lemma wp_getURL_obs url hdrs (Q : option string * Z * option error -> St -> Prop) E s :
  (forall r s', gl s' = gl s -> fs s' = fs s -> obs (ext s') = obs (ext s) -> Q r s') ->
  wp (getURL url hdrs) Q E s.
Proof.
  intros HQ. rw /getURL. destruct (newRequest_err "GET" url) as [e|] eqn:Hu.
  - rw /doURL Hu. by apply wp_ret, HQ.
  - pose proof (doURL_spec "GET" url None hdrs s Hu) as Hd. cbn zeta in Hd.
    pose proof (Hget (mkReq "GET" url hdrs None) (ext s) eq_refl) as Hg.
    destruct (client_Do _ _) as [r w']. rw /wp Hd. by apply HQ.
Qed.

(** The three reads, and what they give when they succeed. *)
Lemma getRedfishEndpoints_law s :
  wp getRedfishEndpoints (fun r s' => (r.2 = None -> Forall (fun r => wf_rf r = true) r.1)
      /\ gl s' = gl s /\ fs s' = fs s /\ obs (ext s') = obs (ext s)) no_panic s.
Proof.
  rw /getRedfishEndpoints. apply wp_bind, wp_getURL_obs. intros [[d c] [e|]] s1 G1 F1 I1; [by wp_go|].
  destruct (unmarshal dec_rf_response d []) as [rfs [e|]] eqn:U; wp_go; (split; [|done]); [done|intros _].
  by eapply unmarshal_preserves in U; [|by apply dec_list_preserves, dec_rf_preserves|by constructor].
Qed.

Lemma getStateComponents_law s :
  wp getStateComponents (fun r s' => (r.2 = None -> Forall (fun c => wf_sc c = true) r.1)
      /\ gl s' = gl s /\ fs s' = fs s /\ obs (ext s') = obs (ext s)) no_panic s.
Proof.
  rw /getStateComponents. apply wp_bind, wp_getURL_obs. intros [[d c] [e|]] s1 G1 F1 I1; [by wp_go|].
  destruct (unmarshal dec_sc_response d []) as [comps [e|]] eqn:U; wp_go; (split; [|done]); intros Hn; try done.
  all: by eapply unmarshal_preserves in U; [|by apply dec_list_preserves, dec_sc_preserves|by constructor].
Qed.

Lemma getParadiseNodes_law s :
  wp getParadiseNodes (fun _ s' => gl s' = gl s /\ fs s' = fs s /\ obs (ext s') = obs (ext s)) no_panic s.
Proof.
  rw /getParadiseNodes. apply wp_bind, wp_getURL_obs. intros [[d c] [e|]] s1 G1 F1 I1; [by wp_go|].
  destruct (unmarshal _ d []) as [hw [e|]]; by wp_go.
Qed.

Lemma getCurrentNodesFromHSM_law s :
  wp getCurrentNodesFromHSM
    (fun nodes s' => forallb wf_node nodes = true
       /\ gl s' = gl s /\ fs s' = fs s /\ obs (ext s') = obs (ext s))
    (fun _ s' => gl s' = gl s /\ fs s' = fs s /\ obs (ext s') = obs (ext s)) s.
Proof.
  rw /getCurrentNodesFromHSM. apply wp_bind. eapply wp_mono; [apply getRedfishEndpoints_law| |done].
  intros [rfs [e|]] s1 (W1 & G1 & F1 & I1); [by apply wp_ret|]. specialize (W1 eq_refl).
  apply wp_bind. eapply wp_mono; [apply getStateComponents_law| |done]. rw -G1 -F1 -I1.
  intros [comps [e|]] s2 (W2 & G2 & F2 & I2); [by apply wp_ret|]. specialize (W2 eq_refl).
  apply wp_bind. eapply wp_mono; [apply getParadiseNodes_law| |done]. rw -G2 -F2 -I2.
  intros [par e] s3 (G3 & F3 & I3). destruct (buildNodes _ _ _ _) as [nodes|] eqn:Hb; [|done].
  apply wp_ret. split; [|done]. exact (buildNodes_wf _ _ _ _ W1 W2 Hb).
Qed.
End reading.

(** C21: no text is lost on the way from HSM to console-data. Whatever bytes HSM
    answers, the list of nodes read from it is one that the JSON of the PUT
    carries faithfully: its encoding decodes, without error, to the same list
    (every name is UTF-8, the BMC name cut out of it included, and every NID an
    int). *)
Theorem hsm_nodes_survive {WD : World} s :
  wp getCurrentNodesFromHSM
    (fun nodes _ => Unmarshal dec_nodes (print_json (nodes_json nodes)) [] = (nodes, false))
    (fun _ s' => gl s' = gl s /\ fs s' = fs s) s.
Proof.
  eapply wp_mono; [exact (getCurrentNodesFromHSM_law (fun _ => tt) (fun _ _ _ => eq_refl) s)|..].
  - intros nodes s' [Hwf _]. by apply dec_nodes_print.
  - intros e s' (? & ? & _). done.
Qed.

(** ** What the main loop relies on *)

Section interfaces.
Context {WD : World} (inv_of : W -> inventory).

(** Of the data service. *)
Class InventoryClient (ds : DataService) := {
  ic_add l s : forallb wf_node l = true ->
    wp (ds_dataAddNodes ds l)
      (fun ok s' => gl s' = gl s /\ fs s' = fs s
         /\ (ok = true -> inv_of (ext s') = add_nodes l (inv_of (ext s)))
         /\ (inv_of (ext s') = inv_of (ext s) \/ inv_of (ext s') = add_nodes l (inv_of (ext s)))
         /\ (atomic_put inv_of -> ok = false -> inv_of (ext s') = inv_of (ext s))) no_panic s;
  ic_remove l s : forallb wf_node l = true ->
    wp (ds_dataRemoveNodes ds l)
      (fun _ s' => gl s' = gl s /\ fs s' = fs s
         /\ (inv_of (ext s') = inv_of (ext s) \/ inv_of (ext s') = remove_nodes l (inv_of (ext s)))
         /\ (reliable_delete -> inv_of (ext s') = remove_nodes l (inv_of (ext s)))) no_panic s }.

(** Of the node service: reading HSM leaves the process and the inventory
    alone, and the nodes it finds are ones that JSON carries faithfully. *)
Class NodeSource (ns : NodeService) := {
  src_read s :
    wp (ns_getCurrentNodesFromHSM ns)
      (fun nodes s' => forallb wf_node nodes = true /\ gl s' = gl s /\ fs s' = fs s /\ inv_of (ext s') = inv_of (ext s))
      (fun _ s' => gl s' = gl s /\ fs s' = fs s /\ inv_of (ext s') = inv_of (ext s)) s }.

Context `{!ConsoleData inv_of}.

Lemma dataAddNodes_law l s : forallb wf_node l = true ->
  wp (dataAddNodes l)
    (fun ok s' => gl s' = gl s /\ fs s' = fs s
       /\ (ok = true -> inv_of (ext s') = add_nodes l (inv_of (ext s)))
       /\ (inv_of (ext s') = inv_of (ext s) \/ inv_of (ext s') = add_nodes l (inv_of (ext s)))
       /\ (atomic_put inv_of -> ok = false -> inv_of (ext s') = inv_of (ext s))) no_panic s.
Proof.
  intros Hwf. destruct cd_urls as [Hu _]. set (body := print_json (nodes_json l)).
  pose proof (doURL_spec "PUT" inventory_url (Some body) [content_type] s Hu) as Hd. cbn zeta in Hd.
  change (mkReq _ _ _ _) with (put_req body) in Hd.
  pose proof (cd_put body l (ext s) (dec_nodes_print l Hwf)) as Hp.
  assert (atomic_put inv_of -> let '(r, w') := client_Do (put_req body) (ext s) in
    (accepted r = false -> inv_of w' = inv_of (ext s)) /\ (accepted r = true -> exists data code, r = DoResp code (inr data))) as Ha
    by (intros Ha; apply Ha).
  destruct (client_Do (put_req body) (ext s)) as [r w']. destruct Hp as [Hacc Hor].
  rw /dataAddNodes /putURL. apply wp_bind. rw {1}/wp Hd.
  destruct r as [e|code [e|data]]; cbn [doURL_result]; apply wp_ret; cbn in *; split_and!; try done.
  - intros Hat _. by apply Ha.
  - intros Hat _. destruct (Ha Hat) as [H1 H2]. destruct (code <? 400); [|by apply H1].
    by destruct (H2 eq_refl) as (? & ? & ?).
  - intros Hat Hf. by apply (Ha Hat).
Qed.

Lemma dataRemoveNodes_law l s : forallb wf_node l = true ->
  wp (dataRemoveNodes l)
    (fun _ s' => gl s' = gl s /\ fs s' = fs s
       /\ (inv_of (ext s') = inv_of (ext s) \/ inv_of (ext s') = remove_nodes l (inv_of (ext s)))
       /\ (reliable_delete -> inv_of (ext s') = remove_nodes l (inv_of (ext s)))) no_panic s.
Proof.
  intros Hwf. destruct cd_urls as [_ Hu]. set (body := print_json (nodes_json l)).
  pose proof (doURL_spec "DELETE" inventory_url (Some body) [content_type] s Hu) as Hd. cbn zeta in Hd.
  change (mkReq _ _ _ _) with (delete_req body) in Hd.
  pose proof (cd_delete body l (ext s) (dec_nodes_print l Hwf)) as Hp.
  assert (reliable_delete -> accepted (client_Do (delete_req body) (ext s)).1 = true) as Ha by (intros Ha; apply Ha).
  destruct (client_Do (delete_req body) (ext s)) as [r w']. destruct Hp as [Hacc Hor].
  rw /dataRemoveNodes /deleteURL. apply wp_bind. rw {1}/wp Hd.
  destruct (doURL_result r) as [[? ?] ?]. apply wp_ret. cbn in *. split_and!; try done. by intros ?%Ha%Hacc.
Qed.

#[export] Instance DataManager_inventory : InventoryClient DataManager_service.
Proof. split; [apply dataAddNodes_law|apply dataRemoveNodes_law]. Qed.

#[export] Instance NodeManager_source k : NodeSource (NewNodeManager k).
Proof. split. exact (getCurrentNodesFromHSM_law inv_of cd_get). Qed.
End interfaces.
