(* ===== verification/OpMain.v ===== *)
(** * consoleOpMain.go: the main loop and the configuration

    [updateCachedNodeData] brings console-data and the cache in step with HSM,
    [doHardwareUpdate] is one full update, [watchHardware_turn] one turn of the
    loop with its counter of forced updates.  They are given a [DataService]
    and a [NodeService], as in the code.  [readSingleEnvVarInt] and [main_init]
    are the start of the program. *)
From S2P Require Import Prelude GoStrings State SimWorld HttpUtils K8s Nodes Data Creds.
#[local] Open Scope string_scope.
#[local] Open Scope Z_scope.

Section main.
Context {WD : World}.

(** Nodes of [l] whose name is not in the map [m]. *)
Definition not_in {A} (m : gmap string A) (l : list nodeConsoleInfo) : list nodeConsoleInfo :=
  foldl (fun acc n => if bool_decide (m !! nc_NodeName n = None) then acc ++ [n] else acc)%list [] l.

Definition updateCachedNodeData (ds : DataService) (ns : NodeService) (updateAll : bool)
  : Prog (bool * list nodeConsoleInfo) :=
  let! currNodes := ns_getCurrentNodesFromHSM ns in
  let currNodesMap := map_by nc_NodeName currNodes in
  let! cache := gvar nodeCache in
  let newNodes := not_in cache currNodes in
  let! entries := range cache in
  let removedNodes := not_in currNodesMap entries.*2 in
  let nodesToUpdate := if updateAll then currNodes else newNodes in
  let! updateSuccessful :=
    if (0 <? length nodesToUpdate)%nat then
      let! ok := ds_dataAddNodes ds nodesToUpdate in
      ret (if negb ok then false else true)
    else ret true in
  (if (0 <? length removedNodes)%nat then ds_dataRemoveNodes ds removedNodes else ret tt) ;;;
  (if updateSuccessful then gset_var (set_nodeCache currNodesMap) else ret tt) ;;;
  ret (updateSuccessful, newNodes).

(** The counts of Mountain (and Paradise) and of River nodes. *)
Definition count_node (c : Z * Z) (v : nodeConsoleInfo) : Z * Z :=
  let '(numMtnNodes, numRvrNodes) := c in
  if isRiver v then (numMtnNodes, int64 (numRvrNodes + 1))
  else if isMountain v || isParadise v then (int64 (numMtnNodes + 1), numRvrNodes)
  else c.

(** The second component of the result is the sequence of nodes sent on
    [mountainCredsUpdateChannel], which is the last thing the function does. *)
Definition doHardwareUpdate (ds : DataService) (ns : NodeService) (updateAll : bool)
  : Prog (bool * list nodeConsoleInfo) :=
  let! now := ask time_now in
  gset_var (set_hardwareUpdateTime now) ;;;
  let! (updateSuccessful, newNodes) := updateCachedNodeData ds ns updateAll in
  let! cache := gvar nodeCache in
  let! entries := range cache in
  let '(numMtnNodes, numRvrNodes) := foldl count_node (0, 0) entries.*2 in
  ns_updateNodeCounts ns numMtnNodes numRvrNodes ;;;
  if 0 <? numMtnNodes then
    ensureMountainConsoleKeysExist ;;;
    ret (updateSuccessful, filter (fun n => isMountain n = true) newNodes)
  else ret (updateSuccessful, []).

(** The counter after an update. *)
Definition next_forceUpdateCnt (forceUpdateCnt : Z) (updateSuccessful : bool) : Z :=
  let c := forceUpdateCnt - 1 in
  let c := if c <? 0 then 10 else c in
  if negb updateSuccessful then 0 else c.

(** One turn of the loop of [watchHardware], which then sleeps: the new counter
    and the nodes sent to the worker. *)
Definition watchHardware_turn (ds : DataService) (ns : NodeService) (forceUpdateCnt : Z)
  : Prog (Z * list nodeConsoleInfo) :=
  let! stop := gvar inShutdown in
  if negb stop then
    let! (updateSuccessful, sent) := doHardwareUpdate ds ns (forceUpdateCnt =? 0) in
    ret (next_forceUpdateCnt forceUpdateCnt updateSuccessful, sent)
  else ret (forceUpdateCnt, []).

(** The first [n] turns; the counter starts at zero. *)
Fixpoint watchHardware (ds : DataService) (ns : NodeService) (n : nat) (forceUpdateCnt : Z)
  : Prog (Z * list nodeConsoleInfo) :=
  match n with
  | O => ret (forceUpdateCnt, [])
  | S n' =>
    let! (cnt, sent) := watchHardware_turn ds ns forceUpdateCnt in
    let! (cnt', sent') := watchHardware ds ns n' cnt in
    ret (cnt', (sent ++ sent')%list)
  end.

End main.

(** ** Configuration *)

(** The new value of the variable; [env] is [os.Getenv]. *)
Definition readSingleEnvVarInt (env : string -> string) (envVar : string) (outVar minVal maxVal : Z) : Z :=
  let v := env envVar in
  if negb (String.eqb v "") then
    match atoi v with
    | None => outVar
    | Some vi =>
      let vi := if vi <? minVal then minVal else vi in
      let vi := if maxVal <? vi then maxVal else vi in
      vi
    end
  else outVar.

(** The variables after the flags and the environment were read. *)
Definition main_config (debugFlag : bool) (env : string -> string) (g : Globals) : Globals :=
  let g := set_debugOnly debugFlag g in
  let g := if String.eqb (env "DEBUG") "TRUE" then set_debugOnly true g else g in
  let g := set_maxMtnNodesPerPod
    (readSingleEnvVarInt env "MAX_MTN_NODES_PER_POD" (maxMtnNodesPerPod g) 5 1500) g in
  let g := set_maxRvrNodesPerPod
    (readSingleEnvVarInt env "MAX_RVR_NODES_PER_POD" (maxRvrNodesPerPod g) 5 4000) g in
  let g := set_newHardwareCheckPeriodSec
    (readSingleEnvVarInt env "HARDWARE_UPDATE_SEC_FREQ" (newHardwareCheckPeriodSec g) 10 14400) g in
  let g := set_heartbeatCheckPeriodSec
    (readSingleEnvVarInt env "HEARTBEAT_CHECK_SEC_FREQ" (heartbeatCheckPeriodSec g) 10 300) g in
  let g := set_heartbeatStaleMinutes
    (readSingleEnvVarInt env "HEARTBEAT_STALE_DURATION_MINUTES" (heartbeatStaleMinutes g) 1 60) g in
  g.

(** The start of [main]: a Kubernetes client that cannot be made is fatal. *)
Definition main_init {WD : World} (debugFlag : bool) (env : string -> string)
    (inCluster newForConfig : option error) : Prog K8Manager :=
  gset_var (main_config debugFlag env) ;;;
  match NewK8Manager inCluster newForConfig with
  | (Some k8Manager, None) => ret k8Manager
  | _ => panic "ERROR: k8Manager failed to initialize"
  end.

(** What reading the signal does; the closing of the server and the exit are
    stages of [Interleave.v]. *)
Definition main_signal {WD : World} : Prog unit := gset_var (set_inShutdown true).
