(* ===== verification/OpMainFacts.v ===== *)
(** * Properties of consoleOpMain.go

    - one update of the cache: the difference with HSM, the requests sent, and
      what becomes of the cache, on success and on failure;
    - the inventory of console-data and the cache stay in step over the turns of
      the main loop, with the counter of forced updates in the invariant; and
      what falls outside it (an HSM outage, an orphan of the inventory);
    - the counts, the keys of new Mountain nodes, and the configuration. *)
From S2P Require Import Prelude GoStrings Json JsonFacts JsonCodec State SimWorld HttpUtils K8s Nodes NodesFacts Data Creds CredsFacts Inventory OpMain.
#[local] Open Scope string_scope.
#[local] Open Scope Z_scope.

(** ** The difference *)

Lemma not_in_eq {A} (m : gmap string A) l : not_in m l = filter (fun n => m !! nc_NodeName n = None) l.
Proof.
  rw /not_in. rw (foldl_append_filter (fun n => bool_decide (m !! nc_NodeName n = None)) id) app_nil_l list_fmap_id.
  apply list_filter_iff. intros n. by rw bool_decide_eq_true.
Qed.

Lemma elem_of_not_in {A} (m : gmap string A) l n :
  n ∈ not_in m l <-> m !! nc_NodeName n = None /\ n ∈ l.
Proof. by rw not_in_eq list_elem_of_filter. Qed.

Lemma length_pos {A} (l : list A) : (0 <? length l)%nat = negb (bool_decide (l = [])).
Proof. destruct l; [done|]. by rw bool_decide_eq_false_2. Qed.

Section update.
Context {WD : World}.

Definition add_request (l : list nodeConsoleInfo) : event := EvHTTP (put_req (print_json (nodes_json l))).
Definition remove_request (l : list nodeConsoleInfo) : event := EvHTTP (delete_req (print_json (nodes_json l))).

(** A request for a list of nodes, unless it is empty. *)
Definition unless_empty (f : list nodeConsoleInfo -> event) (l : list nodeConsoleInfo) : list event :=
  if bool_decide (l = []) then [] else [f l].

Lemma dataAddNodes_run l s :
  newRequest_err "PUT" inventory_url = None ->
  let '(r, w') := client_Do (put_req (print_json (nodes_json l))) (ext s) in
  dataAddNodes l s = Ret (match r with DoResp code (inr _) => code <? 400 | _ => false end)
                         (mkSt (gl s) (fs s) w' (trace s ++ [add_request l])%list).
Proof.
  intros Hu. pose proof (doURL_spec "PUT" inventory_url (Some (print_json (nodes_json l))) [content_type] s Hu) as Hd.
  cbn zeta in Hd. change (mkReq _ _ _ _) with (put_req (print_json (nodes_json l))) in Hd.
  destruct (client_Do _ _) as [r w']. rw /dataAddNodes /putURL /bind Hd. by destruct r as [|? []].
Qed.

Lemma dataRemoveNodes_run l s :
  newRequest_err "DELETE" inventory_url = None ->
  exists w', dataRemoveNodes l s = Ret tt (mkSt (gl s) (fs s) w' (trace s ++ [remove_request l])%list).
Proof.
  intros Hu. pose proof (doURL_spec "DELETE" inventory_url (Some (print_json (nodes_json l))) [content_type] s Hu) as Hd.
  cbn zeta in Hd. change (mkReq _ _ _ _) with (delete_req (print_json (nodes_json l))) in Hd.
  destruct (client_Do _ _) as [r w']. rw /dataRemoveNodes /deleteURL /bind Hd.
  destruct (doURL_result r) as [[? ?] ?]. eauto.
Qed.

(** The nodes of the cache that HSM no longer lists, in some order. *)
Definition stale (cache : gmap string nodeConsoleInfo) (curr l : list nodeConsoleInfo) : Prop :=
  l ≡ₚ filter (fun n => map_by nc_NodeName curr !! nc_NodeName n = None) (map_to_list cache).*2.

(** The answer that makes an update a success. *)
Definition answered_ok (l : list nodeConsoleInfo) (w : W) : bool :=
  match (client_Do (put_req (print_json (nodes_json l))) w).1 with
  | DoResp code (inr _) => code <? 400
  | _ => false
  end.

Lemma updateCachedNodeData_run ns (all : bool) s curr s1 :
  newRequest_err "PUT" inventory_url = None -> newRequest_err "DELETE" inventory_url = None ->
  ns_getCurrentNodesFromHSM ns s = Ret curr s1 ->
  let cache := nodeCache (gl s1) in
  let new := filter (fun n => cache !! nc_NodeName n = None) curr in
  let toUpdate := if all then curr else new in
  exists ok w removed s', stale cache curr removed
    /\ updateCachedNodeData DataManager_service ns all s = Ret (ok, new) s'
    /\ ok = bool_decide (toUpdate = []) || answered_ok toUpdate w
    /\ gl s' = (if ok then set_nodeCache (map_by nc_NodeName curr) (gl s1) else gl s1)
    /\ fs s' = fs s1
    /\ trace s' = (trace s1 ++ unless_empty add_request toUpdate
                    ++ unless_empty remove_request removed)%list.
Proof.
  intros Hp Hd Hcurr cache new toUpdate.
  rw /updateCachedNodeData {1}/bind Hcurr. cbn zeta. rw {1}/bind /gvar {1}/gets. fold cache.
  rw {1}/bind /range {1}/ask. destruct (map_order cache (ext s1)) as [entries w1] eqn:Ho.
  pose proof (map_order_perm cache (ext s1)) as Hperm. rw Ho /= in Hperm.
  set (removed := not_in (map_by nc_NodeName curr) entries.*2).
  assert (stale cache curr removed) as Hst by (rw /stale /removed not_in_eq; by rw Hperm).
  rw (not_in_eq cache) -/new -/toUpdate !length_pos.
  set (s2 := set_ext w1 s1). exists (bool_decide (toUpdate = []) || answered_ok toUpdate w1), w1, removed.
  assert (exists w2, (if negb (bool_decide (toUpdate = []))
     then let! ok := ds_dataAddNodes DataManager_service toUpdate in ret (if negb ok then false else true)
     else ret true) s2 = Ret (bool_decide (toUpdate = []) || answered_ok toUpdate w1)
       (mkSt (gl s1) (fs s1) w2 (trace s1 ++ unless_empty add_request toUpdate)%list)) as [w2 Hadd].
  { rw /unless_empty. destruct (bool_decide (toUpdate = [])); cbn [negb orb].
    - exists w1. by rw app_nil_r.
    - pose proof (dataAddNodes_run toUpdate s2 Hp) as Hr. rw /answered_ok.
      change (ext s2) with w1 in Hr. destruct (client_Do _ w1) as [r w2]. exists w2.
      cbn [DataManager_service ds_dataAddNodes]. rw /bind Hr. cbn [fst]. by destruct r as [|? []]; [..|destruct (_ <? _)]. }
  rw {1}/bind Hadd. set (ok := _ || _). set (s3 := mkSt _ _ w2 _).
  assert (exists w3, (if negb (bool_decide (removed = [])) then ds_dataRemoveNodes DataManager_service removed else ret tt) s3
     = Ret tt (mkSt (gl s1) (fs s1) w3 (trace s3 ++ unless_empty remove_request removed)%list)) as [w3 Hrem].
  { rw /unless_empty. destruct (bool_decide (removed = [])); cbn [negb].
    - exists w2. by rw app_nil_r.
    - destruct (dataRemoveNodes_run removed s3 Hd) as [w3 Hr]. exists w3. exact Hr. }
  rw {1}/bind Hrem /bind.
  destruct ok eqn:Hok; eexists; (split; [done|]); (split; [reflexivity|]); split_and!; try done; by rw /= app_assoc.
Qed.

(** C2: one update of the cache, completely. Given the nodes HSM lists, the
    update computes the nodes not yet in the cache; it sends one PUT with them
    (with all nodes when forced) unless there are none, and then one DELETE with
    the cached nodes HSM no longer lists unless there are none. It succeeds
    exactly when there was nothing to add or the PUT was answered with a status
    below 400, and then the cache becomes the nodes HSM lists; on failure no
    variable changes. It returns the new nodes in either case. *)
Theorem updateCachedNodeData_effect ns (all : bool) s curr s1 :
  newRequest_err "PUT" inventory_url = None -> newRequest_err "DELETE" inventory_url = None ->
  ns_getCurrentNodesFromHSM ns s = Ret curr s1 ->
  let cache := nodeCache (gl s1) in
  let new := filter (fun n => cache !! nc_NodeName n = None) curr in
  let toUpdate := if all then curr else new in
  exists ok w removed s', stale cache curr removed
    /\ updateCachedNodeData DataManager_service ns all s = Ret (ok, new) s'
    /\ ok = bool_decide (toUpdate = []) || answered_ok toUpdate w
    /\ gl s' = (if ok then set_nodeCache (map_by nc_NodeName curr) (gl s1) else gl s1)
    /\ fs s' = fs s1
    /\ trace s' = (trace s1 ++ unless_empty add_request toUpdate
                    ++ unless_empty remove_request removed)%list.
Proof. apply updateCachedNodeData_run. Qed.

Lemma filter_all {A} (P : A -> Prop) `{!forall x, Decision (P x)} (l : list A) : (forall x, P x) -> filter P l = l.
Proof. intros HP. induction l; [done|]. rw filter_cons_True //. congruence. Qed.

(** C37: an outage of HSM empties the inventory. When HSM cannot be reached or
    answers garbage, the node list read from it is empty rather than an error;
    the update then asks console-data to delete every node of the cache,
    empties the cache and reports success. *)
Theorem hsm_outage_wipes_inventory k (all : bool) s :
  newRequest_err "PUT" inventory_url = None -> newRequest_err "DELETE" inventory_url = None ->
  hsm_down -> nodeCache (gl s) <> ∅ ->
  exists s' gets removed, updateCachedNodeData DataManager_service (NewNodeManager k) all s = Ret (true, []) s'
    /\ removed ≡ₚ (map_to_list (nodeCache (gl s))).*2 /\ nodeCache (gl s') = ∅
    /\ Forall is_GET gets
    /\ trace s' = (trace s ++ (EvHTTP <$> gets) ++ [remove_request removed])%list.
Proof.
  intros Hp Hd Hdown Hne.
  destruct (wp_run _ _ _ _ (getCurrentNodesFromHSM_frame s)) as
    [(curr & s1 & Hcurr & (G1 & F1 & gets & T1 & HF) & Hnil)|(e & s1 & _ & _ & Hn)]; [|by destruct Hn].
  specialize (Hnil Hdown). subst curr.
  destruct (updateCachedNodeData_run (NewNodeManager k) all s [] s1 Hp Hd Hcurr)
    as (ok & w & removed & s' & Hst & Hr & Hok & G & _ & T).
  rw G1 in Hst, Hr, Hok, T. assert ((if all then [] else filter (fun n => nodeCache (gl s) !! nc_NodeName n = None) []) = []) as Hnew
    by by destruct all.
  rw Hnew in Hok, T. cbn in Hok. subst ok. rw /stale filter_all // in Hst.
  exists s', gets, removed. split_and!; [done|done|by rw G|done|].
  rw T T1 /unless_empty bool_decide_eq_true_2 // bool_decide_eq_false_2; [|by rw app_nil_l app_assoc].
  intros ->. apply Hne. apply symmetry, Permutation_nil_r, fmap_nil_inv in Hst.
  by apply map_to_list_empty_iff.
Qed.
End update.

(** ** The inventory and the cache stay in step *)

Section sync.
Context {WD : World} (inv_of : W -> inventory) `{!ConsoleData inv_of}.
Context (ds : DataService) `{!InventoryClient inv_of ds}.
Context (ns : NodeService) `{!NodeSource inv_of ns}.

(** Each record of the cache is filed under its name and fit for the wire. *)
Definition cache_ok (cache : gmap string nodeConsoleInfo) : Prop :=
  forall k n, cache !! k = Some n -> nc_NodeName n = k /\ wf_node n = true.

Lemma cache_ok_map_by curr : forallb wf_node curr = true -> cache_ok (map_by nc_NodeName curr).
Proof.
  rw forallb_forall. intros Hwf k n [Hn Hk]%map_by_lookup_Some. split; [done|].
  by apply Hwf, list_elem_of_In.
Qed.

Lemma stale_elem cache curr removed n : stale cache curr removed ->
  n ∈ removed <-> map_by nc_NodeName curr !! nc_NodeName n = None /\ exists k, cache !! k = Some n.
Proof.
  intros Hst. rw /stale in Hst. rw Hst list_elem_of_filter list_elem_of_fmap. split.
  - intros (? & [k ?] & -> & ?%elem_of_map_to_list). eauto.
  - intros (? & k & Hk). split; [done|]. exists (k, n). by rw elem_of_map_to_list.
Qed.

Lemma stale_names cache curr removed k : cache_ok cache -> stale cache curr removed ->
  k ∈ nc_NodeName <$> removed <-> map_by nc_NodeName curr !! k = None /\ is_Some (cache !! k).
Proof.
  intros Hc Hst. rw list_elem_of_fmap. split.
  - intros (n & -> & [Hn [k' Hk]]%(stale_elem _ _ _ _ Hst)). destruct (Hc _ _ Hk) as [Hk' _].
    rw Hk' in Hn |- *. eauto.
  - intros [Hn [n Hk]]. destruct (Hc _ _ Hk) as [<- _]. exists n. split; [done|].
    apply (stale_elem _ _ _ _ Hst). eauto.
Qed.

Lemma forallb_sub (l l' : list nodeConsoleInfo) :
  (forall n, n ∈ l -> n ∈ l') -> forallb wf_node l' = true -> forallb wf_node l = true.
Proof.
  rw !forallb_forall. intros Hs Hw n Hn%list_elem_of_In. by apply Hw, list_elem_of_In, Hs.
Qed.

Lemma wp_updateCachedNodeData (all : bool) s curr s1 :
  cache_ok (nodeCache (gl s)) -> ns_getCurrentNodesFromHSM ns s = Ret curr s1 ->
  let cache := nodeCache (gl s) in
  let inv := inv_of (ext s) in
  let toUpdate := if all then curr else filter (fun n => cache !! nc_NodeName n = None) curr in
  wp (updateCachedNodeData ds ns all)
    (fun r s' => exists inv1 removed, stale cache curr removed /\ cache_ok (map_by nc_NodeName curr)
       /\ (r.1 = true -> inv1 = add_nodes toUpdate inv)
       /\ (inv1 = inv \/ inv1 = add_nodes toUpdate inv)
       /\ (atomic_put inv_of -> r.1 = false -> inv1 = inv)
       /\ (inv_of (ext s') = inv1 \/ inv_of (ext s') = remove_nodes removed inv1)
       /\ (reliable_delete -> inv_of (ext s') = remove_nodes removed inv1)
       /\ gl s' = (if r.1 then set_nodeCache (map_by nc_NodeName curr) (gl s) else gl s))
    no_panic s.
Proof.
  intros Hc Hcurr cache inv toUpdate.
  destruct (wp_of_run _ _ _ _ _ _ (src_read inv_of s) Hcurr) as (Hwf & G1 & F1 & I1).
  rw /updateCachedNodeData. apply wp_bind. rw {1}/wp Hcurr. apply wp_bind, wp_gvar. rw G1 -/cache.
  apply wp_bind, wp_ask. intros entries w1 Ho.
  pose proof (map_order_perm cache (ext s1)) as Hperm. rw Ho /= in Hperm.
  pose proof (cd_order cache (ext s1)) as I2. rw Ho /= I1 -/inv in I2.
  cbn zeta. set (removed := not_in (map_by nc_NodeName curr) entries.*2).
  assert (stale cache curr removed) as Hst by (rw /stale /removed not_in_eq; by rw Hperm).
  rw (not_in_eq cache) -/toUpdate. set (s2 := set_ext w1 s1).
  assert (forallb wf_node toUpdate = true) as Hwu.
  { apply (forallb_sub _ curr); [|done]. rw /toUpdate. destruct all; [done|].
    intros n. rw list_elem_of_filter. tauto. }
  assert (forallb wf_node removed = true) as Hwr.
  { apply forallb_forall. intros n [_ [k Hk]]%list_elem_of_In%(stale_elem _ _ _ _ Hst). exact (proj2 (Hc _ _ Hk)). }
  apply wp_bind.
  assert (wp (if (0 <? length toUpdate)%nat
     then let! ok := ds_dataAddNodes ds toUpdate in ret (if negb ok then false else true) else ret true)
    (fun ok s3 => gl s3 = gl s /\ (ok = true -> inv_of (ext s3) = add_nodes toUpdate inv)
       /\ (inv_of (ext s3) = inv \/ inv_of (ext s3) = add_nodes toUpdate inv)
       /\ (atomic_put inv_of -> ok = false -> inv_of (ext s3) = inv)) no_panic s2) as Hadd.
  { destruct toUpdate as [|n l] eqn:Hu; cbn [length Nat.ltb Nat.leb].
    - apply wp_ret. rw /s2 /= I2. split_and!; [done..|by left|done].
    - apply wp_bind. eapply wp_mono; [exact (ic_add inv_of (n :: l) s2 Hwu)| |done].
      intros ok s3 (G3 & _ & H1 & H2 & H3). apply wp_ret. rw /s2 /= I2 in H1, H2, H3.
      rw G3 /s2 /= G1. destruct ok; eauto. }
  eapply wp_mono; [exact Hadd| |done]. intros ok s3 (G3 & H1 & H2 & H3).
  apply wp_bind.
  assert (wp (if (0 <? length removed)%nat then ds_dataRemoveNodes ds removed else ret tt)
    (fun _ s4 => gl s4 = gl s /\ (inv_of (ext s4) = inv_of (ext s3) \/ inv_of (ext s4) = remove_nodes removed (inv_of (ext s3)))
       /\ (reliable_delete -> inv_of (ext s4) = remove_nodes removed (inv_of (ext s3)))) no_panic s3) as Hrem.
  { destruct removed as [|n l] eqn:Hu; cbn [length Nat.ltb Nat.leb].
    - apply wp_ret. split_and!; [done|by left|done].
    - eapply wp_mono; [exact (ic_remove inv_of (n :: l) s3 Hwr)| |done]. intros _ s4 (G4 & _ & H4 & H5). by rw G4. }
  eapply wp_mono; [exact Hrem| |done]. intros _ s4 (G4 & H4 & H5).
  destruct ok; wp_go; (exists (inv_of (ext s3)), removed); cbn; split_and!; try done;
    try by apply cache_ok_map_by.
  by rw G4.
Qed.

(** The invariant of the main loop: with the counter of forced updates at
    [cnt], the inventory lists no node outside the cache but the orphans [L],
    and it lists the whole cache unless the next update is a forced one. *)
Definition in_step (L : gset string) (cnt : Z) (inv : inventory) (cache : gmap string nodeConsoleInfo) : Prop :=
  cache_ok cache
  /\ (forall k, is_Some (inv !! k) -> is_Some (cache !! k) \/ k ∈ L)
  /\ (cnt <> 0 -> forall k, is_Some (cache !! k) -> is_Some (inv !! k)).

Definition synced (L : gset string) (cnt : Z) (s : St) : Prop :=
  in_step L cnt (inv_of (ext s)) (nodeCache (gl s)).

Lemma map_by_filter_new (cache : gmap string nodeConsoleInfo) curr k :
  is_Some (map_by nc_NodeName curr !! k) -> cache !! k = None ->
  is_Some (map_by nc_NodeName (filter (fun n => cache !! nc_NodeName n = None) curr) !! k).
Proof.
  rw !map_by_lookup_is_Some. intros (n & Hn & <-) Hk. exists n. by rw list_elem_of_filter.
Qed.

Lemma add_nodes_mono l m k : is_Some (m !! k) -> is_Some (add_nodes l m !! k).
Proof. rw add_nodes_lookup. by destruct (map_by _ l !! k). Qed.

(** Nodes HSM lists are not among those removed. *)
Lemma remove_stale_lookup cache curr removed (m : inventory) k :
  cache_ok cache -> stale cache curr removed -> is_Some (map_by nc_NodeName curr !! k) ->
  remove_nodes removed m !! k = m !! k.
Proof.
  intros Hc Hst [n Hn]. rw remove_nodes_lookup. case_decide as Hk; [|done].
  apply (stale_names _ _ _ _ Hc Hst) in Hk as [Hk _]. congruence.
Qed.

(** What an update that succeeds leaves in the inventory for a listed node. *)
Lemma listed_after (all : bool) cache curr removed (inv inv' : inventory) k :
  cache_ok cache -> stale cache curr removed ->
  let toUpdate := if all then curr else filter (fun n => cache !! nc_NodeName n = None) curr in
  (inv' = add_nodes toUpdate inv \/ inv' = remove_nodes removed (add_nodes toUpdate inv)) ->
  is_Some (map_by nc_NodeName curr !! k) ->
  (all = true -> inv' !! k = map_by nc_NodeName curr !! k)
  /\ (all = false -> (is_Some (cache !! k) -> is_Some (inv !! k)) -> is_Some (inv' !! k)).
Proof.
  intros Hc Hst toUpdate Hinv Hk.
  assert (inv' !! k = add_nodes toUpdate inv !! k) as ->.
  { destruct Hinv as [->| ->]; [done|]. exact (remove_stale_lookup _ _ _ _ _ Hc Hst Hk). }
  rw /toUpdate. split; intros ->.
  - rw add_nodes_lookup. by destruct Hk as [n ->].
  - intros Hcache. destruct (cache !! k) eqn:Hck; [apply add_nodes_mono; eauto|].
    rw add_nodes_lookup. by destruct (map_by_filter_new cache curr k Hk Hck) as [n ->].
Qed.

(** With removals carried out, the inventory has no node HSM does not list,
    except orphans. *)
Lemma no_orphan_after (L : gset string) (toUpdate : list nodeConsoleInfo) cache curr removed (inv : inventory) k :
  cache_ok cache -> stale cache curr removed -> (forall n, n ∈ toUpdate -> n ∈ curr) ->
  (forall k, is_Some (inv !! k) -> is_Some (cache !! k) \/ k ∈ L) ->
  is_Some (remove_nodes removed (add_nodes toUpdate inv) !! k) ->
  is_Some (map_by nc_NodeName curr !! k) \/ k ∈ L.
Proof.
  intros Hc Hst Hsub Hin Hk.
  destruct (map_by nc_NodeName curr !! k) as [n|] eqn:Hck; [by left; eauto|right].
  rw remove_nodes_lookup in Hk. case_decide as Hd; [by destruct Hk|].
  rw (stale_names _ _ _ _ Hc Hst) in Hd. rw add_nodes_lookup in Hk.
  destruct (map_by nc_NodeName toUpdate !! k) as [n|] eqn:Hu.
  - apply map_by_lookup_Some in Hu as [Hn <-]. rw map_by_lookup_None in Hck.
    by destruct (Hck n (Hsub n Hn)).
  - destruct (Hin k Hk) as [?|?]; [tauto|done].
Qed.

Lemma next_cnt_nonzero cnt ok : next_forceUpdateCnt cnt ok <> 0 -> ok = true.
Proof. rw /next_forceUpdateCnt. by destruct ok. Qed.

(** The orphans after an update: as before unless console-data now lists more. *)
Definition orphans_after (L : gset string) (inv : inventory) (cache : gmap string nodeConsoleInfo) : gset string :=
  if decide (forall k, k ∈ dom inv -> k ∈ dom cache ∪ L) then L else L ∪ dom inv.

Lemma orphans_after_spec L inv cache :
  L ⊆ orphans_after L inv cache
  /\ (forall k, is_Some (inv !! k) -> is_Some (cache !! k) \/ k ∈ orphans_after L inv cache)
  /\ ((forall k, is_Some (inv !! k) -> is_Some (cache !! k) \/ k ∈ L) -> orphans_after L inv cache = L).
Proof using Type.
  rw /orphans_after. case_decide as Hd.
  - split_and!; [done| |done]. intros k Hk. specialize (Hd k).
    rw elem_of_union !elem_of_dom in Hd. by apply Hd.
  - split_and!; [apply union_subseteq_l| |].
    + intros k Hk. right. apply elem_of_union. right. by apply elem_of_dom.
    + intros H. destruct Hd. intros k. rw elem_of_union !elem_of_dom. apply H.
Qed.

(** What an update makes of the invariant, whatever console-data did with its
    two requests. *)
Lemma in_step_update L cnt (inv inv1 inv' : inventory) cache curr removed (ok : bool) :
  in_step L cnt inv cache -> stale cache curr removed -> cache_ok (map_by nc_NodeName curr) ->
  (ok = true -> inv1 = add_nodes (if cnt =? 0 then curr else filter (fun n => cache !! nc_NodeName n = None) curr) inv) ->
  (inv' = inv1 \/ inv' = remove_nodes removed inv1) ->
  let cache' := if ok then map_by nc_NodeName curr else cache in
  exists L', L ⊆ L' /\ in_step L' (next_forceUpdateCnt cnt ok) inv' cache'
    /\ ((ok = false -> inv1 = inv) -> inv' = remove_nodes removed inv1 -> L' = L)
    /\ (cnt = 0 -> ok = true -> forall k n, cache' !! k = Some n -> inv' !! k = Some n).
Proof using Type.
  intros (Hc & Hin & Hfull) Hst Hck A1 R1 cache'.
  exists (orphans_after L inv' cache'). destruct (orphans_after_spec L inv' cache') as (O1 & O2 & O3).
  split; [done|]. split; [split; [by destruct ok|split; [done|]]|split].
  - intros ->%next_cnt_nonzero k Hk. specialize (A1 eq_refl). subst inv1.
    destruct (listed_after (cnt =? 0) _ _ _ _ inv' k Hc Hst R1 Hk) as [L1 L2].
    destruct (Z.eqb_spec cnt 0) as [->|Hne]; [rw L1 //|]. apply L2; [done|]. by apply Hfull.
  - intros Hat Hrel. apply O3. intros k. rw Hrel. rw /cache'. destruct ok.
    + rw (A1 eq_refl). eapply (no_orphan_after L); [exact Hc|exact Hst| |exact Hin].
      intros n. destruct (cnt =? 0); [done|]. rw list_elem_of_filter. tauto.
    + rw (Hat eq_refl) remove_nodes_lookup. case_decide; [by intros []|apply Hin].
  - intros -> -> k n Hk. specialize (A1 eq_refl). subst inv1.
    destruct (listed_after true _ _ _ _ inv' k Hc Hst R1) as [L1 _]; [by rw Hk|].
    by rw L1.
Qed.

Lemma sync_turn L cnt s :
  synced L cnt s ->
  wp (updateCachedNodeData ds ns (cnt =? 0))
    (fun r s' => exists L', L ⊆ L' /\ synced L' (next_forceUpdateCnt cnt r.1) s'
       /\ (atomic_put inv_of -> reliable_delete -> L' = L)
       /\ (cnt = 0 -> r.1 = true -> forall k n, nodeCache (gl s') !! k = Some n ->
              inv_of (ext s') !! k = Some n))
    (fun _ s' => synced L cnt s') s.
Proof.
  intros Hs. pose proof (proj1 Hs) as Hc.
  destruct (wp_run _ _ _ _ (src_read inv_of s)) as [(curr & s1 & Hcurr & _)|(e & s1 & Hcurr & G1 & _ & I1)].
  2: { rw /updateCachedNodeData. apply wp_bind. rw /wp Hcurr /synced G1 I1. done. }
  eapply wp_mono; [by apply (wp_updateCachedNodeData (cnt =? 0) s curr s1)| |done].
  intros [ok new] s' (inv1 & removed & Hst & Hck & A1 & A2 & A3 & R1 & R2 & G). cbn [fst] in *.
  destruct (in_step_update L cnt _ _ _ _ _ _ ok Hs Hst Hck A1 R1) as (L' & HL & H1 & H2 & H3).
  assert (nodeCache (gl s') = if ok then map_by nc_NodeName curr else nodeCache (gl s)) as GC by (rw G; by destruct ok).
  exists L'. rw /synced GC. split_and!; [done..| |done]. intros Hat Hrel. apply H2; [by apply A3|by apply R2].
Qed.

(** The inventory stays in step with HSM. Over every turn of the main loop,
    whatever HSM lists and however console-data answers, the loop invariant
    [synced] is kept: no node outside the cache is in the inventory, except
    orphans, and the inventory lists all of the cache unless the next update is
    a forced one; a forced update that succeeds makes the records agree
    exactly. New orphans appear only when a request is lost or a removal
    refused. An update that panics on a malformed node name leaves the
    invariant as it was. *)
Theorem inventory_in_step L cnt s :
  synced L cnt s ->
  wp (updateCachedNodeData ds ns (cnt =? 0))
    (fun r s' => exists L', L ⊆ L' /\ synced L' (next_forceUpdateCnt cnt r.1) s'
       /\ (atomic_put inv_of -> reliable_delete -> L' = L)
       /\ (cnt = 0 -> r.1 = true -> forall k n, nodeCache (gl s') !! k = Some n ->
              inv_of (ext s') !! k = Some n))
    (fun _ s' => synced L cnt s') s.
Proof. apply sync_turn. Qed.

(** C38: an orphan of the inventory stays. A record in console-data of a node
    that is in neither the cache nor HSM (left by an earlier run of the
    operator, by a lost reply or by a refused removal) is kept by every later
    update, forced or not: removals are computed from the cache alone. *)
Theorem orphan_stays (all : bool) s curr s1 k n :
  cache_ok (nodeCache (gl s)) -> ns_getCurrentNodesFromHSM ns s = Ret curr s1 ->
  nodeCache (gl s) !! k = None -> k ∉ nc_NodeName <$> curr -> inv_of (ext s) !! k = Some n ->
  wp (updateCachedNodeData ds ns all)
    (fun _ s' => nodeCache (gl s') !! k = None /\ inv_of (ext s') !! k = Some n) no_panic s.
Proof.
  intros Hc Hcurr Hk Hnk Hinv.
  assert (map_by nc_NodeName curr !! k = None) as Hck.
  { apply map_by_lookup_None. intros x Hx <-. apply Hnk. by apply list_elem_of_fmap_2. }
  eapply wp_mono; [by apply (wp_updateCachedNodeData all s curr s1)| |done].
  intros [ok new] s' (inv1 & removed & Hst & _ & _ & A2 & _ & R1 & _ & G). cbn [fst] in *. split.
  - rw G. by destruct ok.
  - assert (inv1 !! k = Some n) as H1.
    { destruct A2 as [->| ->]; [done|]. rw add_nodes_lookup.
      assert (map_by nc_NodeName (if all then curr else filter (fun n => nodeCache (gl s) !! nc_NodeName n = None) curr) !! k = None) as ->; [|done].
      apply map_by_lookup_None. intros x Hx <-. apply Hnk. apply list_elem_of_fmap_2.
      destruct all; [done|]. by apply list_elem_of_filter in Hx as [_ Hx]. }
    destruct R1 as [->| ->]; [done|]. rw remove_nodes_lookup. case_decide as Hd; [|done].
    apply (stale_names _ _ _ _ Hc Hst) in Hd as [_ [? Hd]]. congruence.
Qed.
End sync.

(** At the start the cache is empty, so whatever console-data lists is an orphan. *)
Lemma synced_initial {WD : World} (inv_of : W -> inventory) s :
  nodeCache (gl s) = ∅ -> synced inv_of (dom (inv_of (ext s))) 0 s.
Proof.
  intros H0. rw /synced /cache_ok H0. split_and!; [by intros ? ?; rw lookup_empty| |done].
  intros k Hk. right. by apply elem_of_dom.
Qed.

(** ** Counting *)

Definition mtn_like (n : nodeConsoleInfo) : bool := isMountain n || isParadise n.

(** The numbers of Mountain or Paradise, and of River nodes of a cache. *)
Definition mtn_count (cache : gmap string nodeConsoleInfo) : Z :=
  Z.of_nat (length (filter (fun n => mtn_like n = true) (map_to_list cache).*2)).
Definition rvr_count (cache : gmap string nodeConsoleInfo) : Z :=
  Z.of_nat (length (filter (fun n => isRiver n = true) (map_to_list cache).*2)).

Lemma river_not_mtn n : isRiver n = true -> mtn_like n = false.
Proof. rw /isRiver /mtn_like /isMountain /isParadise. by intros ->%String.eqb_eq. Qed.

Lemma count_nodes_eq l :
  (Z.of_nat (length l) < 2 ^ 63) ->
  foldl count_node (0, 0) l
  = (Z.of_nat (length (filter (fun n => mtn_like n = true) l)),
     Z.of_nat (length (filter (fun n => isRiver n = true) l))).
Proof.
  induction l as [|n l IH] using rev_ind; [done|]. rw length_app /=. intros Hl.
  rw foldl_app /= IH; [lia|]. rw !filter_app !length_app !filter_cons !filter_nil /count_node.
  pose proof (length_filter (fun n => mtn_like n = true) l).
  pose proof (length_filter (fun n => isRiver n = true) l).
  rw -/(mtn_like n). destruct (isRiver n) eqn:Hr.
  - rw (river_not_mtn n Hr) /= int64_id; [lia|]. f_equal; lia.
  - destruct (mtn_like n) eqn:Hm; simpl; [rw int64_id; [lia|]|]; f_equal; lia.
Qed.

Lemma count_cache_eq entries cache :
  entries ≡ₚ map_to_list cache -> Z.of_nat (size cache) < 2 ^ 63 ->
  foldl count_node (0, 0) entries.*2 = (mtn_count cache, rvr_count cache).
Proof.
  intros Hp Hs. rw count_nodes_eq; [by rw Hp length_fmap length_map_to_list|].
  rw /mtn_count /rvr_count. by rw Hp.
Qed.

Lemma mtn_count_pos cache k n : cache !! k = Some n -> isMountain n = true -> 0 < mtn_count cache.
Proof.
  intros Hk Hm. rw /mtn_count.
  assert (n ∈ filter (fun n => mtn_like n = true) (map_to_list cache).*2) as Hin.
  { rw list_elem_of_filter /mtn_like Hm. split; [done|]. apply list_elem_of_fmap.
    exists (k, n). by rw elem_of_map_to_list. }
  destruct (filter _ _); [by apply not_elem_of_nil in Hin|]. simpl. lia.
Qed.

Lemma counts_disjoint cache : mtn_count cache + rvr_count cache <= Z.of_nat (size cache).
Proof.
  rw /mtn_count /rvr_count -length_map_to_list -(length_fmap snd).
  induction (map_to_list cache).*2 as [|n l IH]; [done|]. rw !filter_cons.
  destruct (isRiver n) eqn:Hr; [rw (river_not_mtn n Hr)|destruct (mtn_like n)]; simpl in *; lia.
Qed.

Section hardware.
Context {WD : World}.

(** The variables [updateNodeCounts] leaves alone. *)
Definition counts_frame (s s' : St) : Prop :=
  nodeCache (gl s') = nodeCache (gl s) /\ inShutdown (gl s') = inShutdown (gl s)
  /\ debugOnly (gl s') = debugOnly (gl s).

Lemma updateNodeCounts_totals k `{!K8Laws k} mtn rvr s :
  wp (updateNodeCounts k mtn rvr)
    (fun _ s' => counts_frame s s'
       /\ (int64 (mtn + rvr) <> 0 -> totalMtnNodes (gl s') = mtn /\ totalRvrNodes (gl s') = rvr)
       /\ (int64 (mtn + rvr) = 0 -> gl s' = gl s))
    (fun _ s' => counts_frame s s') s.
Proof.
  rw /updateNodeCounts /counts_frame. destruct (Z.eqb_spec (int64 (mtn + rvr)) 0); [by apply wp_ret|]. wp_go.
  set (g1 := set_totalMtnNodes mtn (set_totalRvrNodes rvr (gl s))).
  eapply wp_mono; [apply k8_updateReplicaCount_frame| |].
  2: { intros e s' [G _]. by rw G. }
  intros _ s1 [G1 _]. cbn in G1. wp_go. eapply wp_mono; [apply k8_getReplicaCount_frame| |].
  2: { intros e s' (G & _). rw G. by destruct G1 as [->| ->]. }
  intros [cur err] s2 [(G2 & _) _]. cbn beta iota. rw -G2 in G1.
  assert (forall a b, wp (k8_updateNodesPerPod k a b)
    (fun _ s' => counts_frame s s'
       /\ (int64 (mtn + rvr) <> 0 -> totalMtnNodes (gl s') = mtn /\ totalRvrNodes (gl s') = rvr)
       /\ (int64 (mtn + rvr) = 0 -> gl s' = gl s))
    (fun _ s' => counts_frame s s') s2) as Hpub.
  { intros a b. eapply wp_mono; [apply k8_updateNodesPerPod_frame| |].
    - intros _ s3 [_ G3]. by destruct G1 as [G1|G1], G3 as [G3|[_ G3]]; rw /counts_frame G3 G1.
    - intros e s3 (G3 & _). by destruct G1 as [G1|G1]; rw /counts_frame G3 G1. }
  destruct err as [e|]; [apply Hpub|]. wp_go; [apply Hpub|].
  by destruct G1 as [G1|G1]; rw G1.
Qed.

Lemma wp_any {A} (m : Prog A) s : wp m (fun _ _ => True) (fun _ _ => True) s.
Proof. rw /wp. by destruct (m s). Qed.

Lemma wp_dataRemoveNodes_quiet l (Q : unit -> St -> Prop) E s :
  (forall s', quiet_frame s s' -> Q tt s') -> wp (dataRemoveNodes l) Q E s.
Proof.
  intros HQ. rw /dataRemoveNodes. apply wp_bind, wp_doURL_quiet. intros [[d c] e] s' Hf. by apply wp_ret, HQ.
Qed.

Lemma wp_dataAddNodes_quiet l (Q : bool -> St -> Prop) E s :
  (forall ok s', quiet_frame s s' -> Q ok s') -> wp (dataAddNodes l) Q E s.
Proof.
  intros HQ. rw /dataAddNodes. apply wp_bind, wp_doURL_quiet. intros [[d c] e] s' Hf.
  destruct e; by apply wp_ret, HQ.
Qed.

(** Of the variables an update writes the cache alone. *)
Lemma wp_updateCached_gl k (all : bool) s :
  wp (updateCachedNodeData DataManager_service (NewNodeManager k) all)
    (fun _ s' => exists cache, gl s' = set_nodeCache cache (gl s)) (fun _ s' => gl s' = gl s) s.
Proof.
  rw /updateCachedNodeData. apply wp_bind.
  eapply wp_mono; [apply getCurrentNodesFromHSM_frame| |by intros _ s' [(? & _) _]]. intros curr s1 [(G1 & _) _].
  apply wp_bind, wp_gvar, wp_bind, wp_ask. intros es w1 _. cbn zeta. apply wp_bind.
  assert (forall (b : bool) l, wp (if b then let! ok := ds_dataAddNodes DataManager_service l in
    ret (if negb ok then false else true) else ret true) (fun _ s' => gl s' = gl s) no_panic (set_ext w1 s1)) as Hadd.
  { intros [] l; [|by apply wp_ret]. apply wp_bind, wp_dataAddNodes_quiet. intros ok s2 [G2 _]. apply wp_ret. by rw G2. }
  eapply wp_mono; [apply Hadd| |done]. intros ok s2 G2. apply wp_bind.
  assert (forall (b : bool) l, wp (if b then ds_dataRemoveNodes DataManager_service l else ret tt)
    (fun _ s' => gl s' = gl s) no_panic s2) as Hrem.
  { intros [] l; [|by apply wp_ret]. apply wp_dataRemoveNodes_quiet. intros s3 [G3 _]. by rw G3. }
  eapply wp_mono; [apply Hrem| |done]. intros [] s3 G3.
  destruct ok; wp_go; [by rw /= G3; eauto|]. exists (nodeCache (gl s)). rw G3. by destruct (gl s).
Qed.

(** C23: the totals are the numbers of nodes. After a hardware update that
    returns: if the cache holds a node of a known class, [totalMtnNodes] is the
    number of its Mountain, Hill and Paradise nodes and [totalRvrNodes] the
    number of its River nodes, and together they do not exceed its size; if it
    holds none (HSM lists nothing, or is out), the totals keep the values they
    had before the update. *)
Theorem doHardwareUpdate_totals (km : K8Manager) (all : bool) s :
  wp (doHardwareUpdate DataManager_service (NewNodeManager (K8Manager_service km)) all)
    (fun _ s' => let cache := nodeCache (gl s') in
       Z.of_nat (size cache) < 2 ^ 63 ->
       if 0 <? mtn_count cache + rvr_count cache
       then totalMtnNodes (gl s') = mtn_count cache /\ totalRvrNodes (gl s') = rvr_count cache
            /\ totalMtnNodes (gl s') + totalRvrNodes (gl s') <= Z.of_nat (size cache)
       else totalMtnNodes (gl s') = totalMtnNodes (gl s) /\ totalRvrNodes (gl s') = totalRvrNodes (gl s))
    (fun _ _ => True) s.
Proof.
  rw /doHardwareUpdate. apply wp_bind, wp_ask. intros now w0 _. wp_go.
  eapply wp_mono; [apply wp_updateCached_gl| |done]. intros [ok new] s1 [c1 G1]. wp_go.
  set (cache := nodeCache (gl s1)). rw /range. apply wp_ask. intros entries w1 Ho.
  pose proof (map_order_perm cache (ext s1)) as Hperm. rw Ho /= in Hperm.
  destruct (foldl count_node (0, 0) entries.*2) as [m r] eqn:Hcnt. apply wp_bind.
  eapply wp_mono; [apply (updateNodeCounts_totals (K8Manager_service km))| |done]. intros _ s2 [(C2 & _) T2].
  change (nodeCache (gl (set_ext w1 s1))) with cache in C2. cbn [gl set_ext] in T2.
  assert (Z.of_nat (size cache) < 2 ^ 63 -> if 0 <? mtn_count cache + rvr_count cache
    then totalMtnNodes (gl s2) = mtn_count cache /\ totalRvrNodes (gl s2) = rvr_count cache
      /\ totalMtnNodes (gl s2) + totalRvrNodes (gl s2) <= Z.of_nat (size cache)
    else totalMtnNodes (gl s2) = totalMtnNodes (gl s) /\ totalRvrNodes (gl s2) = totalRvrNodes (gl s)) as Hres.
  { intros Hs. rw (count_cache_eq _ _ Hperm Hs) in Hcnt. injection Hcnt as <- <-.
    pose proof (counts_disjoint cache). assert (0 <= mtn_count cache /\ 0 <= rvr_count cache) as [] by (split; apply Zle_0_nat).
    assert (int64 (mtn_count cache + rvr_count cache) = mtn_count cache + rvr_count cache) as Hi by (apply int64_id; lia).
    rw Hi in T2. destruct (Z.ltb_spec 0 (mtn_count cache + rvr_count cache)).
    - destruct T2 as [[-> ->] _]; [lia|]. lia.
    - destruct T2 as [_ T2]. rw (T2 ltac:(lia)) G1. done. }
  destruct (0 <? m); [|apply wp_ret; by rw C2].
  apply wp_bind. destruct (ensureMountain_run s2) as (b & s3 & He & Hk). rw /wp He.
  apply keys_outcome_gl in Hk. cbn. by rw Hk C2.
Qed.

(** C22: new Mountain nodes get their keys. In a cluster where nothing panics,
    a hardware update of the program's own node service returns, and sends to
    the key worker only Mountain nodes that HSM lists and that were not cached;
    and every Mountain node that enters the cache by it is sent. *)
Theorem new_mountain_nodes_sent (km : K8Manager) (all : bool) s curr s1 :
  newRequest_err "PUT" inventory_url = None -> newRequest_err "DELETE" inventory_url = None ->
  cluster_calm km -> files (fs s) !! "/var/log/console" = None ->
  let s0 := set_gl (set_hardwareUpdateTime (time_now (ext s)).1 (gl s)) (set_ext (time_now (ext s)).2 s) in
  getCurrentNodesFromHSM s0 = Ret curr s1 -> Z.of_nat (length curr) < 2 ^ 63 ->
  exists ok sent s', doHardwareUpdate DataManager_service (NewNodeManager (K8Manager_service km)) all s = Ret (ok, sent) s'
    /\ (forall n, n ∈ sent -> isMountain n = true /\ n ∈ curr /\ nodeCache (gl s) !! nc_NodeName n = None)
    /\ (forall k n, nodeCache (gl s') !! k = Some n -> nodeCache (gl s) !! k = None ->
          isMountain n = true -> n ∈ sent).
Proof.
  intros Hp Hd Hcalm Hdir s0 Hcurr Hlen.
  destruct (wp_of_run _ _ _ _ _ _ (getCurrentNodesFromHSM_frame s0) Hcurr) as [(Hgl & Hfs & _) _].
  destruct (updateCachedNodeData_run (NewNodeManager (K8Manager_service km)) all s0 curr s1 Hp Hd Hcurr)
    as (ok & w & removed & s2 & _ & Hr & _ & G2 & F2 & _).
  rw Hgl in Hr, G2. change (nodeCache (gl s0)) with (nodeCache (gl s)) in Hr.
  set (new := filter _ curr) in Hr.
  rw /doHardwareUpdate /bind /ask. fold s0. destruct (time_now (ext s)) as [now w0] eqn:Ht.
  cbn [gset_var modify]. change (set_gl _ _) with s0. rw Hr. rw /gvar /gets /range /ask.
  set (cache := nodeCache (gl s2)). destruct (map_order cache (ext s2)) as [entries w1] eqn:Ho.
  pose proof (map_order_perm cache (ext s2)) as Hperm. rw Ho /= in Hperm.
  destruct (foldl count_node (0, 0) entries.*2) as [m r] eqn:Hcnt.
  cbn [NewNodeManager ns_updateNodeCounts].
  destruct (wp_run_ret _ _ _ (updateNodeCounts_returns km m r (set_ext w1 s2) Hcalm ltac:(by rw /= F2 Hfs)))
    as ([] & s3 & Hret & _). rw Hret.
  destruct (wp_of_run _ _ _ _ _ _ (updateNodeCounts_totals (K8Manager_service km) m r _) Hret) as [(C3 & _) _].
  change (nodeCache (gl (set_ext w1 s2))) with cache in C3.
  assert (forall n, n ∈ filter (fun n => isMountain n = true) new ->
    isMountain n = true /\ n ∈ curr /\ nodeCache (gl s) !! nc_NodeName n = None) as Hsent.
  { intros n. rw /new !list_elem_of_filter. naive_solver. }
  assert (forall k n, cache !! k = Some n -> nodeCache (gl s) !! k = None -> isMountain n = true ->
    n ∈ filter (fun n => isMountain n = true) new /\ 0 < m) as Hnew.
  { intros k n Hk Hnk Hm. rw /cache G2 in Hk, Hcnt. destruct ok; [|by rw /= Hnk in Hk].
    cbn in Hk. pose proof Hk as Hk2. apply map_by_lookup_Some in Hk2 as [Hn <-].
    split; [by rw /new !list_elem_of_filter|].
    assert (Z.of_nat (size cache) < 2 ^ 63) as Hs.
    { rw /cache G2. cbn. pose proof (map_by_size nc_NodeName curr). lia. }
    rw (count_cache_eq _ _ Hperm Hs) in Hcnt. injection Hcnt as <- <-.
    apply (mtn_count_pos _ (nc_NodeName n) n); [|done]. by rw /cache G2. }
  destruct (Z.ltb_spec 0 m).
  - destruct (ensureMountain_run s3) as (b & s4 & He & Hk). rw He. apply keys_outcome_gl in Hk.
    eexists _, _, _. split; [reflexivity|]. split; [done|]. rw Hk C3. intros k n H1 H2 H3. exact (proj1 (Hnew k n H1 H2 H3)).
  - eexists _, _, _. split; [reflexivity|]. split; [by intros ? ?%not_elem_of_nil|].
    rw C3. intros k n Hk Hnk Hm. destruct (Hnew k n Hk Hnk Hm). lia.
Qed.
End hardware.

(** ** The counter of forced updates *)

(** The counter after turns with the given outcomes, from the start of the loop. *)
Definition counter_after (oks : list bool) : Z := foldl next_forceUpdateCnt 0 oks.

Lemma next_cnt_mod c : 0 <= c <= 10 -> next_forceUpdateCnt c true = (c - 1) mod 11.
Proof.
  intros Hc. rw /next_forceUpdateCnt /=. destruct (Z.ltb_spec (c - 1) 0).
  - by assert (c = 0) as -> by lia.
  - rw Z.mod_small; lia.
Qed.

Lemma counter_successes n : foldl next_forceUpdateCnt 0 (replicate n true) = (- Z.of_nat n) mod 11.
Proof.
  induction n as [|n IH]; [done|]. rw replicate_S_end foldl_app /= IH next_cnt_mod.
  - pose proof (Z.mod_pos_bound (- Z.of_nat n) 11). lia.
  - rw Zminus_mod_idemp_l. f_equal. lia.
Qed.

(** C24: when a full update is forced. Counting successful updates since the
    start or since the last failed one, an update is forced (the counter is
    zero) exactly when their number is a multiple of eleven: at once after the
    start or a failure, and then with ten partial updates in between. *)
Theorem forced_update_schedule h n :
  (counter_after (replicate n true) = 0 <-> (11 | Z.of_nat n))
  /\ (counter_after (h ++ false :: replicate n true)%list = 0 <-> (11 | Z.of_nat n)).
Proof.
  rw /counter_after foldl_app. cbn [foldl].
  assert (next_forceUpdateCnt (foldl next_forceUpdateCnt 0 h) false = 0) as -> by done.
  rw counter_successes -Z.mod_divide; [lia|].
  split; Z.to_euclidean_division_equations; lia.
Qed.

Section turns.
Context {WD : World} (ds : DataService) (ns : NodeService).

(** After the signal nothing is updated. Once the shutdown flag is set, any
    number of turns of the main loop return without a request, a file access
    or a change of a variable. *)
Theorem shutdown_stops_updates n cnt s :
  exists s', main_signal s = Ret tt s' /\ trace s' = trace s
    /\ watchHardware ds ns n cnt s' = Ret (cnt, []) s'.
Proof.
  eexists. split; [reflexivity|]. split; [done|].
  induction n as [|n IH]; [done|]. cbn [watchHardware]. rw /bind.
  assert (watchHardware_turn ds ns cnt (set_gl (set_inShutdown true (gl s)) s)
    = Ret (cnt, []) (set_gl (set_inShutdown true (gl s)) s)) as -> by done.
  by rw IH.
Qed.

(** A failed update is retried in full. When an update returns with a
    failure, the next turn is forced and sends all nodes. *)
Theorem failed_update_forces_next cnt s sent s' :
  inShutdown (gl s) = false -> inShutdown (gl s') = false ->
  doHardwareUpdate ds ns (cnt =? 0) s = Ret (false, sent) s' ->
  watchHardware ds ns 2 cnt s
  = (let! (ok, sent') := doHardwareUpdate ds ns true in
     ret (next_forceUpdateCnt 0 ok, (sent ++ sent' ++ [])%list)) s'.
Proof.
  intros H1 H2 Hrun. cbn [watchHardware]. rw /watchHardware_turn /bind /gvar /gets H1 /= Hrun /= H2 /=.
  by destruct (doHardwareUpdate ds ns true s') as [[ok sent'] s''|].
Qed.
End turns.

(** ** Configuration *)

(** A variable read from the environment is its default or within bounds.
    An unset variable, or one that is not an integer, keeps the default; an
    integer is clamped to the bounds. *)
Theorem readSingleEnvVarInt_clamps env v old lo hi :
  lo <= hi ->
  readSingleEnvVarInt env v old lo hi
  = match atoi (env v) with Some z => Z.max lo (Z.min hi z) | None => old end.
Proof.
  intros Hb. rw /readSingleEnvVarInt. destruct (String.eqb_spec (env v) "") as [->|]; [done|].
  cbn [negb]. destruct (atoi (env v)) as [z|]; [|done]. cbn zeta.
  destruct (Z.ltb_spec z lo); [destruct (Z.ltb_spec hi lo)|destruct (Z.ltb_spec hi z)]; lia.
Qed.

Lemma read_bounds env v old lo hi :
  lo <= hi -> lo <= old <= hi -> lo <= readSingleEnvVarInt env v old lo hi <= hi.
Proof.
  intros Hb Ho. rw /readSingleEnvVarInt. destruct (negb _); [|done].
  destruct (atoi (env v)) as [z|]; [|done]. cbn zeta.
  destruct (Z.ltb_spec z lo); [destruct (Z.ltb_spec hi lo)|destruct (Z.ltb_spec hi z)]; lia.
Qed.

(** The bounds the configuration respects, whatever the environment. *)
Lemma main_config_bounds debugFlag env :
  let g := main_config debugFlag env init_globals in
  5 <= maxMtnNodesPerPod g <= 1500 /\ 5 <= maxRvrNodesPerPod g <= 4000
  /\ numFileErrors g = 0 /\ nodeCache g = ∅.
Proof.
  pose proof (read_bounds env "MAX_MTN_NODES_PER_POD" 750 5 1500 ltac:(lia) ltac:(lia)).
  pose proof (read_bounds env "MAX_RVR_NODES_PER_POD" 2000 5 4000 ltac:(lia) ltac:(lia)).
  rw /main_config. by destruct (String.eqb (env "DEBUG") "TRUE").
Qed.

(** C25: the configuration is sane. Whatever the flag and the environment hold,
    after the start of [main] every configured value is within its documented
    range, so that the sizing formulas apply ([pod_max]); nothing else but the
    debug flag differs from the initial values; and the start fails exactly
    when the Kubernetes client cannot be made. *)
Theorem main_init_config {WD : World} debugFlag env inC newC s :
  gl s = init_globals ->
  exists g, gl (match main_init debugFlag env inC newC s with Ret _ s' | Panic _ s' => s' end) = g
    /\ 5 <= maxMtnNodesPerPod g <= 1500 /\ 5 <= maxRvrNodesPerPod g <= 4000
    /\ pod_max (maxMtnNodesPerPod g) /\ pod_max (maxRvrNodesPerPod g)
    /\ 10 <= newHardwareCheckPeriodSec g <= 14400
    /\ 10 <= heartbeatCheckPeriodSec g <= 300 /\ 1 <= heartbeatStaleMinutes g <= 60
    /\ nodeCache g = ∅ /\ numNodePods g = -1 /\ inShutdown g = false
    /\ (debugOnly g = true <-> debugFlag = true \/ env "DEBUG" = "TRUE")
    /\ ((exists km s', main_init debugFlag env inC newC s = Ret km s') <-> inC = None /\ newC = None).
Proof.
  intros Hg. exists (main_config debugFlag env init_globals).
  split; [rw /main_init /bind -Hg; by destruct inC, newC|].
  pose proof (read_bounds env "MAX_MTN_NODES_PER_POD" 750 5 1500 ltac:(lia) ltac:(lia)).
  pose proof (read_bounds env "MAX_RVR_NODES_PER_POD" 2000 5 4000 ltac:(lia) ltac:(lia)).
  pose proof (read_bounds env "HARDWARE_UPDATE_SEC_FREQ" 30 10 14400 ltac:(lia) ltac:(lia)).
  pose proof (read_bounds env "HEARTBEAT_CHECK_SEC_FREQ" 15 10 300 ltac:(lia) ltac:(lia)).
  pose proof (read_bounds env "HEARTBEAT_STALE_DURATION_MINUTES" 3 1 60 ltac:(lia) ltac:(lia)).
  rw /main_config /pod_max.
  destruct (String.eqb_spec (env "DEBUG") "TRUE") as [He|He]; cbn -[readSingleEnvVarInt Z.pow];
    (split_and!; [lia..| | | | |]); try done; try tauto.
  all: split; [by destruct inC, newC; intros (? & ? & ?)|intros [-> ->]; eexists _, _; reflexivity].
Qed.

(** ** Witnesses *)

(** console-data and HSM in one scripted world: the state is the inventory;
    HSM lists one Mountain node. *)
Definition cd_http (rf sc : json) (r : http_request) (inv : inventory) : do_result * inventory :=
  if negb (String.eqb (req_URL r) inventory_url) then (hsm_http rf sc (JArr []) r, inv)
  else if String.eqb (req_Method r) "PUT" then
    (DoResp 200 (inr "{}"), add_nodes (Unmarshal dec_nodes (default "" (req_Body r)) []).1 inv)
  else if String.eqb (req_Method r) "DELETE" then
    (DoResp 200 (inr "{}"), remove_nodes (Unmarshal dec_nodes (default "" (req_Body r)) []).1 inv)
  else (hsm_http rf sc (JArr []) r, inv).
Definition cd_world (rf sc : json) : World := scripted_world inventory (cd_http rf sc) (fun _ _ => "key").

Definition cd_inv {rf sc} (w : @W (cd_world rf sc)) : inventory := w.

#[export] Instance cd_world_data rf sc : @ConsoleData (cd_world rf sc) cd_inv.
Proof.
  split.
  - done.
  - intros body l w Hl. rw /put_req /cd_world /scripted_world /cd_http. cbn -[dec_nodes inventory_url Unmarshal].
    rw String.eqb_refl. cbn -[dec_nodes Unmarshal]. rw Hl. eauto.
  - intros body l w Hl. rw /delete_req /cd_world /scripted_world /cd_http. cbn -[dec_nodes inventory_url Unmarshal].
    rw String.eqb_refl. cbn -[dec_nodes Unmarshal]. rw Hl. eauto.
  - intros req w Hm. cbn. rw /cd_http Hm. by destruct (negb _).
  - done.
Qed.

Definition gone_node : nodeConsoleInfo := mkNode "x9n0" "x9" "x9.local" "River" 9 "".
Definition cd_state (cache inv : inventory) : @St (cd_world ex_rf ex_sc) :=
  @mkSt (cd_world ex_rf ex_sc) (set_nodeCache cache init_globals) empty_FS inv [].
Definition ex_cache : inventory := {["x9n0" := gone_node]}.
Definition cd_nodes : @NodeService (cd_world ex_rf ex_sc) :=
  NewNodeManager (@answering (cd_world ex_rf ex_sc) 1 None (fun _ _ => ret tt)).
Definition found_node : nodeConsoleInfo :=
  mkNode "x1000c0s0b0n0" "x1000c0s0b0" "x1000c0s0b0.local" "Mountain" 1 "".

(** The state after HSM was read. *)
Definition cd_read_state (g : Globals) (inv : inventory) : @St (cd_world ex_rf ex_sc) :=
  @mkSt (cd_world ex_rf ex_sc) g empty_FS inv hsm_requests.

Lemma cd_read_any s :
  ns_getCurrentNodesFromHSM cd_nodes s
  = Ret [found_node] (@mkSt (cd_world ex_rf ex_sc) (gl s) (fs s) (ext s) (trace s ++ hsm_requests)%list).
Proof.
  assert (decodes dec_rf_response [] (hsm_http ex_rf ex_sc (JArr []) (mkReq "GET" url_rf [] None)) ex_rfs) as D1
    by (eexists _, _; split; [reflexivity|by vm_compute]).
  assert (decodes dec_sc_response [] (hsm_http ex_rf ex_sc (JArr []) (mkReq "GET" url_sc [] None)) ex_scs) as D2
    by (eexists _, _; split; [reflexivity|by vm_compute]).
  pose proof (@getCurrentNodesFromHSM_run (cd_world ex_rf ex_sc) s ex_rfs ex_scs _ (ext s) _ (ext s) _ (ext s)
    eq_refl eq_refl eq_refl ltac:(done) D1 D2) as Hr.
  cbn zeta in Hr. rw /cd_nodes. cbn [NewNodeManager ns_getCurrentNodesFromHSM]. rw Hr.
  assert (buildNodes (map_by rf_ID ex_rfs) (paradise_of (hsm_http ex_rf ex_sc (JArr []) (mkReq "GET" url_hw [] None))) [] ex_scs
    = Some [found_node]) as Hb by by vm_compute.
  by rw Hb.
Qed.

Lemma cd_read g inv :
  ns_getCurrentNodesFromHSM cd_nodes (@mkSt (cd_world ex_rf ex_sc) g empty_FS inv [])
  = Ret [found_node] (cd_read_state g inv).
Proof. apply cd_read_any. Qed.

Lemma updateCachedNodeData_effect_witness :
  let s1 := cd_read_state (set_nodeCache ex_cache init_globals) ex_cache in
  let cache := nodeCache (gl s1) in
  let new := filter (fun n => cache !! nc_NodeName n = None) [found_node] in
  let toUpdate := if false then [found_node] else new in
  exists ok (w : @W (cd_world ex_rf ex_sc)) removed s', stale cache [found_node] removed
    /\ updateCachedNodeData DataManager_service cd_nodes false (cd_state ex_cache ex_cache) = Ret (ok, new) s'
    /\ ok = bool_decide (toUpdate = []) || answered_ok toUpdate w
    /\ gl s' = (if ok then set_nodeCache (map_by nc_NodeName [found_node]) (gl s1) else gl s1)
    /\ fs s' = fs s1
    /\ trace s' = (trace s1 ++ unless_empty add_request toUpdate
                    ++ unless_empty remove_request removed)%list.
Proof.
  exact (updateCachedNodeData_effect cd_nodes false (cd_state ex_cache ex_cache) [found_node]
    (cd_read_state (set_nodeCache ex_cache init_globals) ex_cache) eq_refl eq_refl (cd_read _ _)).
Defined.

Definition down_http (r : http_request) (u : unit) : do_result * unit :=
  (if String.eqb (req_Method r) "GET" then DoErr "no route to host" else DoResp 200 (inr "{}"), u).
Definition down_world : World := scripted_world unit down_http (fun _ _ => "key").
Definition down_state : @St down_world :=
  @mkSt down_world (set_nodeCache ex_cache init_globals) empty_FS tt [].

Lemma hsm_outage_wipes_inventory_witness :
  exists s' gets removed, updateCachedNodeData DataManager_service (NewNodeManager (K8Manager_service k8_ok)) false down_state
      = Ret (true, []) s'
    /\ removed ≡ₚ (map_to_list (nodeCache (gl down_state))).*2 /\ nodeCache (gl s') = ∅
    /\ Forall is_GET gets
    /\ trace s' = (trace down_state ++ (EvHTTP <$> gets) ++ [remove_request removed])%list.
Proof.
  apply (@hsm_outage_wipes_inventory down_world); [reflexivity|reflexivity|done|by vm_compute].
Defined.

Lemma inventory_in_step_witness :
  wp (updateCachedNodeData DataManager_service cd_nodes (0 =? 0))
    (fun r s' => exists L', ∅ ⊆ L' /\ synced (@cd_inv ex_rf ex_sc) L' (next_forceUpdateCnt 0 r.1) s'
       /\ (atomic_put (@cd_inv ex_rf ex_sc) -> @reliable_delete (cd_world ex_rf ex_sc) -> L' = ∅)
       /\ (0 = 0 -> r.1 = true -> forall k n, nodeCache (gl s') !! k = Some n ->
              cd_inv (ext s') !! k = Some n))
    (fun _ s' => synced (@cd_inv ex_rf ex_sc) ∅ 0 s') (cd_state ex_cache ex_cache).
Proof.
  apply (inventory_in_step (@cd_inv ex_rf ex_sc) DataManager_service cd_nodes ∅ 0 (cd_state ex_cache ex_cache)).
  split; [|split; [by auto|done]]. intros k n. cbn. rw lookup_singleton. case_decide; [|done].
  intros [= <-]. by subst.
Defined.

Lemma orphan_stays_witness :
  wp (updateCachedNodeData DataManager_service cd_nodes true)
    (fun _ s' => nodeCache (gl s') !! "x9n0" = None /\ cd_inv (ext s') !! "x9n0" = Some gone_node) no_panic
    (cd_state ∅ ex_cache).
Proof.
  apply (orphan_stays (@cd_inv ex_rf ex_sc) DataManager_service cd_nodes true (cd_state ∅ ex_cache) [found_node]
    (cd_read_state (set_nodeCache ∅ init_globals) ex_cache) "x9n0" gone_node);
    [intros k n Hk; by rw lookup_empty in Hk|apply cd_read|reflexivity|set_solver|reflexivity].
Defined.

Lemma scripted_calm X h gj ex : @cluster_calm (scripted_exec_world X h gj ex) k8_ok.
Proof. split; try done. - by intros w d [= <-]. - by intros d w d' Hd [= <-]. Qed.

Lemma new_mountain_nodes_sent_witness :
  exists ok sent s', doHardwareUpdate DataManager_service (NewNodeManager (K8Manager_service k8_ok)) false (cd_state ∅ ∅) = Ret (ok, sent) s'
    /\ (forall n, n ∈ sent -> isMountain n = true /\ n ∈ [found_node] /\ nodeCache (gl (cd_state ∅ ∅)) !! nc_NodeName n = None)
    /\ (forall k n, nodeCache (gl s') !! k = Some n -> nodeCache (gl (cd_state ∅ ∅)) !! k = None ->
          isMountain n = true -> n ∈ sent).
Proof.
  eapply (@new_mountain_nodes_sent (cd_world ex_rf ex_sc) k8_ok false (cd_state ∅ ∅) [found_node]
    (cd_read_state (set_hardwareUpdateTime "2024-01-01T00:00:00Z" (set_nodeCache ∅ init_globals)) ∅));
    [reflexivity|reflexivity|apply scripted_calm|reflexivity|apply cd_read|cbn; lia].
Defined.

(** A data service that refuses every update, and a fixed list of nodes. *)
Definition refusing : DataService := {|
  ds_dataAddNodes := fun _ => ret false;
  ds_dataRemoveNodes := fun _ => ret tt;
  ds_getNodePodForXname := fun _ => ret ("", None) |}.
Definition fixed_nodes : NodeService := {|
  ns_getRedfishEndpoints := ret ([], None);
  ns_getStateComponents := ret ([], None);
  ns_getCurrentNodesFromHSM := ret [found_node];
  ns_updateNodeCounts := fun _ _ => ret tt |}.

Lemma failed_update_forces_next_witness :
  let s' := sim_state (set_hardwareUpdateTime "2024-01-01T00:00:00Z" init_globals) quiet in
  watchHardware refusing fixed_nodes 2 5 (sim_state init_globals quiet)
  = (let! (ok, sent') := doHardwareUpdate refusing fixed_nodes true in
     ret (next_forceUpdateCnt 0 ok, ([] ++ sent' ++ [])%list)) s'.
Proof.
  exact (failed_update_forces_next refusing fixed_nodes 5 (sim_state init_globals quiet) []
    (sim_state (set_hardwareUpdateTime "2024-01-01T00:00:00Z" init_globals) quiet) eq_refl eq_refl eq_refl).
Defined.

Lemma readSingleEnvVarInt_clamps_witness :
  readSingleEnvVarInt (fun _ => "9999") "MAX_MTN_NODES_PER_POD" 750 5 1500
  = match atoi "9999" with Some z => Z.max 5 (Z.min 1500 z) | None => 750 end.
Proof. apply (readSingleEnvVarInt_clamps (fun _ => "9999") "MAX_MTN_NODES_PER_POD" 750 5 1500). lia. Defined.

Lemma main_init_config_witness :
  let s := sim_state init_globals quiet in
  exists g, gl (match main_init true (fun _ => "7") None None s with Ret _ s' | Panic _ s' => s' end) = g
    /\ 5 <= maxMtnNodesPerPod g <= 1500 /\ 5 <= maxRvrNodesPerPod g <= 4000
    /\ pod_max (maxMtnNodesPerPod g) /\ pod_max (maxRvrNodesPerPod g)
    /\ 10 <= newHardwareCheckPeriodSec g <= 14400
    /\ 10 <= heartbeatCheckPeriodSec g <= 300 /\ 1 <= heartbeatStaleMinutes g <= 60
    /\ nodeCache g = ∅ /\ numNodePods g = -1 /\ inShutdown g = false
    /\ (debugOnly g = true <-> true = true \/ "7" = "TRUE")
    /\ ((exists km s', main_init true (fun _ => "7") None None s = Ret km s') <-> (@None error = None) /\ (@None error = None)).
Proof. exact (main_init_config true (fun _ => "7") None None (sim_state init_globals quiet) eq_refl). Defined.
