(* ===== verification/Zombies.v ===== *)
(** * zombies.go: the reaping of zombie processes

    As process 1 of its container the operator must wait for orphaned children.
    [findZombies] runs [ps] and parses its output; each turn of
    [watchForZombies] starts [killZombie] for every pid found, in a goroutine of
    its own.  The parsing uses [strings.Fields] and [Buffer.ReadString]. *)
From S2P Require Import Prelude GoStrings Json JsonFacts State SimWorld K8s.
From Stdlib Require Import Ascii.
#[local] Open Scope string_scope.
#[local] Open Scope Z_scope.

(** ** strings.Fields *)

(** [unicode.IsSpace] *)
Definition rune_is_space (r : Z) : bool :=
  ((9 <=? r) && (r <=? 13)) || (r =? 32) || (r =? 133) || (r =? 160) || (r =? 5760)
  || ((8192 <=? r) && (r <=? 8202)) || (r =? 8232) || (r =? 8233) || (r =? 8239) || (r =? 8287)
  || (r =? 12288).

(** A field being read is kept in [cur]; [skip] bytes of the current rune are
    still to be copied ([copy]) or dropped. *)
Definition flush (cur : string) (rest : list string) : list string :=
  if String.eqb cur "" then rest else cur :: rest.

Fixpoint fields_go (skip : nat) (copy : bool) (cur : string) (s : string) : list string :=
  match s with
  | "" => flush cur []
  | String c s' =>
    match skip with
    | S k => fields_go k copy (if copy then cur +:+ String c "" else cur) s'
    | O =>
      let '(r, n) := decode_rune s in
      if rune_is_space r then flush cur (fields_go (n - 1) false "" s')
      else fields_go (n - 1) true (cur +:+ String c "") s'
    end
  end.
Definition Fields (s : string) : list string := fields_go 0 true "" s.

(** Reading lines until the end of the buffer: a last line without a newline
    comes with [io.EOF], and the loop stops before using it. *)
Fixpoint read_lines (cur : string) (s : string) : list string :=
  match s with
  | "" => []
  | String c s' =>
    if byte_val c =? 10 then (cur +:+ String c "") :: read_lines "" s'
    else read_lines (cur +:+ String c "") s'
  end.

(** The pid of a line of a zombie. *)
Definition zombie_line (readLine : string) : option Z :=
  match Fields readLine with
  | pid :: stat :: _ => if String.eqb stat "Z" then atoi pid else None
  | _ => None
  end.

Section zombies.
Context {WD : World}.

Definition ps_cmd : list string := ["ps"; "-eo"; "pid,stat"].

(** The error of the command is only logged. *)
Definition findZombies : Prog (list Z) :=
  let! (_, outBuf) := exec_Command ps_cmd in
  ret (omap zombie_line (read_lines "" outBuf)).

Definition killZombie (pid : Z) : Prog unit :=
  let! err := ask (os_FindProcess pid) in
  match err with
  | Some _ => ret tt
  | None =>
    record_ev (EvWait pid) ;;;
    let! _ := ask (os_Wait pid) in
    ret tt
  end.

(** One turn: the pids for which a goroutine running [killZombie] is started. *)
Definition watchForZombies_turn : Prog (list Z) := findZombies.

End zombies.

(** ** The output of ps *)

(** A process of the table: its pid and its state flags. *)
Record process := mkProc { pr_pid : Z; pr_stat : string }.

Fixpoint spaces (n : nat) : string := match n with O => "" | S n' => String " " (spaces n') end.
Definition newline_str : string := String (byte_of 10) "".

(** The table [ps -eo pid,stat] prints: pids aligned to the right, flags padded. *)
Definition ps_row (w : nat) (pad : nat) (p : process) : string :=
  spaces w +:+ itoa (pr_pid p) +:+ " " +:+ pr_stat p +:+ spaces pad +:+ newline_str.
Definition ps_table (rows : list (nat * nat * process)) : string :=
  "    PID STAT" +:+ newline_str
  +:+ foldr (fun '(w, pad, p) t => ps_row w pad p +:+ t) "" rows.

(** Flags are one or more printable ASCII characters. *)
Fixpoint all_print (s : string) : bool :=
  match s with
  | "" => true
  | String c s' => (33 <=? byte_val c) && (byte_val c <=? 126) && all_print s'
  end.
Definition stat_ok (s : string) : bool := negb (String.eqb s "") && all_print s.

(** ** Parsing it back *)

Lemma decode_ascii c s : byte_val c < 128 -> decode_rune (String c s) = (byte_val c, 1%nat).
Proof. intros Hc. cbn [decode_rune]. by destruct (Z.ltb_spec (byte_val c) 128); [|lia]. Qed.

Lemma fields_print copy w cur rest :
  all_print w = true -> fields_go 0 copy cur (w +:+ rest) = fields_go 0 true (cur +:+ w) rest
    \/ (w = "" /\ fields_go 0 copy cur (w +:+ rest) = fields_go 0 copy cur rest).
Proof.
  revert copy cur. induction w as [|c w IH]; intros copy cur Hw; [by right|left].
  cbn [all_print] in Hw. apply andb_true_iff in Hw as [[H1 H2]%andb_true_iff Hw].
  rw str_app_cons. cbn [fields_go]. rw decode_ascii; [lia|].
  assert (rune_is_space (byte_val c) = false) as ->.
  { rw /rune_is_space. lia. }
  cbn [Nat.sub]. destruct (IH true (cur +:+ String c "") Hw) as [->|[-> ->]].
  - by rw str_app_assoc.
  - done.
Qed.

Lemma fields_copy_irrel c1 c2 cur s : fields_go 0 c1 cur s = fields_go 0 c2 cur s.
Proof. by destruct s. Qed.

Lemma fields_word w cur rest :
  all_print w = true -> fields_go 0 true cur (w +:+ rest) = fields_go 0 true (cur +:+ w) rest.
Proof.
  intros Hw. destruct (fields_print true w cur rest Hw) as [->|[-> ->]]; [done|]. by rw str_app_nil_r.
Qed.

Lemma fields_blank c cur rest :
  byte_val c = 32 \/ byte_val c = 10 ->
  fields_go 0 true cur (String c rest) = flush cur (fields_go 0 true "" rest).
Proof.
  intros Hc. cbn [fields_go]. rw decode_ascii; [lia|].
  assert (rune_is_space (byte_val c) = true) as -> by (rw /rune_is_space; lia).
  cbn [Nat.sub]. by rw (fields_copy_irrel false true).
Qed.

Lemma fields_spaces n rest : fields_go 0 true "" (spaces n +:+ rest) = fields_go 0 true "" rest.
Proof.
  induction n as [|n IH]; [done|]. cbn [spaces]. rw str_app_cons fields_blank; [by left|]. exact IH.
Qed.

Lemma flush_cons w rest : w <> "" -> flush w rest = w :: rest.
Proof. intros Hw. rw /flush. by destruct (String.eqb_spec w ""). Qed.

Lemma itoa_print z : all_print (itoa z) = true /\ itoa z <> "".
Proof.
  assert (forall s, all_digits s = true -> all_print s = true) as Hd.
  { induction s as [|c s IH]; [done|]. cbn [all_digits all_print]. rw /is_digit.
    intros [Hc Hs]%andb_true_iff. rw IH //. lia. }
  assert (forall s, nat_literal s = true -> all_print s = true) as Hn.
  { intros [|c s]; [done|]. cbn [nat_literal all_print]. rw /is_digit. destruct (byte_val c =? 48) eqn:Hc.
    - intros ->%String.eqb_eq. cbn. lia.
    - intros [H1 H2]%andb_true_iff. rw Hd //. lia. }
  pose proof (itoa_literal z) as H. destruct (itoa z) as [|c s]; [done|]. split; [|done].
  cbn [int_literal] in H. destruct (byte_val c =? 45) eqn:Hc; [|by apply Hn].
  cbn [all_print]. rw Hn //. lia.
Qed.

(** The part of a row before its newline. *)
Definition ps_body (w pad : nat) (p : process) : string :=
  spaces w +:+ itoa (pr_pid p) +:+ " " +:+ pr_stat p +:+ spaces pad.

Lemma ps_row_body w pad p rest : ps_row w pad p +:+ rest = ps_body w pad p +:+ newline_str +:+ rest.
Proof. rw /ps_row /ps_body. by rw !str_app_assoc. Qed.

Lemma ps_row_fields w pad p :
  stat_ok (pr_stat p) = true -> Fields (ps_row w pad p) = [itoa (pr_pid p); pr_stat p].
Proof.
  intros [Hne Hp]%andb_true_iff. destruct (itoa_print (pr_pid p)) as [Hi Hi0].
  assert (pr_stat p <> "") as Hne' by by destruct (String.eqb_spec (pr_stat p) "").
  rw /Fields /ps_row fields_spaces fields_word //.
  change ("" +:+ itoa (pr_pid p)) with (itoa (pr_pid p)).
  change (" " +:+ ?t) with (String " " t). rw fields_blank; [by left|]. rw flush_cons // fields_word //.
  change ("" +:+ pr_stat p) with (pr_stat p).
  assert (fields_go 0 true (pr_stat p) (spaces pad +:+ newline_str) = [pr_stat p]) as ->; [|done].
  destruct pad as [|pad]; cbn [spaces].
  - change ("" +:+ newline_str) with newline_str. rw /newline_str fields_blank; [by right|]. by rw flush_cons.
  - rw str_app_cons fields_blank; [by left|]. rw fields_spaces flush_cons //.
Qed.

Lemma read_lines_line l cur rest :
  str_has (byte_of 10) l = false ->
  read_lines cur (l +:+ newline_str +:+ rest) = (cur +:+ l +:+ newline_str) :: read_lines "" rest.
Proof.
  revert cur. induction l as [|c l IH]; intros cur Hl; [done|].
  rw str_has_cons in Hl. apply orb_false_iff in Hl as [Hc Hl]. rw str_app_cons. cbn [read_lines].
  destruct (Z.eqb_spec (byte_val c) 10) as [Hc10|_].
  - apply Ascii.eqb_neq in Hc. destruct Hc. by rw -(byte_of_val c) Hc10.
  - rw IH //. by rw str_app_assoc.
Qed.

Lemma spaces_no_newline n : str_has (byte_of 10) (spaces n) = false.
Proof. induction n as [|n IH]; [done|]. cbn [spaces]. by rw str_has_cons IH. Qed.

Lemma print_no_newline s : all_print s = true -> str_has (byte_of 10) s = false.
Proof.
  induction s as [|c s IH]; [done|]. cbn [all_print]. intros [[H1 H2]%andb_true_iff Hs]%andb_true_iff.
  rw str_has_cons_ne; [|by apply IH]. change (byte_val (byte_of 10)) with 10. lia.
Qed.

Lemma ps_body_no_newline w pad p :
  stat_ok (pr_stat p) = true -> str_has (byte_of 10) (ps_body w pad p) = false.
Proof.
  intros [_ Hp]%andb_true_iff. rw /ps_body !str_has_app !spaces_no_newline itoa_no_newline.
  by rw (print_no_newline _ Hp).
Qed.

Definition row_ok (r : nat * nat * process) : bool := stat_ok (pr_stat r.2) && in_int64 (pr_pid r.2).

Lemma zombie_row w pad p : row_ok (w, pad, p) = true ->
  zombie_line (ps_row w pad p) = if String.eqb (pr_stat p) "Z" then Some (pr_pid p) else None.
Proof.
  intros [Hs Hi]%andb_true_iff. cbn in Hs, Hi. rw /zombie_line ps_row_fields //.
  by destruct (String.eqb (pr_stat p) "Z"); [rw atoi_itoa|].
Qed.

Lemma parse_ps_table rows :
  forallb row_ok rows = true ->
  omap zombie_line (read_lines "" (ps_table rows))
  = pr_pid <$> filter (fun p => pr_stat p = "Z") rows.*2.
Proof.
  intros Hok. rw /ps_table read_lines_line //. cbn [omap list_omap].
  assert (zombie_line ("" +:+ "    PID STAT" +:+ newline_str) = None) as -> by by vm_compute.
  induction rows as [|[[w pad] p] rows IH]; [done|]. cbn [forallb] in Hok.
  apply andb_true_iff in Hok as [Hr Hok]. cbn [foldr fmap list_fmap]. rw ps_row_body read_lines_line.
  - apply andb_true_iff in Hr as [Hr _]. by apply ps_body_no_newline.
  - cbn [omap list_omap].
    change ("" +:+ ?x) with x. rw -(str_app_nil_r (ps_body w pad p +:+ newline_str)) str_app_assoc -ps_row_body str_app_nil_r.
    rw zombie_row // filter_cons. cbn [snd]. specialize (IH Hok). cbn [omap] in IH.
    destruct (String.eqb_spec (pr_stat p) "Z"); case_decide; try done; cbn; by rw IH.
Qed.

Section zombie_theorems.
Context {WD : World}.

(** A zombie, as ps documents its STAT column: the state is the first letter,
    flags may follow it. *)
Definition is_zombie (p : process) : Prop := exists flags, pr_stat p = String "Z" flags.
#[export] Instance is_zombie_dec p : Decision (is_zombie p).
Proof.
  rw /is_zombie. destruct (pr_stat p) as [|c flags]; [right; by intros []|].
  destruct (decide (c = "Z"%char)) as [->|Hne]; [left; eauto|right; intros [f [= ? ?]]; done].
Defined.

(** A stronger filter keeps as much exactly when the two agree on the list. *)
Lemma filter_stronger {A} (P Q : A -> Prop) `{HP : !forall x, Decision (P x)} `{HQ : !forall x, Decision (Q x)} (l : list A) :
  (forall x, P x -> Q x) ->
  (length (filter P l) <= length (filter Q l))%nat
  /\ (length (filter P l) = length (filter Q l) -> Forall (fun x => Q x -> P x) l)
  /\ (Forall (fun x => Q x -> P x) l -> filter P l = filter Q l).
Proof.
  intros HPQ. induction l as [|x l (IH1 & IH2 & IH3)]; [done|]. rw !filter_cons Forall_cons.
  destruct (decide (P x)) as [Hp|Hp], (decide (Q x)) as [Hq|Hq]; cbn.
  - split_and!; [lia| |]; [intros E; split; [done|]; apply IH2; lia|]. intros [_ Hl]. f_equal. by apply IH3.
  - by destruct Hq; apply HPQ.
  - split_and!; [lia|intros E; exfalso; lia|]. intros [Hx _]. by destruct Hp; apply Hx.
  - split_and!; [done| |]; [intros E; split; [done|]; by apply IH2|]. intros [_ Hl]. by apply IH3.
Qed.

(** C35: which zombies are found. When ps prints its table of processes, with
    the header and any alignment, [findZombies] returns the pids of the
    processes whose STAT is exactly "Z", in the order of the table, and changes
    no variable. These are all the zombies only if none of them carries a flag
    behind its state: a zombie shown as "Z+" or "Zs" is missed. *)
Theorem findZombies_exact rows s :
  forallb row_ok rows = true ->
  (exec_run ps_cmd (fs s) (ext s)).1.1.2 = ps_table rows ->
  exists zs s', findZombies s = Ret zs s'
    /\ zs = pr_pid <$> filter (fun p => pr_stat p = "Z") rows.*2
    /\ (zs = pr_pid <$> filter is_zombie rows.*2 <-> Forall (fun p => is_zombie p -> pr_stat p = "Z") rows.*2)
    /\ gl s' = gl s /\ trace s' = (trace s ++ [EvExec ps_cmd])%list.
Proof.
  intros Hok Hout. rw /findZombies /exec_Command /bind /record_ev /modify /gets /ask /=.
  destruct (exec_run ps_cmd (fs s) (ext s)) as [[[err out] fs'] w']. cbn in *. subst out.
  rw parse_ps_table //. eexists _, _. split; [reflexivity|]. split; [done|]. split; [|done].
  destruct (filter_stronger (fun p => pr_stat p = "Z") is_zombie rows.*2) as (_ & H1 & H2); [intros p Hp; by exists ""|].
  split; [|by intros Hall; rw (H2 Hall)]. intros Heq. apply H1. apply (f_equal length) in Heq. by rw !length_fmap in Heq.
Qed.
End zombie_theorems.

Definition ex_rows : list (nat * nat * process) :=
  [(5, 3, mkProc 1 "Ss"); (4, 4, mkProc 42 "Z"); (3, 3, mkProc 117 "Z+"); (3, 4, mkProc 200 "Z")]%nat.
Definition ps_world : SimW :=
  mkSim (fun _ inv => (DoErr "down", inv)) ∅ (mkSts None "") None None ∅ (fun _ => None) []
    (fun _ fsys => (None, ps_table ex_rows, fsys)).

Lemma findZombies_exact_witness :
  exists zs s', findZombies (sim_state init_globals ps_world) = Ret zs s'
    /\ zs = [42; 200]
    /\ (zs = [42; 117; 200] <-> Forall (fun p => is_zombie p -> pr_stat p = "Z") ex_rows.*2)
    /\ gl s' = init_globals /\ trace s' = ([] ++ [EvExec ps_cmd])%list.
Proof. exact (findZombies_exact ex_rows (sim_state init_globals ps_world) eq_refl eq_refl). Defined.
