(* ===== verification/Sls.v ===== *)
(** * sls.go: the aliases of nodes

    [getXnameAlias] reads the hardware list of SLS into generic maps and picks
    the first alias of every entry that has one.  Its type assertions panic on
    entries of another shape; the error of the decoding is ignored. *)
From S2P Require Import Prelude GoStrings Json JsonFacts JsonCodec State SimWorld HttpUtils Nodes.
#[local] Open Scope string_scope.
#[local] Open Scope Z_scope.

Record XnameNodeAlias := mkAlias { xna_xname : string; xna_alias : string }.

(** The value a Go map decoded from an object holds for a key: the last one. *)
Definition map_get (k : string) (m : list (string * json)) : option json :=
  snd <$> last (filter (fun kv => kv.1 = k) m).

(** Decoding into a slice of maps: a value of another type leaves a nil map. *)
Definition as_map (j : json) : list (string * json) := match j with JObj l => l | _ => [] end.
Definition dec_maps (data : string) : list (list (string * json)) :=
  match parse_json data with
  | Some (JArr l) => as_map <$> l
  | _ => []
  end.

Definition assertion_failed : string := "interface conversion: interface {} has the wrong dynamic type".

(** One entry: the pair it contributes, if any; or the panic of an assertion. *)
Definition alias_entry (element : list (string * json)) : string + option XnameNodeAlias :=
  match map_get "Xname" element with
  | Some (JStr xname) =>
    let aliases : string + list json :=
      match map_get "ExtraProperties" element with
      | None => inr []
      | Some (JObj ep) => match map_get "Aliases" ep with Some (JArr l) => inr l | _ => inr [] end
      | Some _ => inl assertion_failed
      end in
    match aliases with
    | inl e => inl e
    | inr [] => inr None
    | inr (first :: _) =>
      if String.eqb xname "" then inr None
      else match first with
           | JStr a => inr (Some (mkAlias xname a))
           | _ => inl assertion_failed
           end
    end
  | _ => inl assertion_failed
  end.

Section sls.
Context {WD : World}.

Definition sls_url : string := "http://cray-sls/v1/hardware".

Definition alias_step (acc : list XnameNodeAlias) (element : list (string * json))
  : Prog (list XnameNodeAlias) :=
  match alias_entry element with
  | inl e => panic e
  | inr None => ret acc
  | inr (Some a) => ret (acc ++ [a])%list
  end.

Definition getXnameAlias : Prog (list XnameNodeAlias * option error) :=
  let! (data, _, err) := getURL sls_url [] in
  match err with
  | Some e => ret ([], Some e)
  | None =>
    let slsRespMap := dec_maps (default "" data) in
    let! xnameAlias := foldM alias_step [] slsRespMap in
    ret (xnameAlias, None)
  end.

(** The interface the handlers are given. *)
Record SlsService := { sls_getXnameAlias : Prog (list XnameNodeAlias * option error) }.
Definition NewSlsManager : SlsService := {| sls_getXnameAlias := getXnameAlias |}.

(** ** What is found *)

(** The value a decoded object holds for a key, and a key it does not have. *)
Definition holds (m : list (string * json)) (k : string) (v : json) : Prop :=
  exists m1 m2, m = (m1 ++ (k, v) :: m2)%list /\ k ∉ m2.*1.
Definition lacks (m : list (string * json)) (k : string) : Prop := k ∉ m.*1.

(** An entry of the shape SLS documents, and the pair it stands for: its name
    with the first of its aliases, if it has a name and aliases. *)
Inductive entry_alias (e : list (string * json)) : option XnameNodeAlias -> Prop :=
| ea_alias x ep a l : holds e "Xname" (JStr x) -> x <> "" -> holds e "ExtraProperties" (JObj ep) ->
    holds ep "Aliases" (JArr (JStr a :: l)) -> entry_alias e (Some (mkAlias x a))
| ea_nameless ep : holds e "Xname" (JStr "") -> holds e "ExtraProperties" (JObj ep) -> entry_alias e None
| ea_plain x : holds e "Xname" (JStr x) -> lacks e "ExtraProperties" -> entry_alias e None
| ea_no_aliases x ep : holds e "Xname" (JStr x) -> holds e "ExtraProperties" (JObj ep) ->
    (lacks ep "Aliases" \/ holds ep "Aliases" JNull \/ holds ep "Aliases" (JArr [])) -> entry_alias e None.

Lemma lacks_get m k : lacks m k -> map_get k m = None.
Proof.
  rw /lacks /map_get. intros Hk. assert (filter (fun kv : string * json => kv.1 = k) m = []) as ->; [|done].
  induction m as [|[k' v] m IH]; [done|]. rw filter_cons. cbn in Hk |- *. apply not_elem_of_cons in Hk as [? ?].
  rw decide_False; [congruence|by apply IH].
Qed.

Lemma holds_get m k v : holds m k v -> map_get k m = Some v.
Proof.
  intros (m1 & m2 & -> & Hk). rw /map_get filter_app filter_cons decide_True; [done|].
  pose proof (lacks_get m2 k Hk) as Hn. rw /map_get in Hn.
  destruct (filter (fun kv : string * json => kv.1 = k) m2) as [|y l]; [by rw last_snoc|].
  exfalso. revert Hn. generalize y. clear y. induction l as [|z l IH]; intros y; [done|]. apply IH.
Qed.

Lemma entry_alias_ok e r : entry_alias e r -> alias_entry e = inr r.
Proof.
  intros [x ep a l Hx%holds_get Hne Hp%holds_get Ha%holds_get|ep Hx%holds_get Hp%holds_get
         |x Hx%holds_get Hp%lacks_get|x ep Hx%holds_get Hp%holds_get Ha]; rw /alias_entry Hx Hp; [rw Ha| |done|].
  - by apply String.eqb_neq in Hne as ->.
  - by destruct (map_get "Aliases" ep) as [[| | | |[|y l]|]|].
  - by destruct Ha as [->%lacks_get|[->%holds_get| ->%holds_get]].
Qed.

Lemma alias_fold acc l rs s :
  Forall2 entry_alias l rs -> foldM alias_step acc l s = Ret (acc ++ omap id rs)%list s.
Proof.
  intros Hl. revert acc. induction Hl as [|e r l rs He Hl IH]; intros acc; [by rw app_nil_r|].
  cbn [foldM omap list_omap]. rw /bind /alias_step (entry_alias_ok _ _ He). destruct r as [a|]; cbn.
  - rw IH -app_assoc //.
  - by rw IH.
Qed.

(** C34: the aliases of SLS. When SLS answers with a list of entries of the
    documented shape, [getXnameAlias] returns, in order, the name and the first
    alias of exactly the entries with a non-empty name and at least one alias;
    one GET is made and nothing changes. *)
Theorem getXnameAlias_entries s code data l w' es rs :
  newRequest_err "GET" sls_url = None ->
  client_Do (mkReq "GET" sls_url [] None) (ext s) = (DoResp code (inr data), w') ->
  parse_json data = Some (JArr l) -> l = JObj <$> es -> Forall2 entry_alias es rs ->
  getXnameAlias s
  = Ret (omap id rs, None) (mkSt (gl s) (fs s) w' (trace s ++ [EvHTTP (mkReq "GET" sls_url [] None)])%list).
Proof.
  intros Hu Hr Hp -> Hok. pose proof (doURL_spec "GET" sls_url None [] s Hu) as Hd. cbn zeta in Hd.
  rw Hr in Hd. rw /getXnameAlias /getURL /bind Hd. cbn [doURL_result default from_option id].
  assert (dec_maps data = es) as ->.
  { rw /dec_maps Hp -list_fmap_compose. rw -{2}(list_fmap_id es). by apply list_fmap_ext. }
  by rw (alias_fold [] es rs).
Qed.

(** An entry on which no assertion fails. *)
Definition entry_ok (element : list (string * json)) : bool :=
  match alias_entry element with inl _ => false | inr _ => true end.

(** One malformed entry fails the whole query. If any entry of SLS's answer
    has no string under "Xname", or extra properties that are not an object, or
    a first alias that is not a string, the lookup panics. *)
Theorem getXnameAlias_malformed s code data l w' :
  newRequest_err "GET" sls_url = None ->
  client_Do (mkReq "GET" sls_url [] None) (ext s) = (DoResp code (inr data), w') ->
  parse_json data = Some (JArr l) -> forallb entry_ok (as_map <$> l) = false ->
  exists s', getXnameAlias s = Panic assertion_failed s' /\ gl s' = gl s.
Proof.
  intros Hu Hr Hp Hbad. pose proof (doURL_spec "GET" sls_url None [] s Hu) as Hd. cbn zeta in Hd.
  rw Hr in Hd. rw /getXnameAlias /getURL /bind Hd. cbn [doURL_result default from_option id].
  rw /dec_maps Hp. clear Hd. revert Hbad. generalize (@nil XnameNodeAlias) as acc.
  generalize (as_map <$> l) as es. induction es as [|e es IH]; intros acc Hbad; [done|].
  cbn [forallb] in Hbad. cbn [foldM]. rw /bind /alias_step. rw {1}/entry_ok in Hbad.
  destruct (alias_entry e) as [m|[a|]] eqn:He; cbn in Hbad |- *; [|exact (IH _ Hbad)..].
  assert (m = assertion_failed) as ->; [|by eauto].
  revert He. rw /alias_entry. destruct (map_get "Xname" e) as [[]|]; try congruence.
  destruct (map_get "ExtraProperties" e) as [[]|]; try congruence.
  destruct (map_get "Aliases" l0) as [[]|]; try congruence.
  destruct l1 as [|[] ?]; try congruence; destruct (String.eqb s0 ""); congruence.
Qed.
End sls.

(** ** Witnesses *)

Definition ex_entries : list (list (string * json)) :=
  [[("Xname", JStr "x3000c0s17b1"); ("ExtraProperties", JObj [("Aliases", JArr [JStr "ncn-w001"; JStr "w1"])])];
   [("Xname", JStr "x3000"); ("Class", JStr "River")]].
Definition ex_sls : list json := JObj <$> ex_entries.
Definition sls_world (l : list json) : World :=
  scripted_world unit (fun _ w => (DoResp 200 (inr (print_json (JArr l))), w)) (fun _ _ => "").
Definition sls_state (l : list json) : @St (sls_world l) := @mkSt (sls_world l) init_globals empty_FS tt [].

Lemma getXnameAlias_entries_witness :
  getXnameAlias (sls_state ex_sls)
  = Ret ([mkAlias "x3000c0s17b1" "ncn-w001"], None)
        (@mkSt (sls_world ex_sls) init_globals empty_FS tt [EvHTTP (mkReq "GET" sls_url [] None)]).
Proof.
  apply (@getXnameAlias_entries (sls_world ex_sls) (sls_state ex_sls) 200 (print_json (JArr ex_sls)) ex_sls tt
    ex_entries [Some (mkAlias "x3000c0s17b1" "ncn-w001"); None]); [done|done|by vm_compute|done|].
  constructor; [|constructor; [|by constructor]].
  - eapply (ea_alias _ _ _ "ncn-w001" [JStr "w1"]); [|done|..].
    + exists [], [("ExtraProperties", JObj [("Aliases", JArr [JStr "ncn-w001"; JStr "w1"])])]. split; [done|set_solver].
    + exists [("Xname", JStr "x3000c0s17b1")], []. split; [done|set_solver].
    + exists [], []. split; [done|set_solver].
  - apply (ea_plain _ "x3000"); [|rw /lacks; set_solver]. exists [], [("Class", JStr "River")]. split; [done|set_solver].
Defined.

Lemma getXnameAlias_malformed_witness :
  exists s', getXnameAlias (sls_state [JObj [("Xname", JNull)]]) = Panic assertion_failed s' /\ gl s' = init_globals.
Proof.
  exact (@getXnameAlias_malformed (sls_world [JObj [("Xname", JNull)]]) (sls_state [JObj [("Xname", JNull)]])
    200 (print_json (JArr [JObj [("Xname", JNull)]])) [JObj [("Xname", JNull)]] tt
    eq_refl eq_refl ltac:(by vm_compute) eq_refl).
Defined.
