(* ===== verification/Handlers.v ===== *)
(** * The HTTP API: the handlers of data.go, health.go and debug.go, and router.go

    A handler takes the response writer and the request and gives back the
    writer; what it does to the process is in the monad.  [routes] is the table
    [setupRoutes] registers; the matching of patterns is the router library's. *)
From S2P Require Import Prelude GoStrings Json JsonFacts JsonCodec State SimWorld HttpUtils K8s Nodes Data Sls.
#[local] Open Scope string_scope.
#[local] Open Scope Z_scope.

(** What the handlers read of a request: [sr_URLParam] is [chi.URLParam], the
    body is what reading it gives. *)
Record srv_request := mkSR {
  sr_Method : string;
  sr_Path : string;
  sr_URLParam : string -> string;
  sr_ContentType : string;
  sr_Body : error + string }.

Definition StatusOK : Z := 200.
Definition StatusNoContent : Z := 204.
Definition StatusBadRequest : Z := 400.
Definition StatusMethodNotAllowed : Z := 405.
Definition StatusInternalServerError : Z := 500.

Definition BaseResponse_json (msg : string) : json := JObj [("message", JStr msg)].

(** [w.Header().Set("Allow", m)] and the 405 answer: what every handler does
    with a request of another method. *)
Definition method_not_allowed (w : ResponseWriter) (m : string) (r : srv_request) : ResponseWriter :=
  sendJSONError (Header_Set "Allow" m w) StatusMethodNotAllowed ("(" +:+ sr_Method r +:+ ") Not Allowed").

Definition base_error (w : ResponseWriter) (code : Z) (msg : string) : ResponseWriter :=
  SendResponseJSON w code (Some (BaseResponse_json msg)).

Section handlers.
Context {WD : World}.

Definition handler : Type := ResponseWriter -> srv_request -> Prog ResponseWriter.

(** ** data.go *)

Definition PodLocationDataResponse_json (podName alias xname : string) : json :=
  JObj [("podname", JStr podName); ("alias", JStr alias); ("xname", JStr xname)].

(** The last entry with the alias wins. *)
Definition find_xname (alias : string) (l : list XnameNodeAlias) : string :=
  foldl (fun xname xna => if String.eqb (xna_alias xna) alias then xna_xname xna else xname) "" l.

Definition doGetPodLocation (k8Service : K8Service) (slsService : SlsService) : handler := fun w r =>
  if negb (String.eqb (sr_Method r) "GET") then ret (method_not_allowed w "GET" r)
  else
    let podID := sr_URLParam r "podID" in
    if String.eqb podID "" then
      ret (base_error w StatusBadRequest
             ("There was an error reading the podID from the request " +:+ sr_Path r))
    else
      let! (alias, err) := k8_getPodLocationAlias k8Service podID in
      match err with
      | Some e => ret (base_error w StatusInternalServerError
                         ("There was an error retrieving pod location " +:+ e))
      | None =>
        let! (xnameAliases, err) := sls_getXnameAlias slsService in
        match err with
        | Some e => ret (base_error w StatusInternalServerError
                           ("There was an error getting the xnames from cray-sls " +:+ e))
        | None =>
          let xname := find_xname alias xnameAliases in
          ret (SendResponseJSON w StatusOK (Some (PodLocationDataResponse_json podID alias xname)))
        end
      end.

(** Reading a JSON body into a struct, as two handlers do: the answer to a bad
    request, or the decoded value. *)
Definition read_json_body {A} (d : decoder A) (zero : A) (w : ResponseWriter) (r : srv_request)
  : ResponseWriter + A :=
  match sr_Body r with
  | inl e => inl (base_error w StatusBadRequest ("There was an error reading the request body: S" +:+ e))
  | inr reqBody =>
    if negb (String.eqb (sr_ContentType r) "application/json")
    then inl (base_error w StatusBadRequest "Expecting Content-Type: application/json")
    else
      match unmarshal d (Some reqBody) zero with
      | (_, Some e) => inl (base_error w StatusBadRequest
                             ("There was an error while decoding the json data: " +:+ e))
      | (inData, None) => inr inData
      end
  end.

Definition dec_GetNodeData : decoder string := dec_struct [mk_field "xname" id (fun v _ => v) dec_string].

Definition GetNodePodResponse_json (podName : string) : json := JObj [("podname", JStr podName)].

Definition doGetNodePod (dm : DataService) : handler := fun w r =>
  if negb (String.eqb (sr_Method r) "GET") then ret (method_not_allowed w "GET" r)
  else
    match read_json_body dec_GetNodeData "" w r with
    | inl w' => ret w'
    | inr xname =>
      let! (podName, err) := ds_getNodePodForXname dm xname in
      match err with
      | Some e => ret (base_error w StatusInternalServerError
                         ("There was an error querying console-data service: " +:+ e))
      | None => ret (SendResponseJSON w StatusOK (Some (GetNodePodResponse_json podName)))
      end
    end.

Definition replicas_json (n : Z) : json := JObj [("replicas", JNum (itoa n))].

(** The answer to an error is followed by the regular one: there is no return. *)
Definition doGetPodReplicaCount (k8Service : K8Service) : handler := fun w r =>
  if negb (String.eqb (sr_Method r) "GET") then ret (method_not_allowed w "GET" r)
  else
    let! (nodeRepCount, err) := k8_getReplicaCount k8Service in
    let w := match err with
             | Some e => base_error w StatusInternalServerError
                 ("There was an error while retrieving console-node replica counts: " +:+ e +:+ newline)
             | None => w
             end in
    ret (SendResponseJSON w StatusOK (Some (replicas_json nodeRepCount))).

Record GetCurrentTargetsResponse := mkTargets {
  gt_TargetNumRvrNodes : Z; gt_TargetNumMtnNodes : Z; gt_TotalRvrNodes : Z; gt_TotalMtnNodes : Z;
  gt_TargetNumNodePods : Z }.
Definition targets_json (t : GetCurrentTargetsResponse) : json :=
  JObj [("targetnumrvrnodes", JNum (itoa (gt_TargetNumRvrNodes t)));
        ("targetnummtnnodes", JNum (itoa (gt_TargetNumMtnNodes t)));
        ("totalrvrnodes", JNum (itoa (gt_TotalRvrNodes t)));
        ("totalmtnnodes", JNum (itoa (gt_TotalMtnNodes t)));
        ("targetnumnodepods", JNum (itoa (gt_TargetNumNodePods t)))].

Definition current_targets (g : Globals) : GetCurrentTargetsResponse :=
  mkTargets (numRvrNodesPerPod g) (numMtnNodesPerPod g) (totalRvrNodes g) (totalMtnNodes g) (numNodePods g).

Definition doGetCurrentTargets : handler := fun w r =>
  if negb (String.eqb (sr_Method r) "GET") then ret (method_not_allowed w "GET" r)
  else
    let! resp := gvar current_targets in
    ret (SendResponseJSON w StatusOK (Some (targets_json resp))).

(** ** health.go *)

Record HealthResponse := mkHealth {
  h_NumberConsoles : string; h_HardwareUpdateSec : string; h_LastHardwareUpdate : string;
  h_NumberNodePods : string; h_NumberRvrNodesPerPod : string; h_NumberMtnNodesPerPod : string;
  h_MaxRvrNodesPerPod : string; h_MaxMtnNodesPerPod : string; h_HeartbeatCheckSec : string;
  h_HeartbeatStaleMin : string }.
Definition health_json (h : HealthResponse) : json :=
  JObj [("consoles", JStr (h_NumberConsoles h)); ("hardwareupdatesec", JStr (h_HardwareUpdateSec h));
        ("hardwareupdate", JStr (h_LastHardwareUpdate h)); ("nodepods", JStr (h_NumberNodePods h));
        ("rvrnodesperpod", JStr (h_NumberRvrNodesPerPod h)); ("mtnnodesperpod", JStr (h_NumberMtnNodesPerPod h));
        ("maxrvrnodesperpod", JStr (h_MaxRvrNodesPerPod h)); ("maxmtnnodesperpod", JStr (h_MaxMtnNodesPerPod h));
        ("heartbeatcheck", JStr (h_HeartbeatCheckSec h)); ("heartbeatstale", JStr (h_HeartbeatStaleMin h))].

Definition getCurrentHealth : Prog HealthResponse :=
  let! g := gets gl in
  ret (mkHealth (itoa (Z.of_nat (size (nodeCache g)))) (itoa (newHardwareCheckPeriodSec g))
    (hardwareUpdateTime g) (itoa (numNodePods g)) (itoa (numRvrNodesPerPod g)) (itoa (numMtnNodesPerPod g))
    (itoa (maxRvrNodesPerPod g)) (itoa (maxMtnNodesPerPod g)) (itoa (heartbeatCheckPeriodSec g))
    (itoa (heartbeatStaleMinutes g))).

Definition doHealth : handler := fun w r =>
  if negb (String.eqb (sr_Method r) "GET") then ret (method_not_allowed w "GET" r)
  else
    let! stats := getCurrentHealth in
    ret (SendResponseJSON w StatusOK (Some (health_json stats))).

Definition doLiveness : handler := fun w r =>
  if negb (String.eqb (sr_Method r) "GET") then ret (method_not_allowed w "GET" r)
  else ret (WriteHeader StatusNoContent w).

Definition doReadiness : handler := fun w r =>
  if negb (String.eqb (sr_Method r) "GET") then ret (method_not_allowed w "GET" r)
  else ret (WriteHeader StatusNoContent w).

(** ** debug.go *)

Definition pinNumNodes (numAsk numMin numMax : Z) : Z * bool :=
  if numAsk <? numMin then (numMin, false)
  else if numMax <? numAsk then (numMax, false)
  else (numAsk, true).

Record MaxNodeData := mkMax { md_MaxRvrNodes : Z; md_MaxMtnNodes : Z }.
Definition dec_MaxNodeData : decoder MaxNodeData := dec_struct [
  mk_field "maxRvr" md_MaxRvrNodes (fun v d => mkMax v (md_MaxMtnNodes d)) dec_int;
  mk_field "maxMtn" md_MaxMtnNodes (fun v d => mkMax (md_MaxRvrNodes d) v) dec_int ].

Definition doSetMaxNodesPerPod : handler := fun w r =>
  if negb (String.eqb (sr_Method r) "PATCH") then ret (method_not_allowed w "PATCH" r)
  else
    match read_json_body dec_MaxNodeData (mkMax 0 0) w r with
    | inl w' => ret w'
    | inr inData =>
      gset_var (set_maxMtnNodesPerPod (pinNumNodes (md_MaxMtnNodes inData) 2 750).1) ;;;
      gset_var (set_maxRvrNodesPerPod (pinNumNodes (md_MaxRvrNodes inData) 2 2000).1) ;;;
      ret (WriteHeader StatusOK w)
    end.

(** The pods and their numbers of nodes; a nil slice is encoded as null. *)
Definition pair_json (kv : string * Z) : json :=
  JObj [("PodID", JStr kv.1); ("NumNodes", JNum (itoa kv.2))].
Definition info_json (nodes : list (string * Z)) (h : HealthResponse) : json :=
  JObj [("Nodes", match nodes with [] => JNull | _ => JArr (pair_json <$> nodes) end); ("Health", health_json h)].

Definition tally_add (tally : gmap string Z) (pod : string) : gmap string Z :=
  <[pod := int64 (default 0 (tally !! pod) + 1)]> tally.

Definition tally_step (dm : DataService) (tally : gmap string Z) (nn : string) : Prog (gmap string Z) :=
  let! (podName, err) := ds_getNodePodForXname dm nn in
  match err with
  | Some _ => ret (tally_add tally "Unassigned")
  | None => ret (tally_add tally podName)
  end.

Definition doInfo (dm : DataService) : handler := fun w r =>
  if negb (String.eqb (sr_Method r) "GET") then ret (method_not_allowed w "GET" r)
  else
    let! health := getCurrentHealth in
    let! cache := gvar nodeCache in
    let! names := range cache in
    let! tally := foldM (tally_step dm) ∅ names.*1 in
    let! entries := range tally in
    ret (SendResponseJSON w StatusOK (Some (info_json entries health))).

Definition doClearData (dm : DataService) : handler := fun w r =>
  if negb (String.eqb (sr_Method r) "DELETE") then ret (method_not_allowed w "DELETE" r)
  else
    let! cache := gvar nodeCache in
    let! entries := range cache in
    gset_var (set_nodeCache ∅) ;;;
    ds_dataRemoveNodes dm entries.*2 ;;;
    ret (WriteHeader StatusOK w).

Definition doSuspend : handler := fun w r =>
  if negb (String.eqb (sr_Method r) "POST") then ret (method_not_allowed w "POST" r)
  else
    gset_var (set_inShutdown true) ;;;
    ret (WriteHeader StatusOK w).

Definition doResume : handler := fun w r =>
  if negb (String.eqb (sr_Method r) "POST") then ret (method_not_allowed w "POST" r)
  else
    gset_var (set_inShutdown false) ;;;
    ret (WriteHeader StatusOK w).

(** ** router.go *)

Definition routes (k8Service : K8Service) (slsService : SlsService) (ds : DataService)
  : list (string * string * handler) :=
  [("GET", "/console-operator/liveness", doLiveness);
   ("GET", "/console-operator/readiness", doReadiness);
   ("GET", "/console-operator/health", doHealth);
   ("GET", "/console-operator/info", doInfo ds);
   ("DELETE", "/console-operator/clearData", doClearData ds);
   ("POST", "/console-operator/suspend", doSuspend);
   ("POST", "/console-operator/resume", doResume);
   ("PATCH", "/console-operator/v0/setMaxNodesPerPod", doSetMaxNodesPerPod);
   ("GET", "/console-operator/v0/getNodePod", doGetNodePod ds);
   ("GET", "/console-operator/v1/location/{podID}", doGetPodLocation k8Service slsService);
   ("GET", "/console-operator/v1/replicas", doGetPodReplicaCount k8Service);
   ("GET", "/console-operator/v1/currentTargets", doGetCurrentTargets)].

End handlers.
