(* ===== verification/HandlersFacts.v ===== *)
(** * Properties of the HTTP API

    - the method guards agree with the router's table;
    - what the query handlers answer, and that clients can read it back;
    - the debug endpoints: their effect on the variables, the tally of
      [doInfo], the configuration kept within bounds by every handler;
    - suspending, resuming and clearing, together with the main loop. *)
From S2P Require Import Prelude GoStrings Json JsonFacts JsonCodec State SimWorld HttpUtils K8s Nodes NodesFacts Data Creds CredsFacts Inventory OpMain OpMainFacts Sls Handlers.
#[local] Open Scope string_scope.
#[local] Open Scope Z_scope.

Section api.
Context {WD : World}.

(** ** Method guards *)

Lemma guard_rejects (m : string) (r : srv_request) (w : ResponseWriter) (k : Prog ResponseWriter) s :
  sr_Method r <> m ->
  (if negb (String.eqb (sr_Method r) m) then ret (method_not_allowed w m r) else k) s
  = Ret (method_not_allowed w m r) s.
Proof. intros Hm. by rw (proj2 (String.eqb_neq _ _) Hm). Qed.

Lemma method_not_allowed_sent m r :
  rw_sent (method_not_allowed new_rw m r)
  = Some (405, <["Content-Type" := "application/json"]> (<["Allow" := m]> ∅)).
Proof. done. Qed.

(** C27: the guards agree with the router. Every handler registered for a method
    answers any other method with status 405 and an Allow header naming the
    registered one, and does nothing else. *)
Theorem routes_guarded k sls ds m p (h : handler) r s :
  (m, p, h) ∈ routes k sls ds -> sr_Method r <> m ->
  exists w, h new_rw r s = Ret w s
    /\ rw_sent w = Some (405, <["Content-Type" := "application/json"]> (<["Allow" := m]> ∅)).
Proof.
  intros Hin Hm. exists (method_not_allowed new_rw m r). split; [|apply method_not_allowed_sent].
  rw /routes in Hin. repeat (apply elem_of_cons in Hin as [[= -> -> ->]|Hin]; [by apply guard_rejects|]).
  by apply not_elem_of_nil in Hin.
Qed.

(** ** Answers *)

Definition get_request : srv_request := mkSR "GET" "" (fun _ => "") "" (inr "").

Definition dec_targets : decoder GetCurrentTargetsResponse := dec_struct [
  mk_field "targetnumrvrnodes" gt_TargetNumRvrNodes (fun v t => mkTargets v (gt_TargetNumMtnNodes t) (gt_TotalRvrNodes t) (gt_TotalMtnNodes t) (gt_TargetNumNodePods t)) dec_int;
  mk_field "targetnummtnnodes" gt_TargetNumMtnNodes (fun v t => mkTargets (gt_TargetNumRvrNodes t) v (gt_TotalRvrNodes t) (gt_TotalMtnNodes t) (gt_TargetNumNodePods t)) dec_int;
  mk_field "totalrvrnodes" gt_TotalRvrNodes (fun v t => mkTargets (gt_TargetNumRvrNodes t) (gt_TargetNumMtnNodes t) v (gt_TotalMtnNodes t) (gt_TargetNumNodePods t)) dec_int;
  mk_field "totalmtnnodes" gt_TotalMtnNodes (fun v t => mkTargets (gt_TargetNumRvrNodes t) (gt_TargetNumMtnNodes t) (gt_TotalRvrNodes t) v (gt_TargetNumNodePods t)) dec_int;
  mk_field "targetnumnodepods" gt_TargetNumNodePods (fun v t => mkTargets (gt_TargetNumRvrNodes t) (gt_TargetNumMtnNodes t) (gt_TotalRvrNodes t) (gt_TotalMtnNodes t) v) dec_int ].

Definition targets_in_range (t : GetCurrentTargetsResponse) : bool :=
  in_int64 (gt_TargetNumRvrNodes t) && in_int64 (gt_TargetNumMtnNodes t) && in_int64 (gt_TotalRvrNodes t)
  && in_int64 (gt_TotalMtnNodes t) && in_int64 (gt_TargetNumNodePods t).

Lemma dec_targets_json t z : targets_in_range t = true -> dec_targets (targets_json t) z = (t, false).
Proof.
  rw /targets_in_range. intros Ht. do 4 (apply andb_true_iff in Ht as [Ht ?]).
  rw /dec_targets /targets_json /dec_struct. cbn [foldl].
  do 5 (erewrite dec_member_int; [|reflexivity|done]). by destruct t.
Qed.

(** A JSON document of this depth, with the newline the encoder adds, reads back. *)
Lemma Unmarshal_encoded {A} (d : decoder A) j z :
  wf_json 3 j = true -> Unmarshal d (print_json j +:+ newline) z = d j z.
Proof.
  intros Hj. apply Unmarshal_print; [|done]. by apply wf_json_shallow.
Qed.

Lemma itoa_wf n d : wf_json d (JNum (itoa n)) = true.
Proof. cbn. apply itoa_literal. Qed.

(** The targets can be read back. A GET of the current targets answers with
    status 200 and one JSON document from which a client decodes exactly the
    five variables, and changes nothing. *)
Theorem currentTargets_roundtrip r s z :
  sr_Method r = "GET" -> targets_in_range (current_targets (gl s)) = true ->
  exists w, doGetCurrentTargets new_rw r s = Ret w s /\ rw_status w = 200
    /\ Unmarshal dec_targets (rw_body w) z = (current_targets (gl s), false).
Proof.
  intros Hm Hr. rw /doGetCurrentTargets Hm. eexists. split; [reflexivity|]. split; [done|].
  change (rw_body _) with ("" +:+ (print_json (targets_json (current_targets (gl s))) +:+ newline)).
  change ("" +:+ ?x) with x. rw Unmarshal_encoded; [|by apply dec_targets_json].
  cbn [wf_json targets_json forallb fst snd]. by rw !itoa_literal.
Qed.

Lemma two_bodies (a b nl : string) : ("" +:+ (a +:+ nl)) +:+ (b +:+ nl) = a +:+ nl +:+ b +:+ nl.
Proof. change ("" +:+ (a +:+ nl)) with (a +:+ nl). by rw str_app_assoc. Qed.

(** A failed replica query answers twice. When the replica count cannot be
    read, the handler answers with status 500 but writes two JSON documents, the
    error and then a replica count of -1, so the body as a whole is no JSON. *)
Theorem replica_error_two_documents k r s s' n e :
  sr_Method r = "GET" -> k8_getReplicaCount k s = Ret (n, Some e) s' -> utf8_valid (e +:+ newline) = true ->
  exists w, doGetPodReplicaCount k new_rw r s = Ret w s' /\ rw_status w = 500
    /\ rw_body w = print_json (BaseResponse_json
          ("There was an error while retrieving console-node replica counts: " +:+ e +:+ newline)) +:+ newline
          +:+ print_json (replicas_json n) +:+ newline
    /\ parse_json (rw_body w) = None.
Proof.
  intros Hm Hk He. set (msg := "There was an error while retrieving console-node replica counts: " +:+ e +:+ newline).
  assert (utf8_valid msg = true) as Hmsg by exact He.
  set (j1 := BaseResponse_json msg). set (j2 := replicas_json n).
  rw /doGetPodReplicaCount Hm String.eqb_refl /bind. cbn [negb]. rw Hk. eexists. split; [reflexivity|].
  split; [done|].
  match goal with |- rw_body ?w = _ /\ _ => assert (rw_body w = print_json j1 +:+ newline +:+ print_json j2 +:+ newline) as Hb end.
  { exact (two_bodies (print_json j1) (print_json j2) newline). }
  split; [exact Hb|]. rw Hb. apply parse_json_trailing; [|done|done].
  apply wf_json_shallow. cbn. by rw Hmsg.
Qed.

(** ** The location of a pod *)

Record PodLocationDataResponse := mkLocation { pl_PodName : string; pl_Alias : string; pl_Xname : string }.
Definition dec_location : decoder PodLocationDataResponse := dec_struct [
  mk_field "podname" pl_PodName (fun v p => mkLocation v (pl_Alias p) (pl_Xname p)) dec_string;
  mk_field "alias" pl_Alias (fun v p => mkLocation (pl_PodName p) v (pl_Xname p)) dec_string;
  mk_field "xname" pl_Xname (fun v p => mkLocation (pl_PodName p) (pl_Alias p) v) dec_string ].

Lemma dec_location_json p a x z :
  dec_location (PodLocationDataResponse_json p a x) z = (mkLocation p a x, false).
Proof.
  rw /dec_location /PodLocationDataResponse_json /dec_struct. cbn [foldl].
  do 3 (erewrite dec_member_string; [|reflexivity]). by destruct z.
Qed.

(** [x] is the name of the last entry with the alias, or empty if there is none. *)
Definition alias_resolves (alias : string) (l : list XnameNodeAlias) (x : string) : Prop :=
  (exists l1 a l2, l = (l1 ++ a :: l2)%list /\ xna_alias a = alias /\ xna_xname a = x
     /\ forall b, b ∈ l2 -> xna_alias b <> alias)
  \/ (x = "" /\ forall a, a ∈ l -> xna_alias a <> alias).

Lemma find_xname_resolves alias l : alias_resolves alias l (find_xname alias l).
Proof.
  rw /find_xname. induction l as [|a l IH] using rev_ind; [right; set_solver|].
  rw foldl_app /=. destruct (String.eqb_spec (xna_alias a) alias) as [Ha|Ha].
  - left. exists l, a, []. split_and!; [done..|set_solver].
  - destruct IH as [(l1 & b & l2 & -> & Hb & Hx & Hl)|[Hx Hl]].
    + left. exists l1, b, (l2 ++ [a])%list. rw -app_assoc. split_and!; [done..|set_solver].
    + right. split; [done|]. set_solver.
Qed.

(** C33: where a pod runs. For a pod that Kubernetes places on the node [alias],
    the handler answers 200 with a document that decodes to the pod, that alias
    and the name SLS gives to it: the last entry with the alias, or empty if no
    entry has it. *)
Theorem doGetPodLocation_found k sls r s s1 s2 alias l z :
  sr_Method r = "GET" -> sr_URLParam r "podID" <> "" ->
  k8_getPodLocationAlias k (sr_URLParam r "podID") s = Ret (alias, None) s1 ->
  sls_getXnameAlias sls s1 = Ret (l, None) s2 ->
  utf8_valid (sr_URLParam r "podID") = true -> utf8_valid alias = true ->
  forallb (fun a => utf8_valid (xna_xname a)) l = true ->
  exists w x, doGetPodLocation k sls new_rw r s = Ret w s2 /\ rw_status w = 200
    /\ Unmarshal dec_location (rw_body w) z = (mkLocation (sr_URLParam r "podID") alias x, false)
    /\ alias_resolves alias l x.
Proof.
  intros Hm Hp Hk Hs U1 U2 U3. rw /doGetPodLocation Hm String.eqb_refl. cbn [negb].
  apply String.eqb_neq in Hp. rw Hp /bind Hk Hs. eexists _, (find_xname alias l).
  split; [reflexivity|]. split; [done|]. split; [|apply find_xname_resolves].
  assert (utf8_valid (find_xname alias l) = true) as Hx.
  { destruct (find_xname_resolves alias l) as [(l1 & a & l2 & -> & _ & <- & _)|[-> _]]; [|done].
    rw forallb_app in U3. cbn in U3. by apply andb_true_iff in U3 as [_ [U3 _]%andb_true_iff]. }
  set (j := PodLocationDataResponse_json _ _ _).
  change (rw_body _) with (print_json j +:+ newline). rw Unmarshal_encoded; [|apply dec_location_json].
  rw /j /PodLocationDataResponse_json. cbn [wf_json forallb fst snd]. by rw U1 U2 Hx.
Qed.

(** The failures of the location query. A missing pod id gives 400 without
    any call; a failure of Kubernetes gives 500 without asking SLS; a failure of
    SLS gives 500. *)
Theorem doGetPodLocation_errors k sls r s s1 s2 a e :
  sr_Method r = "GET" ->
  (sr_URLParam r "podID" = "" ->
     exists w, doGetPodLocation k sls new_rw r s = Ret w s /\ rw_status w = 400)
  /\ (sr_URLParam r "podID" <> "" -> k8_getPodLocationAlias k (sr_URLParam r "podID") s = Ret (a, Some e) s1 ->
     exists w, doGetPodLocation k sls new_rw r s = Ret w s1 /\ rw_status w = 500)
  /\ (forall l, sr_URLParam r "podID" <> "" ->
     k8_getPodLocationAlias k (sr_URLParam r "podID") s = Ret (a, None) s1 ->
     sls_getXnameAlias sls s1 = Ret (l, Some e) s2 ->
     exists w, doGetPodLocation k sls new_rw r s = Ret w s2 /\ rw_status w = 500).
Proof.
  intros Hm. rw /doGetPodLocation Hm String.eqb_refl. cbn [negb]. split_and!.
  - intros ->. eexists. by split.
  - intros Hp%String.eqb_neq Hk. rw Hp /bind Hk. eexists. by split.
  - intros l Hp%String.eqb_neq Hk Hs. rw Hp /bind Hk Hs. eexists. by split.
Qed.

(** ** The configuration under the debug endpoints *)

(** The maxima the sizing formulas are used with. *)
Definition config_ok (g : Globals) : Prop :=
  2 <= maxMtnNodesPerPod g <= 1500 /\ 2 <= maxRvrNodesPerPod g <= 4000.

Lemma config_ok_pod_max g : config_ok g -> pod_max (maxMtnNodesPerPod g) /\ pod_max (maxRvrNodesPerPod g).
Proof. rw /config_ok /pod_max. lia. Qed.

Lemma pinNumNodes_bounds n lo hi : lo <= hi -> lo <= (pinNumNodes n lo hi).1 <= hi.
Proof. intros. rw /pinNumNodes. destruct (Z.ltb_spec n lo), (Z.ltb_spec hi n); cbn; lia. Qed.

Lemma wp_getNodePodForXname x (Q : string * option error -> St -> Prop) E s :
  (forall r s', quiet_frame s s' -> Q r s') -> wp (getNodePodForXname x) Q E s.
Proof.
  intros HQ. rw /getNodePodForXname. apply wp_bind, wp_doURL_quiet. intros [[d c] e] s' Hf.
  destruct e; [by apply wp_ret, HQ|]. destruct (unmarshal _ _ _) as [n [e|]]; by apply wp_ret, HQ.
Qed.

Lemma wp_getXnameAlias_quiet (Q : list XnameNodeAlias * option error -> St -> Prop) (E : string -> St -> Prop) s :
  (forall r s', quiet_frame s s' -> Q r s') -> (forall m s', quiet_frame s s' -> E m s') ->
  wp getXnameAlias Q E s.
Proof.
  intros HQ HE. rw /getXnameAlias. apply wp_bind, wp_doURL_quiet. intros [[d c] e] s' Hf.
  destruct e; [by apply wp_ret, HQ|]. cbn zeta. apply wp_bind.
  eapply wp_mono; [apply (wp_foldM _ (fun _ _ s1 => quiet_frame s s1) (fun _ s1 => quiet_frame s s1))| |].
  - done.
  - intros done x b s1 H1 _. rw /alias_step. by destruct (alias_entry x) as [|[]].
  - intros l s1 H1. by apply wp_ret, HQ.
  - by intros; apply HE.
Qed.

Lemma wp_tally ds names s (Q : gmap string Z -> St -> Prop) E :
  ds = DataManager_service -> (forall t s', quiet_frame s s' -> Q t s') ->
  wp (foldM (tally_step ds) ∅ names) Q E s.
Proof.
  intros -> HQ. eapply wp_mono; [apply (wp_foldM _ (fun _ _ s1 => quiet_frame s s1) E)| |done].
  - done.
  - intros done x b s1 H1 _. rw /tally_step. apply wp_bind, wp_getNodePodForXname. intros [p e] s2 H2.
    assert (quiet_frame s s2) by (etrans; [exact H1|exact H2]). by destruct e; apply wp_ret.
  - intros t s1 H1. by apply HQ.
Qed.

(** What a request may do to the variables. *)
Inductive handler_effect (g : Globals) : Globals -> Prop :=
| he_none : handler_effect g g
| he_clear : handler_effect g (set_nodeCache ∅ g)
| he_flag b : handler_effect g (set_inShutdown b g)
| he_max a b : 2 <= a <= 750 -> 2 <= b <= 2000 ->
    handler_effect g (set_maxRvrNodesPerPod b (set_maxMtnNodesPerPod a g)).

Lemma handler_effect_config g g' : handler_effect g g' -> config_ok g -> config_ok g'.
Proof. rw /config_ok. intros [] ?; cbn; lia. Qed.

Lemma handler_globals km m p (h : handler) w r s :
  (m, p, h) ∈ routes (K8Manager_service km) NewSlsManager DataManager_service ->
  wp (h w r) (fun _ s' => handler_effect (gl s) (gl s')) (fun _ s' => handler_effect (gl s) (gl s')) s.
Proof.
  intros Hin. set (Q := fun (_ : ResponseWriter) s' => handler_effect (gl s) (gl s')).
  set (E := fun (_ : string) s' => handler_effect (gl s) (gl s')).
  assert (forall s', gl s' = gl s -> handler_effect (gl s) (gl s')) as Hq by (intros s' ->; constructor).
  assert (forall mm (k : Prog ResponseWriter), wp k Q E s ->
    wp (if negb (String.eqb (sr_Method r) mm) then ret (method_not_allowed w mm r) else k) Q E s) as Hg
    by (intros mm k Hk; destruct (negb _); [by apply wp_ret, Hq|done]).
  rw /routes in Hin. repeat (apply elem_of_cons in Hin as [[= -> -> ->]|Hin]; [apply Hg|]);
    try (by apply not_elem_of_nil in Hin); try (by apply wp_ret, Hq).
  - (* doInfo *)
    apply wp_bind, wp_bind, wp_gets, wp_ret, wp_bind, wp_gvar, wp_bind, wp_ask. intros names w1 _.
    apply wp_bind, wp_tally; [done|]. intros t s1 [G1 _]. apply wp_bind, wp_ask. intros es w2 _.
    by apply wp_ret, Hq.
  - (* doClearData *)
    apply wp_bind, wp_gvar, wp_bind, wp_ask. intros es w1 _. apply wp_bind, wp_gset_var, wp_bind.
    apply wp_dataRemoveNodes_quiet. intros s1 [G1 _]. apply wp_ret. rw /Q G1. constructor.
  - (* doSuspend *) apply wp_bind, wp_gset_var, wp_ret. constructor.
  - (* doResume *) apply wp_bind, wp_gset_var, wp_ret. constructor.
  - (* doSetMaxNodesPerPod *)
    destruct (read_json_body _ _ _ _) as [w'|d]; [by apply wp_ret, Hq|].
    apply wp_bind, wp_gset_var, wp_bind, wp_gset_var, wp_ret. constructor; apply pinNumNodes_bounds; lia.
  - (* doGetNodePod *)
    destruct (read_json_body _ _ _ _) as [w'|d]; [by apply wp_ret, Hq|]. apply wp_bind, wp_getNodePodForXname.
    intros [pn e] s1 [G1 _]. destruct e; by apply wp_ret, Hq.
  - (* doGetPodLocation *)
    cbn zeta. destruct (String.eqb _ _); [by apply wp_ret, Hq|]. apply wp_bind. cbn [K8Manager_service k8_getPodLocationAlias].
    rw /getPodLocationAlias. destruct (negb (k8_clientset km)); [by apply Hq|].
    apply wp_bind, wp_ask. intros x w1 _. destruct x as [e|n]; apply wp_ret; cbn beta iota; [by apply wp_ret, Hq|].
    apply wp_bind, wp_getXnameAlias_quiet; [|by intros m' s1 [G1 _]; apply Hq].
    intros [l e] s1 [G1 _]. destruct e; by apply wp_ret, Hq.
  - (* doGetPodReplicaCount *)
    apply wp_bind. eapply wp_mono; [apply getReplicaCount_frame| |by intros e s1 (G & _); apply Hq].
    intros [n e] s1 [(G1 & _) _]. by apply wp_ret, Hq.
Qed.

(** C26: what a request can change. Whatever request any handler of the API
    gets, and however the services behind it answer, it leaves the variables
    alone, or empties the cache, or sets the suspend flag, or sets both maxima
    of nodes per pod, to values within the tested range. *)
Theorem handlers_effect km m p (h : handler) w r s :
  (m, p, h) ∈ routes (K8Manager_service km) NewSlsManager DataManager_service ->
  wp (h w r) (fun _ s' => handler_effect (gl s) (gl s')) (fun _ s' => handler_effect (gl s) (gl s')) s.
Proof. apply handler_globals. Qed.

(** ** The tally of doInfo *)

Definition Zsum (l : list Z) : Z := foldr Z.add 0 l.

#[export] Instance Zsum_perm : Proper ((≡ₚ) ==> (=)) Zsum.
Proof. intros l1 l2 H. rw /Zsum. induction H; cbn in *; lia. Qed.

Definition tally_total (t : gmap string Z) : Z := Zsum (map_to_list t).*2.

Lemma tally_total_insert t k v : t !! k = None -> tally_total (<[k := v]> t) = v + tally_total t.
Proof. intros Hk. rw /tally_total. by rw map_to_list_insert. Qed.

Lemma tally_total_delete t k v : t !! k = Some v -> tally_total t = v + tally_total (delete k t).
Proof.
  intros Hk. rw -{1}(insert_delete_id t k v) // tally_total_insert //. by rw lookup_delete_eq.
Qed.

(** After [n] nodes: the counts are not negative and add up to [n]. *)
Definition tally_ok (n : nat) (t : gmap string Z) : Prop :=
  tally_total t = Z.of_nat n /\ forall k v, t !! k = Some v -> 0 <= v <= Z.of_nat n.

Lemma tally_add_ok n t pod :
  Z.of_nat n < 2 ^ 62 -> tally_ok n t -> tally_ok (S n) (tally_add t pod).
Proof.
  intros Hn [Ht Hv]. rw /tally_add.
  assert (0 <= default 0 (t !! pod) <= Z.of_nat n) as Hd.
  { destruct (t !! pod) as [v|] eqn:Hp; cbn; [by apply (Hv pod)|lia]. }
  rw int64_id; [lia|]. split.
  - destruct (t !! pod) as [v|] eqn:Hp; cbn.
    + rw -insert_delete_eq tally_total_insert; [by rw lookup_delete_eq|].
      rw (tally_total_delete t pod v Hp) in Ht. lia.
    + rw tally_total_insert //. lia.
  - intros k v. rw lookup_insert. case_decide; [intros [= <-]; lia|]. intros Hk. specialize (Hv k v Hk). lia.
Qed.

(** C30: the tally of the info endpoint is complete. A GET of the information
    answers 200 with the health data and a list of pods, each once, whose
    numbers of nodes add up to the number of cached nodes; nodes without a pod
    are counted as "Unassigned". No variable and no file changes. *)
Theorem doInfo_tally r s :
  sr_Method r = "GET" -> Z.of_nat (size (nodeCache (gl s))) < 2 ^ 62 ->
  exists w s' entries h, doInfo DataManager_service new_rw r s = Ret w s'
    /\ rw_status w = 200 /\ rw_body w = print_json (info_json entries h) +:+ newline
    /\ NoDup entries.*1 /\ Zsum entries.*2 = Z.of_nat (size (nodeCache (gl s)))
    /\ gl s' = gl s /\ fs s' = fs s.
Proof.
  intros Hm Hsz.
  assert (wp (doInfo DataManager_service new_rw r) (fun w s' => exists entries h,
    rw_status w = 200 /\ rw_body w = print_json (info_json entries h) +:+ newline
    /\ NoDup entries.*1 /\ Zsum entries.*2 = Z.of_nat (size (nodeCache (gl s))) /\ quiet_frame s s') no_panic s) as Hwp.
  2: { destruct (wp_run_ret _ _ _ Hwp) as (w & s' & Hr & entries & h & H1 & H2 & H3 & H4 & H5 & H6).
       exists w, s', entries, h. done. }
  rw /doInfo Hm String.eqb_refl. cbn [negb].
  apply wp_bind, wp_bind, wp_gets, wp_ret, wp_bind, wp_gvar, wp_bind, wp_ask. intros names w1 Ho.
  pose proof (map_order_perm (nodeCache (gl s)) (ext s)) as Hp. rw Ho /= in Hp.
  assert (length names.*1 = size (nodeCache (gl s))) as Hlen by (by rw length_fmap Hp length_map_to_list).
  apply wp_bind. set (s1 := set_ext w1 s). rw -Hlen in Hsz |- *.
  eapply wp_mono; [apply (wp_foldM _ (fun done t s2 =>
    quiet_frame s s2 /\ ((length done <= length names.*1)%nat -> tally_ok (length done) t)) no_panic)| |done].
  - split; [done|]. intros _. split; [done|]. intros k v. by rw lookup_empty.
  - intros done x t s2 [F2 Hok] _. rw /tally_step. apply wp_bind, wp_getNodePodForXname. intros [pn e] s3 F3.
    assert (quiet_frame s s3) as F by (etrans; [exact F2|exact F3]).
    destruct e; apply wp_ret; (split; [exact F|]); rw length_app /= Nat.add_1_r; intros Hl;
      (apply tally_add_ok; [lia|]); apply Hok; lia.
  - intros t s2 [F2 Hok]. destruct (Hok ltac:(lia)) as [Ht _]. apply wp_bind, wp_ask. intros es w2 Ho2.
    pose proof (map_order_perm t (ext s2)) as Hp2. rw Ho2 /= in Hp2.
    apply wp_ret. eexists es, _. split; [done|]. split; [reflexivity|]. split; [|split; [|done]].
    + rw Hp2. apply NoDup_fst_map_to_list.
    + rw -Ht /tally_total. by rw Hp2.
Qed.
End api.

(** ** Suspending, resuming, clearing *)

Section debug_endpoints.
Context {WD : World}.

Definition post_request (r : srv_request) : Prop := sr_Method r = "POST".

(** C32: suspend stops the main loop and resume restarts it. After a suspend,
    answered with 200, any number of turns of the loop do nothing at all and keep
    the counter of forced updates; a resume is answered with 200 and gives back
    exactly the state before the suspend if updates were on then; and the next
    turn is an update again, forced or not as it would have been. *)
Theorem suspend_resume ds ns r n cnt s :
  sr_Method r = "POST" ->
  exists w s1, doSuspend new_rw r s = Ret w s1 /\ rw_status w = 200
    /\ watchHardware ds ns n cnt s1 = Ret (cnt, []) s1
    /\ exists w' s2, doResume new_rw r s1 = Ret w' s2 /\ rw_status w' = 200
       /\ (inShutdown (gl s) = false -> s2 = s)
       /\ watchHardware_turn ds ns cnt s2
          = (let! (ok, sent) := doHardwareUpdate ds ns (cnt =? 0) in ret (next_forceUpdateCnt cnt ok, sent)) s2.
Proof.
  intros Hm. rw /doSuspend /doResume Hm String.eqb_refl. eexists _, _. split; [reflexivity|]. split; [done|]. split.
  - induction n as [|n IH]; [done|]. cbn [watchHardware]. rw /bind.
    rw /watchHardware_turn /bind /gvar /gets /=. by rw IH.
  - eexists _, _. split; [reflexivity|]. split; [done|]. split; [|done].
    intros Hs. destruct s as [g f w t]. cbn in Hs |- *. rw /set_gl /set_inShutdown. cbn. rw -Hs. by destruct g.
Qed.

(** C31: clearing is followed by a full update. A clear empties the cache, sends
    console-data one removal of exactly the cached nodes and touches nothing
    else; the next update, even one that is not forced, then sends every node
    HSM lists and removes none. *)
Theorem clear_then_repopulate ns r s :
  newRequest_err "PUT" inventory_url = None -> newRequest_err "DELETE" inventory_url = None ->
  sr_Method r = "DELETE" ->
  exists w s' removed, doClearData DataManager_service new_rw r s = Ret w s' /\ rw_status w = 200
    /\ removed ≡ₚ (map_to_list (nodeCache (gl s))).*2
    /\ trace s' = (trace s ++ [remove_request removed])%list
    /\ gl s' = set_nodeCache ∅ (gl s) /\ fs s' = fs s
    /\ forall curr s1, ns_getCurrentNodesFromHSM ns s' = Ret curr s1 -> gl s1 = gl s' ->
         exists ok s2, updateCachedNodeData DataManager_service ns false s' = Ret (ok, curr) s2
           /\ trace s2 = (trace s1 ++ unless_empty add_request curr)%list.
Proof.
  intros Hp Hd Hm. rw /doClearData Hm String.eqb_refl. cbn [negb].
  rw /bind /gvar /gets /range /ask. destruct (map_order (nodeCache (gl s)) (ext s)) as [es w1] eqn:Ho.
  pose proof (map_order_perm (nodeCache (gl s)) (ext s)) as Hperm. rw Ho /= in Hperm.
  cbn [gset_var modify set_gl set_ext gl]. cbn [DataManager_service ds_dataRemoveNodes].
  match goal with |- context [dataRemoveNodes es.*2 ?st] =>
    destruct (dataRemoveNodes_run es.*2 st Hd) as [w2 Hr] end.
  rw Hr. eexists _, _, es.*2. split; [reflexivity|]. split; [done|]. split; [by rw Hperm|].
  split; [done|]. split; [done|]. split; [done|]. intros curr s1 Hcurr G1.
  destruct (updateCachedNodeData_run ns false _ curr s1 Hp Hd Hcurr) as (ok & w & removed & s2 & Hst & Hu & _ & _ & _ & T).
  rw G1 in Hst, Hu, T. cbn [gl nodeCache set_nodeCache] in Hst, Hu, T.
  rw /stale map_to_list_empty in Hst. apply Permutation_nil_r in Hst. subst removed.
  rw filter_all in Hu; [by intros; rw lookup_empty|]. rw filter_all in T; [by intros; rw lookup_empty|].
  exists ok, s2. split; [exact Hu|]. by rw T /unless_empty app_nil_r.
Qed.

Definition patch_request (body : json) : srv_request :=
  mkSR "PATCH" "/console-operator/v0/setMaxNodesPerPod" (fun _ => "") "application/json" (inr (print_json body)).

(** A partial patch resets the other maximum. Setting only the Mountain
    maximum to 100 also sets the River maximum, to its least value 2, because
    an absent field counts as zero. *)
Theorem partial_patch_resets_other s :
  exists w, doSetMaxNodesPerPod new_rw (patch_request (JObj [("maxMtn", JNum "100")])) s
    = Ret w (set_gl (set_maxRvrNodesPerPod 2 (set_maxMtnNodesPerPod 100 (gl s))) s) /\ rw_status w = 200.
Proof.
  assert (read_json_body dec_MaxNodeData (mkMax 0 0) new_rw (patch_request (JObj [("maxMtn", JNum "100")]))
    = inr (mkMax 0 100)) as Hb.
  { rw /read_json_body /patch_request. cbn [sr_Body sr_ContentType].
    assert (Unmarshal dec_MaxNodeData (print_json (JObj [("maxMtn", JNum "100")])) (mkMax 0 0) = (mkMax 0 100, false)) as Hu
      by by vm_compute.
    rw (unmarshal_ok _ _ _ _ Hu). done. }
  rw /doSetMaxNodesPerPod Hb. eexists. by split.
Qed.
End debug_endpoints.

(** ** Witnesses *)

Definition ex_request (m : string) : srv_request :=
  mkSR m "/" (fun p => if String.eqb p "podID" then "cray-console-node-0" else "") "application/json" (inr "{}").

Lemma routes_guarded_witness :
  exists w, doHealth new_rw (ex_request "POST") (sim_state init_globals quiet) = Ret w (sim_state init_globals quiet)
    /\ rw_sent w = Some (405, <["Content-Type" := "application/json"]> (<["Allow" := "GET"]> ∅)).
Proof.
  apply (routes_guarded (K8Manager_service k8_ok) NewSlsManager DataManager_service "GET" "/console-operator/health"
    doHealth (ex_request "POST") (sim_state init_globals quiet)); [|done].
  rw /routes. do 2 apply list_elem_of_further. by apply list_elem_of_here.
Defined.

Lemma currentTargets_roundtrip_witness :
  exists w, doGetCurrentTargets new_rw (ex_request "GET") (sim_state init_globals quiet)
      = Ret w (sim_state init_globals quiet) /\ rw_status w = 200
    /\ Unmarshal dec_targets (rw_body w) (mkTargets 0 0 0 0 0) = (current_targets init_globals, false).
Proof.
  exact (currentTargets_roundtrip (ex_request "GET") (sim_state init_globals quiet) (mkTargets 0 0 0 0 0) eq_refl eq_refl).
Defined.

Lemma replica_error_two_documents_witness :
  exists w, doGetPodReplicaCount (answering (-1) (Some "timeout") (fun _ _ => ret tt)) new_rw (ex_request "GET")
        (sim_state init_globals quiet) = Ret w (sim_state init_globals quiet) /\ rw_status w = 500
    /\ rw_body w = print_json (BaseResponse_json
          ("There was an error while retrieving console-node replica counts: " +:+ "timeout" +:+ newline)) +:+ newline
          +:+ print_json (replicas_json (-1)) +:+ newline
    /\ parse_json (rw_body w) = None.
Proof.
  apply (replica_error_two_documents (answering (-1) (Some "timeout") (fun _ _ => ret tt)) (ex_request "GET")
    (sim_state init_globals quiet) (sim_state init_globals quiet) (-1) "timeout"); reflexivity.
Defined.

(** Kubernetes and SLS with fixed answers. *)
Definition located (r : string * option error) : K8Service := {|
  k8_printK8sInfo := ret tt;
  k8_getReplicaCount := ret (1, None);
  k8_updateReplicaCount := fun _ => ret tt;
  k8_updateNodesPerPod := fun _ _ => ret tt;
  k8_getPodLocationAlias := fun _ => ret r |}.
Definition ex_aliases : list XnameNodeAlias :=
  [mkAlias "x3000c0s7b0n0" "ncn-w001"; mkAlias "x3000c0s9b0n0" "ncn-w002"].
Definition listed (r : list XnameNodeAlias * option error) : SlsService := {| sls_getXnameAlias := ret r |}.

Lemma doGetPodLocation_found_witness :
  let s := sim_state init_globals quiet in
  exists w x, doGetPodLocation (located ("ncn-w002", None)) (listed (ex_aliases, None)) new_rw (ex_request "GET") s
      = Ret w s /\ rw_status w = 200
    /\ Unmarshal dec_location (rw_body w) (mkLocation "" "" "") = (mkLocation "cray-console-node-0" "ncn-w002" x, false)
    /\ alias_resolves "ncn-w002" ex_aliases x.
Proof.
  apply (doGetPodLocation_found (located ("ncn-w002", None)) (listed (ex_aliases, None)) (ex_request "GET")
    (sim_state init_globals quiet) (sim_state init_globals quiet)); first [reflexivity|done].
Defined.

Lemma doGetPodLocation_errors_witness :
  let s := sim_state init_globals quiet in
  exists w, doGetPodLocation (located ("", Some "not found")) (listed (ex_aliases, None)) new_rw (ex_request "GET") s
      = Ret w s /\ rw_status w = 500.
Proof.
  destruct (doGetPodLocation_errors (located ("", Some "not found")) (listed (ex_aliases, None)) (ex_request "GET")
    (sim_state init_globals quiet) (sim_state init_globals quiet) (sim_state init_globals quiet) "" "not found" eq_refl)
    as (_ & H & _).
  apply H; [done|reflexivity].
Defined.

Lemma handlers_effect_witness :
  wp (doSetMaxNodesPerPod new_rw (ex_request "PATCH"))
    (fun _ s' => handler_effect init_globals (gl s')) (fun _ s' => handler_effect init_globals (gl s'))
    (sim_state init_globals quiet).
Proof.
  apply (handlers_effect k8_ok "PATCH" "/console-operator/v0/setMaxNodesPerPod" doSetMaxNodesPerPod new_rw
    (ex_request "PATCH") (sim_state init_globals quiet)).
  rw /routes. do 7 apply list_elem_of_further. by apply list_elem_of_here.
Defined.

Lemma doInfo_tally_witness :
  let s := sim_state (set_nodeCache ex_cache init_globals) quiet in
  exists w s' entries h, doInfo DataManager_service new_rw (ex_request "GET") s = Ret w s'
    /\ rw_status w = 200 /\ rw_body w = print_json (info_json entries h) +:+ newline
    /\ NoDup entries.*1 /\ Zsum entries.*2 = Z.of_nat (size (nodeCache (gl s)))
    /\ gl s' = gl s /\ fs s' = fs s.
Proof.
  apply (doInfo_tally (ex_request "GET") (sim_state (set_nodeCache ex_cache init_globals) quiet));
    [reflexivity|by vm_compute].
Defined.

Lemma suspend_resume_witness :
  let s := sim_state init_globals quiet in
  exists w s1, doSuspend new_rw (ex_request "POST") s = Ret w s1 /\ rw_status w = 200
    /\ watchHardware refusing fixed_nodes 3 5 s1 = Ret (5, []) s1
    /\ exists w' s2, doResume new_rw (ex_request "POST") s1 = Ret w' s2 /\ rw_status w' = 200
       /\ (inShutdown (gl s) = false -> s2 = s)
       /\ watchHardware_turn refusing fixed_nodes 5 s2
          = (let! (ok, sent) := doHardwareUpdate refusing fixed_nodes (5 =? 0) in
             ret (next_forceUpdateCnt 5 ok, sent)) s2.
Proof. exact (suspend_resume refusing fixed_nodes (ex_request "POST") 3 5 (sim_state init_globals quiet) eq_refl). Defined.

Lemma clear_then_repopulate_witness :
  let s := sim_state (set_nodeCache ex_cache init_globals) quiet in
  exists w s' removed, doClearData DataManager_service new_rw (ex_request "DELETE") s = Ret w s' /\ rw_status w = 200
    /\ removed ≡ₚ (map_to_list (nodeCache (gl s))).*2
    /\ trace s' = (trace s ++ [remove_request removed])%list
    /\ gl s' = set_nodeCache ∅ (gl s) /\ fs s' = fs s
    /\ forall curr s1, ns_getCurrentNodesFromHSM fixed_nodes s' = Ret curr s1 -> gl s1 = gl s' ->
         exists ok s2, updateCachedNodeData DataManager_service fixed_nodes false s' = Ret (ok, curr) s2
           /\ trace s2 = (trace s1 ++ unless_empty add_request curr)%list.
Proof.
  exact (clear_then_repopulate fixed_nodes (ex_request "DELETE") (sim_state (set_nodeCache ex_cache init_globals) quiet)
    eq_refl eq_refl eq_refl).
Defined.
