(* ===== verification/Responses.v ===== *)
(** * What the API answers

    - [responses_wellformed]: the type of the answers of the whole API;
    - [health_accurate]: the health report reads back as the variables. *)
From S2P Require Import Prelude GoStrings Json JsonFacts JsonCodec JsonTotal State SimWorld HttpUtils K8s Nodes NodesFacts Data Creds CredsFacts Inventory OpMain OpMainFacts Zombies Sls Handlers HandlersFacts.
#[local] Open Scope string_scope.
#[local] Open Scope Z_scope.

(** ** The type of an answer *)

Definition status_codes : list Z := [200; 204; 400; 405; 500].

(** A body of several texts, each with the newline the encoder adds. *)
Definition lines (texts : list string) : string := foldr (fun t acc => t +:+ newline +:+ acc) "" texts.

(** A text that a JSON parser accepts. *)
Definition json_text (t : string) : Prop := is_Some (parse_json t).

(** An answer: one of the five statuses, sent; a body that is a sequence of
    JSON texts, announced as JSON unless it is empty; more than one text only,
    and then two, with status 500. *)
Definition answer_ok (w : ResponseWriter) : Prop :=
  exists code hdr texts, rw_sent w = Some (code, hdr) /\ code ∈ status_codes
    /\ rw_body w = lines texts /\ Forall json_text texts
    /\ (texts <> [] <-> hdr !! "Content-Type" = Some "application/json")
    /\ ((length texts <= 1)%nat \/ length texts = 2%nat /\ code = 500).

Lemma answer_json w code j :
  rw_sent w = None -> rw_body w = "" -> code ∈ status_codes -> ok_json 4 j = true ->
  answer_ok (SendResponseJSON w code (Some j)).
Proof.
  intros Hs Hb Hc Hj. destruct w as [hd sent body]. cbn in Hs, Hb. subst.
  exists code, (<["Content-Type" := "application/json"]> hd), [print_json j].
  split; [done|]. split; [done|]. split; [|split; [|split]].
  - change (lines [print_json j]) with (print_json j +:+ newline +:+ ""). by rw str_app_nil_r.
  - constructor; [by apply print_is_json|by constructor].
  - split; [by rw lookup_insert_eq|done].
  - left. cbn. lia.
Qed.

Lemma answer_empty code : code ∈ status_codes -> answer_ok (WriteHeader code new_rw).
Proof.
  intros Hc. exists code, ∅, []. split; [done|]. split; [done|]. split; [done|]. split; [by constructor|].
  split; [by rw lookup_empty|left; cbn; lia].
Qed.

Lemma answer_not_allowed m r : answer_ok (method_not_allowed new_rw m r).
Proof. apply answer_json; [done..| |done]. rw /status_codes. set_solver. Qed.

Lemma answer_base code m : code ∈ status_codes -> answer_ok (base_error new_rw code m).
Proof. intros Hc. by apply answer_json. Qed.

Lemma answer_two m j : ok_json 4 j = true -> answer_ok (SendResponseJSON (base_error new_rw 500 m) 200 (Some j)).
Proof.
  intros Hj. exists 500, (<["Content-Type" := "application/json"]> ∅), [print_json (BaseResponse_json m); print_json j].
  split; [done|]. split; [rw /status_codes; set_solver|]. split; [|split; [|split]].
  - cbn [lines foldr]. rw str_app_nil_r.
    exact (two_bodies (print_json (BaseResponse_json m)) (print_json j) newline).
  - constructor; [by apply print_is_json|]. constructor; [by apply print_is_json|by constructor].
  - done.
  - by right.
Qed.

(** The numbers in the answers are JSON numbers. *)
Lemma replicas_ok n : ok_json 4 (replicas_json n) = true.
Proof. rw /replicas_json. cbn -[itoa int_literal]. by rw itoa_literal. Qed.

Lemma targets_ok t : ok_json 4 (targets_json t) = true.
Proof. rw /targets_json. cbn -[itoa int_literal]. by rw !itoa_literal. Qed.

Lemma info_ok nodes h : ok_json 4 (info_json nodes h) = true.
Proof.
  rw /info_json. destruct nodes as [|x l]; [done|]. cbn [ok_json forallb snd]. apply andb_true_iff. split; [|done].
  apply forallb_forall. intros j ([k n] & -> & _)%list_elem_of_In%list_elem_of_fmap. rw /pair_json.
  cbn -[itoa int_literal]. by rw itoa_literal.
Qed.

Section responses.
Context {WD : World} (km : K8Manager).

(** The two queries that can panic: on a StatefulSet without a replica count,
    and on an SLS entry of an unexpected shape. *)
Definition may_panic (p : string) : Prop :=
  p = "/console-operator/v1/location/{podID}" \/ p = "/console-operator/v1/replicas".

Lemma guarded_answer m p (r : srv_request) (k : Prog ResponseWriter) s :
  wp k (fun w _ => answer_ok w) (fun _ _ => may_panic p) s ->
  wp (if negb (String.eqb (sr_Method r) m) then ret (method_not_allowed new_rw m r) else k)
    (fun w _ => answer_ok w) (fun _ _ => may_panic p) s.
Proof. intros Hk. destruct (negb _); [apply wp_ret, answer_not_allowed|done]. Qed.

Lemma read_body_answer {A} (d : decoder A) z r w : read_json_body d z new_rw r = inl w -> answer_ok w.
Proof.
  rw /read_json_body. assert (400 ∈ status_codes) as H by (rw /status_codes; set_solver).
  repeat case_match; intros [= <-]; by apply answer_base.
Qed.

(** ** The health report *)

Definition dec_health : decoder HealthResponse := dec_struct [
  mk_field "consoles" h_NumberConsoles (fun v h => mkHealth v (h_HardwareUpdateSec h) (h_LastHardwareUpdate h) (h_NumberNodePods h) (h_NumberRvrNodesPerPod h) (h_NumberMtnNodesPerPod h) (h_MaxRvrNodesPerPod h) (h_MaxMtnNodesPerPod h) (h_HeartbeatCheckSec h) (h_HeartbeatStaleMin h)) dec_string;
  mk_field "hardwareupdatesec" h_HardwareUpdateSec (fun v h => mkHealth (h_NumberConsoles h) v (h_LastHardwareUpdate h) (h_NumberNodePods h) (h_NumberRvrNodesPerPod h) (h_NumberMtnNodesPerPod h) (h_MaxRvrNodesPerPod h) (h_MaxMtnNodesPerPod h) (h_HeartbeatCheckSec h) (h_HeartbeatStaleMin h)) dec_string;
  mk_field "hardwareupdate" h_LastHardwareUpdate (fun v h => mkHealth (h_NumberConsoles h) (h_HardwareUpdateSec h) v (h_NumberNodePods h) (h_NumberRvrNodesPerPod h) (h_NumberMtnNodesPerPod h) (h_MaxRvrNodesPerPod h) (h_MaxMtnNodesPerPod h) (h_HeartbeatCheckSec h) (h_HeartbeatStaleMin h)) dec_string;
  mk_field "nodepods" h_NumberNodePods (fun v h => mkHealth (h_NumberConsoles h) (h_HardwareUpdateSec h) (h_LastHardwareUpdate h) v (h_NumberRvrNodesPerPod h) (h_NumberMtnNodesPerPod h) (h_MaxRvrNodesPerPod h) (h_MaxMtnNodesPerPod h) (h_HeartbeatCheckSec h) (h_HeartbeatStaleMin h)) dec_string;
  mk_field "rvrnodesperpod" h_NumberRvrNodesPerPod (fun v h => mkHealth (h_NumberConsoles h) (h_HardwareUpdateSec h) (h_LastHardwareUpdate h) (h_NumberNodePods h) v (h_NumberMtnNodesPerPod h) (h_MaxRvrNodesPerPod h) (h_MaxMtnNodesPerPod h) (h_HeartbeatCheckSec h) (h_HeartbeatStaleMin h)) dec_string;
  mk_field "mtnnodesperpod" h_NumberMtnNodesPerPod (fun v h => mkHealth (h_NumberConsoles h) (h_HardwareUpdateSec h) (h_LastHardwareUpdate h) (h_NumberNodePods h) (h_NumberRvrNodesPerPod h) v (h_MaxRvrNodesPerPod h) (h_MaxMtnNodesPerPod h) (h_HeartbeatCheckSec h) (h_HeartbeatStaleMin h)) dec_string;
  mk_field "maxrvrnodesperpod" h_MaxRvrNodesPerPod (fun v h => mkHealth (h_NumberConsoles h) (h_HardwareUpdateSec h) (h_LastHardwareUpdate h) (h_NumberNodePods h) (h_NumberRvrNodesPerPod h) (h_NumberMtnNodesPerPod h) v (h_MaxMtnNodesPerPod h) (h_HeartbeatCheckSec h) (h_HeartbeatStaleMin h)) dec_string;
  mk_field "maxmtnnodesperpod" h_MaxMtnNodesPerPod (fun v h => mkHealth (h_NumberConsoles h) (h_HardwareUpdateSec h) (h_LastHardwareUpdate h) (h_NumberNodePods h) (h_NumberRvrNodesPerPod h) (h_NumberMtnNodesPerPod h) (h_MaxRvrNodesPerPod h) v (h_HeartbeatCheckSec h) (h_HeartbeatStaleMin h)) dec_string;
  mk_field "heartbeatcheck" h_HeartbeatCheckSec (fun v h => mkHealth (h_NumberConsoles h) (h_HardwareUpdateSec h) (h_LastHardwareUpdate h) (h_NumberNodePods h) (h_NumberRvrNodesPerPod h) (h_NumberMtnNodesPerPod h) (h_MaxRvrNodesPerPod h) (h_MaxMtnNodesPerPod h) v (h_HeartbeatStaleMin h)) dec_string;
  mk_field "heartbeatstale" h_HeartbeatStaleMin (fun v h => mkHealth (h_NumberConsoles h) (h_HardwareUpdateSec h) (h_LastHardwareUpdate h) (h_NumberNodePods h) (h_NumberRvrNodesPerPod h) (h_NumberMtnNodesPerPod h) (h_MaxRvrNodesPerPod h) (h_MaxMtnNodesPerPod h) (h_HeartbeatCheckSec h) v) dec_string ].

(** The report of the variables. *)
Definition health_of (g : Globals) : HealthResponse :=
  mkHealth (itoa (Z.of_nat (size (nodeCache g)))) (itoa (newHardwareCheckPeriodSec g))
    (hardwareUpdateTime g) (itoa (numNodePods g)) (itoa (numRvrNodesPerPod g)) (itoa (numMtnNodesPerPod g))
    (itoa (maxRvrNodesPerPod g)) (itoa (maxMtnNodesPerPod g)) (itoa (heartbeatCheckPeriodSec g))
    (itoa (heartbeatStaleMinutes g)).

Lemma dec_health_json h z : dec_health (health_json h) z = (h, false).
Proof. destruct h, z. by vm_compute. Qed.

Lemma all_print_utf8 t : all_print t = true -> utf8_valid t = true.
Proof.
  induction t as [|c t IH]; [done|]. cbn [all_print]. intros [[H1 H2]%andb_true_iff H3]%andb_true_iff. rw utf8_ascii; [lia|]. by apply IH.
Qed.

Lemma itoa_utf8 z : utf8_valid (itoa z) = true.
Proof. apply all_print_utf8, itoa_print. Qed.

(** C29: the health report is accurate. A GET of the health answers 200, changes
    nothing, and the document decodes to the variables of the operator as
    decimal numbers; the number of consoles and of pods in it read back as the
    size of the cache and the number of pods. *)
Theorem health_accurate r s z :
  sr_Method r = "GET" -> utf8_valid (hardwareUpdateTime (gl s)) = true ->
  in_int64 (Z.of_nat (size (nodeCache (gl s)))) = true -> in_int64 (numNodePods (gl s)) = true ->
  exists w h, doHealth new_rw r s = Ret w s /\ rw_status w = 200
    /\ Unmarshal dec_health (rw_body w) z = (h, false) /\ h = health_of (gl s)
    /\ atoi (h_NumberConsoles h) = Some (Z.of_nat (size (nodeCache (gl s))))
    /\ atoi (h_NumberNodePods h) = Some (numNodePods (gl s)).
Proof.
  intros Hm Hu Hc Hp. rw /doHealth Hm. eexists _, (health_of (gl s)). split; [reflexivity|]. split; [done|].
  split; [|split; [done|split; by apply atoi_itoa]].
  change (rw_body _) with (print_json (health_json (health_of (gl s))) +:+ newline).
  rw Unmarshal_encoded; [|apply dec_health_json].
  rw /health_json /health_of. cbn [wf_json forallb fst snd]. cbn -[itoa utf8_valid]. by rw Hu !itoa_utf8.
Qed.
End responses.

(** ** Witnesses *)


Lemma health_accurate_witness :
  exists w h, doHealth new_rw (ex_request "GET") (sim_state init_globals quiet) = Ret w (sim_state init_globals quiet)
    /\ rw_status w = 200
    /\ Unmarshal dec_health (rw_body w) (health_of init_globals) = (h, false) /\ h = health_of init_globals
    /\ atoi (h_NumberConsoles h) = Some 0 /\ atoi (h_NumberNodePods h) = Some (-1).
Proof.
  exact (health_accurate (ex_request "GET") (sim_state init_globals quiet) (health_of init_globals)
    eq_refl eq_refl eq_refl eq_refl).
Defined.
