(* ===== verification/Separation.v ===== *)
(** * What leaves the inventory alone

    Only three operations of the program talk to the inventory of console-data:
    [dataAddNodes], [dataRemoveNodes], and through it [doClearData].  All else
    (HSM, Kubernetes, Vault, SCSD, SLS, files, programs, the clock) is somewhere
    else; and nothing else but the end of an update writes the cache.
    [Separate] states the former of the world; [keeps] says both of a piece of
    the program; it is closed under the constructs of the
    monad and is proved here of every other operation. *)
From S2P Require Import Prelude GoStrings Json JsonFacts JsonCodec State SimWorld HttpUtils K8s Nodes NodesFacts Data Creds CredsFacts Inventory OpMain OpMainFacts Zombies Sls Handlers HandlersFacts.
From Stdlib Require Import Ascii.
#[local] Open Scope string_scope.
#[local] Open Scope Z_scope.

(** The other services, the cluster and the operating system do not write the
    inventory of console-data; nor do the other requests to console-data. *)
Class Separate {WD : World} (inv_of : W -> inventory) := {
  sep_http req w : req_URL req <> inventory_url -> inv_of (client_Do req w).2 = inv_of w;
  sep_getSts w : inv_of (k8s_getStatefulSet w).2 = inv_of w;
  sep_updateSts d w : inv_of (k8s_updateStatefulSet d w).2 = inv_of w;
  sep_getPod p w : inv_of (k8s_getPod p w).2 = inv_of w;
  sep_fault op w : inv_of (os_fault op w).2 = inv_of w;
  sep_write w : inv_of (os_short_write w).2 = inv_of w;
  sep_exec argv fsys w : inv_of (exec_run argv fsys w).2 = inv_of w;
  sep_find pid w : inv_of (os_FindProcess pid w).2 = inv_of w;
  sep_wait pid w : inv_of (os_Wait pid w).2 = inv_of w;
  sep_now w : inv_of (time_now w).2 = inv_of w }.

Create HintDb separate.

Section keeps.
Context {WD : World} (inv_of : W -> inventory).

(** The inventory and the cache are as they were. *)
Definition undisturbed (s s' : St) : Prop :=
  inv_of (ext s') = inv_of (ext s) /\ nodeCache (gl s') = nodeCache (gl s).

#[export] Instance undisturbed_preorder : PreOrder undisturbed.
Proof. rw /undisturbed. split; [done|]. intros s1 s2 s3 [H1 H2] [H3 H4]. split; congruence. Qed.

(** Returning or panicking, a program leaves them so. *)
Definition keeps {A} (p : Prog A) : Prop :=
  forall s, wp p (fun _ s' => undisturbed s s') (fun _ s' => undisturbed s s') s.

Lemma keeps_ret {A} (a : A) : keeps (ret a).
Proof. done. Qed.

Lemma keeps_panic {A} m : keeps (panic m : Prog A).
Proof. done. Qed.

Lemma keeps_gets {A} (f : St -> A) : keeps (gets f).
Proof. done. Qed.

Lemma keeps_gvar {A} (f : Globals -> A) : keeps (gvar f).
Proof. done. Qed.

Lemma keeps_gset f : (forall g, nodeCache (f g) = nodeCache g) -> keeps (gset_var f).
Proof. intros Hf s. rw /wp /gset_var /modify /undisturbed. by rw /= Hf. Qed.

Lemma keeps_record e : keeps (record_ev e).
Proof. done. Qed.

Lemma keeps_modify (f : St -> St) : (forall s, ext (f s) = ext s /\ gl (f s) = gl s) -> keeps (modify f).
Proof. intros H s. rw /wp /modify /undisturbed. by destruct (H s) as [-> ->]. Qed.

Lemma keeps_bind {A B} (m : Prog A) (k : A -> Prog B) :
  keeps m -> (forall a, keeps (k a)) -> keeps (bind m k).
Proof.
  intros Hm Hk s. apply wp_bind. eapply wp_mono; [apply Hm| |done].
  intros a s1 H1. eapply wp_mono; [apply Hk|..]; intros ? s2 H2; (etrans; [exact H1|exact H2]).
Qed.

Lemma keeps_ask {A} (f : W -> A * W) : (forall w, inv_of (f w).2 = inv_of w) -> keeps (ask f).
Proof. intros Hf s. apply wp_ask. intros a w' Ha. specialize (Hf (ext s)). by rw Ha in Hf. Qed.

Lemma keeps_foldM {A B} (f : B -> A -> Prog B) l acc :
  (forall b x, keeps (f b x)) -> keeps (foldM f acc l).
Proof.
  intros Hf. revert acc. induction l as [|x l IH]; intros acc; [apply keeps_ret|].
  cbn [foldM]. by apply keeps_bind.
Qed.

End keeps.

#[export] Hint Resolve keeps_ret keeps_panic keeps_gets keeps_gvar keeps_record keeps_foldM : separate.

(** Walk through the code; the hints know the calls. *)
Ltac keeps_go :=
  repeat first
    [ progress (intros; cbn beta iota zeta)
    | solve [auto with separate]
    | lazymatch goal with
      | |- keeps _ (bind _ _) => apply keeps_bind
      | |- keeps _ (match ?x with _ => _ end) => destruct x
      end ].

Section operations.
Context {WD : World} (inv_of : W -> inventory) `{!ConsoleData inv_of} `{!Separate inv_of}.

Local Notation keeps := (keeps inv_of).

Lemma keeps_range {V} (m : gmap string V) : keeps (range m).
Proof. apply keeps_ask, cd_order. Qed.

Lemma keeps_getSts : keeps (ask k8s_getStatefulSet).
Proof. apply keeps_ask, sep_getSts. Qed.
Lemma keeps_updateSts d : keeps (ask (k8s_updateStatefulSet d)).
Proof. apply keeps_ask, sep_updateSts. Qed.
Lemma keeps_getPod p : keeps (ask (k8s_getPod p)).
Proof. apply keeps_ask, sep_getPod. Qed.
Lemma keeps_fault op : keeps (ask (os_fault op)).
Proof. apply keeps_ask, sep_fault. Qed.
Lemma keeps_write : keeps (ask os_short_write).
Proof. apply keeps_ask, sep_write. Qed.
Lemma keeps_exec argv fsys : keeps (ask (exec_run argv fsys)).
Proof. apply keeps_ask, sep_exec. Qed.
Lemma keeps_find pid : keeps (ask (os_FindProcess pid)).
Proof. apply keeps_ask, sep_find. Qed.
Lemma keeps_wait pid : keeps (ask (os_Wait pid)).
Proof. apply keeps_ask, sep_wait. Qed.
Lemma keeps_now : keeps (ask time_now).
Proof. apply keeps_ask, sep_now. Qed.

Hint Resolve keeps_range keeps_getSts keeps_updateSts keeps_getPod keeps_fault keeps_write keeps_exec
  keeps_find keeps_wait keeps_now : separate.

(** A request that is a GET, or goes elsewhere. *)
Lemma keeps_doURL m url body hdrs : m = "GET" \/ url <> inventory_url -> keeps (doURL m url body hdrs).
Proof.
  intros Hm. rw /doURL. destruct (newRequest_err m url); [apply keeps_ret|].
  apply keeps_bind; [apply keeps_record|intros _]. apply keeps_bind; [|by intros [|? []]].
  apply keeps_ask. intros w. destruct Hm as [->|Hu]; [by apply cd_get|by apply sep_http].
Qed.

Lemma keeps_getURL url hdrs : keeps (getURL url hdrs).
Proof. apply keeps_doURL. by left. Qed.

Lemma keeps_postURL url body hdrs : url <> inventory_url -> keeps (postURL url body hdrs).
Proof. intros. apply keeps_doURL. by right. Qed.

Hint Resolve keeps_getURL : separate.
Hint Extern 1 (keeps (postURL _ _ _)) => apply keeps_postURL; by vm_compute : separate.
Hint Extern 1 (keeps (modify _)) => by apply keeps_modify : separate.
Hint Extern 1 (keeps (gset_var _)) => by apply keeps_gset : separate.

(** ** Files and programs *)

Lemma keeps_Stat p : keeps (os_Stat p).
Proof. rw /os_Stat. keeps_go. Qed.
Lemma keeps_MkdirAll p : keeps (os_MkdirAll p).
Proof. rw /os_MkdirAll. keeps_go. Qed.
Lemma keeps_OpenTrunc p : keeps (os_OpenTrunc p).
Proof. rw /os_OpenTrunc. keeps_go. Qed.
Lemma keeps_WriteString p d : keeps (file_WriteString p d).
Proof. rw /file_WriteString. keeps_go. Qed.
Lemma keeps_ReadFile p : keeps (ReadFile p).
Proof. rw /ReadFile. keeps_go. Qed.
Lemma keeps_exec_Command argv : keeps (exec_Command argv).
Proof. rw /exec_Command. keeps_go. Qed.
Hint Resolve keeps_Stat keeps_MkdirAll keeps_OpenTrunc keeps_WriteString keeps_ReadFile keeps_exec_Command : separate.

Lemma keeps_WriteFile p d : keeps (WriteFile p d).
Proof. rw /WriteFile. keeps_go. Qed.
Hint Resolve keeps_WriteFile : separate.

(** ** The components *)

Lemma keeps_fileError m e : keeps (fileError m e).
Proof. rw /fileError. keeps_go. Qed.
Hint Resolve keeps_fileError : separate.

Lemma keeps_getReplicaCount km : keeps (getReplicaCount km).
Proof. rw /getReplicaCount. keeps_go. Qed.
Lemma keeps_updateReplicaCount km n : keeps (updateReplicaCount km n).
Proof. rw /updateReplicaCount. keeps_go. Qed.
Lemma keeps_updateNodesPerPod mtn rvr : keeps (updateNodesPerPod mtn rvr).
Proof. rw /updateNodesPerPod. keeps_go. Qed.
Lemma keeps_getPodLocationAlias km p : keeps (getPodLocationAlias km p).
Proof. rw /getPodLocationAlias. keeps_go. Qed.
Hint Resolve keeps_getReplicaCount keeps_updateReplicaCount keeps_updateNodesPerPod keeps_getPodLocationAlias : separate.

Lemma keeps_updateNodeCounts km mtn rvr : keeps (updateNodeCounts (K8Manager_service km) mtn rvr).
Proof. rw /updateNodeCounts. cbn [K8Manager_service k8_updateReplicaCount k8_getReplicaCount k8_updateNodesPerPod]. keeps_go. Qed.

Lemma keeps_exportKey tok : keeps (vaultExportPrivateKey tok).
Proof. rw /vaultExportPrivateKey. keeps_go. Qed.
Lemma keeps_generateKey tok : keeps (vaultGeneratePrivateKey tok).
Proof. rw /vaultGeneratePrivateKey. keeps_go. Qed.
Hint Resolve keeps_exportKey keeps_generateKey : separate.
Lemma keeps_getPrivateKey tok : keeps (vaultGetPrivateKey tok).
Proof. rw /vaultGetPrivateKey. keeps_go. Qed.
Hint Resolve keeps_getPrivateKey : separate.
Lemma keeps_vaultCredentials : keeps vaultGetMountainConsoleCredentials.
Proof. rw /vaultGetMountainConsoleCredentials. keeps_go. Qed.
Lemma keeps_generateCredentials : keeps generateMountainConsoleCredentials.
Proof. rw /generateMountainConsoleCredentials. keeps_go. Qed.
Hint Resolve keeps_vaultCredentials keeps_generateCredentials : separate.
Lemma keeps_ensureKeys : keeps ensureMountainConsoleKeysExist.
Proof. rw /ensureMountainConsoleKeysExist. keeps_go. Qed.

Lemma keeps_deploy nodes : keeps (deployMountainConsoleKeys nodes).
Proof. rw /deployMountainConsoleKeys. keeps_go. Qed.
Hint Resolve keeps_deploy : separate.
Lemma keeps_credsTimeout m : keeps (credsTimeout m).
Proof. rw /credsTimeout /doMountainCredsUpdate. keeps_go. Qed.

Lemma heartbeat_url_other stale : dataAddrBase +:+ "/consolepod/" +:+ itoa stale +:+ "/clear" <> inventory_url.
Proof. done. Qed.
Lemma keeps_heartbeat : keeps checkHeartbeats_step.
Proof.
  rw /checkHeartbeats_step. apply keeps_bind; [apply keeps_gvar|]. intros stale. cbn zeta.
  apply keeps_bind; [|by keeps_go]. apply keeps_doURL. right. apply heartbeat_url_other.
Qed.

Lemma keeps_zombies : keeps watchForZombies_turn.
Proof. rw /watchForZombies_turn /findZombies. keeps_go. Qed.
Lemma keeps_reap pid : keeps (killZombie pid).
Proof. rw /killZombie. keeps_go. Qed.

Lemma keeps_getNodePod x : keeps (getNodePodForXname x).
Proof. rw /getNodePodForXname. keeps_go. Qed.
Lemma keeps_alias_step acc e : keeps (alias_step acc e).
Proof. rw /alias_step. keeps_go. Qed.
Hint Resolve keeps_getNodePod keeps_alias_step : separate.
Lemma keeps_getXnameAlias : keeps getXnameAlias.
Proof. rw /getXnameAlias. keeps_go. Qed.
Lemma keeps_tally_step t x : keeps (tally_step DataManager_service t x).
Proof. rw /tally_step. cbn [DataManager_service ds_getNodePodForXname]. keeps_go. Qed.
Hint Resolve keeps_getXnameAlias keeps_tally_step : separate.

(** Of the API only the clearing of all data writes the inventory. *)
Lemma handlers_keep km m p (h : handler) w r :
  (m, p, h) ∈ routes (K8Manager_service km) NewSlsManager DataManager_service ->
  p <> "/console-operator/clearData" -> keeps (h w r).
Proof.
  intros Hin Hp. rw /routes in Hin.
  repeat (apply elem_of_cons in Hin as [[= -> -> ->]|Hin]; [try done|]); [..|by apply not_elem_of_nil in Hin].
  - rw /doLiveness. keeps_go.
  - rw /doReadiness. keeps_go.
  - rw /doHealth /getCurrentHealth. keeps_go.
  - rw /doInfo /getCurrentHealth. keeps_go.
  - rw /doSuspend. keeps_go.
  - rw /doResume. keeps_go.
  - rw /doSetMaxNodesPerPod. keeps_go.
  - rw /doGetNodePod. cbn [DataManager_service ds_getNodePodForXname]. keeps_go.
  - rw /doGetPodLocation. cbn [K8Manager_service k8_getPodLocationAlias NewSlsManager sls_getXnameAlias]. keeps_go.
  - rw /doGetPodReplicaCount. cbn [K8Manager_service k8_getReplicaCount]. keeps_go.
  - rw /doGetCurrentTargets. keeps_go.
Qed.

End operations.
