(* ===== verification/System.v ===== *)
(** * The goroutines and the variables

    [main] starts goroutines that share the package variables: the main loop,
    the key worker with its channel, the heartbeat check, the zombie watch, and
    the HTTP server with one goroutine per request.  [vars_inv] is the invariant
    of the variables; this file has what each of their operations does to it.
    [Threads.v] and [Interleave.v] run the goroutines against each other. *)
From S2P Require Import Prelude GoStrings Json JsonFacts JsonCodec State SimWorld HttpUtils K8s Nodes NodesFacts Data Creds CredsFacts Inventory OpMain OpMainFacts Zombies Sls Handlers HandlersFacts.
#[local] Open Scope string_scope.
#[local] Open Scope Z_scope.

Section system.
Context {WD : World} (km : K8Manager).

Definition k8 : K8Service := K8Manager_service km.

(** The state a handler leaves, returning or panicking. *)
Definition left_state {A} (o : outcome St A) : St := match o with Ret _ s | Panic _ s => s end.

(** ** The invariant *)

(** Of the variables: the sizing formulas apply, the file errors are bounded,
    and the cache is keyed by the names of its nodes. *)
Definition vars_inv (g : Globals) : Prop :=
  config_ok g /\ 0 <= numFileErrors g <= 4
  /\ (forall k n, nodeCache g !! k = Some n -> nc_NodeName n = k).

Definition all_mountain (l : list nodeConsoleInfo) : Prop := Forall (fun n => isMountain n = true) l.

(** ** The operations preserve the invariant of the variables *)

Lemma vars_inv_cache g curr : vars_inv g -> vars_inv (set_nodeCache (map_by nc_NodeName curr) g).
Proof.
  intros (Hc & Hf & _). split; [done|]. split; [done|]. cbn. by intros k n [_ Hk]%map_by_lookup_Some.
Qed.

Lemma batch_gl m s acks s' : batch m s acks s' -> gl s' = gl s.
Proof. intros H. by inversion H as [? [? _] _|]. Qed.

Lemma credsTimeout_vars m s m' s' :
  credsTimeout m s = Ret m' s' -> gl s' = gl s /\ m' ⊆ m.
Proof.
  rw /credsTimeout. destruct (_ <? _); [|by intros [= <- <-]].
  destruct (doMountainCredsUpdate_run m s) as (s2 & -> & Hb). intros [= <- <-].
  split; [exact (batch_gl _ _ _ _ Hb)|]. apply map_filter_subseteq.
Qed.

Lemma heartbeat_gl s s' : checkHeartbeats_step s = Ret tt s' -> gl s' = gl s.
Proof.
  intros Hr. refine (wp_of_run _ (fun _ s1 => gl s1 = gl s) (fun _ _ => True) _ _ _ _ Hr). rw /checkHeartbeats_step. apply wp_bind, wp_gvar.
  cbn zeta. apply wp_bind, wp_doURL_quiet. intros [[? ?] ?] s1 [G1 _]. by apply wp_ret.
Qed.

Lemma zombies_gl s pids s' : watchForZombies_turn s = Ret pids s' -> gl s' = gl s.
Proof.
  intros Hr. refine (wp_of_run _ (fun _ s1 => gl s1 = gl s) (fun _ _ => True) _ _ _ _ Hr). rw /watchForZombies_turn /findZombies.
  apply wp_bind, wp_exec_Command. intros err out s1 G1 _ _. by apply wp_ret.
Qed.

Lemma reap_gl pid s s' : killZombie pid s = Ret tt s' -> gl s' = gl s.
Proof.
  intros Hr. refine (wp_of_run _ (fun _ s1 => gl s1 = gl s) (fun _ _ => True) _ _ _ _ Hr). rw /killZombie. apply wp_bind, wp_ask. intros [e|] w1 _; [by apply wp_ret|].
  apply wp_bind, wp_modify, wp_bind, wp_ask. intros e w2 _. by apply wp_ret.
Qed.

(** The start of [main], up to its loops. *)
Lemma main_init_vars debugFlag env s s' :
  gl s = init_globals -> main_init debugFlag env None None s = Ret km s' ->
  vars_inv (gl s') /\ nodeCache (gl s') = ∅ /\ ext s' = ext s.
Proof.
  intros Hg Hr.
  assert (gl s' = main_config debugFlag env init_globals /\ ext s' = ext s) as [Hg' He].
  { revert Hr. rw /main_init /bind /=. intros [= _ <-]. by rw /= Hg. }
  rw Hg'. destruct (main_config_bounds debugFlag env) as (H1 & H2 & H3 & H4).
  split; [|done]. split; [rw /config_ok; lia|]. rw H3 H4. split; [lia|]. by intros k n; rw lookup_empty.
Qed.
End system.

(** ** A start for the witnesses *)

Definition ex_env (v : string) : string := if String.eqb v "MAX_MTN_NODES_PER_POD" then "100" else "".
Definition ex_start : St := sim_state (main_config false ex_env init_globals) quiet.
