(* ===== verification/SystemInventory.v ===== *)
(** * The inventory and the turns of the main loop

    For the program's own node service, [NewNodeManager] with the Kubernetes
    manager:
    - [gap_lasts]: what an update that is not forced does not repair;
    - [recovers]: whatever the inventory has become, at most eleven turns of the
      loop bring every cached record back, in a cluster where nothing panics. *)
From S2P Require Import Prelude GoStrings Json JsonFacts JsonCodec State SimWorld HttpUtils K8s Nodes NodesFacts Data Creds CredsFacts Inventory OpMain OpMainFacts Zombies Sls Handlers HandlersFacts Separation System.
#[local] Open Scope string_scope.
#[local] Open Scope Z_scope.

(** console-data holds every record of the cache. *)
Definition agrees {WD : World} (inv_of : W -> inventory) (s : St) : Prop :=
  forall k n, nodeCache (gl s) !! k = Some n -> inv_of (ext s) !! k = Some n.

(** console-data takes every PUT. *)
Definition accepting {WD : World} : Prop :=
  forall body w, exists code data w', client_Do (put_req body) w = (DoResp code (inr data), w') /\ code < 400.

Section turn.
Context {WD : World} (inv_of : W -> inventory) `{!ConsoleData inv_of} `{!Separate inv_of}.
Context (km : K8Manager).

Notation ns := (NewNodeManager (k8 km)).
Notation update := (updateCachedNodeData DataManager_service ns).

Lemma agrees_frame s s' : undisturbed inv_of s s' -> agrees inv_of s -> agrees inv_of s'.
Proof. rw /agrees. by intros [-> ->]. Qed.

(** An update leaves the flag alone, and succeeds when console-data accepts. *)
Lemma update_accepted (all : bool) s : cache_ok (nodeCache (gl s)) ->
  wp (update all) (fun r s' => inShutdown (gl s') = inShutdown (gl s) /\ cache_ok (nodeCache (gl s'))
    /\ (accepting -> r.1 = true)) (fun _ _ => True) s.
Proof.
  intros Hc. destruct (wp_run _ _ _ _ (src_read (ns := ns) inv_of s)) as [(curr & s1 & Hcurr & _)|(e & s1 & Hcurr & _)].
  2: { rw /updateCachedNodeData. apply wp_bind. by rw /wp Hcurr. }
  destruct cd_urls as [Hp Hd].
  destruct (updateCachedNodeData_run ns all s curr s1 Hp Hd Hcurr) as (ok & w & removed & s2 & _ & Hr & Hok & G & _).
  destruct (wp_of_run _ _ _ _ _ _ (src_read (ns := ns) inv_of s) Hcurr) as (Hwf & G1 & _).
  rw /wp Hr. split_and!; [rw G -G1; by destruct ok|rw G; destruct ok; [by apply cache_ok_map_by|by rw G1]|].
  intros Hacc. cbn. rw Hok /answered_ok /add_request.
  destruct (Hacc (print_json (nodes_json (if all then curr else filter (fun n => nodeCache (gl s1) !! nc_NodeName n = None) curr))) w)
    as (code & data & w' & Hdo & Hcode). rw /put_req in Hdo. rw Hdo. cbn. rw (proj2 (Z.ltb_lt _ _) Hcode). by rw orb_true_r.
Qed.

Lemma counts_kept m r s :
  wp (ns_updateNodeCounts ns m r)
    (fun _ s' => inShutdown (gl s') = inShutdown (gl s) /\ undisturbed inv_of s s') (fun _ s' => undisturbed inv_of s s') s.
Proof.
  eapply wp_mono; [apply (wp_and _ _ _ _ _ _ (updateNodeCounts_totals (k8 km) m r s) (keeps_updateNodeCounts inv_of km m r s))|..].
  - by intros _ s' [[(_ & ? & _) _] ?].
  - by intros _ s' [_ ?].
Qed.

(** A property of the cache, the flag and the inventory that the update
    establishes holds at the end of the turn, and [E] if it panics. *)
Lemma turn_from_update (Q : bool -> St -> Prop) (E : St -> Prop) cnt s :
  (forall s', inShutdown (gl s') = inShutdown (gl s) -> undisturbed inv_of s s' ->
     wp (update (cnt =? 0)) (fun r => Q r.1) (fun _ s' => E s') s') ->
  (forall ok s1 s2, inShutdown (gl s2) = inShutdown (gl s1) -> undisturbed inv_of s1 s2 -> Q ok s1 -> Q ok s2) ->
  (forall ok s1 s2, undisturbed inv_of s1 s2 -> Q ok s1 -> E s2) ->
  inShutdown (gl s) = false ->
  wp (watchHardware_turn DataManager_service ns cnt)
    (fun r s' => exists ok, r.1 = next_forceUpdateCnt cnt ok /\ Q ok s') (fun _ s' => E s') s.
Proof.
  intros Hup HQ HE Hshut. rw /watchHardware_turn. apply wp_bind, wp_gvar. rw Hshut. cbn [negb].
  apply wp_bind. rw /doHardwareUpdate. apply wp_bind, wp_ask. intros now w0 Hnow.
  apply wp_bind, wp_gset_var, wp_bind. set (s0 := set_gl _ _).
  eapply wp_mono; [apply (Hup s0); [done|]| |done].
  { pose proof (sep_now (ext s)) as Hi. by rw Hnow in Hi. }
  intros [ok new] s1 H1. cbn [fst] in H1.
  apply wp_bind, wp_gvar, wp_bind, wp_ask. intros es w1 Ho. destruct (foldl _ _ _) as [mtn rvr].
  pose proof (cd_order (nodeCache (gl s1)) (ext s1)) as Io. rw Ho in Io.
  assert (Q ok (set_ext w1 s1)) as H1' by by apply (HQ ok s1).
  apply wp_bind. eapply wp_mono; [apply counts_kept| |intros ? s2 I2; exact (HE ok _ s2 I2 H1')]. intros ? s2 (S2 & I2).
  assert (Q ok s2) as H2 by exact (HQ ok _ s2 S2 I2 H1').
  destruct (0 <? mtn); [|apply wp_ret, wp_ret; eauto].
  apply wp_bind. destruct (ensureMountain_run s2) as (b & s3 & He & Hk%keys_outcome_gl).
  pose proof (wp_of_run _ _ _ _ _ _ (keeps_ensureKeys inv_of s2) He) as I3.
  rw {1}/wp He. apply wp_ret, wp_ret. exists ok. split; [done|]. apply (HQ ok s2); [by rw Hk|done|done].
Qed.

(** An update that is not forced does not bring a cached node back. *)
Lemma update_gap s k n :
  cache_ok (nodeCache (gl s)) -> nodeCache (gl s) !! k = Some n -> inv_of (ext s) !! k = None ->
  wp (update false) (fun _ s' => inv_of (ext s') !! k = None) (fun _ s' => inv_of (ext s') !! k = None) s.
Proof.
  intros Hc Hk Hinv. destruct (wp_run _ _ _ _ (src_read (ns := ns) inv_of s)) as [(curr & s1 & Hcurr & _)|(e & s1 & Hcurr & _ & _ & I1)].
  2: { rw /updateCachedNodeData. apply wp_bind. by rw /wp Hcurr I1. }
  eapply wp_mono; [exact (wp_updateCachedNodeData inv_of DataManager_service ns false s curr s1 Hc Hcurr)| |done].
  intros [ok new] s' (inv1 & removed & _ & _ & _ & A2 & _ & R1 & _). cbn beta iota zeta in A2.
  assert (inv1 !! k = None) as H1.
  { destruct A2 as [->| ->]; [done|]. rw add_nodes_lookup.
    rw (proj2 (map_by_lookup_None _ _ _)); [|done]. intros x [Hx _]%list_elem_of_filter. congruence. }
  destruct R1 as [->| ->]; [done|]. rw remove_nodes_lookup. by case_decide.
Qed.

(** C15: a gap lasts until the next forced update. A node that is cached but
    missing from the inventory of console-data is still missing after any turn
    of the main loop that is not forced, whatever HSM lists and however
    console-data, Kubernetes and Vault answer; also if the turn panics. *)
Theorem gap_lasts cnt s k n :
  cnt <> 0 -> cache_ok (nodeCache (gl s)) -> nodeCache (gl s) !! k = Some n -> inv_of (ext s) !! k = None ->
  inv_of (ext (left_state (watchHardware_turn DataManager_service ns cnt s))) !! k = None.
Proof.
  intros Hcnt Hc Hk Hinv. destruct (inShutdown (gl s)) eqn:Hs.
  { rw /watchHardware_turn /bind /gvar /gets Hs. done. }
  enough (wp (watchHardware_turn DataManager_service ns cnt)
    (fun r s' => exists ok, r.1 = next_forceUpdateCnt cnt ok /\ inv_of (ext s') !! k = None)
    (fun _ s' => inv_of (ext s') !! k = None) s) as Hw.
  { revert Hw. rw /wp /left_state. destruct (watchHardware_turn _ _ _ _); [by intros (? & _ & ?)|done]. }
  apply (turn_from_update (fun _ s' => inv_of (ext s') !! k = None)); [| | |done].
  - intros s0 S0 [I0 C0]. rw (proj2 (Z.eqb_neq _ _) Hcnt). apply (update_gap s0 k n); [by rw C0|by rw C0|by rw I0].
  - intros ok s1 s2 _ [I2 _]. by rw I2.
  - intros ok s1 s2 [I2 _]. by rw I2.
Qed.

(** From any state whose cache is in order, with console-data taking its
    requests: the counter goes down, and a forced turn makes the records agree. *)
Lemma turn_repairs cnt s :
  cache_ok (nodeCache (gl s)) -> inShutdown (gl s) = false -> accepting ->
  wp (watchHardware_turn DataManager_service ns cnt)
    (fun r s' => r.1 = next_forceUpdateCnt cnt true /\ cache_ok (nodeCache (gl s'))
       /\ inShutdown (gl s') = false /\ (cnt = 0 -> agrees inv_of s'))
    (fun _ _ => True) s.
Proof.
  intros Hc Hshut Hacc.
  eapply wp_mono; [apply (turn_from_update (fun ok s' => ok = true /\ cache_ok (nodeCache (gl s'))
    /\ inShutdown (gl s') = false /\ (cnt = 0 -> agrees inv_of s')) (fun _ => True))| |done]; [| |done|done|].
  - intros s0 S0 I0. pose proof I0 as [_ C0]. rw -C0 in Hc. rw -S0 in Hshut.
    destruct (Z.eqb_spec cnt 0) as [->|Hne].
    + assert (synced inv_of (dom (inv_of (ext s0))) 0 s0) as Hs0.
      { split; [done|]. split; [|done]. intros k Hk. right. by apply elem_of_dom. }
      pose proof (wp_and _ _ _ _ _ _ (sync_turn inv_of DataManager_service ns _ 0 s0 Hs0) (update_accepted true s0 Hc)) as Hu.
      eapply wp_mono; [exact Hu| |done].
      intros [ok new] s1 [(L' & _ & Hs1 & _ & Hag) (Hsh & _ & Hok)]. cbn [fst] in *. specialize (Hok Hacc). subst ok.
      split_and!; [done|apply Hs1|by rw Hsh|]. intros _. exact (Hag eq_refl eq_refl).
    + eapply wp_mono; [apply (update_accepted false s0 Hc)| |done].
      intros [ok new] s1 (Hsh & Hck & Hok). cbn [fst] in *. by rw Hsh (Hok Hacc).
  - intros ok s1 s2 S2 I2 (Hok & H1 & H2 & H3). pose proof I2 as [_ C2]. rw C2 S2. split_and!; [done..|].
    intros H0. apply (agrees_frame s1); [done|]. by apply H3.
  - intros [c sent] s' (ok & Hc' & -> & H). cbn [fst] in *. done.
Qed.
End turn.

(** ** Turns that return *)

Section returns.
Context {WD : World}.

(** The directory of the volume is not taken by a file, and no program puts one
    there. *)
Definition volume_free (s : St) : Prop := files (fs s) !! "/var/log/console" = None.
Definition programs_behave : Prop :=
  forall argv fsys w, files fsys !! "/var/log/console" = None ->
    files (exec_run argv fsys w).1.2 !! "/var/log/console" = None.

(** A program that returns and leaves it so. *)
Definition stays {A} (p : Prog A) : Prop :=
  forall s, volume_free s -> wp p (fun _ s' => volume_free s') no_panic s.

Lemma stays_ret {A} (a : A) : stays (ret a).
Proof. done. Qed.
Lemma stays_gvar {A} (f : Globals -> A) : stays (gvar f).
Proof. done. Qed.
Lemma stays_gets {A} (f : St -> A) : stays (gets f).
Proof. done. Qed.
Lemma stays_record e : stays (record_ev e).
Proof. done. Qed.
Lemma stays_ask {A} (f : W -> A * W) : stays (ask f).
Proof. intros s Hs. apply wp_ask. by intros. Qed.
Lemma stays_bind {A B} (m : Prog A) (k : A -> Prog B) : stays m -> (forall a, stays (k a)) -> stays (bind m k).
Proof. intros Hm Hk s Hs. apply wp_bind. eapply wp_mono; [by apply Hm| |done]. intros a s1 H1. by apply Hk. Qed.

Create HintDb returns.
Hint Resolve stays_ret stays_gvar stays_gets stays_record stays_ask : returns.

Ltac stays_go :=
  repeat first
    [ progress (intros; cbn beta iota zeta)
    | solve [auto with returns]
    | lazymatch goal with
      | |- stays (bind _ _) => apply stays_bind
      | |- stays (match ?x with _ => _ end) => destruct x
      end ].

Lemma stays_doURL m url body hdrs : stays (doURL m url body hdrs).
Proof. rw /doURL. stays_go. Qed.
Lemma stays_getURL url hdrs : stays (getURL url hdrs).
Proof. apply stays_doURL. Qed.
Lemma stays_postURL url body hdrs : stays (postURL url body hdrs).
Proof. apply stays_doURL. Qed.
Lemma stays_Stat p : stays (os_Stat p).
Proof. rw /os_Stat. stays_go. Qed.
Lemma stays_ReadFile p : stays (ReadFile p).
Proof. rw /ReadFile. stays_go. Qed.
Hint Resolve stays_getURL stays_postURL stays_Stat stays_ReadFile : returns.

Lemma stays_WriteFile p d : p <> "/var/log/console" -> stays (WriteFile p d).
Proof.
  intros Hp. rw /WriteFile /os_OpenTrunc /file_WriteString. stays_go.
  all: intros s Hs; apply wp_modify; rw /volume_free /=; by rw lookup_insert_ne.
Qed.
Hint Extern 1 (stays (WriteFile _ _)) => by apply stays_WriteFile : returns.

Context (Hprog : programs_behave).

Lemma stays_exec argv : stays (exec_Command argv).
Proof using Hprog.
  intros s Hs. rw /exec_Command. apply wp_bind, wp_modify, wp_bind, wp_gets, wp_bind, wp_ask.
  intros [[err out] fsys] w Hx. apply wp_bind, wp_modify, wp_ret.
  pose proof (Hprog argv (fs s) (ext s) Hs) as H. cbn in Hx. by rw Hx in H.
Qed.
Hint Resolve stays_exec : returns.

Lemma stays_exportKey tok : stays (vaultExportPrivateKey tok).
Proof using Type. rw /vaultExportPrivateKey. stays_go. Qed.
Lemma stays_generateKey tok : stays (vaultGeneratePrivateKey tok).
Proof using Type. rw /vaultGeneratePrivateKey. stays_go. Qed.
Hint Resolve stays_exportKey stays_generateKey : returns.
Lemma stays_getPrivateKey tok : stays (vaultGetPrivateKey tok).
Proof using Type. rw /vaultGetPrivateKey. stays_go. Qed.
Hint Resolve stays_getPrivateKey : returns.
Lemma stays_ensureKeys : stays ensureMountainConsoleKeysExist.
Proof using Hprog.
  rw /ensureMountainConsoleKeysExist /vaultGetMountainConsoleCredentials /generateMountainConsoleCredentials. stays_go.
Qed.

(** A turn returns when HSM's list makes sense and the cluster is calm. *)
Lemma turn_returns km cnt s :
  newRequest_err "PUT" inventory_url = None -> newRequest_err "DELETE" inventory_url = None ->
  hsm_sane -> cluster_calm km -> volume_free s ->
  wp (watchHardware_turn DataManager_service (NewNodeManager (k8 km)) cnt) (fun _ s' => volume_free s') no_panic s.
Proof using Hprog.
  intros Hp Hd Hsane Hcalm Hs. rw /watchHardware_turn. apply wp_bind, wp_gvar. destruct (inShutdown (gl s)); [by apply wp_ret|].
  apply wp_bind. rw /doHardwareUpdate. apply wp_bind, wp_ask. intros now w0 _. apply wp_bind, wp_gset_var, wp_bind.
  set (s0 := set_gl _ _).
  destruct (wp_run_ret _ _ _ (getCurrentNodesFromHSM_returns s0 Hsane)) as (curr & s1 & Hcurr & _).
  destruct (wp_of_run _ _ _ _ _ _ (getCurrentNodesFromHSM_frame s0) Hcurr) as [(_ & F1 & _) _].
  destruct (updateCachedNodeData_run (NewNodeManager (k8 km)) (cnt =? 0) s0 curr s1 Hp Hd Hcurr) as (ok & w & removed & s2 & _ & Hr & _ & _ & F2 & _).
  apply (wp_by_run _ _ _ _ _ _ Hr). apply wp_bind, wp_gvar, wp_bind, wp_ask. intros es w1 _. destruct (foldl _ _ _) as [mtn rvr].
  apply wp_bind. eapply wp_mono; [apply (updateNodeCounts_returns km mtn rvr (set_ext w1 s2) Hcalm)| |done].
  { rw /= F2 F1. exact Hs. }
  intros ? s3 H3. destruct (0 <? mtn); [|by do 2 apply wp_ret].
  apply wp_bind. eapply wp_mono; [by apply stays_ensureKeys| |done]. intros ? s4 H4. by do 2 apply wp_ret.
Qed.
End returns.

(** ** Recovery *)

Section recovery.
Context {WD : World} (inv_of : W -> inventory) `{!ConsoleData inv_of} `{!Separate inv_of}.
Context (km : K8Manager).

Notation ns := (NewNodeManager (k8 km)).

(** C4: recovery. In a cluster where nothing panics (HSM lists no malformed node
    name, StatefulSets carry their replica count, the volume can be used; any
    service may still fail), whatever console-data has lost or altered and
    whatever the counter of forced updates is, once the requests to console-data
    are taken again the next [cnt + 1] turns of the loop, at most eleven, return
    and leave every record of the cache in the inventory as it is in the cache. *)
Theorem recovers cnt s :
  0 <= cnt <= 10 -> cache_ok (nodeCache (gl s)) -> inShutdown (gl s) = false -> accepting ->
  hsm_sane -> cluster_calm km -> programs_behave -> volume_free s ->
  exists sent s', watchHardware DataManager_service ns (S (Z.to_nat cnt)) cnt s = Ret (10, sent) s'
    /\ agrees inv_of s' /\ cache_ok (nodeCache (gl s')).
Proof.
  intros Hcnt Hc Hs Ha Hsane Hcalm Hprog Hv.
  assert (forall cnt s, cache_ok (nodeCache (gl s)) -> inShutdown (gl s) = false -> volume_free s ->
    exists sent s', watchHardware_turn DataManager_service ns cnt s = Ret (next_forceUpdateCnt cnt true, sent) s'
      /\ cache_ok (nodeCache (gl s')) /\ inShutdown (gl s') = false /\ volume_free s' /\ (cnt = 0 -> agrees inv_of s')) as Hturn.
  { clear cnt s Hcnt Hc Hs Hv. intros cnt s Hc Hs Hv. destruct cd_urls as [Hp Hd].
    destruct (wp_run_ret _ _ _ (turn_returns Hprog km cnt s Hp Hd Hsane Hcalm Hv)) as ([c sent] & s' & Hr & Hv').
    destruct (wp_of_run _ _ _ _ _ _ (turn_repairs inv_of km cnt s Hc Hs Ha) Hr) as (Hcnt & H1 & H2 & H3).
    cbn in Hcnt. subst c. exists sent, s'. by split_and!. }
  remember (Z.to_nat cnt) as n eqn:Hn. revert cnt s Hn Hcnt Hc Hs Hv.
  induction n as [|n IH]; intros cnt s Hn Hcnt Hc Hs Hv.
  - assert (cnt = 0) as -> by lia. destruct (Hturn 0 s Hc Hs Hv) as (sent & s' & Hr & Hc' & _ & _ & Hag).
    cbn [watchHardware]. rw /bind Hr. eexists _, _. split; [reflexivity|]. eauto.
  - destruct (Hturn cnt s Hc Hs Hv) as (sent & s1 & Hr & Hc1 & Hs1 & Hv1 & _).
    assert (next_forceUpdateCnt cnt true = cnt - 1) as Hnext.
    { rw /next_forceUpdateCnt. destruct (Z.ltb_spec (cnt - 1) 0); [lia|done]. }
    destruct (IH (cnt - 1) s1) as (sent' & s' & Hr' & Hag & Hc'); [lia..|done|done|done|].
    exists (sent ++ sent')%list, s'. split; [|done].
    remember (S n) as k. cbn [watchHardware]. by rw /bind Hr Hnext Hr'.
Qed.
End recovery.

(** ** Witnesses *)

#[export] Instance cd_world_separate rf sc : @Separate (cd_world rf sc) cd_inv.
Proof.
  split; try done. intros req w Hu%String.eqb_neq. cbn. rw /cd_http. by rw Hu.
Qed.

Lemma cd_accepting : @accepting (cd_world ex_rf ex_sc).
Proof.
  intros body w. eexists 200, "{}", _. split; [|lia].
  rw /put_req. cbn -[inventory_url dec_nodes]. rw /cd_http. cbn -[inventory_url dec_nodes]. by rw String.eqb_refl.
Qed.

Lemma cd_sane : @hsm_sane (cd_world ex_rf ex_sc).
Proof.
  intros w code data Hd. assert (data = print_json ex_sc) as ->; [|by vm_compute].
  revert Hd. rw /hsm_get. cbn -[print_json]. by intros [= _ <-].
Qed.

Lemma cache_ok_found : cache_ok {[nc_NodeName found_node := found_node]}.
Proof. intros k n. rw lookup_singleton. case_decide; [|done]. intros [= <-]. by subst. Qed.

Lemma recovers_witness :
  exists sent s', watchHardware DataManager_service (NewNodeManager (k8 k8_ok)) (S (Z.to_nat 7)) 7 (cd_state ex_cache ∅) = Ret (10, sent) s'
    /\ agrees (@cd_inv ex_rf ex_sc) s' /\ cache_ok (nodeCache (gl s')).
Proof.
  apply (recovers (@cd_inv ex_rf ex_sc) k8_ok 7 (cd_state ex_cache ∅));
    [lia| |done|apply cd_accepting|apply cd_sane|apply scripted_calm|by intros argv fsys w Hf|done].
  intros k n. cbn. rw lookup_singleton. case_decide; [|done]. intros [= <-]. by subst.
Defined.

Lemma gap_lasts_witness :
  @cd_inv ex_rf ex_sc (ext (left_state (watchHardware_turn DataManager_service (NewNodeManager (k8 k8_ok)) 4
    (cd_state {[nc_NodeName found_node := found_node]} ∅)))) !! nc_NodeName found_node = None.
Proof.
  apply (gap_lasts (@cd_inv ex_rf ex_sc) k8_ok 4 (cd_state {[nc_NodeName found_node := found_node]} ∅)
    (nc_NodeName found_node) found_node); [done|apply cache_ok_found|done|done].
Defined.

(** The start of the operator with one node already in console-data. *)
Definition ex_st0 : @St (cd_world ex_rf ex_sc) :=
  @mkSt (cd_world ex_rf ex_sc) (main_config false ex_env init_globals) empty_FS ex_cache [].
