(* ===== verification/Threads.v ===== *)
(** * Goroutines, one access at a time

    A goroutine is a [thread]: a finite tree of steps.  A step is one access to
    a package variable or one operation of another part of the program (a
    request to a service, a Kubernetes operation, the key files); a send on the
    channel of the key worker is a step of its own, since it waits for room.
    Between any two steps the other goroutines may do anything.

    The turn of the main loop and the handlers of the API are written out as
    threads; [turn_alone] and [routes_alone] tie them to the sequential
    definitions: a thread left alone does exactly what those do.

    The maps in [nodeCache] are never updated in place: the code only replaces
    the variable, so a thread that ranges over the map it read has a snapshot. *)
From S2P Require Import Prelude GoStrings Json JsonFacts JsonCodec State SimWorld HttpUtils K8s Nodes NodesFacts Data Creds CredsFacts Inventory OpMain OpMainFacts Zombies Sls Handlers HandlersFacts Separation System.
#[local] Open Scope string_scope.
#[local] Open Scope Z_scope.

Section thread.
Context {WD : World}.

Inductive thread (A : Type) : Type :=
| TDone (a : A)
| TStep (m : St -> outcome St (thread A))
| TSend (n : nodeConsoleInfo) (t : thread A).
Arguments TDone {A} a.
Arguments TStep {A} m.
Arguments TSend {A} n t.

(** The principle for the nested recursion. *)
Fixpoint thread_ind' {A} (P : thread A -> Prop) (Hd : forall a, P (TDone a))
    (Hs : forall m, (forall s t s', m s = Ret t s' -> P t) -> P (TStep m))
    (Hn : forall n t, P t -> P (TSend n t)) (t : thread A) : P t :=
  match t with
  | TDone a => Hd a
  | TStep m => Hs m (fun s t' s' Heq =>
      match m s as o return o = Ret t' s' -> P t' with
      | Ret t1 s1 => fun H => match H in _ = o' return match o' with Ret t2 _ => P t2 | Panic _ _ => True end with
                              | eq_refl => thread_ind' P Hd Hs Hn t1 end
      | Panic e s1 => fun H => match H in _ = o' return match o' with Ret t2 _ => P t2 | Panic _ _ => True end with
                              | eq_refl => I end
      end Heq)
  | TSend n t' => Hn n t' (thread_ind' P Hd Hs Hn t')
  end.

(** One step. *)
Definition atom {A} (p : Prog A) : thread A :=
  TStep (fun s => match p s with Ret a s' => Ret (TDone a) s' | Panic e s' => Panic e s' end).

(** [mountainCredsUpdateChannel <- n], for each in turn. *)
Definition send_all : list nodeConsoleInfo -> thread unit := foldr TSend (TDone tt).

Fixpoint tbind {A B} (t : thread A) (k : A -> thread B) : thread B :=
  match t with
  | TDone a => k a
  | TStep m => TStep (fun s => match m s with Ret t' s' => Ret (tbind t' k) s' | Panic e s' => Panic e s' end)
  | TSend n t' => TSend n (tbind t' k)
  end.

(** A thread left alone, with a worker that takes what it sends: its result and
    what it sent. *)
Fixpoint run {A} (t : thread A) : Prog (A * list nodeConsoleInfo) := fun s =>
  match t with
  | TDone a => Ret (a, []) s
  | TStep m => match m s with Ret t' s' => run t' s' | Panic e s' => Panic e s' end
  | TSend n t' => match run t' s with Ret (a, sent) s' => Ret (a, n :: sent) s' | Panic e s' => Panic e s' end
  end.

Lemma run_tbind {A B} (t : thread A) (k : A -> thread B) s :
  run (tbind t k) s =
  bind (run t) (fun r => bind (run (k r.1)) (fun r' => ret (r'.1, r.2 ++ r'.2)%list)) s.
Proof.
  revert s. induction t as [a|m IH|n t IH] using thread_ind'; intros s.
  - cbn. rw /bind. cbn. by destruct (run (k a) s) as [[]|].
  - cbn. rw /bind. destruct (m s) as [t' s'|e s'] eqn:Hm; [|done]. rw (IH s t' s' Hm). done.
  - cbn. rw IH /bind. destruct (run t s) as [[a sent] s'|]; [|done]. cbn. by destruct (run (k a) s') as [[]|].
Qed.

Lemma run_send_all l s : run (send_all l) s = Ret (tt, l) s.
Proof. induction l as [|n l IH]; [done|]. cbn. cbn in IH. by rw IH. Qed.

Lemma bind_ext {A B} (m m' : Prog A) (k k' : A -> Prog B) s :
  m s = m' s -> (forall a s', k a s' = k' a s') -> bind m k s = bind m' k' s.
Proof. intros Hm Hk. rw /bind Hm. by destruct (m' s). Qed.

Lemma bind_gvar {A B} (f : Globals -> A) (k : A -> Prog B) s : bind (gvar f) k s = k (f (gl s)) s.
Proof. done. Qed.

Lemma bind_ret_run {A B} (m : Prog A) (k : A -> Prog B) a s s' : m s = Ret a s' -> bind m k s = k a s'.
Proof. rw /bind. by intros ->. Qed.

(** A thread that sends nothing and, alone, does what the program [p] does. *)
Definition alone {A} (t : thread A) (p : Prog A) : Prop :=
  forall s, run t s = bind p (fun a => ret (a, [])) s.

Lemma alone_done {A} (a : A) : alone (TDone a) (ret a).
Proof. done. Qed.

Lemma alone_atom {A} (p : Prog A) : alone (atom p) p.
Proof. intros s. cbn. rw /bind. by destruct (p s). Qed.

Lemma alone_tbind {A B} (t : thread A) (k : A -> thread B) p q :
  alone t p -> (forall a, alone (k a) (q a)) -> alone (tbind t k) (bind p q).
Proof.
  intros Ht Hk s. rw run_tbind /bind Ht /bind. destruct (p s) as [a s'|]; [|done]. cbn. rw Hk /bind.
  by destruct (q a s').
Qed.

Lemma alone_ext {A} (t : thread A) p q : (forall s, p s = q s) -> alone t p -> alone t q.
Proof. intros Hpq Ht s. by rw Ht /bind Hpq. Qed.

End thread.
Arguments thread {_} A.
Arguments TDone {_ A} a.
Arguments TStep {_ A} m.
Arguments TSend {_ A} n t.

Declare Scope thread_scope.
Delimit Scope thread_scope with thread.
Notation "'let*' x := t 'in' k" := (tbind t (fun x => k))
  (at level 10, x pattern, t at level 100, k at level 200) : thread_scope.
Notation "t ;;* k" := (tbind t (fun _ => k)) (at level 199, right associativity) : thread_scope.
#[local] Open Scope thread_scope.

Section code.
Context {WD : World} (km : K8Manager).

(** ** The turn of the main loop *)

Definition getCurrentNodesFromHSM_t : thread (list nodeConsoleInfo) :=
  let* (rfEndpoints, err) := atom getRedfishEndpoints in
  match err with
  | Some _ => TDone []
  | None =>
    let* (stComps, err) := atom getStateComponents in
    match err with
    | Some _ => TDone []
    | None =>
      let* (paradiseNodes, _) := atom getParadiseNodes in
      match buildNodes (map_by rf_ID rfEndpoints) paradiseNodes [] stComps with
      | Some nodes => TDone nodes
      | None => atom (panic slice_panic)
      end
    end
  end.

(** The loop that looks the nodes up reads the variable each time. *)
Fixpoint find_new (acc l : list nodeConsoleInfo) : thread (list nodeConsoleInfo) :=
  match l with
  | [] => TDone acc
  | n :: l' =>
    let* cache := atom (gvar nodeCache) in
    find_new (if bool_decide (cache !! nc_NodeName n = None) then acc ++ [n] else acc)%list l'
  end.

(** [for _, n := range nodeCache] *)
Definition range_cache : Prog (list (string * nodeConsoleInfo)) :=
  let! cache := gvar nodeCache in range cache.

Definition updateCachedNodeData_t (updateAll : bool) : thread (bool * list nodeConsoleInfo) :=
  let* currNodes := getCurrentNodesFromHSM_t in
  let currNodesMap := map_by nc_NodeName currNodes in
  let* newNodes := find_new [] currNodes in
  let* entries := atom range_cache in
  let removedNodes := not_in currNodesMap entries.*2 in
  let nodesToUpdate := if updateAll then currNodes else newNodes in
  let* updateSuccessful :=
    (if (0 <? length nodesToUpdate)%nat then
       let* ok := atom (dataAddNodes nodesToUpdate) in
       TDone (if negb ok then false else true)
     else TDone true) in
  (if (0 <? length removedNodes)%nat then atom (dataRemoveNodes removedNodes) else TDone tt) ;;*
  (if updateSuccessful then atom (gset_var (set_nodeCache currNodesMap)) else TDone tt) ;;*
  TDone (updateSuccessful, newNodes).

Definition updateNodeCounts_t (numMtnNodes numRvrNodes : Z) : thread unit :=
  if int64 (numMtnNodes + numRvrNodes) =? 0 then TDone tt
  else
    atom (gset_var (set_totalRvrNodes numRvrNodes)) ;;*
    atom (gset_var (set_totalMtnNodes numMtnNodes)) ;;*
    let* maxMtn := atom (gvar maxMtnNodesPerPod) in
    let* maxRvr := atom (gvar maxRvrNodesPerPod) in
    let newNumPods := newPodCount numMtnNodes numRvrNodes maxMtn maxRvr in
    atom (updateReplicaCount km newNumPods) ;;*
    let newMtn := nodesPerPod numMtnNodes newNumPods in
    let newRvr := nodesPerPod numRvrNodes newNumPods in
    let* (currNodeReplicas, err) := atom (getReplicaCount km) in
    match err with
    | Some _ => atom (updateNodesPerPod (int64 (newMtn + currNodeReplicas)) (int64 (newRvr + currNodeReplicas)))
    | None =>
      let* curRvr := atom (gvar numRvrNodesPerPod) in
      let* curMtn := atom (gvar numMtnNodesPerPod) in
      if negb (newRvr =? curRvr) || negb (newMtn =? curMtn)
      then atom (updateNodesPerPod newMtn newRvr)
      else TDone tt
    end.

(** The new Mountain nodes go to the worker one by one, before the turn ends. *)
Definition doHardwareUpdate_t (updateAll : bool) : thread bool :=
  let* now := atom (ask time_now) in
  atom (gset_var (set_hardwareUpdateTime now)) ;;*
  let* (updateSuccessful, newNodes) := updateCachedNodeData_t updateAll in
  let* entries := atom range_cache in
  let '(numMtnNodes, numRvrNodes) := foldl count_node (0, 0) entries.*2 in
  updateNodeCounts_t numMtnNodes numRvrNodes ;;*
  (if 0 <? numMtnNodes then
     atom ensureMountainConsoleKeysExist ;;*
     send_all (filter (fun n => isMountain n = true) newNodes)
   else TDone tt) ;;*
  TDone updateSuccessful.

Definition watchHardware_turn_t (forceUpdateCnt : Z) : thread Z :=
  let* stop := atom (gvar inShutdown) in
  if negb stop then
    let* updateSuccessful := doHardwareUpdate_t (forceUpdateCnt =? 0) in
    TDone (next_forceUpdateCnt forceUpdateCnt updateSuccessful)
  else TDone forceUpdateCnt.

(** ** The requests that write more than one variable or call out after writing *)

Definition doClearData_t (w : ResponseWriter) (r : srv_request) : thread ResponseWriter :=
  if negb (String.eqb (sr_Method r) "DELETE") then TDone (method_not_allowed w "DELETE" r)
  else
    let* entries := atom range_cache in
    atom (gset_var (set_nodeCache ∅)) ;;*
    atom (dataRemoveNodes entries.*2) ;;*
    TDone (WriteHeader StatusOK w).

Definition doSetMaxNodesPerPod_t (w : ResponseWriter) (r : srv_request) : thread ResponseWriter :=
  if negb (String.eqb (sr_Method r) "PATCH") then TDone (method_not_allowed w "PATCH" r)
  else
    match read_json_body dec_MaxNodeData (mkMax 0 0) w r with
    | inl w' => TDone w'
    | inr inData =>
      atom (gset_var (set_maxMtnNodesPerPod (pinNumNodes (md_MaxMtnNodes inData) 2 750).1)) ;;*
      atom (gset_var (set_maxRvrNodesPerPod (pinNumNodes (md_MaxRvrNodes inData) 2 2000).1)) ;;*
      TDone (WriteHeader StatusOK w)
    end.

(** ** The requests that only read *)

Definition getCurrentHealth_t : thread HealthResponse :=
  let* sec := atom (gvar newHardwareCheckPeriodSec) in
  let* last := atom (gvar hardwareUpdateTime) in
  let* cache := atom (gvar nodeCache) in
  let* pods := atom (gvar numNodePods) in
  let* rvr := atom (gvar numRvrNodesPerPod) in
  let* mtn := atom (gvar numMtnNodesPerPod) in
  let* maxRvr := atom (gvar maxRvrNodesPerPod) in
  let* maxMtn := atom (gvar maxMtnNodesPerPod) in
  let* check := atom (gvar heartbeatCheckPeriodSec) in
  let* stale := atom (gvar heartbeatStaleMinutes) in
  TDone (mkHealth (itoa (Z.of_nat (size cache))) (itoa sec) last (itoa pods) (itoa rvr) (itoa mtn)
    (itoa maxRvr) (itoa maxMtn) (itoa check) (itoa stale)).

Definition doHealth_t (w : ResponseWriter) (r : srv_request) : thread ResponseWriter :=
  if negb (String.eqb (sr_Method r) "GET") then TDone (method_not_allowed w "GET" r)
  else
    let* stats := getCurrentHealth_t in
    TDone (SendResponseJSON w StatusOK (Some (health_json stats))).

(** One request to console-data for each node. *)
Fixpoint tally_t (tally : gmap string Z) (names : list string) : thread (gmap string Z) :=
  match names with
  | [] => TDone tally
  | nn :: names' =>
    let* tally' := atom (tally_step DataManager_service tally nn) in
    tally_t tally' names'
  end.

Definition doInfo_t (w : ResponseWriter) (r : srv_request) : thread ResponseWriter :=
  if negb (String.eqb (sr_Method r) "GET") then TDone (method_not_allowed w "GET" r)
  else
    let* health := getCurrentHealth_t in
    let* names := atom range_cache in
    let* tally := tally_t ∅ names.*1 in
    let* entries := atom (range tally) in
    TDone (SendResponseJSON w StatusOK (Some (info_json entries health))).

Definition doGetPodLocation_t (w : ResponseWriter) (r : srv_request) : thread ResponseWriter :=
  if negb (String.eqb (sr_Method r) "GET") then TDone (method_not_allowed w "GET" r)
  else
    let podID := sr_URLParam r "podID" in
    if String.eqb podID "" then
      TDone (base_error w StatusBadRequest
               ("There was an error reading the podID from the request " +:+ sr_Path r))
    else
      let* (alias, err) := atom (getPodLocationAlias km podID) in
      match err with
      | Some e => TDone (base_error w StatusInternalServerError
                           ("There was an error retrieving pod location " +:+ e))
      | None =>
        let* (xnameAliases, err) := atom getXnameAlias in
        match err with
        | Some e => TDone (base_error w StatusInternalServerError
                             ("There was an error getting the xnames from cray-sls " +:+ e))
        | None =>
          let xname := find_xname alias xnameAliases in
          TDone (SendResponseJSON w StatusOK (Some (PodLocationDataResponse_json podID alias xname)))
        end
      end.

Definition doGetCurrentTargets_t (w : ResponseWriter) (r : srv_request) : thread ResponseWriter :=
  if negb (String.eqb (sr_Method r) "GET") then TDone (method_not_allowed w "GET" r)
  else
    let* rvr := atom (gvar numRvrNodesPerPod) in
    let* mtn := atom (gvar numMtnNodesPerPod) in
    let* totalRvr := atom (gvar totalRvrNodes) in
    let* totalMtn := atom (gvar totalMtnNodes) in
    let* pods := atom (gvar numNodePods) in
    TDone (SendResponseJSON w StatusOK (Some (targets_json (mkTargets rvr mtn totalRvr totalMtn pods)))).

(** The table of [setupRoutes] with the threads.  The handlers that make at most
    one access or one call are one step. *)
Definition routes_t : list (string * (ResponseWriter -> srv_request -> thread ResponseWriter)) :=
  [("/console-operator/liveness", fun w r => atom (doLiveness w r));
   ("/console-operator/readiness", fun w r => atom (doReadiness w r));
   ("/console-operator/health", doHealth_t);
   ("/console-operator/info", doInfo_t);
   ("/console-operator/clearData", doClearData_t);
   ("/console-operator/suspend", fun w r => atom (doSuspend w r));
   ("/console-operator/resume", fun w r => atom (doResume w r));
   ("/console-operator/v0/setMaxNodesPerPod", doSetMaxNodesPerPod_t);
   ("/console-operator/v0/getNodePod", fun w r => atom (doGetNodePod DataManager_service w r));
   ("/console-operator/v1/location/{podID}", doGetPodLocation_t);
   ("/console-operator/v1/replicas", fun w r => atom (doGetPodReplicaCount (k8 km) w r));
   ("/console-operator/v1/currentTargets", doGetCurrentTargets_t)].

End code.

(** ** Threads left alone *)

Create HintDb alone.
#[export] Hint Resolve alone_done alone_atom : alone.

(** Peel the first action off both sides. *)
Ltac alone_go :=
  repeat first
    [ progress (intros; cbn beta iota zeta)
    | solve [eauto with alone]
    | lazymatch goal with
      | |- alone (tbind _ _) (bind _ _) => apply alone_tbind
      | |- alone (match ?x with _ => _ end) _ => destruct x
      end ].

Section alone.
Context {WD : World} (km : K8Manager).

Lemma range_cache_run s : range_cache s = range (nodeCache (gl s)) s.
Proof. done. Qed.

Lemma find_new_run l : forall acc s,
  run (find_new acc l) s = Ret (foldl (fun acc n =>
    if bool_decide (nodeCache (gl s) !! nc_NodeName n = None) then acc ++ [n] else acc)%list acc l, []) s.
Proof.
  induction l as [|n l IH]; intros acc s; [done|]. cbn [find_new]. rw run_tbind /bind. cbn [run atom gvar gets fst].
  rw IH. done.
Qed.

Lemma getCurrentNodesFromHSM_alone : alone getCurrentNodesFromHSM_t getCurrentNodesFromHSM.
Proof. rw /getCurrentNodesFromHSM_t /getCurrentNodesFromHSM. alone_go. Qed.

(** A thread and a program that begin with the look at the cache. *)
Lemma alone_cache {B} (k : list (string * nodeConsoleInfo) -> thread B) q :
  (forall es, alone (k es) (q es)) ->
  alone (let* es := atom range_cache in k es) (let! cache := gvar nodeCache in let! es := range cache in q es).
Proof.
  intros Hk. apply (alone_ext _ (bind range_cache q)); [done|]. apply alone_tbind; [apply alone_atom|done].
Qed.

Lemma alone_lookup {B} l (k : list nodeConsoleInfo -> list (string * nodeConsoleInfo) -> thread B) q :
  (forall new es, alone (k new es) (q new es)) ->
  alone (let* new := find_new [] l in let* es := atom range_cache in k new es)
    (let! cache := gvar nodeCache in let! es := range cache in q (not_in cache l) es).
Proof.
  intros Hk s. rw run_tbind (bind_ret_run _ _ _ _ _ (find_new_run _ _ _)) -/(not_in _ _). cbn [fst snd].
  set (new := not_in _ _). pose proof (alone_tbind (atom range_cache) (k new) _ _ (alone_atom _) (Hk new) s) as H.
  cbn [app]. rw /bind H. rw /bind /range_cache /bind. cbn [gvar gets]. fold new.
  destruct (range _ s) as [es s'|]; [|done]. by destruct (q new es s').
Qed.

Lemma updateCachedNodeData_alone all :
  alone (updateCachedNodeData_t all) (updateCachedNodeData DataManager_service (NewNodeManager (k8 km)) all).
Proof.
  rw /updateCachedNodeData_t /updateCachedNodeData. apply alone_tbind; [apply getCurrentNodesFromHSM_alone|].
  intros curr. apply (alone_lookup curr _ (fun newNodes entries =>
    let removedNodes := not_in (map_by nc_NodeName curr) entries.*2 in
    let nodesToUpdate := if all then curr else newNodes in
    let! updateSuccessful :=
      if (0 <? length nodesToUpdate)%nat then
        let! ok := dataAddNodes nodesToUpdate in ret (if negb ok then false else true)
      else ret true in
    (if (0 <? length removedNodes)%nat then dataRemoveNodes removedNodes else ret tt) ;;;
    (if updateSuccessful then gset_var (set_nodeCache (map_by nc_NodeName curr)) else ret tt) ;;;
    ret (updateSuccessful, newNodes))).
  alone_go.
Qed.

Lemma updateNodeCounts_alone mtn rvr : alone (updateNodeCounts_t km mtn rvr) (updateNodeCounts (k8 km) mtn rvr).
Proof. rw /updateNodeCounts_t /updateNodeCounts. alone_go. Qed.

(** The turn, with what it sends. *)
Lemma doHardwareUpdate_alone all s :
  run (doHardwareUpdate_t km all) s = doHardwareUpdate DataManager_service (NewNodeManager (k8 km)) all s.
Proof.
  assert (forall {A B} (t : thread A) (k : A -> thread B) p q s, alone t p -> (forall a s, run (k a) s = q a s) ->
    run (tbind t k) s = bind p q s) as Hb.
  { intros A B t k p q s0 Ht Hk. rw run_tbind /bind Ht /bind. destruct (p s0) as [a s'|]; [|done]. cbn. rw Hk.
    by destruct (q a s') as [[]|]. }
  rw /doHardwareUpdate_t /doHardwareUpdate. apply Hb; [apply alone_atom|intros now s1].
  apply Hb; [apply alone_atom|intros _ s2]. apply Hb; [apply updateCachedNodeData_alone|intros [ok new] s3].
  rw (Hb _ _ _ _ range_cache _ s3 (alone_atom _) (fun _ _ => eq_refl)). rw /range_cache /bind. cbn [gvar gets].
  destruct (range _ s3) as [es s4|]; [|done]. destruct (foldl _ _ _) as [mtn rvr].
  apply Hb; [apply updateNodeCounts_alone|intros _ s5]. destruct (0 <? mtn); [|done].
  rw run_tbind /bind run_tbind. rw (bind_ext _ _ _ _ _ (alone_atom _ _) (fun _ _ => eq_refl)). rw /bind.
  destruct (ensureMountainConsoleKeysExist s5) as [b s6|]; [|done]. cbn -[send_all filter]. rw run_send_all. cbn -[filter]. by rw app_nil_r.
Qed.

Lemma turn_alone cnt s :
  run (watchHardware_turn_t km cnt) s = watchHardware_turn DataManager_service (NewNodeManager (k8 km)) cnt s.
Proof.
  rw /watchHardware_turn_t /watchHardware_turn run_tbind /bind. cbn [run atom gvar gets fst snd app].
  destruct (inShutdown (gl s)); [done|]. cbn [negb]. rw run_tbind /bind doHardwareUpdate_alone.
  destruct (doHardwareUpdate _ _ _ _) as [[ok sent] s'|]; [|done]. cbn. by rw app_nil_r.
Qed.

Lemma doClearData_alone w r : alone (doClearData_t w r) (doClearData DataManager_service w r).
Proof. rw /doClearData_t /doClearData. destruct (negb _); [done|]. apply alone_cache. alone_go. Qed.

Lemma doSetMaxNodesPerPod_alone w r : alone (doSetMaxNodesPerPod_t w r) (doSetMaxNodesPerPod w r).
Proof. rw /doSetMaxNodesPerPod_t /doSetMaxNodesPerPod. alone_go. Qed.

Lemma getCurrentHealth_alone : alone getCurrentHealth_t getCurrentHealth.
Proof. done. Qed.

Lemma tally_alone names : forall tally, alone (tally_t tally names) (foldM (tally_step DataManager_service) tally names).
Proof.
  induction names as [|nn names IH]; intros tally; [done|]. cbn [tally_t foldM]. apply alone_tbind; [apply alone_atom|apply IH].
Qed.
#[local] Hint Resolve getCurrentHealth_alone tally_alone : alone.

Lemma doHealth_alone w r : alone (doHealth_t w r) (doHealth w r).
Proof. rw /doHealth_t /doHealth. alone_go. Qed.

Lemma doInfo_alone w r : alone (doInfo_t w r) (doInfo DataManager_service w r).
Proof.
  rw /doInfo_t /doInfo. destruct (negb _); [done|]. apply alone_tbind; [done|]. intros health. apply alone_cache. alone_go.
Qed.

Lemma doGetPodLocation_alone w r : alone (doGetPodLocation_t km w r) (doGetPodLocation (k8 km) NewSlsManager w r).
Proof. rw /doGetPodLocation_t /doGetPodLocation. alone_go. Qed.

Lemma doGetCurrentTargets_alone w r : alone (doGetCurrentTargets_t w r) (doGetCurrentTargets w r).
Proof. rw /doGetCurrentTargets_t /doGetCurrentTargets. by destruct (negb _). Qed.
#[local] Hint Resolve doHealth_alone doInfo_alone doClearData_alone doSetMaxNodesPerPod_alone
  doGetPodLocation_alone doGetCurrentTargets_alone : alone.

(** The two tables list the same paths, and the threads do what the handlers do. *)
Lemma routes_alone :
  Forall2 (fun '(_, p, h) '(p', th) => p = p' /\ forall w r, alone (th w r) (h w r))
    (routes (k8 km) NewSlsManager DataManager_service) (routes_t km).
Proof. rw /routes /routes_t. repeat (constructor; [split; [done|]; intros; solve [auto with alone]|]). by constructor. Qed.
End alone.
