(* ===== verification/Interleave.v ===== *)
(** * The goroutines interleaved at every access

    [tstep] runs the threads of [Threads.v] against each other: between any two
    steps of a turn of the main loop, requests come in, run for a while and
    finish, nodes go through the channel, the other goroutines act, and a signal
    may end the service.

    - [interleaved_invariant]: the invariant of the operator survives;
    - [shutdown_quiet]: after the signal no update starts, [resume_in_shutdown]
      unless a resume was still let in;
    - [clear_race]: what does not survive is the agreement with console-data:
      a clear that overlaps a turn can leave it without the nodes it still
      caches. *)
From S2P Require Import Prelude GoStrings Json JsonFacts JsonCodec State SimWorld HttpUtils K8s Nodes NodesFacts Data Creds CredsFacts Inventory OpMain OpMainFacts Zombies Sls Handlers HandlersFacts Separation System SystemInventory Threads.
#[local] Open Scope string_scope.
#[local] Open Scope Z_scope.
#[local] Open Scope thread_scope.

Section interleave.
Context {WD : World} (km : K8Manager).

(** Where the main loop is: inside a turn, or asleep between two. *)
Inductive main_phase :=
| InTurn (t : thread Z)
| Idle (cnt : Z).

(** The end of [main]: the server runs; the signal has been read and the flag
    set; [httpSrv.Shutdown] has closed the listeners and waits for the requests
    in flight; the process is gone. *)
Inductive stage := Serving | Signalled | Closing | Exited.

(** A request in flight carries the path it came in on. *)
Record tsystem := mkT {
  t_st : St;
  t_main : main_phase;
  t_reqs : list (string * thread ResponseWriter);
  t_chan : list nodeConsoleInfo;
  t_pending : gmap string nodeConsoleInfo;
  t_stage : stage }.

(** The actions of the goroutines.  A send waits for room in the channel.  A
    panic in a handler is caught by the server; a panic elsewhere ends the
    process, so it has no action. *)
Inductive action : tsystem -> tsystem -> Prop :=
| t_start s cnt rs c m g :
    action (mkT s (Idle cnt) rs c m g) (mkT s (InTurn (watchHardware_turn_t km cnt)) rs c m g)
| t_turn s f t s' rs c m g :
    f s = Ret t s' -> action (mkT s (InTurn (TStep f)) rs c m g) (mkT s' (InTurn t) rs c m g)
| t_send s n t rs c m g :
    (length c < channel_cap)%nat ->
    action (mkT s (InTurn (TSend n t)) rs c m g) (mkT s (InTurn t) rs (c ++ [n])%list m g)
| t_end s cnt rs c m g :
    action (mkT s (InTurn (TDone cnt)) rs c m g) (mkT s (Idle cnt) rs c m g)
| t_recv s p rs n c m g :
    action (mkT s p rs (n :: c) m g) (mkT s p rs c (<[nc_NodeName n := n]> m) g)
| t_batch s p rs c m m' s' g :
    credsTimeout m s = Ret m' s' -> action (mkT s p rs c m g) (mkT s' p rs c m' g)
| t_heartbeat s p rs c m s' g :
    checkHeartbeats_step s = Ret tt s' -> action (mkT s p rs c m g) (mkT s' p rs c m g)
| t_zombies s p rs c m pids s' g :
    watchForZombies_turn s = Ret pids s' -> action (mkT s p rs c m g) (mkT s' p rs c m g)
| t_reap s p rs c m pid s' g :
    killZombie pid s = Ret tt s' -> action (mkT s p rs c m g) (mkT s' p rs c m g)
| t_accept s p rs c m path th r g :
    (path, th) ∈ routes_t km -> g = Serving \/ g = Signalled ->
    action (mkT s p rs c m g) (mkT s p (rs ++ [(path, th new_rw r)])%list c m g)
| t_request s p rs1 path f rs2 t s' c m g :
    f s = Ret t s' ->
    action (mkT s p (rs1 ++ (path, TStep f) :: rs2)%list c m g) (mkT s' p (rs1 ++ (path, t) :: rs2)%list c m g)
| t_recovered s p rs1 path f rs2 e s' c m g :
    f s = Panic e s' ->
    action (mkT s p (rs1 ++ (path, TStep f) :: rs2)%list c m g) (mkT s' p (rs1 ++ rs2)%list c m g)
| t_answered s p rs1 path w rs2 c m g :
    action (mkT s p (rs1 ++ (path, TDone w) :: rs2)%list c m g) (mkT s p (rs1 ++ rs2)%list c m g)
| t_signal s p rs c m s' :
    main_signal s = Ret tt s' -> action (mkT s p rs c m Serving) (mkT s' p rs c m Signalled)
| t_close s p rs c m :
    action (mkT s p rs c m Signalled) (mkT s p rs c m Closing)
| t_exit s p c m :
    action (mkT s p [] c m Closing) (mkT s p [] c m Exited).

(** Nothing acts after the exit. *)
Definition tstep (sy sy' : tsystem) : Prop := t_stage sy <> Exited /\ action sy sy'.

Definition t_init (debugFlag : bool) (env : string -> string) (sy : tsystem) : Prop :=
  exists s s', gl s = init_globals /\ main_init debugFlag env None None s = Ret km s'
    /\ sy = mkT s' (Idle 0) [] [] ∅ Serving.

(** ** Threads that follow a relation on the shared state *)

(** Every step, returning or panicking, is in [R]; every node sent satisfies
    [N], and the result [Q]. *)
Inductive follows {A} (R : St -> St -> Prop) (N : nodeConsoleInfo -> Prop) (Q : A -> Prop) : thread A -> Prop :=
| follows_done a : Q a -> follows R N Q (TDone a)
| follows_step f :
    (forall s, R s (left_state (f s))) ->
    (forall s t s', f s = Ret t s' -> follows R N Q t) -> follows R N Q (TStep f)
| follows_send n t : N n -> follows R N Q t -> follows R N Q (TSend n t).

Definition any {A} (_ : A) : Prop := True.

Lemma follows_atom {A} R N (Q : A -> Prop) (p : Prog A) :
  (forall s, wp p (fun a s' => R s s' /\ Q a) (fun _ s' => R s s') s) -> follows R N Q (atom p).
Proof.
  intros Hp. constructor.
  - intros s. specialize (Hp s). rw /wp in Hp. rw /left_state. by destruct (p s) as [a s'|]; [destruct Hp|].
  - intros s t s'. specialize (Hp s). rw /wp in Hp. destruct (p s) as [a s1|]; [|done].
    intros [= <- <-]. by constructor; destruct Hp.
Qed.

(** An operation that stays in [R] is a step in [R]. *)
Lemma follows_op {A} (R : St -> St -> Prop) N (p : Prog A) :
  (forall s, wp p (fun _ s' => R s s') (fun _ s' => R s s') s) -> follows R N any (atom p).
Proof. intros Hp. apply follows_atom. intros s. eapply wp_mono; [apply Hp|by intros|by intros]. Qed.

Lemma follows_tbind {A B} R N (P : A -> Prop) (Q : B -> Prop) t (k : A -> thread B) :
  follows R N P t -> (forall a, P a -> follows R N Q (k a)) -> follows R N Q (tbind t k).
Proof.
  intros Ht Hk. induction Ht as [a Ha|f HI Hf IH|n t Hn _ IH]; cbn [tbind]; [by apply Hk| |by constructor].
  constructor.
  - intros s. specialize (HI s). rw /left_state in HI |- *. by destruct (f s).
  - intros s t s'. destruct (f s) as [t1 s1|] eqn:Hfs; [|done]. intros [= <- <-]. exact (IH s t1 s1 Hfs).
Qed.

(** When the results do not matter. *)
Lemma follows_seq {A B} R N (Q : B -> Prop) (t : thread A) (k : A -> thread B) :
  follows R N any t -> (forall a, follows R N Q (k a)) -> follows R N Q (tbind t k).
Proof. intros Ht Hk. by apply (follows_tbind _ _ any). Qed.

Lemma follows_send_all R (N : nodeConsoleInfo -> Prop) l : Forall N l -> follows R N any (send_all l).
Proof. induction 1; by constructor. Qed.

Lemma follows_inv {A} R N (Q : A -> Prop) f s :
  follows R N Q (TStep f) -> R s (left_state (f s)) /\ forall t s', f s = Ret t s' -> follows R N Q t.
Proof. inversion 1; subst. eauto. Qed.
End interleave.

(** Walk through a thread; the hints know the steps. *)
Create HintDb follows.
Ltac follows_go :=
  repeat first
    [ progress (intros; cbn beta iota zeta)
    | solve [auto with follows]
    | lazymatch goal with
      | |- follows _ _ _ (tbind _ _) => apply follows_seq
      | |- follows _ _ _ (TDone _) => by constructor
      | |- follows _ _ _ (match ?x with _ => _ end) => destruct x
      end ].

(** ** Operations that leave the variables alone *)

Definition spares {WD : World} {A} (p : Prog A) : Prop :=
  forall s, wp p (fun _ s' => gl s' = gl s) (fun _ s' => gl s' = gl s) s.

Section spares_rules.
Context {WD : World}.

Lemma spares_ret {A} (a : A) : spares (ret a).
Proof. done. Qed.
Lemma spares_panic {A} e : spares (panic e : Prog A).
Proof. done. Qed.
Lemma spares_gvar {A} (f : Globals -> A) : spares (gvar f).
Proof. done. Qed.
Lemma spares_ask {A} (f : W -> A * W) : spares (ask f).
Proof. intros s. apply wp_ask. by intros. Qed.
Lemma spares_bind {A B} (m : Prog A) (k : A -> Prog B) : spares m -> (forall a, spares (k a)) -> spares (bind m k).
Proof.
  intros Hm Hk s. apply wp_bind. eapply wp_mono; [apply Hm| |done]. intros a s1 <-. apply Hk.
Qed.
End spares_rules.

Create HintDb spares.
Ltac spares_go :=
  repeat first
    [ progress (intros; cbn beta iota zeta)
    | solve [auto with spares]
    | lazymatch goal with
      | |- spares (bind _ _) => apply spares_bind
      | |- spares (match ?x with _ => _ end) => destruct x
      end ].

Section spares.
Context {WD : World} (km : K8Manager).

Lemma spares_doURL m url body hdrs : spares (doURL m url body hdrs).
Proof. intros s. apply wp_doURL_quiet. by intros r s' [? _]. Qed.
Lemma spares_getURL url hdrs : spares (getURL url hdrs).
Proof. apply spares_doURL. Qed.
Lemma spares_putURL url body hdrs : spares (putURL url body hdrs).
Proof. apply spares_doURL. Qed.
Lemma spares_deleteURL url body hdrs : spares (deleteURL url body hdrs).
Proof. apply spares_doURL. Qed.
Lemma spares_xnames : spares getXnameAlias.
Proof. intros s. apply wp_getXnameAlias_quiet; by intros ? s' [? _]. Qed.
Lemma spares_getReplicas : spares (getReplicaCount km).
Proof. intros s. eapply wp_mono; [apply getReplicaCount_frame|by intros _ s' [[? _] _]|by intros _ s' [? _]]. Qed.
Lemma spares_keys : spares ensureMountainConsoleKeysExist.
Proof. intros s. destruct (ensureMountain_run s) as (b & s' & He & Hk%keys_outcome_gl). by rw /wp He. Qed.
Hint Resolve spares_ret spares_panic spares_gvar spares_ask spares_getURL spares_putURL spares_deleteURL spares_xnames
  spares_getReplicas : spares.

Lemma spares_range {V} (m : gmap string V) : spares (range m).
Proof. rw /range. spares_go. Qed.
Hint Resolve spares_range : spares.
Lemma spares_range_cache : spares range_cache.
Proof. rw /range_cache. spares_go. Qed.
Lemma spares_nodePod x : spares (getNodePodForXname x).
Proof. rw /getNodePodForXname. spares_go. Qed.
Hint Resolve spares_nodePod : spares.
Hint Extern 1 (spares (ds_getNodePodForXname _ _)) => apply spares_nodePod : spares.
Hint Extern 1 (spares (k8_getReplicaCount _)) => apply spares_getReplicas : spares.
Lemma spares_tally t x : spares (tally_step DataManager_service t x).
Proof. rw /tally_step. spares_go. Qed.
Lemma spares_location podID : spares (getPodLocationAlias km podID).
Proof. rw /getPodLocationAlias. spares_go. Qed.
Lemma spares_add l : spares (dataAddNodes l).
Proof. rw /dataAddNodes. spares_go. Qed.
Lemma spares_remove l : spares (dataRemoveNodes l).
Proof. rw /dataRemoveNodes. spares_go. Qed.
Lemma spares_endpoints : spares getRedfishEndpoints.
Proof. rw /getRedfishEndpoints. spares_go. Qed.
Lemma spares_components : spares getStateComponents.
Proof. rw /getStateComponents. spares_go. Qed.
Lemma spares_paradise : spares getParadiseNodes.
Proof. rw /getParadiseNodes. spares_go. Qed.
Lemma spares_live w r : spares (doLiveness w r).
Proof. rw /doLiveness. spares_go. Qed.
Lemma spares_ready w r : spares (doReadiness w r).
Proof. rw /doReadiness. spares_go. Qed.
Lemma spares_doGetNodePod w r : spares (doGetNodePod DataManager_service w r).
Proof. rw /doGetNodePod. spares_go. Qed.
Lemma spares_doGetPodReplicaCount w r : spares (doGetPodReplicaCount (k8 km) w r).
Proof. rw /doGetPodReplicaCount. spares_go. Qed.
End spares.

#[export] Hint Resolve spares_ret spares_panic spares_gvar spares_ask spares_range spares_range_cache spares_getReplicas
  spares_keys spares_tally spares_location spares_xnames spares_add spares_remove spares_endpoints spares_components
  spares_paradise spares_live spares_ready spares_doGetNodePod spares_doGetPodReplicaCount : spares.

(** ** What each goroutine does to the variables *)

Section variables.
Context {WD : World} (km : K8Manager).

(** The steps of a request on [path]. *)
Inductive touches (path : string) : Globals -> Globals -> Prop :=
| touches_none g : touches path g g
| touches_clear g : path = "/console-operator/clearData" -> touches path g (set_nodeCache ∅ g)
| touches_suspend g : path = "/console-operator/suspend" -> touches path g (set_inShutdown true g)
| touches_resume g : path = "/console-operator/resume" -> touches path g (set_inShutdown false g)
| touches_mtn v g : path = "/console-operator/v0/setMaxNodesPerPod" -> 2 <= v <= 750 ->
    touches path g (set_maxMtnNodesPerPod v g)
| touches_rvr v g : path = "/console-operator/v0/setMaxNodesPerPod" -> 2 <= v <= 2000 ->
    touches path g (set_maxRvrNodesPerPod v g).

Definition request_step (path : string) (s s' : St) : Prop := touches path (gl s) (gl s').

Lemma follows_spares {A} path N (p : Prog A) : spares p -> follows (request_step path) N any (atom p).
Proof.
  intros Hp. apply follows_op. intros s. rw /request_step.
  eapply wp_mono; [apply Hp|intros _ s' ->|intros _ s' ->]; constructor.
Qed.
Hint Resolve follows_spares : follows.
Hint Extern 2 (spares _) => solve [auto with spares] : follows.

Lemma follows_write path N f : (forall g, touches path g (f g)) -> follows (request_step path) N any (atom (gset_var f)).
Proof. intros Hf. apply follows_op. intros s. apply Hf. Qed.

Lemma follows_tally path N names : forall t, follows (request_step path) N any (tally_t t names).
Proof. induction names as [|nn names IH]; intros t; cbn [tally_t]; follows_go. Qed.
Hint Resolve follows_tally : follows.

Lemma follows_health path N : follows (request_step path) N any getCurrentHealth_t.
Proof. rw /getCurrentHealth_t. follows_go. Qed.
Hint Resolve follows_health : follows.

(** A request stays within what its path may do. *)
Lemma request_follows path th r N :
  (path, th) ∈ routes_t km -> follows (request_step path) N any (th new_rw r).
Proof.
  rw /routes_t. intros Hin. repeat (apply elem_of_cons in Hin as [[= -> ->]|Hin]; [|]); try (by apply not_elem_of_nil in Hin).
  - follows_go.
  - follows_go.
  - rw /doHealth_t. follows_go.
  - rw /doInfo_t. follows_go.
  - rw /doClearData_t. follows_go. apply follows_write. intros g. by apply touches_clear.
  - apply follows_op. intros s. rw /doSuspend. destruct (negb _); [apply touches_none|by apply touches_suspend].
  - apply follows_op. intros s. rw /doResume. destruct (negb _); [apply touches_none|by apply touches_resume].
  - rw /doSetMaxNodesPerPod_t. follows_go; apply follows_write; intros g;
      [apply touches_mtn|apply touches_rvr]; first [done|apply pinNumNodes_bounds; lia].
  - follows_go.
  - rw /doGetPodLocation_t. follows_go.
  - follows_go.
  - rw /doGetCurrentTargets_t. follows_go.
Qed.

(** The invariant of the variables. *)
Definition J (s : St) : Prop := vars_inv (gl s).
Definition J_kept (s s' : St) : Prop := J s -> J s'.

Lemma touches_vars path g g' : touches path g g' -> vars_inv g -> vars_inv g'.
Proof.
  intros Ht (Hc & Hf & Hk). destruct Ht; (split; [|split; [done|]]); try done; try (rw /config_ok in Hc |- *; cbn; lia).
Qed.

(** [N]: what a turn sends. *)
Definition mountain (n : nodeConsoleInfo) : Prop := isMountain n = true.

Notation turn_follows := (follows J_kept mountain).

Lemma turn_spares {A} (p : Prog A) : spares p -> turn_follows any (atom p).
Proof.
  intros Hp. apply follows_op. intros s. eapply wp_mono; [apply Hp|..]; by intros ? s' G; rw /J_kept /J G.
Qed.
Hint Resolve turn_spares : follows.

Lemma turn_write f : (forall g, vars_inv g -> vars_inv (f g)) -> turn_follows any (atom (gset_var f)).
Proof. intros Hf. apply follows_op. intros s Hs. by apply Hf. Qed.
Hint Extern 1 (turn_follows any (atom (gset_var _))) => apply turn_write; by intros : follows.

Lemma turn_cache curr : turn_follows any (atom (gset_var (set_nodeCache (map_by nc_NodeName curr)))).
Proof. apply turn_write. intros g. apply vars_inv_cache. Qed.

Lemma turn_replicas n : turn_follows any (atom (updateReplicaCount km n)).
Proof.
  apply follows_op. intros s. eapply wp_mono; [apply updateReplicaCount_frame|..]; rw /J_kept /J.
  - by intros _ s' [[->| ->] _].
  - by intros _ s' [-> _].
Qed.

Lemma turn_publish a b : turn_follows any (atom (updateNodesPerPod a b)).
Proof.
  apply follows_op. intros s. eapply wp_mono; [apply (k8_updateNodesPerPod_frame (k := k8 km))|..]; rw /J_kept /J.
  - intros _ s3 [_ [G|[Hle G]]] (Hc & Hf & Hk); rw G; (split; [done|]); (split; [|done]); cbn; [lia|]. rw int64_id; lia.
  - by intros _ s3 (-> & _).
Qed.

Lemma turn_find_new l : forall acc, turn_follows any (find_new acc l).
Proof. induction l as [|n l IH]; intros acc; cbn [find_new]; follows_go. Qed.
Hint Resolve turn_cache turn_replicas turn_publish turn_find_new : follows.

Lemma turn_hsm : turn_follows any getCurrentNodesFromHSM_t.
Proof. rw /getCurrentNodesFromHSM_t. follows_go. Qed.
Hint Resolve turn_hsm : follows.

Lemma turn_update all : turn_follows any (updateCachedNodeData_t all).
Proof. rw /updateCachedNodeData_t. follows_go. Qed.

Lemma turn_counts mtn rvr : turn_follows any (updateNodeCounts_t km mtn rvr).
Proof. rw /updateNodeCounts_t. follows_go. Qed.

Lemma turn_sends l : turn_follows any (send_all (filter (fun n => isMountain n = true) l)).
Proof. apply follows_send_all, Forall_forall. intros n. rw list_elem_of_filter. tauto. Qed.
Hint Resolve turn_update turn_counts turn_sends : follows.

(** A turn keeps the invariant, sends Mountain nodes, and gives a counter in range. *)
Definition cnt_ok (cnt : Z) : Prop := 0 <= cnt <= 10.

Lemma turn_ok cnt : cnt_ok cnt -> turn_follows cnt_ok (watchHardware_turn_t km cnt).
Proof.
  intros Hc. rw /watchHardware_turn_t. apply follows_seq; [auto with follows|]. intros stop.
  destruct (negb stop); [|by constructor]. apply follows_seq; [rw /doHardwareUpdate_t; follows_go|].
  intros ok. constructor. rw /cnt_ok /next_forceUpdateCnt in Hc |- *. destruct (Z.ltb_spec (cnt - 1) 0), ok; cbn; lia.
Qed.
End variables.

(** ** Every reachable state *)

Section reachable.
Context {WD : World} (km : K8Manager).

Definition main_ok (p : main_phase) : Prop :=
  match p with InTurn t => follows J_kept mountain cnt_ok t | Idle cnt => cnt_ok cnt end.

Definition request_ok (rq : string * thread ResponseWriter) : Prop := follows (request_step rq.1) (fun _ => False) any rq.2.

Record t_inv (sy : tsystem) : Prop := mkTInv {
  ti_vars : J (t_st sy);
  ti_main : main_ok (t_main sy);
  ti_reqs : Forall request_ok (t_reqs sy);
  ti_chan : (length (t_chan sy) <= channel_cap)%nat /\ all_mountain (t_chan sy);
  ti_pending : forall k n, t_pending sy !! k = Some n -> nc_NodeName n = k /\ isMountain n = true }.

Lemma Forall_middle {A} (P : A -> Prop) l1 x l2 : Forall P (l1 ++ x :: l2) <-> P x /\ Forall P (l1 ++ l2).
Proof. rw !Forall_app Forall_cons. tauto. Qed.

(** A step of a request: what it may have done, and that it goes on so. *)
Lemma request_action path f s :
  request_ok (path, TStep f) ->
  touches path (gl s) (gl (left_state (f s))) /\ forall t s', f s = Ret t s' -> request_ok (path, t).
Proof. intros Hf. exact (follows_inv _ _ _ _ s Hf). Qed.

Lemma t_inv_action sy sy' : t_inv sy -> action km sy sy' -> t_inv sy'.
Proof.
  intros [Hv Hm Hr [Hl Hc] Hp] Hstep.
  destruct Hstep as [|s f t s' rs c m g Hf|s n t rs c m g Hroom| | |s p rs c m m' s' g Hb|s p rs c m s' g Hb
    |s p rs c m pids s' g Hb|s p rs c m pid s' g Hb|s p rs c m path th r g Hin Hg|s p rs1 path f rs2 t s' c m g Hf
    |s p rs1 path f rs2 e s' c m g Hf|s p rs1 path w rs2 c m g|s p rs c m s' Hb| |]; cbn in *; split; cbn; try done.
  - by apply turn_ok.
  - destruct (follows_inv _ _ _ _ s Hm) as [H _]. rw Hf in H. by apply H.
  - destruct (follows_inv _ _ _ _ s Hm) as [_ H]. by apply (H t s').
  - by inversion Hm.
  - inversion Hm; subst. rw length_app /=. split; [lia|]. apply Forall_app. split; [done|]. by constructor.
  - by inversion Hm.
  - inversion Hc. split; [lia|done].
  - inversion Hc. intros k n'. rw lookup_insert. case_decide; [|by apply Hp]. intros [= <-]. by subst.
  - destruct (credsTimeout_vars _ _ _ _ Hb) as [G _]. by rw /J G.
  - destruct (credsTimeout_vars _ _ _ _ Hb) as [_ Hsub]. intros k n Hk. apply Hp. exact (lookup_weaken _ _ _ _ Hk Hsub).
  - by rw /J (heartbeat_gl _ _ Hb).
  - by rw /J (zombies_gl _ _ _ Hb).
  - by rw /J (reap_gl _ _ _ Hb).
  - apply Forall_app. split; [done|]. constructor; [by apply (request_follows km)|by constructor].
  - apply Forall_middle in Hr as [Hf' _]. destruct (request_action _ _ s Hf') as [H _]. rw Hf in H.
    exact (touches_vars _ _ _ H Hv).
  - apply Forall_middle in Hr as [Hf' Hr]. apply Forall_middle. split; [|done].
    destruct (request_action _ _ s Hf') as [_ H]. by apply (H t s').
  - apply Forall_middle in Hr as [Hf' _]. destruct (request_action _ _ s Hf') as [H _]. rw Hf in H.
    exact (touches_vars _ _ _ H Hv).
  - by apply Forall_middle in Hr as [_ Hr].
  - by apply Forall_middle in Hr as [_ Hr].
  - by injection Hb as <-.
Qed.

Lemma t_inv_init debugFlag env sy : t_init km debugFlag env sy -> t_inv sy.
Proof.
  intros (s & s' & Hg & Hr & ->). destruct (main_init_vars km debugFlag env s s' Hg Hr) as [Hv _].
  split; cbn; [exact Hv|rw /cnt_ok; lia|by constructor|split; [lia|by constructor]|].
  intros k n. by rw lookup_empty.
Qed.

Lemma t_inv_run debugFlag env sy0 sy : t_init km debugFlag env sy0 -> rtc (tstep km) sy0 sy -> t_inv sy.
Proof.
  intros H0%t_inv_init Hrun. revert H0. induction Hrun as [|sy1 sy2 sy3 [_ Hs] _ IH]; [done|].
  intros Hi. apply IH. exact (t_inv_action _ _ Hi Hs).
Qed.

(** C3: the invariant of the operator at every access. Whatever requests arrive
    and however the goroutines interleave, one access to a variable or one
    operation at a time, even in the middle of a turn of the main loop and while
    the service shuts down: the maxima of nodes per pod are in the range the
    sizing formulas are proved for, at most four file errors are counted, the
    cache is keyed by the names of its nodes, the channel is within its
    capacity, only Mountain nodes are being sent to, on their way to or in the
    hands of the key worker, each under its own name, and between turns the
    counter of forced updates is between 0 and 10. *)
Theorem interleaved_invariant debugFlag env sy0 sy :
  t_init km debugFlag env sy0 -> rtc (tstep km) sy0 sy ->
  vars_inv (gl (t_st sy))
  /\ (length (t_chan sy) <= channel_cap)%nat /\ all_mountain (t_chan sy)
  /\ (forall k n, t_pending sy !! k = Some n -> nc_NodeName n = k /\ isMountain n = true)
  /\ (forall n t, t_main sy = InTurn (TSend n t) -> isMountain n = true)
  /\ (forall cnt, t_main sy = Idle cnt -> 0 <= cnt <= 10).
Proof.
  intros H0 Hrun. destruct (t_inv_run _ _ _ _ H0 Hrun) as [Hv Hm _ [Hl Hc] Hp].
  split_and!; [done..| |].
  - intros n t Ht. rw Ht in Hm. by inversion Hm.
  - intros cnt Ht. by rw Ht in Hm.
Qed.

(** ** Shutdown *)

Definition resume_path : string := "/console-operator/resume".

(** The main loop does nothing but look at the flag. *)
Definition at_rest (cnt : Z) (p : main_phase) : Prop :=
  p = Idle cnt \/ p = InTurn (watchHardware_turn_t km cnt) \/ p = InTurn (TDone cnt).

(** Signalled, the flag up, no resume in flight. *)
Definition going_down (cnt : Z) (sy : tsystem) : Prop :=
  inShutdown (gl (t_st sy)) = true /\ (t_stage sy = Closing \/ t_stage sy = Exited) /\ at_rest cnt (t_main sy)
  /\ Forall (fun rq => request_ok rq /\ rq.1 <> resume_path) (t_reqs sy).

Lemma touches_flag path g g' : touches path g g' -> path <> resume_path -> inShutdown g = true -> inShutdown g' = true.
Proof. by intros []. Qed.

Lemma going_down_action cnt sy sy' : going_down cnt sy -> tstep km sy sy' -> going_down cnt sy' /\ t_chan sy' `suffix_of` t_chan sy.
Proof.
  intros (Hfl & Hst & Hm & Hr) [Hne Hstep]. rw /going_down.
  assert (forall path f (t : thread ResponseWriter) s rs1 rs2, Forall (fun rq => request_ok rq /\ rq.1 <> resume_path) (rs1 ++ (path, TStep f) :: rs2)%list ->
    inShutdown (gl s) = true -> inShutdown (gl (left_state (f s))) = true
    /\ Forall (fun rq => request_ok rq /\ rq.1 <> resume_path) (rs1 ++ rs2)%list
    /\ forall t s', f s = Ret t s' -> Forall (fun rq => request_ok rq /\ rq.1 <> resume_path) (rs1 ++ (path, t) :: rs2)%list) as Hreq.
  { intros path f _ s rs1 rs2 [[Hf Hp] Hrs]%Forall_middle Hs. destruct (request_action _ _ s Hf) as [Ht Hk].
    split_and!; [exact (touches_flag _ _ _ Ht Hp Hs)|done|]. intros t s' Hfs. apply Forall_middle. split; [|done].
    split; [exact (Hk t s' Hfs)|done]. }
  destruct Hstep as [s cnt0|s f t s' rs c m g Hf|s n t rs c m g Hroom|s cnt0| |s p rs c m m' s' g Hb|s p rs c m s' g Hb
    |s p rs c m pids s' g Hb|s p rs c m pid s' g Hb|s p rs c m path th r g Hin Hg|s p rs1 path f rs2 t s' c m g Hf
    |s p rs1 path f rs2 e s' c m g Hf|s p rs1 path w rs2 c m g|s p rs c m s' Hb| |]; cbn in *;
    try by destruct Hst.
  - destruct Hm as [[= <-]|[Hm|Hm]]; try done. split_and!; [done..|right; by left|done|done].
  - destruct Hm as [Hm|[Hm|Hm]]; try done. injection Hm as ->. cbn in Hf. rw Hfl in Hf. injection Hf as <- <-.
    split_and!; [done..|by right; right|done|done].
  - destruct Hm as [Hm|[Hm|Hm]]; done.
  - destruct Hm as [Hm|[Hm|[= <-]]]; try done. split_and!; [done..|by left|done|done].
  - split_and!; [done..|]. by exists [n].
  - destruct (credsTimeout_vars _ _ _ _ Hb) as [G _]. by rw G.
  - by rw (heartbeat_gl _ _ Hb).
  - by rw (zombies_gl _ _ _ Hb).
  - by rw (reap_gl _ _ _ Hb).
  - destruct Hst as [-> | ->], Hg; done.
  - destruct (Hreq path f t s rs1 rs2 Hr Hfl) as (H1 & _ & H2). rw Hf in H1. split_and!; [done..|exact (H2 t s' Hf)|done].
  - destruct (Hreq path f (TStep f) s rs1 rs2 Hr Hfl) as (H1 & H2 & _). rw Hf in H1. by split_and!.
  - apply Forall_middle in Hr as [_ Hr]. by split_and!.
  - split_and!; [done|by right|done..].
Qed.

(** C16: a service that shuts down stops its updates. Once the signal has been
    read and the listeners are closed, with the flag up, the main loop asleep
    and no resume request in flight: however the goroutines go on, no hardware
    update starts, the counter stays, nothing more is sent to the key worker and
    the flag stays up; the process can exit as soon as the requests in flight
    are answered, and then nothing acts any more. *)
Theorem shutdown_quiet debugFlag env sy0 sy sy' cnt :
  t_init km debugFlag env sy0 -> rtc (tstep km) sy0 sy ->
  t_stage sy = Closing -> inShutdown (gl (t_st sy)) = true -> t_main sy = Idle cnt ->
  resume_path ∉ (t_reqs sy).*1 ->
  rtc (tstep km) sy sy' ->
  inShutdown (gl (t_st sy')) = true /\ at_rest cnt (t_main sy') /\ t_chan sy' `suffix_of` t_chan sy
  /\ (t_stage sy' = Closing -> t_reqs sy' = [] -> exists sy'', tstep km sy' sy'' /\ t_stage sy'' = Exited)
  /\ (t_stage sy' = Exited -> forall sy'', ~ tstep km sy' sy'').
Proof.
  intros H0 Hrun Hst Hfl Hidle Hres Hrun'. pose proof (t_inv_run _ _ _ _ H0 Hrun) as Hinv.
  assert (going_down cnt sy) as Hd.
  { split_and!; [done|by left|by left|]. apply Forall_forall. intros rq Hin. split.
    - exact (proj1 (Forall_forall _ _) (ti_reqs _ Hinv) rq Hin).
    - intros Heq. apply Hres. rw -Heq. by apply list_elem_of_fmap_2. }
  assert (going_down cnt sy' /\ t_chan sy' `suffix_of` t_chan sy) as [Hd' Hch].
  { clear -Hrun' Hd. induction Hrun' as [|sy1 sy2 sy3 Hs _ IH]; [done|].
    destruct (going_down_action _ _ _ Hd Hs) as [Hd2 Hc2]. destruct (IH Hd2) as [Hd3 Hc3].
    split; [done|]. etrans; [exact Hc3|exact Hc2]. }
  destruct Hd' as (H1 & _ & H2 & _). split_and!; [done..| |].
  - intros Hcl Hnil. destruct sy' as [s p rs c m g]. cbn in *. subst. eexists. split; [split; [done|apply t_exit]|done].
  - by intros Hex sy'' [Hne _].
Qed.

(** A resume that is let in late starts the updates of a service that is
    shutting down: from any state between turns there is an interleaving in
    which the signal is read and its flag set, a resume request is still
    accepted and takes the flag back, the listeners close, and the main loop,
    finding the flag down, goes on into a hardware update. *)
Theorem resume_in_shutdown s cnt c m r :
  sr_Method r = "POST" ->
  exists s' w, rtc (tstep km) (mkT s (Idle cnt) [] c m Serving)
      (mkT s' (InTurn (let* ok := doHardwareUpdate_t km (cnt =? 0) in TDone (next_forceUpdateCnt cnt ok))) [(resume_path, TDone w)] c m Closing)
    /\ inShutdown (gl s') = false.
Proof.
  intros Hm. eexists _, _. split.
  - eapply rtc_l; [split; [done|by apply t_signal]|].
    eapply rtc_l; [split; [done|eapply (t_accept km _ _ [] _ _ resume_path (fun w r => atom (doResume w r)) r);
      [rw /routes_t; set_solver|by right]]|].
    eapply rtc_l; [split; [done|]|].
    { eapply (t_request km _ _ []). rw /atom /doResume Hm. reflexivity. }
    eapply rtc_l; [split; [done|apply t_close]|].
    eapply rtc_l; [split; [done|apply t_start]|].
    eapply rtc_l; [split; [done|by eapply t_turn]|]. apply rtc_refl.
  - done.
Qed.
End reachable.

(** ** A clear in the middle of a turn *)

Section race.
Context {WD : World} (inv_of : W -> inventory) `{!ConsoleData inv_of}.
Context (km : K8Manager).

(** Steps during which the requests wait. *)
Definition beside (rs : list (string * thread ResponseWriter)) (sy sy' : tsystem) : Prop :=
  tstep km sy sy' /\ t_reqs sy' = rs.

(** The worker takes all that is in the channel. *)
Lemma drain_rtc rs c : forall s p m, exists m', rtc (beside rs) (mkT s p rs c m Serving) (mkT s p rs [] m' Serving).
Proof using Type.
  induction c as [|n c IH]; intros s p m; [exists m; apply rtc_refl|].
  destruct (IH s p (<[nc_NodeName n := n]> m)) as [m' H]. exists m'.
  eapply rtc_l; [split; [split; [done|apply t_recv]|done]|exact H].
Qed.

(** A thread of the main loop that only the worker runs beside. *)
Lemma turn_rtc rs t : forall s a sent s' c m, run t s = Ret (a, sent) s' ->
  exists c' m', rtc (beside rs) (mkT s (InTurn t) rs c m Serving) (mkT s' (InTurn (TDone a)) rs c' m' Serving).
Proof using Type.
  induction t as [a0|f IH|n t IH] using thread_ind'; intros s a sent s' c m; cbn.
  - intros [= <- _ <-]. exists c, m. apply rtc_refl.
  - destruct (f s) as [t1 s1|] eqn:Hf; [|done]. intros Hr. destruct (IH s t1 s1 Hf s1 a sent s' c m Hr) as (c' & m' & H).
    exists c', m'. eapply rtc_l; [split; [split; [done|exact (t_turn km _ _ _ _ _ _ _ _ Hf)]|done]|exact H].
  - destruct (run t s) as [[a1 l1] s1|] eqn:Hr; [|done]. intros [= <- <- <-].
    destruct (drain_rtc rs c s (InTurn (TSend n t)) m) as [m1 H1].
    destruct (IH s a1 l1 s1 [n] m1 Hr) as (c' & m' & H2). exists c', m'.
    etrans; [exact H1|]. eapply rtc_l; [split; [split; [done|apply t_send; cbn; rw /channel_cap; lia]|done]|exact H2].
Qed.

(** The state in which a clear has emptied the cache and not yet told console-data. *)
Definition half_cleared (s : St) : St :=
  set_gl (set_nodeCache ∅ (gl s)) (set_ext (map_order (nodeCache (gl s)) (ext s)).2 s).

(** C14: a clear that overlaps a turn loses nodes. Let a clear of all data have
    emptied the cache but not yet sent its removal when the main loop makes a
    whole turn, which finds every node new and sends it. There is an
    interleaving in which the removal comes last: at its end, between two turns
    and with no request left, every node of the old cache that HSM still lists
    is in the cache, so that no later turn takes it for new, but not in the
    inventory of console-data. *)
Theorem clear_race r cnt s cnt' sent s2 c m :
  sr_Method r = "DELETE" -> cache_ok (nodeCache (gl s)) -> reliable_delete ->
  watchHardware_turn DataManager_service (NewNodeManager (k8 km)) cnt (half_cleared s) = Ret (cnt', sent) s2 ->
  exists s3 c' m', rtc (tstep km) (mkT s (Idle cnt) [] c m Serving) (mkT s3 (Idle cnt') [] c' m' Serving)
    /\ gl s3 = gl s2
    /\ forall k, is_Some (nodeCache (gl s) !! k) -> is_Some (nodeCache (gl s2) !! k) ->
         is_Some (nodeCache (gl s3) !! k) /\ inv_of (ext s3) !! k = None.
Proof.
  intros Hm Hc Hrel Hturn. set (es := (map_order (nodeCache (gl s)) (ext s)).1).
  pose proof (map_order_perm (nodeCache (gl s)) (ext s)) as Hp. fold es in Hp.
  assert (forall k n, (k, n) ∈ es <-> nodeCache (gl s) !! k = Some n) as Hes by (intros; by rw Hp elem_of_map_to_list).
  assert (forallb wf_node es.*2 = true) as Hwf.
  { apply forallb_forall. intros n [[k ?] [-> Hk%Hes]]%list_elem_of_In%list_elem_of_fmap. exact (proj2 (Hc _ _ Hk)). }
  destruct (wp_run_ret _ _ _ (dataRemoveNodes_law inv_of es.*2 s2 Hwf)) as ([] & s3 & Hdel & G3 & _ & _ & I3).
  specialize (I3 Hrel). rw -turn_alone in Hturn.
  set (k1 := fun _ : unit => TDone (WriteHeader StatusOK new_rw)).
  destruct (turn_rtc [("/console-operator/clearData", (let* u := atom (dataRemoveNodes es.*2) in k1 u))] _ _ _ _ _ c m Hturn) as (c' & m' & Hrun).
  assert (forall rs sy sy', rtc (beside rs) sy sy' -> rtc (tstep km) sy sy') as Hsub.
  { intros rs sy sy'. apply rtc_subrel. by intros ? ? []. }
  apply Hsub in Hrun. exists s3, c', m'. split; [|split; [done|]].
  - eapply rtc_l; [split; [done|]|].
    { apply (t_accept km _ _ [] _ _ "/console-operator/clearData" doClearData_t r); [rw /routes_t; set_solver|by left]. }
    cbn [app]. rw /doClearData_t Hm. change (negb (String.eqb "DELETE" "DELETE")) with false. cbn beta iota.
    assert (range_cache s = Ret es (set_ext (map_order (nodeCache (gl s)) (ext s)).2 s)) as Hr.
    { rw range_cache_run /range /ask /es. by destruct (map_order _ _). }
    eapply rtc_l; [split; [done|]; eapply (t_request km _ _ []); cbn [atom tbind]; rw Hr; reflexivity|].
    eapply rtc_l; [split; [done|]; eapply (t_request km _ _ []); reflexivity|]. cbn [app]. fold (half_cleared s).
    eapply rtc_l; [split; [done|apply t_start]|]. etrans; [exact Hrun|].
    eapply rtc_l; [split; [done|apply t_end]|].
    eapply rtc_l; [split; [done|]; eapply (t_request km _ _ []); cbn [tbind atom]; rw Hdel; reflexivity|].
    eapply rtc_l; [split; [done|apply (t_answered km _ _ [])]|]. apply rtc_refl.
  - intros k [n Hn] Hk2. rw G3. split; [done|]. rw I3 remove_nodes_lookup. case_decide as Hd; [done|].
    destruct Hd. apply list_elem_of_fmap. exists n. split; [by destruct (Hc _ _ Hn)|].
    apply list_elem_of_fmap. exists (k, n). by rw Hes.
Qed.
End race.

(** ** Witnesses *)

(** The start of the operator in the quiet cluster, a clear request arriving,
    and the main loop starting its first turn before the request runs. *)
Definition clear_request : srv_request :=
  mkSR "DELETE" "/console-operator/clearData" (fun _ => "") "application/json" (inr "").
Definition ex_t0 : tsystem := mkT ex_start (Idle 0) [] [] ∅ Serving.
Definition ex_t1 : tsystem :=
  mkT ex_start (InTurn (watchHardware_turn_t k8_ok 0)) [("/console-operator/clearData", doClearData_t new_rw clear_request)] [] ∅ Serving.

Lemma ex_t0_init : t_init k8_ok false ex_env ex_t0.
Proof. exists (sim_state init_globals quiet), ex_start. split; [reflexivity|]. split; reflexivity. Qed.

Lemma interleaved_invariant_witness :
  vars_inv (gl (t_st ex_t1))
  /\ (length (t_chan ex_t1) <= channel_cap)%nat /\ all_mountain (t_chan ex_t1)
  /\ (forall k n, t_pending ex_t1 !! k = Some n -> nc_NodeName n = k /\ isMountain n = true)
  /\ (forall n t, t_main ex_t1 = InTurn (TSend n t) -> isMountain n = true)
  /\ (forall cnt, t_main ex_t1 = Idle cnt -> 0 <= cnt <= 10).
Proof.
  apply (interleaved_invariant k8_ok false ex_env ex_t0 ex_t1); [apply ex_t0_init|].
  eapply rtc_l; [split; [done|]; apply (t_accept k8_ok _ _ [] _ _ "/console-operator/clearData" doClearData_t clear_request); [|by left]|].
  { rw /routes_t. do 4 apply list_elem_of_further. by apply list_elem_of_here. }
  apply rtc_once. split; [done|apply t_start].
Defined.

(** The signal, the close, and the exit. *)
Definition ex_down (g : stage) : tsystem :=
  mkT (set_gl (set_inShutdown true (gl ex_start)) ex_start) (Idle 0) [] [] ∅ g.

Lemma shutdown_quiet_witness :
  inShutdown (gl (t_st (ex_down Exited))) = true /\ at_rest k8_ok 0 (t_main (ex_down Exited))
  /\ t_chan (ex_down Exited) `suffix_of` t_chan (ex_down Closing)
  /\ (t_stage (ex_down Exited) = Closing -> t_reqs (ex_down Exited) = [] ->
        exists sy'', tstep k8_ok (ex_down Exited) sy'' /\ t_stage sy'' = Exited)
  /\ (t_stage (ex_down Exited) = Exited -> forall sy'', ~ tstep k8_ok (ex_down Exited) sy'').
Proof.
  apply (shutdown_quiet k8_ok false ex_env ex_t0 (ex_down Closing) (ex_down Exited) 0);
    [apply ex_t0_init| |done|done|done|apply not_elem_of_nil|].
  - eapply rtc_l; [split; [done|by apply t_signal]|]. apply rtc_once. split; [done|apply t_close].
  - apply rtc_once. split; [done|apply t_exit].
Defined.

Lemma resume_in_shutdown_witness :
  exists s' w, rtc (tstep k8_ok) (mkT ex_start (Idle 4) [] [] ∅ Serving)
      (mkT s' (InTurn (let* ok := doHardwareUpdate_t k8_ok (4 =? 0) in TDone (next_forceUpdateCnt 4 ok))) [(resume_path, TDone w)] [] ∅ Closing)
    /\ inShutdown (gl s') = false.
Proof. exact (resume_in_shutdown k8_ok ex_start 4 [] ∅ (mkSR "POST" resume_path (fun _ => "") "application/json" (inr "")) eq_refl). Defined.

Lemma ret_run {S A} (P : S -> bool) (o : outcome S A) :
  match o with Ret _ s => P s | Panic _ _ => false end = true -> exists a s, o = Ret a s /\ P s = true.
Proof. destruct o; [eauto|done]. Qed.

(** The node HSM lists is cached and in console-data; a clear comes in. *)
Definition ex_before : @St (cd_world ex_rf ex_sc) :=
  cd_state {[nc_NodeName found_node := found_node]} {[nc_NodeName found_node := found_node]}.

Lemma clear_race_witness :
  exists cnt' (s2 s3 : @St (cd_world ex_rf ex_sc)) c' m',
    rtc (tstep k8_ok) (mkT ex_before (Idle 5) [] [] ∅ Serving) (mkT s3 (Idle cnt') [] c' m' Serving)
    /\ gl s3 = gl s2
    /\ is_Some (nodeCache (gl s3) !! nc_NodeName found_node)
    /\ @cd_inv ex_rf ex_sc (ext s3) !! nc_NodeName found_node = None.
Proof.
  destruct (ret_run (fun s2 => match nodeCache (gl s2) !! nc_NodeName found_node with Some _ => true | None => false end)
    (watchHardware_turn DataManager_service (NewNodeManager (k8 k8_ok)) 5 (half_cleared ex_before)))
    as ([cnt' sent] & s2 & Hr & Hk); [by vm_compute|].
  destruct (clear_race (@cd_inv ex_rf ex_sc) k8_ok clear_request 5 ex_before cnt' sent s2 [] ∅) as (s3 & c' & m' & H1 & H2 & H3);
    [done|apply cache_ok_found| |exact Hr|].
  - intros body w. rw /delete_req. cbn -[inventory_url dec_nodes]. rw /cd_http. cbn -[inventory_url dec_nodes]. by rw String.eqb_refl.
  - exists cnt', s2, s3, c', m'. split; [done|]. split; [done|]. apply H3; [done|].
    by destruct (nodeCache (gl s2) !! nc_NodeName found_node).
Defined.
