(* ===== verification/InStep.v ===== *)
(** * The inventory over interleaved runs

    [clear_race] shows that a clear of all data that overlaps a turn of the main
    loop breaks the agreement between the cache and console-data.  Here is the
    other half: in every run in which no clear overlaps a turn or another clear,
    whatever else the goroutines do between any two accesses, the agreement
    holds whenever the main loop sleeps ([calm_runs_in_step]).

    The proof is by a logic for threads: [twp t Q E v] says that [t], started
    with the inventory and the cache [v] and interrupted anywhere by goroutines
    that leave those two alone, ends in [Q]. *)
From S2P Require Import Prelude GoStrings Json JsonFacts JsonCodec State SimWorld HttpUtils K8s Nodes NodesFacts Data Creds CredsFacts Inventory OpMain OpMainFacts Zombies Sls Handlers HandlersFacts Separation System SystemInventory Threads Interleave.
#[local] Open Scope string_scope.
#[local] Open Scope Z_scope.
#[local] Open Scope thread_scope.

(** The path of the requests that clear all data. *)
Definition clear_path : string := "/console-operator/clearData".

Section logic.
Context {WD : World} (inv_of : W -> inventory).

(** What console-data lists, and the cache. *)
Definition view : Type := inventory * gmap string nodeConsoleInfo.
Definition view_of (s : St) : view := (inv_of (ext s), nodeCache (gl s)).

Lemma view_eq s : view_of s = (inv_of (ext s), nodeCache (gl s)).
Proof. done. Qed.

Lemma view_undisturbed s s' : undisturbed inv_of s s' -> view_of s' = view_of s.
Proof. rw /view_of. by intros [-> ->]. Qed.

Fixpoint twp {A} (t : thread A) (Q : A -> view -> Prop) (E : view -> Prop) (v : view) : Prop :=
  match t with
  | TDone a => Q a v
  | TStep f => forall s, view_of s = v ->
      match f s with Ret t' s' => twp t' Q E (view_of s') | Panic _ s' => E (view_of s') end
  | TSend _ t' => twp t' Q E v
  end.

Lemma twp_mono {A} (t : thread A) (Q Q' : A -> view -> Prop) (E : view -> Prop) v :
  (forall a v, Q a v -> Q' a v) -> twp t Q E v -> twp t Q' E v.
Proof.
  intros HQ. revert v. induction t as [a|f IH|n t IH] using thread_ind'; intros v; cbn; [apply HQ| |apply IH].
  intros Ht s Hs. specialize (Ht s Hs). destruct (f s) as [t' s'|] eqn:Hf; [|done]. by apply (IH s t' s').
Qed.

Lemma twp_tbind {A B} (t : thread A) (k : A -> thread B) Q E v :
  twp t (fun a v' => twp (k a) Q E v') E v -> twp (tbind t k) Q E v.
Proof.
  revert v. induction t as [a|f IH|n t IH] using thread_ind'; intros v; cbn; [done| |apply IH].
  intros Ht s Hs. specialize (Ht s Hs). destruct (f s) as [t' s'|] eqn:Hf; [|done]. by apply (IH s t' s').
Qed.

Lemma twp_atom {A} (p : Prog A) (Q : A -> view -> Prop) (E : view -> Prop) v :
  (forall s, view_of s = v -> wp p (fun a s' => Q a (view_of s')) (fun _ s' => E (view_of s')) s) ->
  twp (atom p) Q E v.
Proof. intros Hp s Hs. specialize (Hp s Hs). rw /wp in Hp. by destruct (p s). Qed.

(** A thread that leaves the two alone. *)
Lemma twp_follows {A} N (P : A -> Prop) (t : thread A) (Q : A -> view -> Prop) (E : view -> Prop) v :
  follows (undisturbed inv_of) N P t -> (forall a, P a -> Q a v) -> E v -> twp t Q E v.
Proof.
  intros Ht HQ HE. induction Ht as [a Ha|f HR Hf IH|n t _ _ IH]; cbn; [by apply HQ| |done].
  intros s <-. specialize (HR s). destruct (f s) as [t' s'|e s'] eqn:Hfs; cbn in HR; rw (view_undisturbed _ _ HR); [|done].
  exact (IH s t' s' Hfs).
Qed.

Lemma follows_keeps {A} N (p : Prog A) : keeps inv_of p -> follows (undisturbed inv_of) N any (atom p).
Proof. intros Hp. apply follows_op. exact Hp. Qed.
End logic.

#[export] Hint Resolve follows_keeps : follows.
#[export] Hint Extern 2 (keeps _ _) => solve [auto with separate] : follows.

Section calm.
Context {WD : World} (inv_of : W -> inventory) `{!ConsoleData inv_of} `{!Separate inv_of}.
Context (km : K8Manager).

Notation still := (follows (undisturbed inv_of)).
Notation view_of := (view_of inv_of).
Notation twp := (twp inv_of).

(** ** The threads that leave the inventory and the cache alone *)

Lemma still_set N f : (forall g, nodeCache (f g) = nodeCache g) -> still N any (atom (gset_var f)).
Proof. intros Hf. by apply follows_keeps, keeps_gset. Qed.
Hint Extern 1 (follows _ _ any (atom (gset_var _))) => by apply still_set : follows.

Lemma keeps_range_cache : keeps inv_of range_cache.
Proof. apply keeps_bind; [apply keeps_gvar|]. intros. apply (keeps_range inv_of). Qed.

(** The operations whose steps leave the two alone. *)
Lemma still_op {A} N (p : Prog A) : keeps inv_of p -> still N any (atom p).
Proof. apply follows_keeps. Qed.
Hint Extern 1 (follows _ _ any (atom range_cache)) => apply still_op, keeps_range_cache : follows.
Hint Extern 1 (follows _ _ any (atom (range _))) => apply still_op, (keeps_range inv_of) : follows.
Hint Extern 1 (follows _ _ any (atom (tally_step _ _ _))) => apply still_op, (keeps_tally_step inv_of) : follows.
Hint Extern 1 (follows _ _ any (atom (getPodLocationAlias _ _))) => apply still_op, (keeps_getPodLocationAlias inv_of) : follows.
Hint Extern 1 (follows _ _ any (atom getXnameAlias)) => apply still_op, (keeps_getXnameAlias inv_of) : follows.
Hint Extern 1 (follows _ _ any (atom (getReplicaCount _))) => apply still_op, (keeps_getReplicaCount inv_of) : follows.
Hint Extern 1 (follows _ _ any (atom (updateReplicaCount _ _))) => apply still_op, (keeps_updateReplicaCount inv_of) : follows.
Hint Extern 1 (follows _ _ any (atom (updateNodesPerPod _ _))) => apply still_op, (keeps_updateNodesPerPod inv_of) : follows.
Hint Extern 1 (follows _ _ any (atom ensureMountainConsoleKeysExist)) => apply still_op, (keeps_ensureKeys inv_of) : follows.
Hint Extern 1 (follows _ _ any (atom (ask time_now))) => apply still_op, (keeps_now inv_of) : follows.

Lemma still_tally N names : forall t, still N any (tally_t t names).
Proof. induction names as [|nn names IH]; intros t; cbn [tally_t]; follows_go. Qed.
Hint Resolve still_tally : follows.

Lemma still_health N : still N any getCurrentHealth_t.
Proof. rw /getCurrentHealth_t. follows_go. Qed.
Hint Resolve still_health : follows.

(** One-step handlers. *)
Lemma still_handler N m p (h : handler) r :
  (m, p, h) ∈ routes (k8 km) NewSlsManager DataManager_service -> p <> clear_path -> still N any (atom (h new_rw r)).
Proof. intros Hin Hp. by apply still_op, (handlers_keep inv_of km m p). Qed.

Lemma still_request path th r N : (path, th) ∈ routes_t km -> path <> clear_path -> still N any (th new_rw r).
Proof.
  rw /routes_t. intros Hin Hpath.
  assert (forall m p (h : handler), p <> clear_path -> (m, p, h) ∈ routes (k8 km) NewSlsManager DataManager_service ->
    still N any (atom (h new_rw r))) as Hone by (intros m p h Hp Hr; by apply (still_handler N m p h r)).
  repeat (apply elem_of_cons in Hin as [[= -> ->]|Hin]; [|]); try (by apply not_elem_of_nil in Hin).
  - apply (Hone "GET" "/console-operator/liveness"); [done|rw /routes; set_solver].
  - apply (Hone "GET" "/console-operator/readiness"); [done|rw /routes; set_solver].
  - rw /doHealth_t. follows_go.
  - rw /doInfo_t. follows_go.
  - by destruct Hpath.
  - apply (Hone "POST" "/console-operator/suspend"); [done|rw /routes; set_solver].
  - apply (Hone "POST" "/console-operator/resume"); [done|rw /routes; set_solver].
  - rw /doSetMaxNodesPerPod_t. follows_go.
  - apply (Hone "GET" "/console-operator/v0/getNodePod"); [done|rw /routes; set_solver].
  - rw /doGetPodLocation_t. follows_go.
  - apply (Hone "GET" "/console-operator/v1/replicas"); [done|rw /routes; set_solver].
  - rw /doGetCurrentTargets_t. follows_go.
Qed.

Lemma still_counts N mtn rvr : still N any (updateNodeCounts_t km mtn rvr).
Proof. rw /updateNodeCounts_t. follows_go. Qed.

(** Reading HSM gives nodes that JSON carries faithfully. *)
Lemma still_hsm N : still N (fun nodes => forallb wf_node nodes = true) getCurrentNodesFromHSM_t.
Proof.
  rw /getCurrentNodesFromHSM_t.
  apply (follows_tbind _ _ (fun r : list redfishEndpoint * option error => r.2 = None -> Forall (fun x => wf_rf x = true) r.1)).
  { apply follows_atom. intros s. eapply wp_mono; [apply (getRedfishEndpoints_law inv_of cd_get s)| |done].
    intros r s' (H & G & _ & I). split; [|done]. by split; [|rw G]. }
  intros [rfs [e|]] W1; [by constructor|]. specialize (W1 eq_refl).
  apply (follows_tbind _ _ (fun r : list stateComponent * option error => r.2 = None -> Forall (fun x => wf_sc x = true) r.1)).
  { apply follows_atom. intros s. eapply wp_mono; [apply (getStateComponents_law inv_of cd_get s)| |done].
    intros r s' (H & G & _ & I). split; [|done]. by split; [|rw G]. }
  intros [comps [e|]] W2; [by constructor|]. specialize (W2 eq_refl).
  apply follows_seq.
  { apply follows_op. intros s. eapply wp_mono; [apply (getParadiseNodes_law inv_of cd_get s)| |done].
    intros r s' (G & _ & I). by split; [|rw G]. }
  intros [par e]. destruct (buildNodes _ _ _ _) as [nodes|] eqn:Hb.
  - constructor. exact (buildNodes_wf _ _ _ _ W1 W2 Hb).
  - apply follows_atom. intros s. done.
Qed.
(** ** The update *)

(** The look-ups all read the same cache. *)
Lemma twp_find_new l (inv : inventory) cache : forall acc (Q : list nodeConsoleInfo -> view -> Prop) E,
  Q (foldl (fun acc n => if bool_decide (cache !! nc_NodeName n = None) then acc ++ [n] else acc)%list acc l) (inv, cache) ->
  twp (find_new acc l) Q E (inv, cache).
Proof.
  induction l as [|n l IH]; intros acc Q E HQ; [done|]. cbn [find_new]. apply twp_tbind, twp_atom.
  intros s Hs. apply wp_gvar. injection Hs as Hi Hc. rw view_eq Hi Hc. by apply IH.
Qed.

Lemma twp_range_cache (inv : inventory) cache (Q : list (string * nodeConsoleInfo) -> view -> Prop) E :
  (forall es, es ≡ₚ map_to_list cache -> Q es (inv, cache)) -> twp (atom range_cache) Q E (inv, cache).
Proof.
  intros HQ. apply twp_atom. intros s Hs. apply wp_bind, wp_gvar, wp_ask. intros es w Ho.
  pose proof (cd_order (nodeCache (gl s)) (ext s)) as I. pose proof (map_order_perm (nodeCache (gl s)) (ext s)) as Hp.
  rw Ho in I, Hp. cbn in I, Hp. injection Hs as Hi Hc. rw view_eq. cbn. rw I Hi Hc. apply HQ. by rw Hp Hc.
Qed.

(** Adding nodes: what becomes of the inventory, and what the result says of it. *)
Lemma twp_add l (inv : inventory) cache (Q : bool -> view -> Prop) E :
  forallb wf_node l = true ->
  (forall ok inv1, (ok = true -> inv1 = add_nodes l inv) -> (atomic_put inv_of -> ok = false -> inv1 = inv) -> Q ok (inv1, cache)) ->
  twp (if (0 <? length l)%nat then let* ok := atom (dataAddNodes l) in TDone (if negb ok then false else true) else TDone true)
    Q E (inv, cache).
Proof.
  intros Hwf HQ. destruct l as [|n l]; cbn [length Nat.ltb Nat.leb]; [by apply HQ|].
  apply twp_tbind, twp_atom. intros s Hs. injection Hs as Hi Hc.
  eapply wp_mono; [exact (dataAddNodes_law inv_of (n :: l) s Hwf)| |done].
  intros ok s' (G & _ & H1 & _ & H3). rw view_eq G Hc Hi in H1, H3 |- *. cbn.
  apply HQ; by destruct ok.
Qed.

Lemma twp_remove l (inv : inventory) cache (Q : unit -> view -> Prop) E :
  forallb wf_node l = true ->
  (forall inv1, (inv1 = inv \/ inv1 = remove_nodes l inv) -> (reliable_delete -> inv1 = remove_nodes l inv) -> Q tt (inv1, cache)) ->
  twp (if (0 <? length l)%nat then atom (dataRemoveNodes l) else TDone tt) Q E (inv, cache).
Proof.
  intros Hwf HQ. destruct l as [|n l]; cbn [length Nat.ltb Nat.leb]; [apply HQ; [by left|done]|].
  apply twp_atom. intros s Hs. injection Hs as Hi Hc.
  eapply wp_mono; [exact (dataRemoveNodes_law inv_of (n :: l) s Hwf)| |done].
  intros [] s' (G & _ & H1 & H2). rw view_eq G Hc. rw Hi in H1, H2. by apply HQ.
Qed.

(** The inventory and the cache are in step, up to the orphans of the start
    and those that console-data is to blame for. *)
Definition good (inv0 : inventory) (cnt : Z) (v : view) : Prop :=
  exists L, dom inv0 ⊆ L /\ in_step L cnt v.1 v.2 /\ (atomic_put inv_of -> reliable_delete -> L = dom inv0).

Lemma twp_update inv0 cnt v :
  good inv0 cnt v ->
  twp (updateCachedNodeData_t (cnt =? 0)) (fun r v' => good inv0 (next_forceUpdateCnt cnt r.1) v') (fun _ => True) v.
Proof.
  intros (L & HL & Hs & Hr). destruct v as [inv cache]. pose proof (proj1 Hs) as Hc. cbn [fst snd] in *.
  rw /updateCachedNodeData_t. eapply twp_tbind, (twp_follows _ (fun _ => True)); [apply still_hsm| |done].
  intros curr Hwf. cbn zeta. apply twp_tbind, twp_find_new. rw -/(not_in _ _) not_in_eq.
  apply twp_tbind, twp_range_cache. intros es Hp. set (removed := not_in (map_by nc_NodeName curr) es.*2).
  assert (stale cache curr removed) as Hst by (rw /stale /removed not_in_eq; by rw Hp).
  set (toUpdate := if cnt =? 0 then _ else _).
  assert (forallb wf_node toUpdate = true) as Hwu.
  { apply (forallb_sub _ curr); [|done]. rw /toUpdate. destruct (cnt =? 0); [done|]. intros n. rw list_elem_of_filter. tauto. }
  assert (forallb wf_node removed = true) as Hwr.
  { apply forallb_forall. intros n [_ [k Hk]]%list_elem_of_In%(stale_elem _ _ _ _ Hst). exact (proj2 (Hc _ _ Hk)). }
  apply twp_tbind, twp_add; [done|]. intros ok inv1 A1 A2.
  apply twp_tbind, twp_remove; [done|]. intros inv' R1 R2. apply twp_tbind.
  destruct (in_step_update L cnt inv inv1 inv' cache curr removed ok Hs Hst (cache_ok_map_by curr Hwf) A1 R1) as (L' & HL' & H1 & H2 & _).
  assert (good inv0 (next_forceUpdateCnt cnt ok) (inv', if ok then map_by nc_NodeName curr else cache)) as Hg.
  { exists L'. split_and!; [set_solver|exact H1|]. intros Ha Hd. rw -(Hr Ha Hd). apply H2; [by apply A2|by apply R2]. }
  destruct ok; [|exact Hg]. apply twp_atom. intros s Hv. injection Hv as Hi _. cbn. by rw view_eq /= Hi.
Qed.

Lemma twp_turn inv0 cnt v :
  good inv0 cnt v -> twp (watchHardware_turn_t km cnt) (good inv0) (fun _ => True) v.
Proof.
  intros Hg. rw /watchHardware_turn_t. eapply twp_tbind, (twp_follows _ any any); [follows_go| |done]. intros stop _.
  destruct (negb stop); [|exact Hg]. apply twp_tbind. rw /doHardwareUpdate_t.
  eapply twp_tbind, (twp_follows _ any any); [follows_go| |done]. intros now _.
  eapply twp_tbind, (twp_follows _ any any); [follows_go| |done]. intros _ _.
  apply twp_tbind. eapply twp_mono; [|exact (twp_update inv0 cnt v Hg)]. intros [ok new] v' Hg'. cbn [fst] in Hg'.
  eapply (twp_follows _ any (fun b => b = ok)); [|by intros ? ->|done].
  apply follows_seq; [follows_go|]. intros es. destruct (foldl _ _ _) as [mtn rvr].
  apply follows_seq; [apply still_counts|]. intros _. apply follows_seq; [|by constructor].
  destruct (0 <? mtn); [|by constructor]. apply follows_seq; [follows_go|]. intros _. apply follows_send_all.
  by apply Forall_forall.
Qed.

(** ** The clear *)

Lemma in_step_clear L cnt (inv inv' : inventory) cache removed :
  in_step L cnt inv cache -> removed ≡ₚ (map_to_list cache).*2 ->
  (inv' = inv \/ inv' = remove_nodes removed inv) ->
  exists L', L ⊆ L' /\ in_step L' cnt inv' ∅ /\ (inv' = remove_nodes removed inv -> L' = L).
Proof using Type.
  intros (Hc & Hin & _) Hp Hi. exists (orphans_after L inv' ∅). destruct (orphans_after_spec L inv' ∅) as (O1 & O2 & O3).
  split_and!; [done| |].
  - split; [by intros k n; rw lookup_empty|]. split; [done|]. intros _ k. rw lookup_empty. by intros [].
  - intros ->. apply O3. intros k. rw remove_nodes_lookup. case_decide as Hk; [by intros []|].
    intros H. right. destruct (Hin k H) as [[n Hn]|?]; [|done]. destruct Hk. apply list_elem_of_fmap.
    exists n. split; [by destruct (Hc _ _ Hn)|]. rw Hp. apply list_elem_of_fmap. exists (k, n). by rw elem_of_map_to_list.
Qed.

Lemma twp_clear inv0 cnt w r v :
  good inv0 cnt v -> twp (doClearData_t w r) (fun _ => good inv0 cnt) (good inv0 cnt) v.
Proof.
  intros Hg. rw /doClearData_t. destruct (negb _); [exact Hg|].
  destruct Hg as (L & HL & Hs & Hr). destruct v as [inv cache]. cbn [fst snd] in *. pose proof (proj1 Hs) as Hc.
  apply twp_tbind, twp_range_cache. intros es Hp.
  assert (es.*2 ≡ₚ (map_to_list cache).*2) as Hp2 by by rw Hp.
  assert (forallb wf_node es.*2 = true) as Hwf.
  { apply forallb_forall. intros n Hn%list_elem_of_In. rw Hp in Hn. apply list_elem_of_fmap in Hn as ([k ?] & -> & Hk%elem_of_map_to_list).
    exact (proj2 (Hc _ _ Hk)). }
  apply twp_tbind, twp_atom. intros s Hv. injection Hv as Hi _. apply wp_gset_var. rw view_eq. cbn [set_gl ext gl set_nodeCache nodeCache]. rw Hi.
  apply twp_tbind, twp_atom. intros s1 Hv1. injection Hv1 as Hi1 Hc1.
  eapply wp_mono; [exact (dataRemoveNodes_law inv_of es.*2 s1 Hwf)| |done]. intros _ s2 (G2 & _ & I2 & R2). cbn.
  rw Hi1 in I2, R2. destruct (in_step_clear L cnt inv (inv_of (ext s2)) cache es.*2 Hs Hp2 I2) as (L' & HL' & H1 & H2).
  exists L'. rw view_eq G2 Hc1. cbn. split_and!; [set_solver|done|]. intros Ha Hd. rw -(Hr Ha Hd). by apply H2, R2.
Qed.
(** ** Calm runs *)

(** The clears in flight. *)
Definition clears (rs : list (string * thread ResponseWriter)) : list (string * thread ResponseWriter) :=
  filter (fun rq => rq.1 = clear_path) rs.

(** At most one clear is in flight, and none while a turn is on. *)
Definition calm (sy : tsystem) : Prop :=
  (length (clears (t_reqs sy)) <= 1)%nat /\ forall t, t_main sy = InTurn t -> clears (t_reqs sy) = [].

Definition calm_step (sy sy' : tsystem) : Prop := tstep km sy sy' /\ calm sy'.

(** What the inventory and the cache are on the way to. *)
Definition heading (inv0 : inventory) (p : main_phase) (cl : list (string * thread ResponseWriter)) (v : view) : Prop :=
  match p, cl with
  | InTurn t, [] => twp t (good inv0) (fun _ => True) v
  | Idle cnt, [] => good inv0 cnt v
  | Idle cnt, [rq] => twp rq.2 (fun _ => good inv0 cnt) (good inv0 cnt) v
  | _, _ => False
  end.

Definition still_ok (rq : string * thread ResponseWriter) : Prop :=
  rq.1 <> clear_path -> still (fun _ => False) any rq.2.

Definition calm_inv (inv0 : inventory) (sy : tsystem) : Prop :=
  Forall still_ok (t_reqs sy) /\ heading inv0 (t_main sy) (clears (t_reqs sy)) (view_of (t_st sy)).

Lemma kept_view {A} (p : Prog A) s a s' : keeps inv_of p -> p s = Ret a s' -> view_of s' = view_of s.
Proof. intros Hk Hr. exact (view_undisturbed _ _ _ (wp_of_run _ _ _ _ _ _ (Hk s) Hr)). Qed.

Lemma clears_app rs1 rs2 : clears (rs1 ++ rs2)%list = (clears rs1 ++ clears rs2)%list.
Proof. apply filter_app. Qed.

Lemma clears_one rs1 t rs2 : clears (rs1 ++ (clear_path, t) :: rs2)%list = (clears rs1 ++ (clear_path, t) :: clears rs2)%list.
Proof. by rw clears_app /clears filter_cons_True. Qed.

Lemma clears_none rs1 path t rs2 : path <> clear_path -> clears (rs1 ++ (path, t) :: rs2)%list = clears (rs1 ++ rs2)%list.
Proof. intros Hp. by rw !clears_app /clears filter_cons_False. Qed.

(** A clear in flight is the only one, and the main loop sleeps. *)
Lemma calm_one s p rs1 t rs2 c m g :
  calm (mkT s p (rs1 ++ (clear_path, t) :: rs2)%list c m g) ->
  clears rs1 = [] /\ clears rs2 = [] /\ exists cnt, p = Idle cnt.
Proof.
  intros [Hl Hm]. cbn [t_reqs t_main] in *. rw clears_one in Hl, Hm. rw length_app /= in Hl.
  split_and!; [apply nil_length_inv; lia..|]. destruct p as [t'|cnt]; [|eauto].
  specialize (Hm t' eq_refl). by destruct (clears rs1).
Qed.

(** A step of a request. *)
Lemma request_view s p rs1 path f rs2 c m g inv0 :
  calm (mkT s p (rs1 ++ (path, TStep f) :: rs2)%list c m g) -> calm_inv inv0 (mkT s p (rs1 ++ (path, TStep f) :: rs2)%list c m g) ->
  match f s with
  | Ret t s' => calm_inv inv0 (mkT s' p (rs1 ++ (path, t) :: rs2)%list c m g)
  | Panic _ s' => calm_inv inv0 (mkT s' p (rs1 ++ rs2)%list c m g)
  end.
Proof.
  intros Hcalm [Hr Hh]. apply Forall_middle in Hr as [Hf Hr]. rw /calm_inv. cbn [t_reqs t_main t_st] in *.
  destruct (decide (path = clear_path)) as [->|Hp].
  - destruct (calm_one _ _ _ _ _ _ _ _ Hcalm) as (H1 & H2 & cnt & ->).
    rw clears_one H1 H2 in Hh. cbn in Hh. specialize (Hh s eq_refl). destruct (f s) as [t s'|e s'].
    + split; [by apply Forall_middle; split; [intros []|]|]. rw clears_one H1 H2. exact Hh.
    + split; [done|]. rw clears_app H1 H2. exact Hh.
  - rw clears_none // in Hh. destruct (follows_inv _ _ _ _ s (Hf Hp)) as [HR Hk].
    destruct (f s) as [t s'|e s'] eqn:Hfs; cbn in HR; rw (view_undisturbed _ _ _ HR).
    + split; [apply Forall_middle; split; [intros _; exact (Hk t s' eq_refl)|done]|]. by rw clears_none.
    + done.
Qed.

(** The two tables agree on which thread clears. *)
Lemma clear_thread th : (clear_path, th) ∈ routes_t km -> th = doClearData_t.
Proof. rw /routes_t !elem_of_cons elem_of_nil. intros Hin. destruct_or! Hin; try done. by injection Hin. Qed.

Lemma calm_inv_step inv0 sy sy' : calm sy -> calm_inv inv0 sy -> calm_step sy sy' -> calm_inv inv0 sy'.
Proof.
  intros Hcalm Hinv [[_ Hstep] Hcalm']. pose proof Hinv as [Hr Hh].
  destruct Hstep as [s cnt rs c m g|s f t s' rs c m g Hf|s n t rs c m g Hroom|s cnt rs c m g| |s p rs c m m' s' g Hb|s p rs c m s' g Hb
    |s p rs c m pids s' g Hb|s p rs c m pid s' g Hb|s p rs c m path th r g Hin Hg|s p rs1 path f rs2 t s' c m g Hf
    |s p rs1 path f rs2 e s' c m g Hf|s p rs1 path w rs2 c m g|s p rs c m s' Hb| |]; try exact Hinv;
    cbn [t_reqs t_main t_st] in *.
  - split; [done|]. pose proof (proj2 Hcalm' _ eq_refl) as Hm. cbn [t_reqs t_main t_st] in Hm, Hh |- *. rw Hm in Hh |- *. exact (twp_turn inv0 cnt _ Hh).
  - split; [done|]. pose proof (proj2 Hcalm _ eq_refl) as Hm. cbn [t_reqs t_main t_st] in Hm, Hh |- *. rw Hm in Hh |- *.
    specialize (Hh s eq_refl). by rw Hf in Hh.
  - split; [done|]. pose proof (proj2 Hcalm _ eq_refl) as Hm. cbn [t_reqs t_main t_st] in Hm, Hh |- *. by rw Hm in Hh |- *.
  - split; [done|]. cbn [t_st]. by rw (kept_view _ _ _ _ (keeps_credsTimeout inv_of m) Hb).
  - split; [done|]. cbn [t_st]. by rw (kept_view _ _ _ _ (keeps_heartbeat inv_of) Hb).
  - split; [done|]. cbn [t_st]. by rw (kept_view _ _ _ _ (keeps_zombies inv_of) Hb).
  - split; [done|]. cbn [t_st]. by rw (kept_view _ _ _ _ (keeps_reap inv_of pid) Hb).
  - split; cbn [t_reqs t_main t_st].
    { apply Forall_app. split; [done|]. constructor; [|by constructor]. intros Hp. by apply (still_request path). }
    destruct (decide (path = clear_path)) as [->|Hp].
    + destruct (calm_one _ _ _ _ [] _ _ _ Hcalm') as (H1 & _ & cnt & ->).
      rw clears_one. rw H1 in Hh |- *. cbn. rw (clear_thread th Hin). by apply twp_clear.
    + by rw clears_none // app_nil_r.
  - pose proof (request_view _ _ _ _ _ _ _ _ _ inv0 Hcalm Hinv) as H. by rw Hf in H.
  - pose proof (request_view _ _ _ _ _ _ _ _ _ inv0 Hcalm Hinv) as H. by rw Hf in H.
  - apply Forall_middle in Hr as [_ Hr]. split; [done|]. cbn [t_reqs t_main t_st].
    destruct (decide (path = clear_path)) as [->|Hp].
    + destruct (calm_one _ _ _ _ _ _ _ _ Hcalm) as (H1 & H2 & cnt & ->).
      rw clears_one H1 H2 in Hh. by rw clears_app H1 H2.
    + by rw clears_none // in Hh.
  - split; [done|]. cbn [t_st]. by rw (kept_view main_signal _ _ _ (keeps_gset inv_of _ (fun _ => eq_refl)) Hb).
Qed.

(** C1: the inventory over interleaved runs. From the start of the operator,
    over every interleaving of its goroutines and of API requests, one access or
    operation at a time, in which no clear of all data overlaps a turn of the
    main loop or another clear, however HSM, Kubernetes, Vault, SCSD and SLS
    answer: whenever the main loop sleeps and no clear is in flight, every node
    in the inventory of console-data is in the cache or is an orphan; unless the
    next update is a forced one, every cached node is in the inventory; and as
    long as console-data carries out exactly the requests it accepts and accepts
    the removals, the only orphans are the nodes it already held when the
    operator started. *)
Theorem calm_runs_in_step debugFlag env sy0 sy cnt :
  t_init km debugFlag env sy0 -> rtc calm_step sy0 sy -> t_main sy = Idle cnt -> clears (t_reqs sy) = [] ->
  exists L, dom (inv_of (ext (t_st sy0))) ⊆ L
    /\ (forall k, is_Some (inv_of (ext (t_st sy)) !! k) -> is_Some (nodeCache (gl (t_st sy)) !! k) \/ k ∈ L)
    /\ (cnt <> 0 -> forall k, is_Some (nodeCache (gl (t_st sy)) !! k) -> is_Some (inv_of (ext (t_st sy)) !! k))
    /\ (atomic_put inv_of -> reliable_delete -> L = dom (inv_of (ext (t_st sy0)))).
Proof.
  intros Hinit Hrun Hidle Hnone. set (inv0 := inv_of (ext (t_st sy0))).
  assert (calm sy0 /\ calm_inv inv0 sy0) as [Hc0 H0].
  { destruct Hinit as (s & s' & Hg & Hr & ->). destruct (main_init_vars km debugFlag env s s' Hg Hr) as (_ & Hempty & _).
    split; [by split; [cbn; lia|]|]. split; [by constructor|]. exists (dom inv0). split_and!; [done| |done].
    exact (synced_initial inv_of s' Hempty). }
  assert (calm_inv inv0 sy) as [_ Hh].
  { clear Hinit Hidle Hnone. revert Hc0 H0. generalize inv0 as i0. clear inv0. intros i0.
    induction Hrun as [|sy1 sy2 sy3 Hs _ IH]; [done|]. intros Hc Hi. apply IH; [exact (proj2 Hs)|].
    exact (calm_inv_step _ _ _ Hc Hi Hs). }
  rw Hidle Hnone in Hh. destruct Hh as (L & HL & (_ & H1 & H2) & H3). by exists L.
Qed.
End calm.

(** ** A witness *)

(** A calm run from the start of the operator, with a node already in
    console-data: the first turn, which finds another one. *)
Definition ex_c0 : @tsystem (cd_world ex_rf ex_sc) := mkT ex_st0 (Idle 0) [] [] ∅ Serving.

Lemma first_turn {WD : World} km s cnt sent s' :
  watchHardware_turn DataManager_service (NewNodeManager (k8 km)) 0 s = Ret (cnt, sent) s' ->
  exists c m, rtc (calm_step km) (mkT s (Idle 0) [] [] ∅ Serving) (mkT s' (Idle cnt) [] c m Serving).
Proof.
  rw -turn_alone. intros Hr. destruct (turn_rtc km [] _ _ _ _ _ [] ∅ Hr) as (c & m & Hrun). exists c, m.
  assert (forall sy sy', tstep km sy sy' -> t_reqs sy' = [] -> calm_step km sy sy') as Hcalm.
  { intros sy sy' Hs Hn. split; [done|]. rw /calm Hn. split; [cbn; lia|done]. }
  eapply rtc_l; [apply Hcalm; [split; [done|apply t_start]|done]|].
  etrans; [apply (rtc_subrel (beside km []) (calm_step km)); [|exact Hrun]; intros sy sy' [Hs Hn]; by apply Hcalm|].
  apply rtc_once, Hcalm; [|done]. split; [done|apply t_end].
Qed.

Lemma calm_runs_in_step_witness :
  exists sy cnt, rtc (calm_step k8_ok) ex_c0 sy /\ t_main sy = Idle cnt
    /\ is_Some (nodeCache (gl (t_st sy)) !! nc_NodeName found_node)
    /\ exists L, dom (@cd_inv ex_rf ex_sc (ext (t_st ex_c0))) ⊆ L
      /\ (forall k, is_Some (@cd_inv ex_rf ex_sc (ext (t_st sy)) !! k) -> is_Some (nodeCache (gl (t_st sy)) !! k) \/ k ∈ L)
      /\ (cnt <> 0 -> forall k, is_Some (nodeCache (gl (t_st sy)) !! k) -> is_Some (@cd_inv ex_rf ex_sc (ext (t_st sy)) !! k))
      /\ (atomic_put (@cd_inv ex_rf ex_sc) -> @reliable_delete (cd_world ex_rf ex_sc) ->
            L = dom (@cd_inv ex_rf ex_sc (ext (t_st ex_c0)))).
Proof.
  destruct (ret_run (fun s => match nodeCache (gl s) !! nc_NodeName found_node with Some _ => true | None => false end)
    (watchHardware_turn DataManager_service (NewNodeManager (k8 k8_ok)) 0 ex_st0)) as ([cnt sent] & s' & Hr & Hk); [by vm_compute|].
  destruct (first_turn k8_ok ex_st0 cnt sent s' Hr) as (c & m & Hrun).
  exists (mkT s' (Idle cnt) [] c m Serving), cnt. split; [exact Hrun|]. split; [reflexivity|]. split.
  { cbn [t_st]. clear -Hk. destruct (nodeCache (gl s') !! nc_NodeName found_node); [eauto|discriminate]. }
  apply (calm_runs_in_step (@cd_inv ex_rf ex_sc) k8_ok false ex_env ex_c0 (mkT s' (Idle cnt) [] c m Serving) cnt);
    [|exact Hrun|reflexivity|reflexivity].
  exists (@mkSt (cd_world ex_rf ex_sc) init_globals empty_FS ex_cache []). eexists. split; [reflexivity|]. split; reflexivity.
Defined.
